(* ===== verification/_CoqProject ===== *)
-Q . S2P
Prelude.v
QmFormat.v
Translator.v
Releaser.v
LoadQM.v
RoundTrip.v
SaveQM.v
QtCore.v
FormatRegistry.v
MarkupVisitor.v
RunQtTool.v
SignalSlotModel.v
SignalSlotWindow.v
BuddyEditor.v
ToolBar.v
QmlPropertyNode.v
PropertySheet.v
WidgetBox.v
TranslationSettings.v
CellEditing.v
