(* ===== verification/Prelude.v ===== *)
(** * A verification library for the QM codec of Qt Linguist and its companions

    This development models, in Rocq, the parts of the qttools sources that
    carry algorithmic content and proves the properties that make them
    correct.  Everything is a shallow embedding: every C++ function is a
    Rocq function over explicit data, every mutable object is an explicit
    state record threaded through the operations, and every failure of the
    C++ code (an error return, a read outside the buffer, a division by
    zero, a loop that never ends) is a value of the model.

    ** The program and its parts

    The heart of the repository's algorithmic code is the compiled
    translation catalog codec, [src/src/linguist/shared/qm.cpp].  It has
    two halves that share one wire format.
    - The writer, class [Releaser] with its driver [saveQM], collects
      translation records in an ordered map keyed by (context, source
      text, comment), drops comments that are not needed to tell records
      apart, and serialises the records ([squeeze], [writeMessage]) with a
      hash index (the [Hashes] block), the records themselves (the
      [Messages] block, where a record omits the fields it shares with its
      neighbours) and, in stripped mode, a hash table of context names
      (the [Contexts] block).  [save] then writes the tagged blocks.
    - The reader, [loadQM], checks the magic number, walks the top-level
      blocks, and decodes one record per entry of the hash index, in index
      order, inheriting omitted fields from the previously decoded record.
    - [initQM] registers the two halves as the [qm] format in
      Translator's table of file formats, through which
      [Translator::load] and [Translator::save] reach them by extension.

    The other modelled parts are the QML mark-up visitor of qdoc
    ([src/src/qdoc/qmlmarkupvisitor.cpp]), a cursor-driven state machine
    that walks a QQmlJS syntax tree and interleaves source text, comments
    and pragmas into marked-up output, and the command line that
    [src/src/linguist/shared/runqttool.cpp] hands to [std::system].

    Designer's signal/slot editor window
    ([src/src/designer/src/components/signalsloteditor/signalsloteditorwindow.cpp])
    is modelled as the model/view protocol it implements: the
    [ConnectionModel] item model shows the connections of the form's
    connection editor as a four-column table and is told of every
    insertion and removal through the editor's signals; the
    [ConnectionDelegate] opens an [InlineEditor] combo box on a cell,
    filled with object names or with member signatures under class
    titles; and [SignalSlotEditorWindow] keeps the selection of the table
    and of the editor in step through two slots that call each other
    through signals, cut by the flag [m_handling_selection_change].

    Designer's buddy editor
    ([src/src/designer/src/components/buddyeditor/buddyeditor.cpp]) is
    the connection editor whose connections go from a label to the
    widget its [buddy] property names: it derives the connections from
    the properties ([updateBackground], [setBackground]), and turns the
    user's edits ([endConnection], [deleteSelected], [widgetRemoved],
    [autoBuddy] with its geometric search [findBuddy]) into undoable
    property commands.

    Designer's tool bar event filter
    ([src/src/designer/src/lib/shared/qdesigner_toolbar.cpp]) turns what
    happens on a tool bar of the edited form into undoable commands on
    its action list: the context menu (insert a separator before an
    action, append one, remove an action, remove the tool bar), a press
    and a move that start a drag of an action ([startDrag], which puts a
    moved action back when nobody takes the drop), and the drag events
    and drops of actions dragged onto it.

    Qdoc's [QmlPropertyNode] ([src/src/qdoc/qmlpropertynode.cpp]) answers
    whether a documented QML property is writable or required by finding
    the C++ [Q_PROPERTY] behind it ([findCorrespondingCppProperty]),
    through the nearest QML type's C++ class and, for a dotted name, the
    class of the group's property.

    Designer's layout widget property sheet
    ([src/src/designer/src/components/formeditor/qlayoutwidget_propertysheet.cpp])
    is a [QDesignerPropertySheet] that shows only the [Layout] group,
    forbids dynamic properties and clears the fake properties when it is
    built; the property editor calls it through the extension interface
    [QDesignerPropertySheetExtension].  The designer SDK headers
    [abstractwidgetbox.h] and [taskmenu.h] declare the widget box
    interface with its value classes [Widget] and [Category], and the
    task menu extension.  Linguist's translation settings dialog
    ([src/src/linguist/linguist/translationsettingsdialog.cpp]) loads the
    languages and countries of a phrase book or of a translation file
    into four combo boxes when shown, refills a country combo whenever
    its language changes, and writes the four choices back on OK.

    ** Files, in dependency order

    - [Prelude] (this file): the [qm_scope] notations, the hint database
      [qm], the development's tactics and the generic lemmas on byte
      lists, big-endian integers, 32-bit wrap-around and lists.
    - [QmFormat]: the wire format of qm.cpp: the magic number, the [Tag] and
      [Prefix] enumerations, the block tags, [elfHash], [read8] and
      [read32], and the QDataStream encodings the writer uses.
    - [Translator]: the collaborators the codec calls but that are not in
      qm.cpp ([TranslatorMessage], [Translator], [ConversionData], the
      UTF-8 codec and the plural-form tables), stated as records and type
      classes ([Utf8Codec], [NumerusInfo]); the theorems of the codec are
      proved against these interfaces.
    - [Releaser]: the writer ([ByteTranslatorMessage], its order, the
      ordered map, [insert], [insertIdBased], [commonPrefix], [msgHash],
      [writeMessage], [squeeze] with its context hash table, [save]).
    - [LoadQM]: the reader ([loadQM]): the block walk and the record loop
      with fuel, the outcomes [OutOfBounds] and [Diverges].
    - [RoundTrip]: what the reader gives back from what the writer wrote.
    - [SaveQM]: the driver [saveQM], its message filter and counters.
    - [QtCore]: the Qt library pieces the GUI components share, from
      Qt's documentation: Latin-1 literals, [QString::trimmed], the order
      of [QString::operator<] (with its [Total], [Transitive] and
      [AntiSymm] instances), [QStringList::sort] as stdpp's merge sort,
      [QMap<QString, T>] as a key-ordered list, and the enumerations
      [Qt::Orientation] and [Qt::LayoutDirection].
    - [FormatRegistry]: Translator's [FileFormat] table (in translator.cpp,
      not in the repository, modelled from its documented behaviour:
      [registerFileFormat] keeps it ordered by priority within a file
      type, [Translator::load] and [save] take the first format of the
      extension) and [initQM], which registers [loadQM] and [saveQM].
    - [MarkupVisitor]: the visitor's state record [Visitor], its
      constructor [newVisitor] (the merge of comments and pragmas),
      [protect], [addExtra], [addMarkedUpToken], [addVerbatim],
      [markedUpCode], one [visit_*] definition per visit/endVisit function,
      and [accept], the dispatch of [Node::accept] over the syntax tree
      [Node] (an inductive with the QQmlJS node kinds the visitor handles).
    - [RunQtTool]: [shellQuoted], [commandLineForSystem], [runQtTool] and
      the exit status, with [std::system] and [QDir::cleanPath] as Section
      variables.
    - [SignalSlotModel]: the form's objects and [objectNameList]; the
      connection editor (not in the repository) as the record [Editor]
      (connections with identities, the selection); every member of
      [ConnectionModel] ([index], [data], [setData], [connectionChanged],
      the four slots of the row protocol, [setEditor], ...); the view's
      side of [beginInsertRows]/[endInsertRows] and
      [beginRemoveRows]/[endRemoveRows] as [View], [None] being a failed
      Qt assertion; the editor with its view as [Sys] and its operations
      as the step relation [sys_step]; the abstract table [table_spec]
      the model refines.
    - [SignalSlotWindow]: [InlineEditorModel] and [InlineEditor] (rows,
      [m_idx] and the combo box's current row), [createEditor] with the
      meta-database query [reverseClassesMemberFunctions] as a Section
      variable, and the window: its state [Window], [updateUi],
      [updateEditorSelection] and [updateDialogSelection] (one mutual
      fixpoint with fuel), [addConnection], [removeConnection],
      [setActiveFormWindow], the constructor's state [newWindow], the
      user's events [view_setCurrent] and
      [editor_select], with the proxy model's [mapToSource] and
      [mapFromSource] as Section variables, and the step relation
      [window_step] of everything that happens to the window.
    - [BuddyEditor]: the form as a widget tree [WTree] (with
      [findChildren] as [descendants] and [findChild]), the editor
      [BEditor] (connections with identities, selection, undo stack, the
      [ConnectionEdit] primitives and undo commands of the base class,
      modelled from their behaviour), and every member of [BuddyEditor]
      with [QWidget::childAt] as a Section variable of [findBuddy].
    - [ToolBar]: actions with identities, [QWidget::insertAction] and
      [removeAction], the tool bar commands with [redo] and [undo] and the
      form's command history ([fw_push], [fw_undo]), the filter's state
      [Filter] ([m_startPosition], the drag indicator), and every handler
      of [ToolBarEventFilter] with [eventFilter] dispatching them;
      [actionIndexAt], the style's handle rectangle, [actionGeometry],
      [startDragDistance] and [ensureUniqueObjectName] are Section
      variables, the drag's own events a list the handler is given.
    - [QmlPropertyNode]: the node's fields, the parent chain up to the
      nearest QML type, and [findCorrespondingCppProperty], [isWritable]
      (with its warnings as a list) and [isRequired]; qdoc's database
      ([findPropertyNode], [findClassNode]) is a Section variable, and an
      inductive [corresponds] states what the comments promise.
    - [PropertySheet]: the extension interface as the class
      [PropertySheet] with the laws [PropertySheetLaws]; the base
      [QDesignerPropertySheet] ([DesignerSheet]) and the layout sheet
      ([LayoutSheet], delegating to its base as the C++ subclass does)
      as instances; the property editor ([apply_op], [shownProperties])
      as a client written against the class.
    - [WidgetBox]: [Widget] and [Category] as records with their inline
      members, [QDesignerWidgetBoxInterface] as the class
      [WidgetBoxInterface] with its contract [WidgetBoxLaws], the client
      [findOrInsertCategory] proved against the class in a Section, a
      list-backed box as an instance, and the task menu extension.
    - [TranslationSettings]: [QComboBox] (items with data, the current
      index, [findData], a stable sort that keeps the current item), the
      dialog's state [Dialog], and the constructor, [fillCountryCombo],
      the two language slots, [setDataModel], [setPhraseBook],
      [showEvent] and [on_buttonBox_accepted] in a Section whose
      variables are QLocale's tables; [dialog_step] is what the user
      does.
    - [CellEditing]: an in-place edit of a cell of the signal/slot
      table, joining [SignalSlotWindow] and [SignalSlotModel]: the editor
      [createEditor] builds, [QItemDelegate::setEditorData] through the
      editor's user property [text], the row the user activates
      ([checkSelection] runs before [emitCommitData], in connection
      order), and [QItemDelegate::setModelData] through [setData]; the
      meta-object database is a pair of Section variables with the
      contract that the members it lists are the members it finds.
      The tool bar file also holds [ToolBarEventFilter::install], its
      constructor and [eventFilterOf] over the tool bar's children, and
      the buddy editor file [createContextMenu].

    ** What the theorems show

    - Wire format: [elfHash] is in [1, 2^28) and stops at a NUL byte;
      [read32] inverts the big-endian encoding.
    - Writer: [insert] keeps the record map strictly sorted by the key
      order (context, source text, comment as unsigned byte strings,
      [key_lt], which [ByteTranslatorMessage::operator<] is proved to
      be) and adds exactly the key its comment-dropping rule chooses
      ([inserted_key]); the context
      table fails (a division by zero) exactly when its [quint16] size
      wraps to 0, which 43691 contexts do; without hash collisions the
      stripped message array equals the full one.
    - Reader: bad magic, truncated blocks, odd lengths and the length
      sentinel, each with the exact result; the result does not depend on
      the host byte order; a crafted record makes the loop run forever,
      and in any record the UTF-8 failure flag is the last text field's
      alone, so an earlier invalid field is forgotten (findings).
    - Round trip ([RoundTrip.save_load_roundtrip]): a catalog squeezed and
      saved in [SaveEverything] mode loads back with its language,
      dependencies and one message per record, up to the permutation the
      hash index imposes; in stripped mode a hash collision loses a comment.
    - Driver: obsolete messages are skipped, every kept message is counted
      once and is represented in the record map, id-based keys are empty.
    - Mark-up visitor: the output of [markedUpCode] after [accept] reads
      back, tags dropped and entities decoded ([unmark]), as exactly the
      source, for every tree whose tokens lie in the 32-bit range and
      every list of comments and pragmas none of which runs across the
      start of a token; the proof is one induction with the
      nested induction principle [Node_ind] that [Scheme All] provides for
      the list and option children.  [protect] is undone by [unmark] and
      emits no tag character.  The constructor gives a pragma a comment's
      location, and reads past the comment list (findings).
    - Shell: arguments without double quotes are split back by the shell
      as given; an empty argument is lost, an embedded quote makes two
      argument lists collide, and a tool killed by a signal counts as
      successful (findings).
    - Connection model: the model shows the table [table_spec] (one row per
      connection, the four ends or their placeholders, [VInvalid] outside
      the rows) and [data] only yields strings for the display and edit
      roles; along every sequence of [sys_step] (rule induction over
      [rtc]) the view stays up to date and in every state reached the
      editor's insertions and removals pass the row-protocol assertions
      (a safety property: no step is lost to a failed assertion), while a
      removal of an unknown connection does; [connectionChanged] warns
      exactly for duplicate connections; [index] ignores the column and
      [setData] silently clears an unknown object name (findings);
      [objectNameList] is sorted and holds exactly the eligible names.
    - Window: [setText] selects the first non-title row with the text or
      falls back to row 0; an editor [createEditor] opened never rests on
      a class title, whatever the user activates ([ie_step]); the two
      selection slots always return with fuel 2 and restore the guard;
      selecting on the form makes the view show that connection, and
      clicking a row selects its connection; along every sequence of
      [window_step] the window stays in step with its editor and the add
      and remove buttons never fail.
    - Buddy editor: [updateBackground] makes the connections exactly the
      pairs the [buddy] properties name (a refinement of the editor's
      state by the form's properties) and is idempotent; a buddy drawn
      with [endConnection] survives the refresh; [deleteSelected] and
      [widgetRemoved] remove exactly what they should and push the resets;
      [autoBuddy] proposes only sound, distinct buddies; [findBuddy]'s
      walks end and probe only inside the parent.  The proofs over the
      widget tree use the nested induction principle [WTree_ind] that
      [Scheme All for list] provides.
    - Tool bar: along every sequence of events ([filter_step]) the actions
      on the tool bar stay distinct; undoing a removal chosen from the
      menu, or an inserted separator, restores the filter; a move drag
      nobody accepts leaves the tool bar as it was; a drop on an action
      inserts before it and a drop of a present action or outside the
      free area is ignored; a press on an action and a long enough move
      start a drag that takes the action off, while a press at the tool
      bar's point (0, 0) never does, and "Insert Separator before" can
      put two separators side by side (findings); [install] on a tool
      bar without a filter makes the new filter the one [eventFilterOf]
      finds and the first one events go through, but installing twice
      adds a second filter (finding).
    - Format table: every sequence of registrations leaves the table a
      permutation of the formats, ordered by priority within each file
      type; after [initQM], [load] and [save] with [qm] reach [loadQM]
      and [saveQM] and other extensions are unaffected, so a file written
      and read back through the table is [saveQM] followed by [loadQM].
    - Cell editing: whatever object or listed member the user picks in
      the editor the delegate builds for a cell, the commit stores
      exactly that text in the connection: the rows the delegate offers
      are values [setData] accepts.
    - QML property node: [findCorrespondingCppProperty] returns what its
      comments promise ([corresponds]) except when a group's type is not
      a class of the database, where the promised fallback to the group's
      property is lost (finding); [isWritable] is false exactly for the
      read-only flag or a read-only C++ property.
    - Property sheets: the layout sheet shows exactly the base sheet's
      visible [Layout] properties; along every sequence of the editor's
      calls it forbids dynamic properties, shows nothing outside
      [Layout], and its base is the base sheet the same calls give
      (a refinement of [QDesignerPropertySheet]).
    - Widget box: against any implementation that keeps the contract,
      [findOrInsertCategory] returns the first category of the name or
      appends one at the old count, and asking again finds the same.
    - Translation settings: along every sequence of the user's actions
      the country combos hold the countries of their language and the
      current rows are valid; showing the dialog and pressing OK writes
      back exactly the object's settings when its languages are known,
      and replaces an unknown language by POSIX (finding).

    ** Not modelled

    The recursion-depth guard of [Node::accept] (the visitor only records
    it, [throwRecursionDepthError]); the Windows branch of [runQtTool];
    file and process I/O ([QFile], [printErr]); the GUI components
    above; in the signal/slot window, widget construction and layout
    ([resizeColumns], [scrollTo]), [setForm] and the item editor
    factory, the commits [QItemDelegate] makes on focus loss or Enter
    (the model commits on activation, through [emitCommitData]), the
    sorting proxy between view and model (a one-to-one row map passing
    [data] and [setData] through), [objectNameChanged] (it only re-emits
    [dataChanged]) and the selection model's own move of the current
    index when rows are removed, which the window's state does not track;
    in the buddy editor, [ConnectionEdit]'s own menu entries, the drawing of connections and
    any refresh Qt's change notifications trigger when a property command
    runs (the commands are modelled as the property change alone); in the
    tool bar filter, the attributes set on added children, the promotion
    task menu's own entries (one opaque menu entry), the drag pixmap and
    the selection and property-editor updates a press makes, which belong
    to other components; in qdoc's property node, the database and the
    warnings' source locations; [QDesignerPropertySheet] and the widget
    box implementation, which are outside the repository and are
    instances of the interfaces modelled from their documented
    behaviour; the declarations of [qmlcodemarker.h], whose definitions
    are not in the repository; Translator's other formats (only their
    table entries); QLocale's tables (Section variables of
    the dialog) and the dialog's widgets beyond the four combo boxes.

    ** Bounds and fuel

    Integers are kept at the width the code gives them: [uint] and
    [quint32] values are [Z] reduced modulo 2^32 where the code can wrap,
    [quint16] modulo 2^16, [int] lengths are read as signed.  Loops of the
    reader carry fuel; the fuel is the length of the input buffer, which
    bounds the number of iterations of every loop that advances through
    it, and the theorems that say a loop returns prove that this fuel is
    enough.  Reading outside the input buffer is a value of the model
    (the C++ code has undefined behaviour there).  The mark-up visitor's
    walk is structural recursion over the syntax tree and needs no fuel;
    its cursor and token positions are [quint32] values with their
    wrap-around, and the lossless theorem assumes the source shorter than
    2^32 code units and each token's end below 2^32, which rules the wrap
    out.  The window's selection slots are one mutual fixpoint with fuel:
    each slot that raises [m_handling_selection_change] reaches the other
    at most once, which returns at once, so fuel 2 is enough
    ([selection_slots_terminate] shows more fuel changes nothing).  The
    buddy editor's walks carry fuel [right_fuel] and [left_fuel], the
    distance to the end of the loop, which [findBuddy_scans_terminate]
    shows is enough; [widgetAt]'s climb to a managed ancestor carries the
    number of widgets of the form, the height of the tree bounding it.
*)

From stdpp Require Export base list.
From Stdlib Require Export ZArith Lia.

Declare Scope qm_scope.
Delimit Scope qm_scope with qm.
Open Scope Z_scope.

(** Byte arrays ([QByteArray], [uchar *] buffers) are lists of integers
    in [0, 256). *)
Abbreviation bytes := (list Z).

(** A [QString] is its sequence of UTF-16 code units. *)
Abbreviation QString := (list Z).

Create HintDb qm.
Create Rewrite HintDb qm.

(** ** Integer widths *)

Definition wrap32 (n : Z) : Z := n mod 2 ^ 32.
Definition wrap16 (n : Z) : Z := n mod 2 ^ 16.

Definition is_byte (b : Z) : Prop := 0 <= b < 256.
Definition all_bytes (l : bytes) : Prop := Forall is_byte l.

Lemma wrap32_range n : 0 <= wrap32 n < 2 ^ 32.
Proof. unfold wrap32. apply Z.mod_pos_bound. lia. Qed.

Lemma wrap32_small n : 0 <= n < 2 ^ 32 -> wrap32 n = n.
Proof. intros. unfold wrap32. apply Z.mod_small. lia. Qed.

Lemma wrap16_range n : 0 <= wrap16 n < 2 ^ 16.
Proof. unfold wrap16. apply Z.mod_pos_bound. lia. Qed.

Lemma wrap16_small n : 0 <= n < 2 ^ 16 -> wrap16 n = n.
Proof. intros. unfold wrap16. apply Z.mod_small. lia. Qed.

#[export] Hint Resolve wrap32_range wrap16_range : qm.
#[export] Hint Rewrite wrap32_small wrap16_small using lia : qm.

(** A shifted value and a smaller one have disjoint bits: [|] is [+]. *)
Lemma lor_shiftl_small a b k : 0 <= k -> 0 <= b < 2 ^ k ->
  Z.lor (Z.shiftl a k) b = a * 2 ^ k + b.
Proof.
  intros Hk Hb.
  assert (Z.land (Z.shiftl a k) b = 0) as H0.
  { apply Z.bits_inj'; intros n Hn. rewrite Z.land_spec, Z.bits_0, Z.shiftl_spec by lia.
    destruct (Z.ltb_spec n k).
    - rewrite Z.testbit_neg_r by lia. reflexivity.
    - rewrite <- (Z.mod_small b (2 ^ k)) by lia.
      rewrite Z.mod_pow2_bits_high by lia. apply andb_false_r. }
  pose proof (Z.add_lor_land (Z.shiftl a k) b) as E.
  rewrite H0 in E. rewrite (Z.shiftl_mul_pow2 a k) in E at 2 by lia. lia.
Qed.

Lemma land_255_mod a : Z.land a 255 = a mod 256.
Proof. change 255 with (Z.ones 8). rewrite Z.land_ones by lia. reflexivity. Qed.

Lemma shiftr_byte a k : 0 <= k -> Z.land (Z.shiftr a k) 255 = (a / 2 ^ k) mod 256.
Proof. intros. rewrite land_255_mod, Z.shiftr_div_pow2 by lia. reflexivity. Qed.

(** Splitting a value into its low 32 bits, byte by byte. *)
Lemma mod_pow2_split n k : 0 <= k ->
  n mod 2 ^ (k + 8) = ((n / 2 ^ k) mod 256) * 2 ^ k + n mod 2 ^ k.
Proof.
  intros Hk. rewrite Z.pow_add_r by lia. change (2 ^ 8) with 256.
  rewrite Z.rem_mul_r by lia. lia.
Qed.

Lemma mod_2pow32_bytes n :
  ((n / 2 ^ 24) mod 256) * 2 ^ 24 + ((n / 2 ^ 16) mod 256) * 2 ^ 16
  + ((n / 2 ^ 8) mod 256) * 2 ^ 8 + n mod 256 = n mod 2 ^ 32.
Proof.
  pose proof (mod_pow2_split n 24 ltac:(lia)) as E24.
  pose proof (mod_pow2_split n 16 ltac:(lia)) as E16.
  pose proof (mod_pow2_split n 8 ltac:(lia)) as E8.
  pose proof (mod_pow2_split n 0 ltac:(lia)) as E0.
  change (24 + 8) with 32 in E24. change (16 + 8) with 24 in E16.
  change (8 + 8) with 16 in E8. change (0 + 8) with 8 in E0.
  rewrite Z.pow_0_r, Z.div_1_r, Z.mod_1_r in E0. change (2 ^ 8) with 256 in *. lia.
Qed.

(** Four bytes assembled big-endian with shifts and [|]. *)
Lemma be32_value a b c d : 0 <= b < 256 -> 0 <= c < 256 -> 0 <= d < 256 ->
  Z.lor (Z.lor (Z.lor (Z.shiftl a 24) (Z.shiftl b 16)) (Z.shiftl c 8)) d =
  a * 2 ^ 24 + b * 2 ^ 16 + c * 2 ^ 8 + d.
Proof.
  intros Hb Hc Hd.
  replace (Z.shiftl a 24) with (Z.shiftl (Z.shiftl a 8) 16)
    by (rewrite Z.shiftl_shiftl; [reflexivity|lia]).
  rewrite <- Z.shiftl_lor.
  replace (Z.shiftl (Z.lor (Z.shiftl a 8) b) 16)
    with (Z.shiftl (Z.shiftl (Z.lor (Z.shiftl a 8) b) 8) 8)
    by (rewrite Z.shiftl_shiftl; [reflexivity|lia]).
  rewrite <- Z.shiftl_lor, !lor_shiftl_small by lia. lia.
Qed.

(** ** Reading a buffer at a position

    The C++ code reads through [const uchar *] pointers; a position is a
    [Z] offset from the start of the buffer, and a read outside the
    buffer is [None]. *)

Definition get8 (ba : bytes) (p : Z) : option Z :=
  if p <? 0 then None else ba !! Z.to_nat p.

Definition get_range (ba : bytes) (p n : Z) : option bytes :=
  if (p <? 0) || (n <? 0) || (Z.of_nat (length ba) <? p + n) then None
  else Some (take (Z.to_nat n) (drop (Z.to_nat p) ba)).

Lemma get8_app_r (pre l : bytes) (p : Z) :
  0 <= p -> get8 (pre ++ l) (Z.of_nat (length pre) + p) = get8 l p.
Proof.
  intros Hp. unfold get8.
  destruct (Z.ltb_spec (Z.of_nat (length pre) + p) 0); [lia|].
  destruct (Z.ltb_spec p 0); [lia|].
  rewrite Z2Nat.inj_add, Nat2Z.id by lia.
  rewrite lookup_app_r by lia. f_equal. lia.
Qed.

Lemma get8_app_l (l post : bytes) (p : Z) :
  p < Z.of_nat (length l) -> get8 (l ++ post) p = get8 l p.
Proof.
  intros Hp. unfold get8. destruct (Z.ltb_spec p 0); [done|].
  apply lookup_app_l. lia.
Qed.

Lemma get8_cons_0 (b : Z) (l : bytes) : get8 (b :: l) 0 = Some b.
Proof. reflexivity. Qed.

Lemma get8_cons_S (b : Z) (l : bytes) (p : Z) :
  0 <= p -> get8 (b :: l) (p + 1) = get8 l p.
Proof.
  intros Hp. unfold get8.
  destruct (Z.ltb_spec (p + 1) 0); [lia|]. destruct (Z.ltb_spec p 0); [lia|].
  rewrite Z2Nat.inj_add by lia. rewrite Nat.add_comm. reflexivity.
Qed.

Lemma get8_none_ge (l : bytes) (p : Z) : Z.of_nat (length l) <= p -> get8 l p = None.
Proof.
  intros Hp. unfold get8. destruct (Z.ltb_spec p 0); [done|].
  apply lookup_ge_None_2. lia.
Qed.

Lemma get_range_app (pre l post : bytes) :
  get_range (pre ++ l ++ post) (Z.of_nat (length pre)) (Z.of_nat (length l)) = Some l.
Proof.
  unfold get_range. rewrite !length_app.
  destruct (Z.ltb_spec (Z.of_nat (length pre)) 0); [lia|].
  destruct (Z.ltb_spec (Z.of_nat (length l)) 0); [lia|].
  destruct (Z.ltb_spec (Z.of_nat (length pre + (length l + length post)))
              (Z.of_nat (length pre) + Z.of_nat (length l))); [lia|].
  simpl. rewrite !Nat2Z.id, drop_app_length, take_app_length. reflexivity.
Qed.

#[export] Hint Rewrite get8_app_r get8_cons_S using lia : qm.
#[export] Hint Rewrite get_range_app : qm.

(** ** Lists *)

Lemma length_concat_map {A} (f : A -> bytes) (l : list A) :
  length (concat (map f l)) = sum_list_with (fun x => length (f x)) l.
Proof. induction l as [|x l IH]; simpl; [done|]. rewrite length_app, IH. done. Qed.

(** The development's tactics: [qm_simpl] normalises positions in byte
    lists; [qm_lia] closes arithmetic side conditions after unfolding the
    width helpers. *)
Ltac qm_simpl := autorewrite with qm in *; simpl in *.
Ltac qm_lia := unfold wrap32, wrap16, is_byte in *; lia.

(** Split every integer comparison of the goal, closing the branches whose
    hypotheses contradict each other. *)
Ltac zbool_cases :=
  repeat match goal with
    | |- context [?a <=? ?b] => destruct (Z.leb_spec a b); try (exfalso; lia)
    | |- context [?a <? ?b] => destruct (Z.ltb_spec a b); try (exfalso; lia)
    | |- context [?a =? ?b] => destruct (Z.eqb_spec a b); try (exfalso; lia)
    end; simpl.
