(* ===== verification/QmFormat.v ===== *)
(** The QM wire format shared by the writer and the reader of
    [src/src/linguist/shared/qm.cpp]: the magic number, the record field tags
    ([enum Tag]), the prefix levels ([enum Prefix]), the top-level block
    tags, the ELF hash ([elfHash]), the big-endian reads ([read8],
    [read32]), and the QDataStream encodings of integers, byte arrays and
    strings that the writer emits (QDataStream is big-endian by default). *)

From S2P Require Import Prelude.
From coqutil Require Import Z.bitblast.

(** ** Constants *)

Definition MagicLength : Z := 16.

Definition magic : bytes :=
  [0x3c; 0xb8; 0x64; 0x18; 0xca; 0xef; 0x9c; 0x95;
   0xcd; 0x21; 0x1c; 0xbf; 0x60; 0xa1; 0xbd; 0xdd].

(** The field tags of a message record, [enum Tag] of qm.cpp. *)
Inductive Tag :=
  | Tag_End | Tag_SourceText16 | Tag_Translation | Tag_Context16 | Tag_Obsolete1
  | Tag_SourceText | Tag_Context | Tag_Comment | Tag_Obsolete2.

Definition tag_value (t : Tag) : Z :=
  match t with
  | Tag_End => 1 | Tag_SourceText16 => 2 | Tag_Translation => 3 | Tag_Context16 => 4
  | Tag_Obsolete1 => 5 | Tag_SourceText => 6 | Tag_Context => 7 | Tag_Comment => 8
  | Tag_Obsolete2 => 9
  end.

(** The [switch (tag)] of the reader: a byte that is no enumerator is the
    [default] branch. *)
Definition tag_of_byte (b : Z) : option Tag :=
  match b with
  | 1 => Some Tag_End | 2 => Some Tag_SourceText16 | 3 => Some Tag_Translation
  | 4 => Some Tag_Context16 | 5 => Some Tag_Obsolete1 | 6 => Some Tag_SourceText
  | 7 => Some Tag_Context | 8 => Some Tag_Comment | 9 => Some Tag_Obsolete2
  | _ => None
  end.

(** How much of a record its neighbour shares, [enum Prefix] of qm.cpp. *)
Inductive Prefix :=
  | NoPrefix | Hash | HashContext | HashContextSourceText | HashContextSourceTextComment.

Definition prefix_value (p : Prefix) : Z :=
  match p with
  | NoPrefix => 0 | Hash => 1 | HashContext => 2 | HashContextSourceText => 3
  | HashContextSourceTextComment => 4
  end.

(** The cast [Prefix(n)] of an [int]: a value outside the enumerators is
    kept as [None], which the [switch] of [writeMessage] sends to its
    [default] label. *)
Definition prefix_of_int (n : Z) : option Prefix :=
  match n with
  | 0 => Some NoPrefix | 1 => Some Hash | 2 => Some HashContext
  | 3 => Some HashContextSourceText | 4 => Some HashContextSourceTextComment
  | _ => None
  end.

(** The top-level block tags, the anonymous [enum] of [Releaser] and of
    [loadQM]. *)
Inductive BlockTag := Contexts | Hashes | Messages | NumerusRules | Dependencies | Language.

Definition block_value (t : BlockTag) : Z :=
  match t with
  | Contexts => 0x2f | Hashes => 0x42 | Messages => 0x69 | NumerusRules => 0x88
  | Dependencies => 0x96 | Language => 0xa7
  end.

Definition block_of_byte (b : Z) : option BlockTag :=
  match b with
  | 0x2f => Some Contexts | 0x42 => Some Hashes | 0x69 => Some Messages
  | 0x88 => Some NumerusRules | 0x96 => Some Dependencies | 0xa7 => Some Language
  | _ => None
  end.

#[export] Instance Tag_eq_dec : EqDecision Tag.
Proof. solve_decision. Defined.
#[export] Instance Prefix_eq_dec : EqDecision Prefix.
Proof. solve_decision. Defined.
#[export] Instance BlockTag_eq_dec : EqDecision BlockTag.
Proof. solve_decision. Defined.

(** ** The ELF hash

    One iteration of the [while ( *k)] loop of [elfHash], on [uint]s:
    [h = (h << 4) + *k++; if ((g = (h & 0xf0000000)) != 0) h ^= g >> 24;
    h &= ~g;]. *)
Definition elf_step (h c : Z) : Z :=
  let h1 := wrap32 (wrap32 (Z.shiftl h 4) + c) in
  let g := Z.land h1 0xf0000000 in
  let h2 := if g =? 0 then h1 else Z.lxor h1 (Z.shiftr g 24) in
  Z.land h2 (Z.lxor g 0xffffffff).

(** The loop reads up to the first NUL byte; a [QByteArray]'s data is
    NUL-terminated, so the end of the list is a NUL too. *)
Fixpoint elf_loop (h : Z) (k : bytes) : Z :=
  match k with
  | [] => h
  | c :: k' => if c =? 0 then h else elf_loop (elf_step h c) k'
  end.

Definition elfHash (ba : bytes) : Z :=
  let h := elf_loop 0 ba in
  if h =? 0 then 1 else h.

(** ** Reads from the buffer *)

Definition read8 (data : bytes) (p : Z) : option Z := get8 data p.

(** [(data[0] << 24) | (data[1] << 16) | (data[2] << 8) | (data[3])],
    returned as a [quint32]. *)
Definition read32 (data : bytes) (p : Z) : option Z :=
  match get8 data p, get8 data (p + 1), get8 data (p + 2), get8 data (p + 3) with
  | Some d0, Some d1, Some d2, Some d3 =>
      Some (Z.lor (Z.lor (Z.lor (Z.shiftl d0 24) (Z.shiftl d1 16)) (Z.shiftl d2 8)) d3)
  | _, _, _, _ => None
  end.

(** ** QDataStream encodings (big-endian)

    A [QString] (see the prelude) that may be null ([QString()]) is an
    [option], [None] being the null string. *)
Abbreviation QStringN := (option (list Z)).

Definition put_u8 (v : Z) : bytes := [v mod 256].
Definition put_u16 (v : Z) : bytes := [(v / 256) mod 256; v mod 256].
Definition put_u32 (v : Z) : bytes :=
  [Z.land (Z.shiftr v 24) 255; Z.land (Z.shiftr v 16) 255;
   Z.land (Z.shiftr v 8) 255; Z.land v 255].

(** [stream << QByteArray]: the length as a [quint32], then the bytes. *)
Definition put_bytearray (b : bytes) : bytes := put_u32 (Z.of_nat (length b)) ++ b.

(** [stream << QString]: a null string is the length [0xFFFFFFFF]; any
    other string is its length in bytes, then its code units. *)
Definition put_qstring (s : QStringN) : bytes :=
  match s with
  | None => put_u32 0xFFFFFFFF
  | Some u => put_u32 (2 * Z.of_nat (length u)) ++ concat (map put_u16 u)
  end.

(** ** Lemmas on the encodings *)

Lemma length_put_u32 v : length (put_u32 v) = 4%nat.
Proof. reflexivity. Qed.

Lemma length_put_u16 v : length (put_u16 v) = 2%nat.
Proof. reflexivity. Qed.

Lemma put_u32_bytes v : all_bytes (put_u32 v).
Proof.
  unfold all_bytes, put_u32, is_byte. rewrite !land_255_mod.
  repeat constructor; apply Z.mod_pos_bound; lia.
Qed.


Lemma read32_at (pre post : bytes) (d0 d1 d2 d3 : Z) :
  read32 (pre ++ [d0; d1; d2; d3] ++ post) (Z.of_nat (length pre)) =
  Some (Z.lor (Z.lor (Z.lor (Z.shiftl d0 24) (Z.shiftl d1 16)) (Z.shiftl d2 8)) d3).
Proof.
  unfold read32.
  rewrite <- (Z.add_0_r (Z.of_nat (length pre))) at 1.
  rewrite !get8_app_r by lia. reflexivity.
Qed.

(** Reading four bytes back gives the [quint32] that was written. *)
Lemma read32_put_u32 (pre post : bytes) (n : Z) :
  read32 (pre ++ put_u32 n ++ post) (Z.of_nat (length pre)) = Some (wrap32 n).
Proof.
  unfold put_u32. rewrite read32_at. f_equal.
  rewrite !shiftr_byte, land_255_mod, be32_value by (try apply Z.mod_pos_bound; lia).
  unfold wrap32. rewrite <- mod_2pow32_bytes. reflexivity.
Qed.

(** Reads at a position inside the second part of a buffer. *)
Lemma read8_off (pre l : bytes) (i : Z) :
  0 <= i -> read8 (pre ++ l) (Z.of_nat (length pre) + i) = read8 l i.
Proof. intros Hi. unfold read8. by rewrite get8_app_r. Qed.

Lemma read32_off (pre l : bytes) (i : Z) :
  0 <= i -> read32 (pre ++ l) (Z.of_nat (length pre) + i) = read32 l i.
Proof.
  intros Hi. unfold read32. rewrite <- !Z.add_assoc, !get8_app_r by lia. reflexivity.
Qed.

(** ** The ELF hash stays below 2^28 and is never 0 *)

(** The [if] of the loop body is only an optimisation: with [g = 0] the
    exclusive or changes nothing. *)
Lemma elf_step_uniform h c :
  elf_step h c =
  let h1 := wrap32 (wrap32 (Z.shiftl h 4) + c) in
  let g := Z.land h1 0xf0000000 in
  Z.land (Z.lxor h1 (Z.shiftr g 24)) (Z.lxor g 0xffffffff).
Proof.
  unfold elf_step. cbv zeta.
  destruct (Z.eqb_spec (Z.land (wrap32 (wrap32 (Z.shiftl h 4) + c)) 0xf0000000) 0) as [E|E];
    [rewrite E, Z.shiftr_0_l, Z.lxor_0_r|]; reflexivity.
Qed.

(** Clearing the top nibble leaves a value below 2^28. *)
Lemma elf_mask_high h1 : 0 <= h1 < 2 ^ 32 ->
  let g := Z.land h1 0xf0000000 in
  Z.land (Z.lxor h1 (Z.shiftr g 24)) (Z.lxor g 0xffffffff) =
  Z.land (Z.lxor h1 (Z.shiftr g 24)) (Z.lxor g 0xffffffff) mod 2 ^ 28.
Proof.
  intros H g. subst g.
  rewrite <- Z.land_ones by lia.
  change 0xf0000000 with (Z.shiftl (Z.ones 4) 28).
  change 0xffffffff with (Z.ones 32).
  rewrite <- (Z.mod_small h1 (2 ^ 32)) by lia. rewrite <- Z.land_ones by lia.
  Z.bitblast.
Qed.

Lemma elf_step_range h c : 0 <= elf_step h c < 2 ^ 28.
Proof.
  rewrite elf_step_uniform. cbv zeta.
  pose proof (wrap32_range (wrap32 (Z.shiftl h 4) + c)) as R.
  rewrite elf_mask_high by exact R. apply Z.mod_pos_bound. lia.
Qed.

Lemma elf_loop_range h k : 0 <= h < 2 ^ 28 -> 0 <= elf_loop h k < 2 ^ 28.
Proof.
  revert h. induction k as [|c k IH]; intros h Hh; simpl; [done|].
  destruct (c =? 0); [done|]. apply IH, elf_step_range.
Qed.

(** C15: the hash of any byte array is in [1, 2^28): the value 0, which
    the lookup structures reserve for "no entry", never occurs, and the
    [uint] arithmetic of the loop never wraps past its top nibble. *)
Theorem elfHash_range (ba : bytes) : 1 <= elfHash ba < 2 ^ 28.
Proof.
  unfold elfHash. pose proof (elf_loop_range 0 ba ltac:(lia)) as R.
  destruct (Z.eqb_spec (elf_loop 0 ba) 0); lia.
Qed.

Lemma elf_loop_nul h (b r : bytes) : elf_loop h (b ++ 0 :: r) = elf_loop h b.
Proof.
  revert h. induction b as [|c b IH]; intros h; simpl; [done|].
  destruct (c =? 0); [done|]. apply IH.
Qed.

(** C28: the hash reads its argument as a C string: whatever follows the
    first NUL byte does not change it. *)
Theorem elfHash_nul (b r : bytes) : elfHash (b ++ 0 :: r) = elfHash b.
Proof. unfold elfHash. by rewrite elf_loop_nul. Qed.
