(* ===== verification/Translator.v ===== *)
(** The collaborators of the QM codec that qm.cpp calls but does not
    define: the in-memory translation model ([TranslatorMessage],
    [Translator], from translator.h, not part of the sources and modelled
    from the spec), the conversion options and diagnostics
    ([ConversionData]), the UTF-8 codec of QString ([toUtf8],
    [QStringDecoder]) and the plural-form tables ([getNumerusInfo] after
    [Translator::languageAndCountry]).  The codec and the tables are type
    classes: the theorems of the codec are proved for every instance, and
    the concrete instances at the end of the file let the witnesses
    compute. *)

From S2P Require Import Prelude QmFormat.

(** ** Translation records *)

Inductive MsgType := Unfinished | Finished | Vanished | Obsolete.

#[export] Instance MsgType_eq_dec : EqDecision MsgType.
Proof. solve_decision. Defined.

Record TranslatorMessage := mkMessage {
  tm_context : QString;
  tm_sourceText : QString;
  tm_comment : QString;
  tm_id : QString;
  tm_translations : list QStringN;
  tm_type : MsgType;
  tm_plural : bool
}.

(** [QStringList::value(0)]: the first translation, or the null string. *)
Definition translation (m : TranslatorMessage) : QStringN :=
  match tm_translations m with
  | t :: _ => t
  | [] => None
  end.

(** [QString::isEmpty] holds of the null and of the empty string. *)
Definition qs_isEmpty (s : QStringN) : bool :=
  match s with None => true | Some u => bool_decide (u = []) end.

Record Translator := mkTranslator {
  tr_messages : list TranslatorMessage;
  tr_language : QString;
  tr_dependencies : list QStringN
}.

Definition emptyTranslator : Translator := mkTranslator [] [] [].

Definition tr_append (t : Translator) (m : TranslatorMessage) : Translator :=
  mkTranslator (tr_messages t ++ [m]) (tr_language t) (tr_dependencies t).
Definition tr_setLanguageCode (t : Translator) (l : QString) : Translator :=
  mkTranslator (tr_messages t) l (tr_dependencies t).
Definition tr_setDependencies (t : Translator) (d : list QStringN) : Translator :=
  mkTranslator (tr_messages t) (tr_language t) d.

(** ** Conversion options and diagnostics *)

Inductive TranslatorSaveMode := SaveEverything | SaveStripped.

#[export] Instance SaveMode_eq_dec : EqDecision TranslatorSaveMode.
Proof. solve_decision. Defined.

(** The messages qm.cpp passes to [ConversionData::appendError]. *)
Inductive Diagnostic :=
  | MagicMarkerMissing            (* "QM-Format error: magic marker missing" *)
  | QmFormatError                 (* "QM-Format error" *)
  | InvalidUtf8                   (* "Error: File contains invalid UTF-8 sequences." *)
  | DroppedWithoutId (n : Z)      (* "Dropped %n message(s) which had no ID." *)
  | ExcessDataDropped (n : Z)     (* "Excess context/disambiguation dropped from ..." *)
  | Generated (total finished unfinished : Z)
  | IgnoredUntranslated (n : Z).

Record ConversionData := mkConversionData {
  cd_idBased : bool;
  cd_unTrPrefix : QString;
  cd_saveMode : TranslatorSaveMode;
  cd_ignoreUnfinished : bool;
  cd_verbose : bool
}.

(** ** The UTF-8 codec of QString

    [toUtf8] is [QString::toUtf8]; [fromUtf8] is a stateless
    [QStringDecoder] for UTF-8, returning the decoded string and whether
    [hasError()] holds.  The law is the only property of the codec the
    theorems use: a valid string decodes back without error.  An empty
    string, and only it, encodes to no bytes. *)
Class Utf8Codec := {
  toUtf8 : QString -> bytes;
  fromUtf8 : bytes -> QString * bool;
  utf8_valid : QString -> bool;
  fromUtf8_toUtf8 : forall s, utf8_valid s = true -> fromUtf8 (toUtf8 s) = (s, false);
  toUtf8_nil_iff : forall s, toUtf8 s = [] <-> s = []
}.

(** ** Plural forms of a language

    [numerusRules l] is the rule byte code [getNumerusInfo] gives for the
    language code [l] ([None] when it fails); [numerusForms l] the list of
    plural form names. *)
Class NumerusInfo := {
  numerusRules : QString -> option bytes;
  numerusForms : QString -> option (list QString)
}.

(** ** A concrete UTF-8 codec for the Basic Multilingual Plane

    Code units below [0x80] take one byte, below [0x800] two, the others
    three; surrogates are not valid.  The decoder is strict: a byte that
    does not start a well-formed, shortest sequence decodes to U+FFFD and
    sets the error flag. *)
Definition utf8_unit (u : Z) : bytes :=
  if u <? 0x80 then [u]
  else if u <? 0x800 then [0xC0 + u / 64; 0x80 + u mod 64]
  else [0xE0 + u / 4096; 0x80 + (u / 64) mod 64; 0x80 + u mod 64].

Definition bmp_valid_unit (u : Z) : bool :=
  (0 <=? u) && (u <? 0x10000) && negb ((0xD800 <=? u) && (u <? 0xE000)).

Definition is_cont (b : Z) : bool := (0x80 <=? b) && (b <? 0xC0).

Fixpoint bmp_decode (l : bytes) : QString * bool :=
  match l with
  | [] => ([], false)
  | b :: l1 =>
      let err := let '(s, e) := bmp_decode l1 in (0xFFFD :: s, true) in
      if (0 <=? b) && (b <? 0x80) then let '(s, e) := bmp_decode l1 in (b :: s, e)
      else if (0xC2 <=? b) && (b <? 0xE0) then
        match l1 with
        | c :: l2 =>
            if is_cont c then let '(s, e) := bmp_decode l2 in ((b - 0xC0) * 64 + (c - 0x80) :: s, e)
            else err
        | [] => err
        end
      else if (0xE0 <=? b) && (b <? 0xF0) then
        match l1 with
        | c :: d :: l3 =>
            let u := (b - 0xE0) * 4096 + (c - 0x80) * 64 + (d - 0x80) in
            if is_cont c && is_cont d && (0x800 <=? u) && negb ((0xD800 <=? u) && (u <? 0xE000))
            then let '(s, e) := bmp_decode l3 in (u :: s, e)
            else err
        | _ => err
        end
      else err
  end.

Lemma bmp_decode_unit u rest :
  bmp_valid_unit u = true ->
  bmp_decode (utf8_unit u ++ rest) =
  let '(s, e) := bmp_decode rest in (u :: s, e).
Proof.
  unfold bmp_valid_unit, utf8_unit, is_cont. intros Hv.
  apply andb_true_iff in Hv as [Hv Hs]. apply andb_true_iff in Hv as [H0 H1].
  apply Z.leb_le in H0. apply Z.ltb_lt in H1. apply negb_true_iff in Hs.
  assert (Hs' : u < 0xD800 \/ 0xE000 <= u)
    by (destruct (Z.leb_spec 0xD800 u), (Z.ltb_spec u 0xE000); simpl in Hs; lia).
  clear Hs.
  pose proof (Z.div_mod u 64 ltac:(lia)) as D1. pose proof (Z.mod_pos_bound u 64 ltac:(lia)) as M1.
  pose proof (Z.div_mod (u / 64) 64 ltac:(lia)) as D2.
  pose proof (Z.mod_pos_bound (u / 64) 64 ltac:(lia)) as M2.
  rewrite Z.div_div in D2 by lia. change (64 * 64) with 4096 in D2.
  set (r := u mod 64) in *. set (q := u / 64) in *. set (m := q mod 64) in *.
  set (t := u / 4096) in *. clearbody r q m t.
  destruct (Z.ltb_spec u 0x80); [|destruct (Z.ltb_spec u 0x800)]; simpl; unfold is_cont; zbool_cases.
  all: try done.
  all: try (replace ((0xC0 + q - 0xC0) * 64 + (0x80 + r - 0x80)) with u by lia; done).
  all: replace ((0xE0 + t - 0xE0) * 4096 + (0x80 + m - 0x80) * 64 + (0x80 + r - 0x80))
         with u by lia; zbool_cases; done.
Qed.

Definition bmp_toUtf8 (s : QString) : bytes := concat (map utf8_unit s).

Lemma bmp_fromUtf8_toUtf8 s :
  forallb bmp_valid_unit s = true -> bmp_decode (bmp_toUtf8 s) = (s, false).
Proof.
  induction s as [|u s IH]; intros Hv; [done|]. unfold bmp_toUtf8 in *.
  cbn [map concat]. simpl in Hv. apply andb_true_iff in Hv as [Hu Hs].
  rewrite bmp_decode_unit by done. rewrite IH by done. done.
Qed.

Lemma utf8_unit_nonempty u : utf8_unit u <> [].
Proof. unfold utf8_unit. repeat case_match; discriminate. Qed.

Lemma bmp_toUtf8_nil_iff s : bmp_toUtf8 s = [] <-> s = [].
Proof.
  split; [|intros ->; done].
  destruct s as [|u s]; [done|]. unfold bmp_toUtf8. cbn [map concat].
  intros E. apply app_eq_nil in E as [E _]. by apply utf8_unit_nonempty in E.
Qed.

#[export] Instance bmp_utf8 : Utf8Codec := {
  toUtf8 := bmp_toUtf8;
  fromUtf8 := bmp_decode;
  utf8_valid := forallb bmp_valid_unit;
  fromUtf8_toUtf8 := bmp_fromUtf8_toUtf8;
  toUtf8_nil_iff := bmp_toUtf8_nil_iff
}.

(** ** A concrete plural-form table

    Japanese ("ja") has one plural form, English ("en") two, Polish ("pl")
    three; other codes are unknown to the table.  Form names are
    abbreviated. *)
(** Language codes and form names as code units: "ja", "en", "pl". *)
Definition code_ja : QString := [0x6a; 0x61].
Definition code_en : QString := [0x65; 0x6e].
Definition code_pl : QString := [0x70; 0x6c].

#[export] Instance sample_numerus : NumerusInfo := {
  numerusRules l :=
    if bool_decide (l = code_ja) then Some []
    else if bool_decide (l = code_en) then Some [0x02; 0x01]
    else if bool_decide (l = code_pl) then Some [0x02; 0x01; 0x04; 0x02]
    else None;
  numerusForms l :=
    if bool_decide (l = code_ja) then Some [[0x55]]
    else if bool_decide (l = code_en) then Some [[0x53]; [0x50]]
    else if bool_decide (l = code_pl) then Some [[0x53]; [0x50; 0x61]; [0x50]]
    else None
}.
