(* ===== verification/Releaser.v ===== *)
(** The writer of qm.cpp, class [Releaser]: its records
    ([ByteTranslatorMessage]) and their order, the ordered map
    [QMap<ByteTranslatorMessage, void *>] that holds them, the operations
    that fill it ([insert], [insertIdBased], [setNumerusRules],
    [setDependencies]), the serialisation of one record ([commonPrefix],
    [msgHash], [writeMessage]), [squeeze] with its context hash table,
    and [save].  The state of a [Releaser] object is the record
    [Releaser]; every member function is a function from state to state. *)

From S2P Require Import Prelude QmFormat Translator.
From Stdlib Require Import Sorted.

(** ** The ordered map

    A [QMap] (a [std::map]) whose values carry no information is modelled
    as the list of its keys in increasing order.  [QMap::insert] calls
    [insert_or_assign]: when an equivalent key is present, the map keeps
    that key (and assigns the value, here always [0]). *)
Section QMapModel.
Context {K : Type} (lt : K -> K -> bool).

Definition qequiv (a b : K) : bool := negb (lt a b) && negb (lt b a).

Fixpoint qmap_insert (k : K) (m : list K) : list K :=
  match m with
  | [] => [k]
  | x :: m' =>
      if lt k x then k :: x :: m'
      else if lt x k then x :: qmap_insert k m'
      else x :: m'
  end.

Definition qmap_contains (k : K) (m : list K) : bool := existsb (qequiv k) m.

Definition qsorted (m : list K) : Prop := Sorted (fun a b => lt a b = true) m.

Lemma qmap_insert_hd (k x : K) (m : list K) :
  lt x k = true -> HdRel (fun a b => lt a b = true) x m ->
  HdRel (fun a b => lt a b = true) x (qmap_insert k m).
Proof.
  intros Hxk Hhd. destruct m as [|y m']; simpl; [by constructor|].
  inversion Hhd; subst.
  destruct (lt k y); [by constructor|]. destruct (lt y k); by constructor.
Qed.

Lemma qmap_insert_sorted (k : K) (m : list K) : qsorted m -> qsorted (qmap_insert k m).
Proof.
  unfold qsorted. induction m as [|x m IH]; intros Hs; simpl; [by repeat constructor|].
  inversion Hs as [|? ? Hs' Hhd]; subst.
  destruct (lt k x) eqn:E1; [by repeat constructor|].
  destruct (lt x k) eqn:E2; [|done].
  constructor; [by apply IH|]. by apply qmap_insert_hd.
Qed.

(** Inserting keeps every key that was there. *)
Lemma qmap_insert_incl (k x : K) (m : list K) : x ∈ m -> x ∈ qmap_insert k m.
Proof.
  induction m as [|y m IH]; simpl; [by intros ?%not_elem_of_nil|].
  intros Hx. destruct (lt k y); [by apply list_elem_of_further|].
  destruct (lt y k); [|done].
  apply elem_of_cons in Hx as [->|Hx]; [apply list_elem_of_here|].
  apply list_elem_of_further. by apply IH.
Qed.

(** After inserting [k], an equivalent key is present: [k] itself, or the
    key that was already there. *)
Lemma qmap_insert_present (k : K) (m : list K) :
  exists x, x ∈ qmap_insert k m /\ (x = k \/ (x ∈ m /\ qequiv k x = true)).
Proof.
  induction m as [|y m IH]; simpl.
  - exists k. split; [apply list_elem_of_here|by left].
  - destruct (lt k y) eqn:E1; [exists k; split; [apply list_elem_of_here|by left]|].
    destruct (lt y k) eqn:E2.
    + destruct IH as (x & Hx & [->|[Hxm Hq]]).
      * exists k. split; [by apply list_elem_of_further|by left].
      * exists x. split; [by apply list_elem_of_further|right; split; [by apply list_elem_of_further|done]].
    + exists y. split; [apply list_elem_of_here|right].
      split; [apply list_elem_of_here|]. unfold qequiv. by rewrite E1, E2.
Qed.

Lemma qmap_insert_witness (P : K -> Prop) (k : K) (m : list K) :
  (forall r, r = k \/ qequiv k r = true -> P r) ->
  (forall x, x ∈ m -> x ∈ qmap_insert k m) /\ exists r, r ∈ qmap_insert k m /\ P r.
Proof.
  intros HP. split; [intros x; apply qmap_insert_incl|].
  destruct (qmap_insert_present k m) as (r & Hr & Hk). exists r. split; [done|].
  apply HP. naive_solver.
Qed.

Lemma qmap_contains_spec (k : K) (m : list K) :
  qmap_contains k m = true <-> exists x, x ∈ m /\ qequiv k x = true.
Proof.
  unfold qmap_contains. rewrite existsb_exists.
  split; intros (x & Hx & Hq); exists x; by rewrite list_elem_of_In in *.
Qed.

Lemma qmap_insert_not_contained (k : K) (m : list K) :
  qmap_contains k m = false -> k ∈ qmap_insert k m.
Proof.
  intros Hn. destruct (qmap_insert_present k m) as (x & Hx & [->|[Hxm Hq]]); [done|].
  exfalso. assert (qmap_contains k m = true) by (apply qmap_contains_spec; eauto). congruence.
Qed.

(** Inserting adds no key but [k]. *)
Lemma qmap_insert_elem (k x : K) (m : list K) : x ∈ qmap_insert k m -> x = k \/ x ∈ m.
Proof.
  induction m as [|y m IH]; simpl; intros Hx.
  - apply list_elem_of_singleton in Hx. by left.
  - destruct (lt k y); [by apply elem_of_cons in Hx|].
    destruct (lt y k); [|by right].
    apply elem_of_cons in Hx as [->|Hx]; [right; apply list_elem_of_here|].
    destruct (IH Hx) as [->|Hm]; [by left|right; by apply list_elem_of_further].
Qed.

(** A key with no equivalent in the map is added, and nothing else
    changes. *)
Lemma qmap_insert_perm (k : K) (m : list K) :
  qmap_contains k m = false -> qmap_insert k m ≡ₚ k :: m.
Proof.
  unfold qmap_contains. induction m as [|x m IH]; intros Hn; simpl; [done|].
  simpl in Hn. apply orb_false_iff in Hn as [Hq Hn]. unfold qequiv in Hq.
  destruct (lt k x); [done|]. destruct (lt x k); [|done].
  rewrite IH by done. apply perm_swap.
Qed.
End QMapModel.

(** ** Records and their order *)

Record ByteTranslatorMessage := BTM {
  btm_context : bytes;
  btm_sourceText : bytes;
  btm_comment : bytes;
  btm_translations : list QStringN
}.

(** [QByteArray::operator<]: lexicographic on unsigned bytes, a proper
    prefix being smaller. *)
Fixpoint bytes_compare (a b : bytes) : comparison :=
  match a, b with
  | [], [] => Eq
  | [], _ :: _ => Lt
  | _ :: _, [] => Gt
  | x :: a', y :: b' =>
      match Z.compare x y with
      | Eq => bytes_compare a' b'
      | c => c
      end
  end.

Definition bytes_lt (a b : bytes) : bool :=
  match bytes_compare a b with Lt => true | _ => false end.

(** [ByteTranslatorMessage::operator<]: by context, then source text,
    then comment; translations do not take part. *)
Definition btm_lt (m1 m2 : ByteTranslatorMessage) : bool :=
  if negb (bool_decide (btm_context m1 = btm_context m2)) then bytes_lt (btm_context m1) (btm_context m2)
  else if negb (bool_decide (btm_sourceText m1 = btm_sourceText m2))
  then bytes_lt (btm_sourceText m1) (btm_sourceText m2)
  else bytes_lt (btm_comment m1) (btm_comment m2).

(** The key of a record, and the order the catalog sorts its keys
    by: context, then source text, then comment, each compared as
    unsigned byte strings. *)
Definition btm_key (m : ByteTranslatorMessage) : bytes * bytes * bytes :=
  (btm_context m, btm_sourceText m, btm_comment m).

Definition key_compare (a b : bytes * bytes * bytes) : comparison :=
  match bytes_compare a.1.1 b.1.1 with
  | Eq => match bytes_compare a.1.2 b.1.2 with Eq => bytes_compare a.2 b.2 | c => c end
  | c => c
  end.

Definition key_lt (a b : bytes * bytes * bytes) : Prop := key_compare a b = Lt.

(** ** The state of a [Releaser] *)

Record Releaser := mkReleaser {
  m_language : QString;
  m_messageArray : bytes;
  m_offsetArray : bytes;
  m_contextArray : bytes;
  m_messages : list ByteTranslatorMessage;
  m_numerusRules : bytes;
  m_dependencies : list QStringN;
  m_dependencyArray : bytes
}.

(** [Releaser(const QString &language)]. *)
Definition newReleaser (language : QString) : Releaser :=
  mkReleaser language [] [] [] [] [] [] [].

Definition set_messages (st : Releaser) (ms : list ByteTranslatorMessage) : Releaser :=
  mkReleaser (m_language st) (m_messageArray st) (m_offsetArray st) (m_contextArray st)
    ms (m_numerusRules st) (m_dependencies st) (m_dependencyArray st).

Section Writer.
Context `{Utf8Codec}.

(** [Releaser::originalBytes]: the UTF-8 bytes of a string, [""] for an
    empty one. *)
Definition originalBytes (s : QString) : bytes :=
  if bool_decide (s = []) then [] else toUtf8 s.

(** [Releaser::insert]: unless [forceComment], the record is first
    offered without its comment, and keeps that form when no record
    (context, source text, "") exists yet. *)
Definition insert (st : Releaser) (msg : TranslatorMessage) (tlns : list QStringN)
    (forceComment : bool) : Releaser :=
  let bmsg := BTM (originalBytes (tm_context msg)) (originalBytes (tm_sourceText msg))
                  (originalBytes (tm_comment msg)) tlns in
  if negb forceComment then
    let bmsg2 := BTM (btm_context bmsg) (btm_sourceText bmsg) [] (btm_translations bmsg) in
    if negb (qmap_contains btm_lt bmsg2 (m_messages st))
    then set_messages st (qmap_insert btm_lt bmsg2 (m_messages st))
    else set_messages st (qmap_insert btm_lt bmsg (m_messages st))
  else set_messages st (qmap_insert btm_lt bmsg (m_messages st)).

(** [Releaser::insertIdBased]: the id takes the place of the source
    text; context and comment are empty. *)
Definition insertIdBased (st : Releaser) (msg : TranslatorMessage) (tlns : list QStringN)
    : Releaser :=
  set_messages st (qmap_insert btm_lt (BTM [] (originalBytes (tm_id msg)) [] tlns) (m_messages st)).
End Writer.

Definition setNumerusRules (st : Releaser) (rules : bytes) : Releaser :=
  mkReleaser (m_language st) (m_messageArray st) (m_offsetArray st) (m_contextArray st)
    (m_messages st) rules (m_dependencies st) (m_dependencyArray st).

Definition setDependencies (st : Releaser) (deps : list QStringN) : Releaser :=
  mkReleaser (m_language st) (m_messageArray st) (m_offsetArray st) (m_contextArray st)
    (m_messages st) (m_numerusRules st) deps (m_dependencyArray st).

(** ** One record on the wire *)

Definition msgHash (m : ByteTranslatorMessage) : Z :=
  elfHash (btm_sourceText m ++ btm_comment m).

Definition commonPrefix (m1 m2 : ByteTranslatorMessage) : Prefix :=
  if negb (msgHash m1 =? msgHash m2) then NoPrefix
  else if negb (bool_decide (btm_context m1 = btm_context m2)) then Hash
  else if negb (bool_decide (btm_sourceText m1 = btm_sourceText m2)) then HashContext
  else if negb (bool_decide (btm_comment m1 = btm_comment m2)) then HashContextSourceText
  else HashContextSourceTextComment.

(** [stream << quint8(tag) << bytes]. *)
Definition field (t : Tag) (b : bytes) : bytes := put_u8 (tag_value t) ++ put_bytearray b.

Definition write_translation (t : QStringN) : bytes :=
  put_u8 (tag_value Tag_Translation) ++ put_qstring t.

(** [Releaser::writeMessage]: the translations, then the fields the
    prefix level calls for (all of them at [HashContextSourceTextComment],
    at [NoPrefix], at [Hash] and at any value outside the enumeration),
    then [Tag_End]. *)
Definition writeMessage (msg : ByteTranslatorMessage) (mode : TranslatorSaveMode)
    (prefix : option Prefix) : bytes :=
  let prefix := if mode is SaveEverything then Some HashContextSourceTextComment else prefix in
  concat (map write_translation (btm_translations msg)) ++
  match prefix with
  | Some HashContextSourceText =>
      field Tag_SourceText (btm_sourceText msg) ++ field Tag_Context (btm_context msg)
  | Some HashContext => field Tag_Context (btm_context msg)
  | _ => field Tag_Comment (btm_comment msg) ++ field Tag_SourceText (btm_sourceText msg)
         ++ field Tag_Context (btm_context msg)
  end ++ put_u8 (tag_value Tag_End).

(** ** [squeeze]: the message array and the hash index

    The loop over the sorted records: [cpPrev] is the common prefix with
    the previous record, [cpNext] with the next one (0 for the last); the
    record is written at prefix level [max(cpPrev, cpNext + 1)] and its
    [(hash, position)] pair is inserted in the offset map.  The position
    is the [qint64] of the buffer, stored in a [uint]. *)
Fixpoint write_messages (mode : TranslatorSaveMode) (cpPrev : Z)
    (ms : list ByteTranslatorMessage) (pos : Z) : bytes * list (Z * Z) :=
  match ms with
  | [] => ([], [])
  | m :: rest =>
      let cpNext := match rest with [] => 0 | n :: _ => prefix_value (commonPrefix m n) end in
      let rec_ := writeMessage m mode (prefix_of_int (Z.max cpPrev (cpNext + 1))) in
      let '(bs, offs) := write_messages mode cpNext rest (pos + Z.of_nat (length rec_)) in
      (rec_ ++ bs, (msgHash m, wrap32 pos) :: offs)
  end.

(** [Releaser::Offset::operator<]. *)
Definition offset_lt (a b : Z * Z) : bool :=
  if negb (a.1 =? b.1) then a.1 <? b.1 else a.2 <? b.2.

Definition offset_map (offs : list (Z * Z)) : list (Z * Z) :=
  fold_left (fun m o => qmap_insert offset_lt o m) offs [].

Definition offset_array (offs : list (Z * Z)) : bytes :=
  concat (map (fun o => put_u32 o.1 ++ put_u32 o.2) (offset_map offs)).

(** ** [squeeze]: the context hash table (stripped mode) *)

(** The table size, a [quint16] chosen from the number of contexts. *)
Definition hTableSize_of (n : Z) : Z :=
  wrap16 (if n <? 200 then (if n <? 60 then 151 else 503)
          else if n <? 2500 then (if n <? 750 then 1511 else 5003)
          else if n <? 10000 then 15013 else 3 * n / 2).

(** [QMap<QByteArray, int> contextSet], filled by [++contextSet[context]]. *)
Definition contextSet (ms : list ByteTranslatorMessage) : list bytes :=
  fold_left (fun s m => qmap_insert bytes_lt (btm_context m) s) ms [].

(** [QMultiMap::insert] puts a new item before the items of equal key. *)
Fixpoint multimap_insert (k : Z) (v : bytes) (m : list (Z * bytes)) : list (Z * bytes) :=
  match m with
  | [] => [(k, v)]
  | (k', v') :: m' => if k <=? k' then (k, v) :: m else (k', v') :: multimap_insert k v m'
  end.

Definition hashMap (size : Z) (cs : list bytes) : list (Z * bytes) :=
  fold_left (fun hm c => multimap_insert (elfHash c mod size) c hm) cs [].

(** The inner [do ... while] loop: the Pascal strings of one bucket, each
    length clipped to 255. *)
Fixpoint bucket_loop (i : Z) (es : list (Z * bytes)) (upto : Z)
    : bytes * Z * list (Z * bytes) :=
  match es with
  | [] => ([], upto, [])
  | (k, c) :: es' =>
      if k =? i then
        let len := Z.min (Z.of_nat (length c)) 255 in
        let '(bs, up, rest) := bucket_loop i es' (upto + 1 + len) in
        (put_u8 len ++ take (Z.to_nat len) c ++ bs, up, rest)
      else ([], upto, es)
  end.

(** The outer [while] loop: each bucket records its pool offset [upto >> 1]
    as a [quint16] in [hTable], then is padded to an even length. *)
Fixpoint pool_loop (fuel : nat) (es : list (Z * bytes)) (upto : Z) (hTable : list Z)
    : option (bytes * Z * list Z) :=
  match es with
  | [] => Some ([], upto, hTable)
  | (i, _) :: _ =>
      match fuel with
      | O => None
      | S f =>
          let hTable' := <[Z.to_nat i := wrap16 (Z.shiftr upto 1)]> hTable in
          let '(bs, up, rest) := bucket_loop i es upto in
          let '(pad, up') := if Z.odd up then (put_u8 0, up + 1) else ([], up) in
          match pool_loop f rest up' hTable' with
          | Some (bs2, up2, ht2) => Some (bs ++ pad ++ bs2, up2, ht2)
          | None => None
          end
      end
  end.

(** The whole [Contexts] block: [None] is the division by zero of
    [elfHash(c) % hTableSize] when the size wraps to 0, and the block is
    dropped ([m_contextArray.clear()]) when the pool passes 131072 bytes. *)
Definition context_array (cs : list bytes) : option bytes :=
  let size := hTableSize_of (Z.of_nat (length cs)) in
  if (size =? 0) && negb (bool_decide (cs = [])) then None
  else
    let es := hashMap size cs in
    match pool_loop (length es) es 2 (replicate (Z.to_nat size) 0) with
    | None => None
    | Some (pool, upto, hTable) =>
        if 131072 <? upto then Some []
        else Some (put_u16 size ++ concat (map put_u16 hTable) ++ put_u16 0 ++ pool)
    end.

(** ** [Releaser::squeeze] *)
Definition squeeze (mode : TranslatorSaveMode) (st : Releaser) : option Releaser :=
  let depArray := concat (map put_qstring (m_dependencies st)) in
  if bool_decide (m_messages st = []) && bool_decide (mode = SaveEverything) then
    Some (mkReleaser (m_language st) (m_messageArray st) (m_offsetArray st) (m_contextArray st)
            (m_messages st) (m_numerusRules st) (m_dependencies st) depArray)
  else
    let messages := m_messages st in
    let '(msgArray, offs) := write_messages mode 0 messages 0 in
    let ctx := if mode is SaveStripped then context_array (contextSet messages) else Some [] in
    match ctx with
    | None => None
    | Some ca =>
        Some (mkReleaser (m_language st) msgArray (offset_array offs) ca []
                (m_numerusRules st) (m_dependencies st) depArray)
    end.

(** ** [Releaser::save] *)

(** [s << quint8(tag) << quint32(size); s.writeRawData(data, size)]. *)
Definition block (t : BlockTag) (payload : bytes) : bytes :=
  let n := wrap32 (Z.of_nat (length payload)) in
  put_u8 (block_value t) ++ put_u32 n ++ take (Z.to_nat n) payload.

Definition opt_block (t : BlockTag) (payload : bytes) : bytes :=
  if bool_decide (payload = []) then [] else block t payload.

Section Save.
Context `{Utf8Codec}.

Definition save (st : Releaser) : bytes * bool :=
  (magic
   ++ (if bool_decide (m_language st = []) then []
       else block Language (originalBytes (m_language st)))
   ++ opt_block Dependencies (m_dependencyArray st)
   ++ opt_block Hashes (m_offsetArray st)
   ++ opt_block Messages (m_messageArray st)
   ++ opt_block Contexts (m_contextArray st)
   ++ opt_block NumerusRules (m_numerusRules st), true).
End Save.

(** ** The order of records *)

Lemma bytes_compare_antisym (a b : bytes) : bytes_compare a b = CompOpp (bytes_compare b a).
Proof.
  revert b. induction a as [|x a IH]; intros [|y b]; simpl; try done.
  rewrite (Z.compare_antisym x y). destruct (Z.compare x y); simpl; [apply IH|done|done].
Qed.

Lemma bytes_compare_eq (a b : bytes) : bytes_compare a b = Eq -> a = b.
Proof.
  revert b. induction a as [|x a IH]; intros [|y b]; simpl; try done.
  destruct (Z.compare_spec x y); try done. intros E. subst. f_equal. by apply IH.
Qed.

(** Two byte arrays neither of which is below the other are equal. *)
Lemma bytes_lt_total (a b : bytes) : bytes_lt a b = false -> bytes_lt b a = false -> a = b.
Proof.
  unfold bytes_lt. rewrite (bytes_compare_antisym b a).
  destruct (bytes_compare a b) eqn:E; simpl; try done. intros _ _. by apply bytes_compare_eq.
Qed.

(** Equivalent keys of the record map agree on context, source text and
    comment. *)
Lemma btm_equiv (a b : ByteTranslatorMessage) : qequiv btm_lt a b = true ->
  btm_context a = btm_context b /\ btm_sourceText a = btm_sourceText b /\
  btm_comment a = btm_comment b.
Proof.
  unfold qequiv, btm_lt. intros E. apply andb_true_iff in E as [E1 E2].
  apply negb_true_iff in E1, E2.
  destruct (bool_decide (btm_context a = btm_context b)) eqn:C;
    [apply bool_decide_eq_true in C|rewrite bool_decide_eq_false in C];
    rewrite ?(bool_decide_eq_true_2 (btm_context b = btm_context a)) in E2 by done;
    rewrite ?(bool_decide_eq_false_2 (btm_context b = btm_context a)) in E2 by congruence;
    simpl in E1, E2.
  - destruct (bool_decide (btm_sourceText a = btm_sourceText b)) eqn:S;
      [apply bool_decide_eq_true in S|rewrite bool_decide_eq_false in S];
      rewrite ?(bool_decide_eq_true_2 (btm_sourceText b = btm_sourceText a)) in E2 by done;
      rewrite ?(bool_decide_eq_false_2 (btm_sourceText b = btm_sourceText a)) in E2 by congruence;
      simpl in E1, E2.
    + repeat split; try done. by apply bytes_lt_total.
    + exfalso. apply S. by apply bytes_lt_total.
  - exfalso. apply C. by apply bytes_lt_total.
Qed.

Lemma bytes_compare_refl (a : bytes) : bytes_compare a a = Eq.
Proof. induction a as [|x a IH]; simpl; [done|]. by rewrite Z.compare_refl. Qed.

Lemma bytes_compare_neq (a b : bytes) : a <> b -> bytes_compare a b <> Eq.
Proof. intros Hne He. by apply Hne, bytes_compare_eq. Qed.

(** [ByteTranslatorMessage::operator<] is the key order. *)
Lemma btm_lt_key (a b : ByteTranslatorMessage) : btm_lt a b = true <-> key_lt (btm_key a) (btm_key b).
Proof.
  unfold btm_lt, key_lt, key_compare, btm_key, bytes_lt. cbn [fst snd].
  destruct (decide (btm_context a = btm_context b)) as [Ec|Ec].
  - rewrite bool_decide_true by done. rewrite Ec, bytes_compare_refl. cbn [negb].
    destruct (decide (btm_sourceText a = btm_sourceText b)) as [Es|Es].
    + rewrite bool_decide_true by done. rewrite Es, bytes_compare_refl. cbn [negb].
      by destruct (bytes_compare _ _).
    + rewrite bool_decide_false by done. cbn [negb].
      pose proof (bytes_compare_neq _ _ Es). by destruct (bytes_compare _ _).
  - rewrite bool_decide_false by done. cbn [negb].
    pose proof (bytes_compare_neq _ _ Ec). by destruct (bytes_compare (btm_context a) _).
Qed.

Lemma key_lt_irrefl k : ~ key_lt k k.
Proof. unfold key_lt, key_compare. by rewrite !bytes_compare_refl. Qed.

(** Two records are equivalent keys of the map exactly when their keys
    are equal. *)
Lemma qequiv_key (a b : ByteTranslatorMessage) : qequiv btm_lt a b = true <-> btm_key a = btm_key b.
Proof.
  split.
  - intros (E1 & E2 & E3)%btm_equiv. unfold btm_key. by rewrite E1, E2, E3.
  - intros E. unfold qequiv. apply andb_true_iff. split; apply negb_true_iff;
      apply not_true_iff_false; rewrite btm_lt_key, E; apply key_lt_irrefl.
Qed.

Lemma sorted_keys (l : list ByteTranslatorMessage) :
  qsorted btm_lt l <-> Sorted key_lt (btm_key <$> l).
Proof.
  unfold qsorted. induction l as [|x l IH]; cbn; [split; constructor|].
  split; intros Hs; inversion Hs as [|? ? Hl Hhd]; subst; constructor; try by apply IH.
  - destruct l as [|y l]; constructor. inversion Hhd; subst. by apply btm_lt_key.
  - destruct l as [|y l]; constructor. inversion Hhd; subst. by apply btm_lt_key.
Qed.

(** The keys after [qmap_insert]: the old ones and the new one. *)
Lemma qmap_insert_keys (k : ByteTranslatorMessage) (m : list ByteTranslatorMessage) x :
  x ∈ btm_key <$> qmap_insert btm_lt k m <-> x ∈ btm_key <$> m \/ x = btm_key k.
Proof.
  rewrite !list_elem_of_fmap. split.
  - intros (y & -> & Hy). apply qmap_insert_elem in Hy as [->|Hy]; [by right|left; eauto].
  - intros [(y & -> & Hy)| ->].
    + exists y. split; [done|by apply qmap_insert_incl].
    + destruct (qmap_insert_present btm_lt k m) as (y & Hy & [->|[_ Hq]]); [eauto|].
      exists y. split; [|done]. by apply qequiv_key.
Qed.

Lemma qmap_contains_key (k : ByteTranslatorMessage) (m : list ByteTranslatorMessage) :
  qmap_contains btm_lt k m = true <-> btm_key k ∈ btm_key <$> m.
Proof.
  rewrite qmap_contains_spec, list_elem_of_fmap. split.
  - intros (x & Hx & Hq%qequiv_key). eauto.
  - intros (x & Hq & Hx). exists x. split; [done|]. by apply qequiv_key.
Qed.

Section InsertFacts.
Context `{Utf8Codec}.

(** The key [Releaser::insert] stores: the message's key with an empty
    comment when the comment may be dropped and no record has that
    key yet, else the message's full key. *)
Definition inserted_key (st : Releaser) (msg : TranslatorMessage) (fc : bool) : bytes * bytes * bytes :=
  let k := (originalBytes (tm_context msg), originalBytes (tm_sourceText msg), originalBytes (tm_comment msg)) in
  let k2 := (k.1.1, k.1.2, []) in
  if negb fc && bool_decide (k2 ∉ btm_key <$> m_messages st) then k2 else k.

(** C14: [Releaser::insert] keeps the record map strictly sorted by
    context, source text and comment, and adds exactly one key: the
    message's key without its comment when the comment may be dropped
    and that key is new, else its full key. *)
Theorem insert_spec (st : Releaser) (msg : TranslatorMessage) (tlns : list QStringN) (fc : bool) :
  Sorted key_lt (btm_key <$> m_messages st) ->
  Sorted key_lt (btm_key <$> m_messages (insert st msg tlns fc)) /\
  forall x, x ∈ btm_key <$> m_messages (insert st msg tlns fc) <->
    x ∈ btm_key <$> m_messages st \/ x = inserted_key st msg fc.
Proof.
  intros Hs. apply sorted_keys in Hs. unfold insert, inserted_key. cbv zeta.
  destruct fc; cbn [negb andb set_messages m_messages].
  - split; [apply sorted_keys, qmap_insert_sorted, Hs|]. intros x. by rewrite qmap_insert_keys.
  - destruct (qmap_contains btm_lt _ (m_messages st)) eqn:Hc; cbn [negb set_messages m_messages];
      pose proof Hc as Hc'; [apply qmap_contains_key in Hc'|];
      (split; [apply sorted_keys, qmap_insert_sorted, Hs|]); intros x; rewrite qmap_insert_keys.
    + rewrite bool_decide_false by (cbn in Hc'; tauto). done.
    + rewrite bool_decide_true; [done|]. intros Hin. cbn [fst snd] in Hin.
      apply (qmap_contains_key (BTM (originalBytes (tm_context msg)) (originalBytes (tm_sourceText msg)) [] tlns))
        in Hin. cbn [btm_context btm_sourceText btm_translations] in Hc. congruence.
Qed.

(** [insert] loses no record, and afterwards the map holds a record
    with the message's context and source text whose comment is the
    message's own, or empty when the comment was allowed to be dropped
    ([forceComment] false).  A record already present for that key is
    kept with its translations (first insertion wins). *)
Lemma insert_represented (st : Releaser) (msg : TranslatorMessage) (tlns : list QStringN)
    (fc : bool) :
  (forall x, x ∈ m_messages st -> x ∈ m_messages (insert st msg tlns fc)) /\
  exists r, r ∈ m_messages (insert st msg tlns fc) /\
    btm_context r = originalBytes (tm_context msg) /\
    btm_sourceText r = originalBytes (tm_sourceText msg) /\
    (btm_comment r = originalBytes (tm_comment msg) \/ (fc = false /\ btm_comment r = [])).
Proof.
  unfold insert. cbv zeta. cbn [btm_context btm_sourceText btm_translations].
  destruct fc; cbn [negb]; [|destruct (qmap_contains _ _ _); cbn [negb]];
    cbn [set_messages m_messages]; apply qmap_insert_witness;
    intros r [->|(E1 & E2 & E3)%btm_equiv]; simpl in *; auto.
Qed.
End InsertFacts.

(** A message "Hi" in context "C" with comment "c", inserted with its
    translation "Hallo" into an empty map. *)
Definition sample_tm : TranslatorMessage :=
  mkMessage [0x43] [0x48; 0x69] [0x63] [] [Some [0x48; 0x61; 0x6c; 0x6c; 0x6f]] Finished false.

Lemma insert_spec_witness :
  Sorted key_lt (btm_key <$> m_messages (newReleaser code_en)) /\
  (Sorted key_lt (btm_key <$> m_messages (insert (newReleaser code_en) sample_tm (tm_translations sample_tm) false)) /\
   forall x, x ∈ btm_key <$> m_messages (insert (newReleaser code_en) sample_tm (tm_translations sample_tm) false) <->
     x ∈ btm_key <$> m_messages (newReleaser code_en) \/ x = inserted_key (newReleaser code_en) sample_tm false).
Proof.
  assert (H0 : Sorted key_lt (btm_key <$> m_messages (newReleaser code_en))) by constructor.
  split; [exact H0|]. exact (insert_spec (newReleaser code_en) sample_tm _ false H0).
Defined.

(** The comment "c" is dropped: the record is stored under ("C", "Hi", ""). *)
Example sample_inserted_key :
  inserted_key (newReleaser code_en) sample_tm false = ([0x43], [0x48; 0x69], []) /\
  inserted_key (newReleaser code_en) sample_tm true = ([0x43], [0x48; 0x69], [0x63]).
Proof. split; reflexivity. Qed.

(** ** The context table: termination and the only failure *)

Lemma bucket_loop_rest (i : Z) (es : list (Z * bytes)) (upto : Z) :
  let '(_, _, rest) := bucket_loop i es upto in
  (length rest <= length es)%nat /\
  (forall c es', es = (i, c) :: es' -> (length rest < length es)%nat).
Proof.
  revert upto. induction es as [|[k c] es IH]; intros upto; simpl; [split; [lia|done]|].
  destruct (Z.eqb_spec k i).
  - specialize (IH (upto + 1 + Z.min (Z.of_nat (length c)) 255)).
    destruct (bucket_loop i es _) as [[bs up] rest]. destruct IH as [IH1 _].
    split; [lia|]. intros; lia.
  - cbn [length]. split; [lia|]. intros c' es' E. inversion E. congruence.
Qed.

(** The outer loop of the pool ends within one turn per entry. *)
Lemma pool_loop_total (fuel : nat) (es : list (Z * bytes)) (upto : Z) (ht : list Z) :
  (length es <= fuel)%nat -> pool_loop fuel es upto ht <> None.
Proof.
  revert es upto ht. induction fuel as [|f IH]; intros es upto ht Hf.
  - destruct es; [done|simpl in Hf; lia].
  - destruct es as [|[i c] es']; [done|]. cbn [pool_loop].
    pose proof (bucket_loop_rest i ((i, c) :: es') upto) as Hr.
    destruct (bucket_loop i _ upto) as [[bs up] rest].
    destruct Hr as [_ Hr]. specialize (Hr c es' eq_refl).
    destruct (if Z.odd up then _ else _) as [pad up'].
    destruct (pool_loop f rest up' _) as [[[bs2 up2] ht2]|] eqn:E; [done|].
    exfalso. revert E. apply IH. simpl in *. lia.
Qed.

Lemma length_hashMap (size : Z) (cs : list bytes) : length (hashMap size cs) = length cs.
Proof.
  unfold hashMap. rewrite <- (Nat.add_0_r (length cs)).
  change 0%nat with (length (@nil (Z * bytes))). generalize (@nil (Z * bytes)).
  induction cs as [|c cs IH]; intros l; simpl; [done|].
  rewrite IH. assert (forall k v m, length (multimap_insert k v m) = S (length m)) as L.
  { intros k v m. induction m as [|[k' v'] m IHm]; simpl; [done|]. case_match; simpl; lia. }
  rewrite L. lia.
Qed.

(** A table size of 0 with at least one context is a division by zero. *)
Lemma context_array_size0 (cs : list bytes) :
  hTableSize_of (Z.of_nat (length cs)) = 0 -> cs <> [] -> context_array cs = None.
Proof.
  intros E B. unfold context_array. rewrite E. rewrite bool_decide_eq_false_2 by done. reflexivity.
Qed.

(** Building the [Contexts] block fails in exactly one way: when the
    [quint16] table size computed from the number of contexts wraps to 0,
    [elfHash(c) % hTableSize] divides by zero.  Otherwise the loops end. *)
Theorem context_array_fails_iff (cs : list bytes) :
  context_array cs = None <-> hTableSize_of (Z.of_nat (length cs)) = 0 /\ cs <> [].
Proof.
  unfold context_array. split.
  - destruct (Z.eqb_spec (hTableSize_of (Z.of_nat (length cs))) 0) as [E|E];
      destruct (bool_decide (cs = [])) eqn:B; simpl.
    + apply bool_decide_eq_true in B. subst cs. vm_compute in E. discriminate.
    + intros _. split; [done|]. by apply bool_decide_eq_false in B.
    + intros Hp. exfalso. revert Hp.
      destruct (pool_loop _ _ _ _) as [[[? ?] ?]|] eqn:P; [case_match; discriminate|].
      intros _. revert P. by apply pool_loop_total.
    + intros Hp. exfalso. revert Hp.
      destruct (pool_loop _ _ _ _) as [[[? ?] ?]|] eqn:P; [case_match; discriminate|].
      intros _. revert P. by apply pool_loop_total.
  - intros [E B]. fold (context_array cs). by apply context_array_size0.
Qed.

(** C25: the table size is a [quint16]: with 43691 distinct contexts,
    [3 * 43691 / 2 = 65536] wraps to 0 and [squeeze] divides by zero. *)
Theorem context_array_43691 (cs : list bytes) :
  Z.of_nat (length cs) = 43691 -> context_array cs = None.
Proof.
  intros L. apply context_array_size0; [by rewrite L|]. intros ->. discriminate.
Qed.

Lemma context_array_43691_witness :
  Z.of_nat (length (replicate (Z.to_nat 43691) [0x43])) = 43691 /\
  context_array (replicate (Z.to_nat 43691) [0x43]) = None.
Proof.
  split; [rewrite length_replicate; reflexivity|].
  apply context_array_43691. rewrite length_replicate. reflexivity.
Defined.

(** ** Stripped and full records differ only under hash collisions *)

Fixpoint no_adjacent_collision (ms : list ByteTranslatorMessage) : bool :=
  match ms with
  | m :: ((n :: _) as rest) => negb (msgHash m =? msgHash n) && no_adjacent_collision rest
  | _ => true
  end.



(** C16: when no two neighbouring records of the sorted map have the same
    hash, stripped mode writes exactly the message array and hash index
    of [SaveEverything]: fields are elided only between records whose
    hashes collide. *)
Theorem stripped_equals_everything (ms : list ByteTranslatorMessage) (pos : Z) :
  no_adjacent_collision ms = true ->
  write_messages SaveStripped 0 ms pos = write_messages SaveEverything 0 ms pos.
Proof.
  revert pos. induction ms as [|m ms IH]; intros pos Hn; [done|]. cbn [write_messages].
  assert (Hc : match ms with [] => 0 | n :: _ => prefix_value (commonPrefix m n) end = 0).
  { destruct ms as [|n ms']; [done|]. simpl in Hn. apply andb_true_iff in Hn as [Hn _].
    unfold commonPrefix. rewrite Hn. reflexivity. }
  rewrite Hc. replace (Z.max 0 (0 + 1)) with 1 by lia.
  assert (Hw : writeMessage m SaveStripped (prefix_of_int 1) = writeMessage m SaveEverything (prefix_of_int 1))
    by reflexivity.
  rewrite Hw. rewrite IH; [done|]. destruct ms as [|n ms']; [done|]. simpl in Hn.
  by apply andb_true_iff in Hn as [_ Hn].
Qed.

Lemma stripped_equals_everything_witness :
  no_adjacent_collision [BTM [0x43] [0x41] [] []; BTM [0x43] [0x42] [] []] = true /\
  write_messages SaveStripped 0 [BTM [0x43] [0x41] [] []; BTM [0x43] [0x42] [] []] 0 =
  write_messages SaveEverything 0 [BTM [0x43] [0x41] [] []; BTM [0x43] [0x42] [] []] 0.
Proof.
  assert (H0 : no_adjacent_collision [BTM [0x43] [0x41] [] []; BTM [0x43] [0x42] [] []] = true)
    by reflexivity.
  split; [exact H0|]. exact (stripped_equals_everything _ 0 H0).
Defined.
