(* ===== verification/LoadQM.v ===== *)
(** The reader of qm.cpp, [loadQM]: the magic check, the walk over the
    top-level blocks, and the decoding of one message record per entry of
    the hash index.  The decoder's state ([DecState]) is the set of local
    variables of [loadQM] that live across records ([context],
    [sourcetext], [comment], [translations]) together with [utf8Fail].
    Reads outside the buffer, which are undefined behaviour in the C++
    code, are the outcome [OutOfBounds]; a record loop that runs out of
    fuel is [Diverges] (the loop's control flow depends only on the read
    position, so a loop that visits more positions than the buffer has
    repeats a position and never ends). *)

From S2P Require Import Prelude QmFormat Translator.

(** ** Host byte order

    [QString((const QChar * )m, n)] reads code units in the host's byte
    order; on a little-endian host the loader swaps every unit. *)
Inductive ByteOrder := LittleEndian | BigEndian.

Definition host_unit (host : ByteOrder) (b0 b1 : Z) : Z :=
  match host with
  | LittleEndian => b0 + 256 * b1
  | BigEndian => b0 * 256 + b1
  end.

(** [QChar((u >> 8) + ((u << 8) & 0xff00))]. *)
Definition swap_unit (u : Z) : Z := Z.shiftr u 8 + Z.land (Z.shiftl u 8) 0xff00.

Definition fix_byte_order (host : ByteOrder) (us : list Z) : list Z :=
  match host with
  | LittleEndian => map swap_unit us
  | BigEndian => us
  end.

(** [int(read32(m))]: a [quint32] read into an [int]. *)
Definition to_int32 (v : Z) : Z := if v <? 2 ^ 31 then v else v - 2 ^ 32.

Inductive LoadResult :=
  | Loaded (tr : Translator) (ok : bool) (errors : list Diagnostic)
  | OutOfBounds
  | Diverges.

Record DecState := mkDecState {
  ds_context : QString;
  ds_sourcetext : QString;
  ds_comment : QString;
  ds_translations : list QStringN;
  ds_utf8Fail : bool
}.

Inductive RecResult :=
  | RecDone (st : DecState)
  | RecFormatError (st : DecState)
  | RecOOB
  | RecFuel.

Section Reader.
Context `{Utf8Codec} `{NumerusInfo} (host : ByteOrder).

(** [n] code units from position [p], in host order. *)
Fixpoint read_units (ba : bytes) (p : Z) (n : nat) : option (list Z) :=
  match n with
  | O => Some []
  | S n' =>
      match get8 ba p, get8 ba (p + 1), read_units ba (p + 2) n' with
      | Some b0, Some b1, Some us => Some (host_unit host b0 b1 :: us)
      | _, _, _ => None
      end
  end.

(** A negative size: the units up to the first zero unit. *)
Fixpoint read_units_nul (fuel : nat) (ba : bytes) (p : Z) : option (list Z) :=
  match fuel with
  | O => None
  | S f =>
      match get8 ba p, get8 ba (p + 1) with
      | Some b0, Some b1 =>
          let u := host_unit host b0 b1 in
          if u =? 0 then Some []
          else match read_units_nul f ba (p + 2) with
               | Some us => Some (u :: us)
               | None => None
               end
      | _, _ => None
      end
  end.

(** [QString((const QChar * )m, n)] followed by the byte swap. *)
Definition qstring_at (ba : bytes) (p n : Z) : option QString :=
  let us := if 0 <=? n then read_units ba p (Z.to_nat n)
            else read_units_nul (length ba) ba p in
  match us with
  | Some us => Some (fix_byte_order host us)
  | None => None
  end.

(** [fromBytes(m, len, &out, &utf8Fail)] after [quint32 len = read32(m)]:
    the length is passed as an [int], and the error flag is assigned,
    not accumulated. *)
Definition read_field (ba : bytes) (m : Z) : option (QString * bool * Z) :=
  match read32 ba m with
  | None => None
  | Some len =>
      if 2 ^ 31 <=? len then None
      else match get_range ba (m + 4) len with
           | None => None
           | Some b => let '(s, err) := fromUtf8 b in Some (s, err, m + 4 + len)
           end
  end.

Definition set_ctx (st : DecState) (s : QString) (e : bool) : DecState :=
  mkDecState s (ds_sourcetext st) (ds_comment st) (ds_translations st) e.
Definition set_src (st : DecState) (s : QString) (e : bool) : DecState :=
  mkDecState (ds_context st) s (ds_comment st) (ds_translations st) e.
Definition set_cmt (st : DecState) (s : QString) (e : bool) : DecState :=
  mkDecState (ds_context st) (ds_sourcetext st) s (ds_translations st) e.
Definition add_tln (st : DecState) (t : QStringN) : DecState :=
  mkDecState (ds_context st) (ds_sourcetext st) (ds_comment st) (ds_translations st ++ [t])
    (ds_utf8Fail st).

(** The [for (;;)] loop over the fields of one record. *)
Fixpoint decode_record (fuel : nat) (ba : bytes) (m : Z) (st : DecState) : RecResult :=
  match fuel with
  | O => RecFuel
  | S f =>
      match read8 ba m with
      | None => RecOOB
      | Some tag =>
          let m := m + 1 in
          match tag_of_byte tag with
          | Some Tag_End => RecDone st
          | Some Tag_Translation =>
              match read32 ba m with
              | None => RecOOB
              | Some v =>
                  let len := to_int32 v in
                  let m := m + 4 in
                  if negb (len =? -1) && Z.odd len then RecFormatError st
                  else
                    let str := if len =? -1 then Some None
                               else option_map Some (qstring_at ba m (Z.quot len 2)) in
                    match str with
                    | None => RecOOB
                    | Some s => decode_record f ba (m + len) (add_tln st s)
                    end
              end
          | Some Tag_Obsolete1 => decode_record f ba (m + 4) st
          | Some Tag_SourceText =>
              match read_field ba m with
              | None => RecOOB
              | Some (s, e, m') => decode_record f ba m' (set_src st s e)
              end
          | Some Tag_Context =>
              match read_field ba m with
              | None => RecOOB
              | Some (s, e, m') => decode_record f ba m' (set_ctx st s e)
              end
          | Some Tag_Comment =>
              match read_field ba m with
              | None => RecOOB
              | Some (s, e, m') => decode_record f ba m' (set_cmt st s e)
              end
          | _ => decode_record f ba m st
          end
      end
  end.

(** [sourcetext.contains(QLatin1String("%n"))]. *)
Fixpoint contains_pn (s : QString) : bool :=
  match s with
  | x :: s' =>
      (bool_decide (x = 0x25) && match s' with y :: _ => bool_decide (y = 0x6e) | [] => false end)
      || contains_pn s'
  | [] => false
  end.

(** The message built after [end:]; the translations are then cleared
    while context, source text and comment stay for the next record. *)
Definition build_message (guessPlurals : bool) (st : DecState) : TranslatorMessage :=
  let plural := if 1 <? Z.of_nat (length (ds_translations st)) then true
                else if guessPlurals then contains_pn (ds_sourcetext st) else false in
  mkMessage (ds_context st) (ds_sourcetext st) (ds_comment st) [] (ds_translations st)
    Finished plural.

Definition clear_tlns (st : DecState) : DecState :=
  mkDecState (ds_context st) (ds_sourcetext st) (ds_comment st) [] (ds_utf8Fail st).
End Reader.

(** ** The [Dependencies] block

    [while (!stream.atEnd()) { stream >> dep; dependencies.append(dep); }]
    on the block's payload.  [stream >> QString] (QDataStream, big-endian):
    a size of [0xFFFFFFFF] is the null string, [0] the empty one, an odd
    size clears the string ([ReadCorruptData]) after the four size bytes,
    and a short read clears it ([ReadPastEnd]) with the stream at its
    end; a size field cut short reads as 0. *)
Definition read_qstring_stream (pl : bytes) (p : Z) : QStringN * Z :=
  let n := Z.of_nat (length pl) in
  match read32 pl p with
  | None => (Some [], n)
  | Some sz =>
      if sz =? 0xFFFFFFFF then (None, p + 4)
      else if sz =? 0 then (Some [], p + 4)
      else if Z.odd sz then (None, p + 4)
      else match read_units BigEndian pl (p + 4) (Z.to_nat (sz / 2)) with
           | Some us => (Some us, p + 4 + sz)
           | None => (None, n)
           end
  end.

Fixpoint read_dependencies (fuel : nat) (pl : bytes) (p : Z) : list QStringN :=
  match fuel with
  | O => []
  | S f =>
      if Z.of_nat (length pl) <=? p then []
      else let '(d, p') := read_qstring_stream pl p in d :: read_dependencies f pl p'
  end.

(** ** The walk over the top-level blocks *)

Record ScanState := mkScan {
  sc_pos : Z;
  sc_offsetArray : option Z;
  sc_offsetLength : Z;
  sc_messageArray : option Z;
  sc_ok : bool;
  sc_utf8Fail : bool;
  sc_tr : Translator
}.

Section Loader.
Context `{Utf8Codec} `{NumerusInfo} (host : ByteOrder).

(** What one block of [blockLen] bytes at [data] does to the scan. *)
Definition handle_block (ba : bytes) (tag data blockLen : Z) (s : ScanState) : ScanState :=
  let pl := take (Z.to_nat blockLen) (drop (Z.to_nat data) ba) in
  match block_of_byte tag with
  | Some Hashes => mkScan (sc_pos s) (Some data) blockLen (sc_messageArray s) (sc_ok s)
                     (sc_utf8Fail s) (sc_tr s)
  | Some Messages => mkScan (sc_pos s) (sc_offsetArray s) (sc_offsetLength s) (Some data)
                       (sc_ok s) (sc_utf8Fail s) (sc_tr s)
  | Some Dependencies =>
      mkScan (sc_pos s) (sc_offsetArray s) (sc_offsetLength s) (sc_messageArray s) (sc_ok s)
        (sc_utf8Fail s)
        (tr_setDependencies (sc_tr s) (read_dependencies (S (length pl)) pl 0))
  | Some Language =>
      let '(lang, err) := fromUtf8 pl in
      mkScan (sc_pos s) (sc_offsetArray s) (sc_offsetLength s) (sc_messageArray s) (sc_ok s)
        err (tr_setLanguageCode (sc_tr s) lang)
  | _ => s
  end.

Definition set_pos (s : ScanState) (p : Z) : ScanState :=
  mkScan p (sc_offsetArray s) (sc_offsetLength s) (sc_messageArray s) (sc_ok s)
    (sc_utf8Fail s) (sc_tr s).
Definition set_not_ok (s : ScanState) : ScanState :=
  mkScan (sc_pos s) (sc_offsetArray s) (sc_offsetLength s) (sc_messageArray s) false
    (sc_utf8Fail s) (sc_tr s).

(** [while (data < end - 4)]: a zero tag or length stops the walk, a
    block longer than what remains stops it with [ok = false]. *)
Fixpoint scan_blocks (fuel : nat) (ba : bytes) (s : ScanState) : option ScanState :=
  match fuel with
  | O => None
  | S f =>
      if negb (sc_pos s <? Z.of_nat (length ba) - 4) then Some s
      else
        match read8 ba (sc_pos s), read32 ba (sc_pos s + 1) with
        | Some tag, Some blockLen =>
            let data := sc_pos s + 5 in
            if (tag =? 0) || (blockLen =? 0) then Some s
            else if Z.of_nat (length ba) <? data + blockLen then Some (set_not_ok s)
            else scan_blocks f ba (set_pos (handle_block ba tag data blockLen s) (data + blockLen))
        | _, _ => None
        end
  end.

Inductive ItemsResult :=
  | ItemsOk (tr : Translator) (st : DecState)
  | ItemsFormatError (tr : Translator)
  | ItemsOOB
  | ItemsDiverge.

(** The loop over the entries of the hash index: entry [k] gives the
    record's offset [ro] in the [Messages] block. *)
Fixpoint decode_items (ba : bytes) (offArr : Z) (msgArr : option Z) (ks : list nat)
    (guess : bool) (st : DecState) (tr : Translator) : ItemsResult :=
  match ks with
  | [] => ItemsOk tr st
  | k :: ks' =>
      match read32 ba (offArr + 8 * Z.of_nat k + 4), msgArr with
      | Some ro, Some ma =>
          match decode_record host (S (length ba)) ba (ma + ro) st with
          | RecDone st' =>
              decode_items ba offArr msgArr ks' guess (clear_tlns st')
                (tr_append tr (build_message guess st'))
          | RecFormatError _ => ItemsFormatError tr
          | RecOOB => ItemsOOB
          | RecFuel => ItemsDiverge
          end
      | _, _ => ItemsOOB
      end
  end.

(** [guessPlurals]: true unless the plural-form table knows the language
    and gives it more than one form. *)
Definition guessPlurals (language : QString) : bool :=
  match numerusForms language with
  | Some forms => Nat.eqb (length forms) 1
  | None => true
  end.

Definition loadQM (tr : Translator) (ba : bytes) : LoadResult :=
  if (Z.of_nat (length ba) <? MagicLength) || negb (bool_decide (take 16 ba = magic))
  then Loaded tr false [MagicMarkerMissing]
  else
    match scan_blocks (length ba) ba (mkScan MagicLength None 0 None true false tr) with
    | None => Diverges
    | Some s =>
        let numItems := Z.to_nat (sc_offsetLength s / 8) in
        let offArr := match sc_offsetArray s with Some o => o | None => 0 end in
        match decode_items ba offArr (sc_messageArray s) (seq 0 numItems)
                (guessPlurals (tr_language (sc_tr s)))
                (mkDecState [] [] [] [] (sc_utf8Fail s)) (sc_tr s) with
        | ItemsOk tr' st =>
            if ds_utf8Fail st then Loaded tr' false [InvalidUtf8] else Loaded tr' (sc_ok s) []
        | ItemsFormatError tr' => Loaded tr' false [QmFormatError]
        | ItemsOOB => OutOfBounds
        | ItemsDiverge => Diverges
        end
    end.
End Loader.

(** ** Errors of the loader *)

Section LoaderFacts.
Context `{Utf8Codec} `{NumerusInfo} (host : ByteOrder).

(** A buffer that does not open with the 16-byte magic number is
    refused at once, with the translator left as it was. *)
Theorem loadQM_bad_magic (tr : Translator) (ba : bytes) :
  take 16 ba <> magic -> loadQM host tr ba = Loaded tr false [MagicMarkerMissing].
Proof.
  intros Hm. unfold loadQM. rewrite bool_decide_eq_false_2 by done.
  by rewrite orb_true_r.
Qed.

(** One turn of the block walk, and its exit. *)
Lemma scan_blocks_step (f : nat) (ba : bytes) (s : ScanState) (tag blockLen : Z) :
  sc_pos s < Z.of_nat (length ba) - 4 ->
  read8 ba (sc_pos s) = Some tag -> read32 ba (sc_pos s + 1) = Some blockLen ->
  scan_blocks (S f) ba s =
    if (tag =? 0) || (blockLen =? 0) then Some s
    else if Z.of_nat (length ba) <? sc_pos s + 5 + blockLen then Some (set_not_ok s)
    else scan_blocks f ba (set_pos (handle_block ba tag (sc_pos s + 5) blockLen s)
                               (sc_pos s + 5 + blockLen)).
Proof.
  intros Hp Ht Hl. cbn [scan_blocks].
  destruct (Z.ltb_spec (sc_pos s) (Z.of_nat (length ba) - 4)); [|lia].
  simpl negb. cbv iota. by rewrite Ht, Hl.
Qed.

Lemma scan_blocks_exit (f : nat) (ba : bytes) (s : ScanState) :
  Z.of_nat (length ba) - 4 <= sc_pos s -> scan_blocks (S f) ba s = Some s.
Proof.
  intros Hp. cbn [scan_blocks].
  destruct (Z.ltb_spec (sc_pos s) (Z.of_nat (length ba) - 4)); [lia|]. reflexivity.
Qed.

Definition initScan (tr : Translator) : ScanState := mkScan MagicLength None 0 None true false tr.

(** What [loadQM] does after the scan, on the scan's final state. *)
Definition after_scan (tr : Translator) (ba : bytes) (r : option ScanState) : LoadResult :=
  match r with
  | None => Diverges
  | Some s =>
      let numItems := Z.to_nat (sc_offsetLength s / 8) in
      let offArr := match sc_offsetArray s with Some o => o | None => 0 end in
      match decode_items host ba offArr (sc_messageArray s) (seq 0 numItems)
              (guessPlurals (tr_language (sc_tr s)))
              (mkDecState [] [] [] [] (sc_utf8Fail s)) (sc_tr s) with
      | ItemsOk tr' st =>
          if ds_utf8Fail st then Loaded tr' false [InvalidUtf8] else Loaded tr' (sc_ok s) []
      | ItemsFormatError tr' => Loaded tr' false [QmFormatError]
      | ItemsOOB => OutOfBounds
      | ItemsDiverge => Diverges
      end
  end.

Lemma loadQM_magic (tr : Translator) (ba : bytes) :
  take 16 ba = magic ->
  loadQM host tr ba = after_scan tr ba (scan_blocks (length ba) ba (initScan tr)).
Proof.
  intros Hm. unfold loadQM. rewrite bool_decide_eq_true_2 by done.
  assert (16 <= length ba)%nat.
  { pose proof (length_take ba 16) as L. rewrite Hm in L. change (length magic) with 16%nat in L. lia. }
  destruct (Z.ltb_spec (Z.of_nat (length ba)) MagicLength); [unfold MagicLength in *; lia|].
  reflexivity.
Qed.

Lemma read8_at (pre post : bytes) (b : Z) :
  read8 (pre ++ b :: post) (Z.of_nat (length pre)) = Some b.
Proof.
  unfold read8. rewrite <- (Z.add_0_r (Z.of_nat (length pre))).
  rewrite get8_app_r by lia. reflexivity.
Qed.

(** A block whose declared length runs past the end of the buffer
    stops the walk with [ok = false]; the loader reports failure, but
    appends no diagnostic. *)
Theorem loadQM_truncated_block (tr : Translator) (t n : Z) (rest : bytes) :
  0 < t < 256 -> Z.of_nat (length rest) < n < 2 ^ 32 ->
  loadQM host tr (magic ++ [t] ++ put_u32 n ++ rest) = Loaded tr false [].
Proof.
  intros Ht Hn. set (ba := magic ++ [t] ++ put_u32 n ++ rest).
  assert (Hlen : length ba = (21 + length rest)%nat)
    by (subst ba; rewrite !length_app, length_put_u32; reflexivity).
  rewrite loadQM_magic by (subst ba; rewrite take_app_length' by reflexivity; done).
  rewrite Hlen. cbn [Nat.add].
  rewrite (scan_blocks_step _ _ _ t n).
  - simpl sc_pos. destruct (Z.eqb_spec t 0); [lia|]. destruct (Z.eqb_spec n 0); [lia|].
    rewrite Hlen. destruct (Z.ltb_spec (Z.of_nat (21 + length rest)) (MagicLength + 5 + n));
      [reflexivity|unfold MagicLength in *; lia].
  - simpl sc_pos. rewrite Hlen. unfold MagicLength. lia.
  - exact (read8_at magic (put_u32 n ++ rest) t).
  - subst ba. change (magic ++ [t] ++ put_u32 n ++ rest) with ((magic ++ [t]) ++ put_u32 n ++ rest).
    change (sc_pos (initScan tr) + 1) with (Z.of_nat (length (magic ++ [t]))).
    rewrite read32_put_u32, wrap32_small by lia. reflexivity.
Qed.

(** The sentinel length [0xFFFFFFFF] of a [Tag_Translation] field
    gives the null string.  The loader still executes [m += len] with
    [len = -1], steps back onto the last length byte, reads that [0xFF]
    as an unknown tag and so resumes right after the field. *)
Theorem decode_translation_sentinel (f : nat) (ba : bytes) (p : Z) (st : DecState) :
  0 <= p -> get8 ba p = Some 3 -> read32 ba (p + 1) = Some 0xFFFFFFFF ->
  get8 ba (p + 4) = Some 0xFF ->
  decode_record host (S (S f)) ba p st = decode_record host f ba (p + 5) (add_tln st None).
Proof.
  intros Hp H3 Hl Hff. cbn [decode_record]. unfold read8. rewrite H3. simpl tag_of_byte.
  cbv iota. rewrite Hl. unfold to_int32. simpl. cbv iota.
  replace (p + 1 + 4 + (4294967295 - 2 ^ 32)) with (p + 4) by lia. rewrite Hff. simpl.
  replace (p + 4 + 1) with (p + 5) by lia. reflexivity.
Qed.

(** A [Tag_Translation] field of odd byte length (other than the
    sentinel) is a format error that ends the record. *)
Theorem decode_translation_odd (f : nat) (ba : bytes) (p v : Z) (st : DecState) :
  get8 ba p = Some 3 -> read32 ba (p + 1) = Some v -> v <> 0xFFFFFFFF -> 0 <= v < 2 ^ 32 ->
  Z.odd v = true -> decode_record host (S f) ba p st = RecFormatError st.
Proof.
  intros H3 Hv Hs Hr Ho. cbn [decode_record]. unfold read8. rewrite H3. simpl tag_of_byte.
  cbv iota. rewrite Hv. unfold to_int32.
  destruct (Z.ltb_spec v (2 ^ 31)).
  - destruct (Z.eqb_spec v (-1)); [lia|]. rewrite Ho. reflexivity.
  - destruct (Z.eqb_spec (v - 2 ^ 32) (-1)); [lia|].
    replace (Z.odd (v - 2 ^ 32)) with (Z.odd v); [rewrite Ho; reflexivity|].
    rewrite Z.odd_sub. rewrite Ho. reflexivity.
Qed.
End LoaderFacts.

(** [contains_pn] is [QString::contains("%n")]: it holds exactly when
    the code units [%] and [n] occur next to each other. *)
Theorem contains_pn_spec (s : QString) :
  contains_pn s = true <-> exists a b, s = a ++ [0x25; 0x6e] ++ b.
Proof.
  induction s as [|x s IH]; simpl.
  - split; [done|]. intros (a & b & E). destruct a; discriminate.
  - rewrite orb_true_iff, IH. split.
    + intros [Hh|(a & b & E)].
      * apply andb_true_iff in Hh as [Hx Hy]. apply bool_decide_eq_true in Hx as ->.
        destruct s as [|y s']; [done|]. apply bool_decide_eq_true in Hy as ->.
        by exists [], s'.
      * exists (x :: a), b. by rewrite E.
    + intros (a & b & E). destruct a as [|y a]; simpl in E; inversion E; subst.
      * left. by rewrite !bool_decide_eq_true_2.
      * right. by exists a, b.
Qed.

(** ** The byte swap makes the loader independent of the host *)

Lemma get8_byte (ba : bytes) (p b : Z) : all_bytes ba -> get8 ba p = Some b -> 0 <= b < 256.
Proof.
  unfold get8, all_bytes. intros Hb. destruct (p <? 0); [done|].
  intros Hl. eapply (Forall_lookup_1 _ _ _ _ Hb Hl).
Qed.

Lemma swap_unit_le (b0 b1 : Z) : 0 <= b0 < 256 -> 0 <= b1 < 256 ->
  swap_unit (host_unit LittleEndian b0 b1) = host_unit BigEndian b0 b1.
Proof.
  intros H0 H1. unfold swap_unit, host_unit.
  change 0xff00 with (Z.shiftl (Z.ones 8) 8).
  rewrite <- Z.shiftl_land, Z.land_ones, Z.shiftr_div_pow2, Z.shiftl_mul_pow2 by lia.
  change (2 ^ 8) with 256.
  replace (b0 + 256 * b1) with (b0 + b1 * 256) by lia.
  rewrite Z.div_add, Z.mod_add, (Z.div_small b0), (Z.mod_small b0) by lia. lia.
Qed.

Lemma read_units_host (ba : bytes) (p : Z) (n : nat) : all_bytes ba ->
  option_map (fix_byte_order LittleEndian) (read_units LittleEndian ba p n) =
  read_units BigEndian ba p n.
Proof.
  intros Hb. revert p. induction n as [|n IH]; intros p; cbn [read_units]; [done|].
  destruct (get8 ba p) as [b0|] eqn:E0; [|done]. destruct (get8 ba (p + 1)) as [b1|] eqn:E1; [|done].
  specialize (IH (p + 2)). destruct (read_units LittleEndian ba (p + 2) n);
    destruct (read_units BigEndian ba (p + 2) n); cbn [option_map fix_byte_order map] in *; try done.
  injection IH as <-. rewrite swap_unit_le by (eapply get8_byte; eauto). done.
Qed.

Lemma read_units_nul_host (fuel : nat) (ba : bytes) (p : Z) : all_bytes ba ->
  option_map (fix_byte_order LittleEndian) (read_units_nul LittleEndian fuel ba p) =
  read_units_nul BigEndian fuel ba p.
Proof.
  intros Hb. revert p. induction fuel as [|f IH]; intros p; cbn [read_units_nul]; [done|].
  destruct (get8 ba p) as [b0|] eqn:E0; [|done]. destruct (get8 ba (p + 1)) as [b1|] eqn:E1; [|done].
  pose proof (get8_byte _ _ _ Hb E0). pose proof (get8_byte _ _ _ Hb E1).
  assert (Hz : (host_unit LittleEndian b0 b1 =? 0) = (host_unit BigEndian b0 b1 =? 0))
    by (unfold host_unit; zbool_cases; lia).
  rewrite Hz. destruct (host_unit BigEndian b0 b1 =? 0); [done|].
  specialize (IH (p + 2)). destruct (read_units_nul LittleEndian f ba (p + 2));
    destruct (read_units_nul BigEndian f ba (p + 2)); cbn [option_map fix_byte_order map] in *;
    try done.
  injection IH as <-. rewrite swap_unit_le by done. done.
Qed.

Lemma qstring_at_host (ba : bytes) (p n : Z) : all_bytes ba ->
  qstring_at LittleEndian ba p n = qstring_at BigEndian ba p n.
Proof.
  intros Hb. unfold qstring_at. destruct (0 <=? n).
  - rewrite <- (read_units_host ba p (Z.to_nat n) Hb).
    by destruct (read_units LittleEndian ba p (Z.to_nat n)).
  - rewrite <- (read_units_nul_host (length ba) ba p Hb).
    by destruct (read_units_nul LittleEndian (length ba) ba p).
Qed.

Section HostIndependence.
Context `{Utf8Codec} `{NumerusInfo}.

Lemma decode_record_host (fuel : nat) (ba : bytes) (m : Z) (st : DecState) : all_bytes ba ->
  decode_record LittleEndian fuel ba m st = decode_record BigEndian fuel ba m st.
Proof.
  intros Hb. revert m st. induction fuel as [|f IH]; intros m st; [done|].
  cbn [decode_record]. destruct (read8 ba m) as [tag|]; [|done].
  destruct (tag_of_byte tag) as [[]|]; try apply IH.
  - done.
  - destruct (read32 ba (m + 1)) as [v|]; [|done].
    destruct (negb _ && _); [done|]. destruct (_ =? -1); [apply IH|].
    rewrite qstring_at_host by done. destruct (qstring_at BigEndian _ _ _); [apply IH|done].
  - destruct (read_field ba (m + 1)) as [[[s e] m']|]; [apply IH|done].
  - destruct (read_field ba (m + 1)) as [[[s e] m']|]; [apply IH|done].
  - destruct (read_field ba (m + 1)) as [[[s e] m']|]; [apply IH|done].
Qed.

Lemma decode_items_host (ba : bytes) (offArr : Z) (msgArr : option Z) (ks : list nat)
    (guess : bool) (st : DecState) (tr : Translator) : all_bytes ba ->
  decode_items LittleEndian ba offArr msgArr ks guess st tr =
  decode_items BigEndian ba offArr msgArr ks guess st tr.
Proof.
  intros Hb. revert st tr. induction ks as [|k ks IH]; intros st tr; [done|].
  cbn [decode_items]. destruct (read32 ba _) as [ro|]; [|done].
  destruct msgArr as [ma|]; [|done]. rewrite decode_record_host by done.
  destruct (decode_record BigEndian _ _ _ _); try done.
Qed.

(** The loader gives the same result on a little-endian and on a
    big-endian host: the byte swap of the translation code units exactly
    compensates for the host order of [QChar]. *)
Theorem loadQM_host_independent (tr : Translator) (ba : bytes) : all_bytes ba ->
  loadQM LittleEndian tr ba = loadQM BigEndian tr ba.
Proof.
  intros Hb. unfold loadQM. case_match; [done|].
  destruct (scan_blocks (length ba) ba _); [|done].
  by rewrite decode_items_host.
Qed.
End HostIndependence.

(** ** Two crafted catalogs *)

(** A catalog whose only record starts with [Tag_Translation] and the
    length [0xFFFFFFFA] (the [int] -6), preceded by a zero byte. *)
Definition looping_qm : bytes :=
  magic ++ [0x42] ++ put_u32 8 ++ put_u32 1 ++ put_u32 1
        ++ [0x69] ++ put_u32 8 ++ [0x00; 0x03; 0xFF; 0xFF; 0xFF; 0xFA; 0x00; 0x00].

Section Crafted.
Context `{Utf8Codec} `{NumerusInfo} (host : ByteOrder).

Lemma looping_step35 (n : nat) (st : DecState) :
  decode_record host (S n) looping_qm 35 st =
  decode_record host n looping_qm 34 (add_tln st (Some [])).
Proof. destruct host; reflexivity. Qed.

Lemma looping_step34 (n : nat) (st : DecState) :
  decode_record host (S n) looping_qm 34 st = decode_record host n looping_qm 35 st.
Proof. reflexivity. Qed.

Lemma looping_record (n : nat) : forall st,
  decode_record host n looping_qm 35 st = RecFuel /\
  decode_record host n looping_qm 34 st = RecFuel.
Proof.
  induction n as [|n IH]; intros st; [done|].
  rewrite looping_step35, looping_step34. split; apply IH.
Qed.

(** C26: a crafted record makes [loadQM] loop forever: a negative
    translation length moves the read position backwards onto an
    ignored byte, then onto the same field again.  No amount of fuel
    ends the record loop, so the loader diverges. *)
Theorem loadQM_diverges (tr : Translator) :
  (forall fuel st, decode_record host fuel looping_qm 35 st = RecFuel) /\
  loadQM host tr looping_qm = Diverges.
Proof.
  split; [intros; apply looping_record|].
  rewrite loadQM_magic by reflexivity. change (length looping_qm) with 42%nat.
  unfold after_scan. vm_compute (scan_blocks 42 looping_qm (initScan tr)).
  cbv iota. cbn [sc_offsetLength sc_offsetArray sc_messageArray].
  change (seq 0 (Z.to_nat (8 / 8))) with [0%nat]. cbn [decode_items].
  change (read32 looping_qm (21 + 8 * Z.of_nat 0 + 4)) with (Some 1).
  cbv iota. change (34 + 1) with 35. rewrite (proj1 (looping_record _ _)). reflexivity.
Qed.
End Crafted.

(** A catalog whose only record has a source text that is not UTF-8
    ([0xFF]) followed by a valid context ["C"]. *)
Definition utf8_masked_qm : bytes :=
  magic ++ [0x42] ++ put_u32 8 ++ put_u32 1 ++ put_u32 0
        ++ [0x69] ++ put_u32 13 ++ [0x06] ++ put_u32 1 ++ [0xFF]
        ++ [0x07] ++ put_u32 1 ++ [0x43] ++ [0x01].

(** An invalid UTF-8 field is not reported when a valid field is
    decoded after it: [fromBytes] assigns [utf8Fail] instead of
    accumulating it, so the load succeeds and the source text silently
    becomes U+FFFD. *)
Theorem loadQM_utf8_error_masked (host : ByteOrder) :
  loadQM host emptyTranslator utf8_masked_qm =
  Loaded (mkTranslator [mkMessage [0x43] [0xFFFD] [] [] [] Finished false] [] []) true [].
Proof. destruct host; vm_compute; reflexivity. Qed.

(** ** Witnesses on small buffers *)

Lemma loadQM_bad_magic_witness :
  take 16 [0x3c; 0xb8] <> magic /\
  loadQM BigEndian emptyTranslator [0x3c; 0xb8] = Loaded emptyTranslator false [MagicMarkerMissing].
Proof.
  assert (H0 : take 16 [0x3c; 0xb8] <> magic) by discriminate.
  split; [exact H0|]. exact (loadQM_bad_magic BigEndian emptyTranslator _ H0).
Defined.

Lemma loadQM_truncated_block_witness :
  (0 < 0x42 < 256 /\ Z.of_nat (length [0x00; 0x01]) < 100 < 2 ^ 32) /\
  loadQM LittleEndian emptyTranslator (magic ++ [0x42] ++ put_u32 100 ++ [0x00; 0x01]) =
  Loaded emptyTranslator false [].
Proof.
  assert (H0 : 0 < 0x42 < 256) by lia.
  assert (H1 : Z.of_nat (length [0x00; 0x01]) < 100 < 2 ^ 32) by (simpl; lia).
  split; [split; [exact H0|exact H1]|].
  exact (loadQM_truncated_block LittleEndian emptyTranslator 0x42 100 _ H0 H1).
Defined.

Definition null_tln : bytes := [3; 0xFF; 0xFF; 0xFF; 0xFF; 1].

Lemma decode_translation_sentinel_witness :
  (0 <= 0 /\ get8 null_tln 0 = Some 3 /\ read32 null_tln (0 + 1) = Some 0xFFFFFFFF /\
   get8 null_tln (0 + 4) = Some 0xFF) /\
  decode_record BigEndian 3 null_tln 0 (mkDecState [] [] [] [] false) =
  decode_record BigEndian 1 null_tln (0 + 5) (add_tln (mkDecState [] [] [] [] false) None).
Proof.
  assert (H0 : 0 <= 0) by lia.
  assert (H1 : get8 null_tln 0 = Some 3) by reflexivity.
  assert (H2 : read32 null_tln (0 + 1) = Some 0xFFFFFFFF) by reflexivity.
  assert (H3 : get8 null_tln (0 + 4) = Some 0xFF) by reflexivity.
  split; [repeat split; assumption|].
  exact (decode_translation_sentinel BigEndian 1 null_tln 0 _ H0 H1 H2 H3).
Defined.

Definition odd_tln : bytes := [3; 0; 0; 0; 3; 0; 0x41; 0].

Lemma decode_translation_odd_witness :
  (get8 odd_tln 0 = Some 3 /\ read32 odd_tln (0 + 1) = Some 3 /\ 3 <> 0xFFFFFFFF /\
   0 <= 3 < 2 ^ 32 /\ Z.odd 3 = true) /\
  decode_record LittleEndian 5 odd_tln 0 (mkDecState [] [] [] [] false) =
  RecFormatError (mkDecState [] [] [] [] false).
Proof.
  assert (H0 : get8 odd_tln 0 = Some 3) by reflexivity.
  assert (H1 : read32 odd_tln (0 + 1) = Some 3) by reflexivity.
  assert (H2 : 3 <> 0xFFFFFFFF) by lia.
  assert (H3 : 0 <= 3 < 2 ^ 32) by lia.
  assert (H4 : Z.odd 3 = true) by reflexivity.
  split; [exact (conj H0 (conj H1 (conj H2 (conj H3 H4))))|].
  exact (decode_translation_odd LittleEndian 4 odd_tln 0 3 _ H0 H1 H2 H3 H4).
Defined.

Lemma loadQM_host_independent_witness :
  all_bytes utf8_masked_qm /\
  loadQM LittleEndian emptyTranslator utf8_masked_qm = loadQM BigEndian emptyTranslator utf8_masked_qm.
Proof.
  assert (H0 : all_bytes utf8_masked_qm) by (apply (bool_decide_unpack _); vm_compute; reflexivity).
  split; [exact H0|]. exact (loadQM_host_independent emptyTranslator utf8_masked_qm H0).
Defined.
