(* ===== verification/RoundTrip.v ===== *)
(** What the reader of qm.cpp gives back from what its writer wrote.

    The first part decodes one record written by [writeMessage] in
    [SaveEverything] mode; the second walks the message array and the
    hash index built by [squeeze]; the third walks the blocks of [save]
    and proves that [loadQM] returns the records of the [Releaser], in
    the order of the hash index, which is a permutation of the order of
    the map.  Stripped mode is different: a concrete pair of records
    whose hashes collide loses a comment. *)

From S2P Require Import Prelude QmFormat Translator Releaser LoadQM.

(** ** Well-formed data

    Translation code units are 16-bit values ([QChar]); the byte length of
    a translation fits in an [int]. *)
Definition unit16 (u : Z) : Prop := 0 <= u < 2 ^ 16.

Definition good_tln (t : QStringN) : Prop :=
  match t with
  | None => True
  | Some us => Forall unit16 us /\ 2 * Z.of_nat (length us) < 2 ^ 31
  end.

(** The fuel one translation field takes: the sentinel takes two turns of
    the loop. *)
Definition tsteps (t : QStringN) : nat := match t with None => 2 | Some _ => 1 end.

Definition msteps (m : ByteTranslatorMessage) : nat :=
  sum_list_with tsteps (btm_translations m) + 4.

Lemma read8_app (pre post : bytes) (b : Z) :
  read8 (pre ++ b :: post) (Z.of_nat (length pre)) = Some b.
Proof.
  unfold read8. rewrite <- (Z.add_0_r (Z.of_nat (length pre))).
  rewrite get8_app_r by lia. reflexivity.
Qed.

Lemma unit16_split (u : Z) : unit16 u -> (u / 256) mod 256 * 256 + u mod 256 = u.
Proof.
  unfold unit16. intros Hu. rewrite (Z.mod_small (u / 256)) by (split; [apply Z.div_pos | apply Z.div_lt_upper_bound]; lia).
  pose proof (Z.div_mod u 256). lia.
Qed.

Section RecordDecode.
Context `{Utf8Codec} (host : ByteOrder).

Definition unit_bytes (u : Z) : Z := host_unit host ((u / 256) mod 256) (u mod 256).

Lemma fix_unit_bytes (us : list Z) : Forall unit16 us ->
  fix_byte_order host (map unit_bytes us) = us.
Proof.
  unfold unit_bytes. intros Hu. destruct host; cbn [fix_byte_order].
  - rewrite map_map. rewrite <- (map_id us) at 2. apply map_ext_in.
    intros u Hin%list_elem_of_In. rewrite swap_unit_le by (apply Z.mod_pos_bound; lia).
    apply Forall_forall with (x := u) in Hu; [|done]. apply unit16_split in Hu. done.
  - rewrite <- (map_id us) at 2. apply map_ext_in.
    intros u Hin%list_elem_of_In.
    apply Forall_forall with (x := u) in Hu; [|done]. apply unit16_split in Hu. done.
Qed.

Lemma read_units_put_u16 (pre post : bytes) (us : list Z) :
  read_units host (pre ++ concat (map put_u16 us) ++ post) (Z.of_nat (length pre)) (length us)
  = Some (map unit_bytes us).
Proof.
  revert pre. induction us as [|u us IH]; intros pre; [done|].
  cbn [length read_units map concat]. change (put_u16 u) with [(u / 256) mod 256; u mod 256].
  set (a := (u / 256) mod 256). set (b := u mod 256).
  replace (pre ++ ([a; b] ++ concat (map put_u16 us)) ++ post)
    with (pre ++ a :: b :: concat (map put_u16 us) ++ post) by (rewrite <- !app_assoc; reflexivity).
  rewrite <- (Z.add_0_r (Z.of_nat (length pre))) at 1.
  rewrite !get8_app_r by lia. rewrite get8_cons_0.
  replace (get8 (a :: b :: concat (map put_u16 us) ++ post) 1) with (Some b) by reflexivity.
  replace (pre ++ a :: b :: concat (map put_u16 us) ++ post)
    with ((pre ++ [a; b]) ++ concat (map put_u16 us) ++ post) by (rewrite <- !app_assoc; reflexivity).
  replace (Z.of_nat (length pre) + 2) with (Z.of_nat (length (pre ++ [a; b])))
    by (rewrite length_app; simpl; lia).
  rewrite IH. reflexivity.
Qed.

(** One turn of the record loop on each kind of field the writer
    produces. *)
Lemma decode_step_tln (f : nat) (ba : bytes) (p n : Z) (us : list Z) (st : DecState) :
  read8 ba p = Some 3 -> read32 ba (p + 1) = Some (2 * n) -> 0 <= n -> 2 * n < 2 ^ 31 ->
  qstring_at host ba (p + 5) n = Some us ->
  decode_record host (S f) ba p st = decode_record host f ba (p + 5 + 2 * n) (add_tln st (Some us)).
Proof.
  intros H3 Hl Hn Hb Hq. cbn [decode_record]. rewrite H3. simpl tag_of_byte. cbv iota zeta.
  rewrite Hl. unfold to_int32. zbool_cases.
  replace (Z.odd (2 * n)) with false by (rewrite Z.odd_mul; reflexivity).
  rewrite ?andb_false_r. cbv iota.
  replace (Z.quot (2 * n) 2) with n by (rewrite Z.mul_comm, Z.quot_mul; lia).
  replace (p + 1 + 4) with (p + 5) by lia. rewrite Hq. reflexivity.
Qed.

Lemma decode_step_null (f : nat) (ba : bytes) (p : Z) (st : DecState) :
  read8 ba p = Some 3 -> read32 ba (p + 1) = Some 0xFFFFFFFF -> read8 ba (p + 4) = Some 0xFF ->
  decode_record host (S (S f)) ba p st = decode_record host f ba (p + 5) (add_tln st None).
Proof.
  intros H3 Hl Hff. cbn [decode_record]. rewrite H3. simpl tag_of_byte. cbv iota zeta.
  rewrite Hl. unfold to_int32. simpl. cbv iota.
  replace (p + 1 + 4 + (4294967295 - 2 ^ 32)) with (p + 4) by lia. rewrite Hff. simpl.
  replace (p + 4 + 1) with (p + 5) by lia. reflexivity.
Qed.

Definition apply_field (t : Tag) : DecState -> QString -> bool -> DecState :=
  match t with
  | Tag_Context => set_ctx
  | Tag_SourceText => set_src
  | _ => set_cmt
  end.

Definition text_tag (t : Tag) : Prop := t = Tag_Context \/ t = Tag_SourceText \/ t = Tag_Comment.

Lemma decode_step_field (f : nat) (ba : bytes) (p p' : Z) (t : Tag) (s : QString) (e : bool)
    (st : DecState) :
  text_tag t -> read8 ba p = Some (tag_value t) -> read_field ba (p + 1) = Some (s, e, p') ->
  decode_record host (S f) ba p st = decode_record host f ba p' (apply_field t st s e).
Proof.
  intros Ht H3 Hr. cbn [decode_record]. rewrite H3.
  destruct Ht as [->|[->| ->]]; simpl tag_of_byte; cbv iota zeta; by rewrite Hr.
Qed.

Lemma decode_step_end (f : nat) (ba : bytes) (p : Z) (st : DecState) :
  read8 ba p = Some 1 -> decode_record host (S f) ba p st = RecDone st.
Proof. intros H1. cbn [decode_record]. by rewrite H1. Qed.

Lemma apply_field_fail t st s e : text_tag t -> ds_utf8Fail (apply_field t st s e) = e.
Proof. by intros [->|[->| ->]]. Qed.

(** C27: [fromBytes] assigns [utf8Fail] rather than or-ing it: in any
    record of two text fields, whatever the fields, the byte order and
    the codec, the flag the record loop ends with is the second field's
    alone, so an invalid first field followed by a valid one is
    forgotten. *)
Theorem record_utf8_error_masked (f : nat) (ba : bytes) (p p1 p2 : Z) (t1 t2 : Tag)
    (s1 s2 : QString) (e1 e2 : bool) (st : DecState) :
  text_tag t1 -> text_tag t2 ->
  read8 ba p = Some (tag_value t1) -> read_field ba (p + 1) = Some (s1, e1, p1) ->
  read8 ba p1 = Some (tag_value t2) -> read_field ba (p1 + 1) = Some (s2, e2, p2) ->
  read8 ba p2 = Some 1 ->
  exists st', decode_record host (S (S (S f))) ba p st = RecDone st' /\ ds_utf8Fail st' = e2.
Proof.
  intros Ht1 Ht2 H1 Hf1 H2 Hf2 Hend.
  rewrite (decode_step_field _ _ _ _ _ _ _ _ Ht1 H1 Hf1), (decode_step_field _ _ _ _ _ _ _ _ Ht2 H2 Hf2),
    (decode_step_end _ _ _ _ Hend).
  eexists. split; [reflexivity|]. by apply apply_field_fail.
Qed.
End RecordDecode.

(** A source text with the invalid byte 0xFF, then the context "C". *)
Definition masked_record : bytes :=
  [tag_value Tag_SourceText] ++ put_u32 1 ++ [0xFF] ++ [tag_value Tag_Context] ++ put_u32 1 ++ [0x43] ++ [0x01].

Lemma record_utf8_error_masked_witness :
  (text_tag Tag_SourceText /\ text_tag Tag_Context /\
   read8 masked_record 0 = Some (tag_value Tag_SourceText) /\
   read_field masked_record (0 + 1) = Some ([0xFFFD], true, 6) /\
   read8 masked_record 6 = Some (tag_value Tag_Context) /\
   read_field masked_record (6 + 1) = Some ([0x43], false, 12) /\
   read8 masked_record 12 = Some 1) /\
  exists st', decode_record LittleEndian 3 masked_record 0 (mkDecState [] [] [] [] false) = RecDone st' /\
    ds_utf8Fail st' = false.
Proof.
  assert (Ht1 : text_tag Tag_SourceText) by (right; left; reflexivity).
  assert (Ht2 : text_tag Tag_Context) by (left; reflexivity).
  assert (H1 : read8 masked_record 0 = Some (tag_value Tag_SourceText)) by reflexivity.
  assert (Hf1 : read_field masked_record (0 + 1) = Some ([0xFFFD], true, 6)) by (vm_compute; reflexivity).
  assert (H2 : read8 masked_record 6 = Some (tag_value Tag_Context)) by reflexivity.
  assert (Hf2 : read_field masked_record (6 + 1) = Some ([0x43], false, 12)) by (vm_compute; reflexivity).
  assert (Hend : read8 masked_record 12 = Some 1) by reflexivity.
  split; [split_and!; assumption|].
  exact (record_utf8_error_masked LittleEndian 0 masked_record 0 6 12 Tag_SourceText Tag_Context
    [0xFFFD] [0x43] true false (mkDecState [] [] [] [] false) Ht1 Ht2 H1 Hf1 H2 Hf2 Hend).
Defined.

Section RecordLayout.
Context `{Utf8Codec} (host : ByteOrder).

Lemma qstring_at_put (pre post : bytes) (us : list Z) : Forall unit16 us ->
  qstring_at host (pre ++ concat (map put_u16 us) ++ post) (Z.of_nat (length pre))
    (Z.of_nat (length us)) = Some us.
Proof.
  intros Hu. unfold qstring_at. destruct (Z.leb_spec 0 (Z.of_nat (length us))); [|lia].
  rewrite Nat2Z.id, read_units_put_u16, fix_unit_bytes by done. reflexivity.
Qed.

Lemma length_put_u16s (us : list Z) : length (concat (map put_u16 us)) = (2 * length us)%nat.
Proof. induction us as [|u us IH]; simpl; [done|]. rewrite IH. lia. Qed.

Lemma write_translation_step (pre post : bytes) (t : QStringN) (f : nat) (st : DecState) :
  good_tln t ->
  decode_record host (tsteps t + f) (pre ++ write_translation t ++ post) (Z.of_nat (length pre)) st =
  decode_record host f (pre ++ write_translation t ++ post)
    (Z.of_nat (length pre) + Z.of_nat (length (write_translation t))) (add_tln st t).
Proof.
  intros Hg. set (p := Z.of_nat (length pre)).
  assert (R8 : forall i, 0 <= i -> read8 (pre ++ write_translation t ++ post) (p + i) =
                                   read8 (write_translation t ++ post) i) by (intros; by apply read8_off).
  assert (R32 : forall i, 0 <= i -> read32 (pre ++ write_translation t ++ post) (p + i) =
                                    read32 (write_translation t ++ post) i) by (intros; by apply read32_off).
  unfold write_translation in *. change (put_u8 (tag_value Tag_Translation)) with [3] in *.
  destruct t as [us|]; cbn [tsteps Nat.add put_qstring] in *.
  - destruct Hg as [Hu Hlen]. set (n := Z.of_nat (length us)) in *.
    erewrite decode_step_tln with (n := n) (us := us); [| | | lia | lia |].
    + f_equal. rewrite !length_app, length_put_u32, length_put_u16s. simpl. lia.
    + rewrite <- (Z.add_0_r p), R8 by lia. reflexivity.
    + rewrite R32 by lia. rewrite <- !app_assoc. change 1 with (Z.of_nat (length [3])).
      rewrite (read32_put_u32 [3]), wrap32_small by lia. reflexivity.
    + replace ((pre ++ ([3] ++ put_u32 (2 * n) ++ concat (map put_u16 us)) ++ post))
        with ((pre ++ [3] ++ put_u32 (2 * n)) ++ concat (map put_u16 us) ++ post)
        by (rewrite <- !app_assoc; reflexivity).
      replace (p + 5) with (Z.of_nat (length (pre ++ [3] ++ put_u32 (2 * n))))
        by (rewrite !length_app, length_put_u32; simpl; lia).
      by apply qstring_at_put.
  - rewrite decode_step_null.
    + f_equal; rewrite ?length_app, ?length_put_u32; simpl; lia.
    + rewrite <- (Z.add_0_r p), R8 by lia. reflexivity.
    + rewrite R32 by lia. reflexivity.
    + rewrite R8 by lia. reflexivity.
Qed.
Lemma add_tlns (ts : list QStringN) (st : DecState) :
  fold_left add_tln ts st =
  mkDecState (ds_context st) (ds_sourcetext st) (ds_comment st) (ds_translations st ++ ts)
    (ds_utf8Fail st).
Proof.
  revert st. induction ts as [|t ts IH]; intros st; simpl.
  - destruct st; simpl. by rewrite app_nil_r.
  - rewrite IH. simpl. by rewrite <- app_assoc.
Qed.

Lemma decode_translations (pre post : bytes) (ts : list QStringN) (f : nat) (st : DecState) :
  Forall good_tln ts ->
  decode_record host (sum_list_with tsteps ts + f)
    (pre ++ concat (map write_translation ts) ++ post) (Z.of_nat (length pre)) st =
  decode_record host f (pre ++ concat (map write_translation ts) ++ post)
    (Z.of_nat (length pre) + Z.of_nat (length (concat (map write_translation ts))))
    (fold_left add_tln ts st).
Proof.
  revert pre st. induction ts as [|t ts IH]; intros pre st Hg.
  - simpl. by rewrite Z.add_0_r.
  - apply Forall_cons in Hg as [Ht Hts]. cbn [sum_list_with map concat fold_left].
    rewrite <- Nat.add_assoc, <- !app_assoc, write_translation_step by done.
    replace (pre ++ write_translation t ++ concat (map write_translation ts) ++ post)
      with ((pre ++ write_translation t) ++ concat (map write_translation ts) ++ post)
      by (rewrite <- !app_assoc; reflexivity).
    replace (Z.of_nat (length pre) + Z.of_nat (length (write_translation t)))
      with (Z.of_nat (length (pre ++ write_translation t))) by (rewrite length_app; lia).
    rewrite IH by done. f_equal. rewrite !length_app. lia.
Qed.

Lemma read_field_put (pre post b : bytes) : Z.of_nat (length b) < 2 ^ 31 ->
  read_field (pre ++ put_bytearray b ++ post) (Z.of_nat (length pre)) =
  Some ((fromUtf8 b).1, (fromUtf8 b).2, Z.of_nat (length pre) + 4 + Z.of_nat (length b)).
Proof.
  intros Hb. unfold read_field, put_bytearray. rewrite <- app_assoc.
  rewrite read32_put_u32, wrap32_small by lia.
  destruct (Z.leb_spec (2 ^ 31) (Z.of_nat (length b))); [lia|].
  replace (pre ++ put_u32 (Z.of_nat (length b)) ++ b ++ post)
    with ((pre ++ put_u32 (Z.of_nat (length b))) ++ b ++ post) by (rewrite <- !app_assoc; reflexivity).
  replace (Z.of_nat (length pre) + 4) with (Z.of_nat (length (pre ++ put_u32 (Z.of_nat (length b)))))
    by (rewrite length_app, length_put_u32; lia).
  rewrite get_range_app. by destruct (fromUtf8 b).
Qed.

Lemma field_step (pre post b : bytes) (t : Tag) (f : nat) (st : DecState) :
  text_tag t -> Z.of_nat (length b) < 2 ^ 31 ->
  decode_record host (S f) (pre ++ field t b ++ post) (Z.of_nat (length pre)) st =
  decode_record host f (pre ++ field t b ++ post)
    (Z.of_nat (length pre) + Z.of_nat (length (field t b)))
    (apply_field t st (fromUtf8 b).1 (fromUtf8 b).2).
Proof.
  intros Ht Hb. unfold field.
  assert (E : put_u8 (tag_value t) = [tag_value t])
    by (destruct Ht as [->|[->| ->]]; reflexivity).
  rewrite E. rewrite (decode_step_field host f _ _
    (Z.of_nat (length pre) + Z.of_nat (length ([tag_value t] ++ put_bytearray b))) t
    (fromUtf8 b).1 (fromUtf8 b).2); [done | done | apply read8_app |].
  replace (pre ++ ([tag_value t] ++ put_bytearray b) ++ post)
    with ((pre ++ [tag_value t]) ++ put_bytearray b ++ post) by (rewrite <- !app_assoc; reflexivity).
  replace (Z.of_nat (length pre) + 1) with (Z.of_nat (length (pre ++ [tag_value t])))
    by (rewrite length_app; simpl; lia).
  rewrite read_field_put by done. f_equal. f_equal.
  unfold put_bytearray. rewrite !length_app, length_put_u32. simpl. lia.
Qed.
(** The same steps on a buffer known only through the segment it
    holds at the read position. *)
Lemma translations_at (ba pre post : bytes) (p : Z) (ts : list QStringN) (f : nat) (st : DecState) :
  ba = pre ++ concat (map write_translation ts) ++ post -> p = Z.of_nat (length pre) ->
  Forall good_tln ts ->
  decode_record host (sum_list_with tsteps ts + f) ba p st =
  decode_record host f ba (p + Z.of_nat (length (concat (map write_translation ts))))
    (fold_left add_tln ts st).
Proof. intros -> ->. apply decode_translations. Qed.

Lemma field_at (ba pre post b : bytes) (p : Z) (t : Tag) (f : nat) (st : DecState) :
  ba = pre ++ field t b ++ post -> p = Z.of_nat (length pre) ->
  text_tag t -> Z.of_nat (length b) < 2 ^ 31 ->
  decode_record host (S f) ba p st =
  decode_record host f ba (p + Z.of_nat (length (field t b)))
    (apply_field t st (fromUtf8 b).1 (fromUtf8 b).2).
Proof. intros -> ->. apply field_step. Qed.

Definition good_msg (m : ByteTranslatorMessage) : Prop :=
  Forall good_tln (btm_translations m) /\ Z.of_nat (length (btm_context m)) < 2 ^ 31 /\
  Z.of_nat (length (btm_sourceText m)) < 2 ^ 31 /\ Z.of_nat (length (btm_comment m)) < 2 ^ 31.

(** What the record loop holds after a record written in full: the
    decoded fields, the error flag of the last field decoded (the
    context), and the translations appended to those already held. *)
Definition decoded_state (tl : list QStringN) (m : ByteTranslatorMessage) : DecState :=
  mkDecState (fromUtf8 (btm_context m)).1 (fromUtf8 (btm_sourceText m)).1
    (fromUtf8 (btm_comment m)).1 (tl ++ btm_translations m) (fromUtf8 (btm_context m)).2.

Lemma decode_writeMessage (pre post : bytes) (m : ByteTranslatorMessage) (pfx : option Prefix)
    (f : nat) (st : DecState) :
  good_msg m ->
  decode_record host (msteps m + f) (pre ++ writeMessage m SaveEverything pfx ++ post)
    (Z.of_nat (length pre)) st = RecDone (decoded_state (ds_translations st) m).
Proof.
  intros (Ht & Hc & Hs & Hm). unfold writeMessage, msteps. cbv iota beta zeta.
  set (A := concat (map write_translation (btm_translations m))).
  set (F1 := field Tag_Comment (btm_comment m)). set (F2 := field Tag_SourceText (btm_sourceText m)).
  set (F3 := field Tag_Context (btm_context m)).
  set (ba := pre ++ (A ++ (F1 ++ F2 ++ F3) ++ put_u8 (tag_value Tag_End)) ++ post).
  rewrite <- Nat.add_assoc.
  rewrite (translations_at ba pre (F1 ++ F2 ++ F3 ++ [1] ++ post)) by (done || (subst ba; rewrite <- !app_assoc; reflexivity)).
  fold A. cbn [Nat.add].
  rewrite (field_at ba (pre ++ A) (F2 ++ F3 ++ [1] ++ post) (btm_comment m) _ Tag_Comment); [| subst ba F1; rewrite <- !app_assoc; reflexivity
    | rewrite length_app; lia | unfold text_tag; auto | done].
  rewrite (field_at ba (pre ++ A ++ F1) (F3 ++ [1] ++ post) (btm_sourceText m) _ Tag_SourceText); [| subst ba F2; rewrite <- !app_assoc; reflexivity
    | rewrite !length_app; fold F1; lia | unfold text_tag; auto | done].
  rewrite (field_at ba (pre ++ A ++ F1 ++ F2) ([1] ++ post) (btm_context m) _ Tag_Context); [| subst ba F3; rewrite <- !app_assoc; reflexivity
    | rewrite !length_app; fold F1 F2; lia | unfold text_tag; auto | done].
  rewrite decode_step_end.
  - rewrite add_tlns. reflexivity.
  - replace ba with ((pre ++ A ++ F1 ++ F2 ++ F3) ++ 1 :: post) by (subst ba; rewrite <- !app_assoc; reflexivity).
    fold F1 F2 F3. replace (Z.of_nat (length pre) + Z.of_nat (length A) + Z.of_nat (length F1)
      + Z.of_nat (length F2) + Z.of_nat (length F3))
      with (Z.of_nat (length (pre ++ A ++ F1 ++ F2 ++ F3))) by (rewrite !length_app; lia).
    apply read8_app.
Qed.
End RecordLayout.

(** ** The message array and the hash index in [SaveEverything] mode *)

(** Every record is written in full, whatever its prefix level. *)
Definition wm (m : ByteTranslatorMessage) : bytes := writeMessage m SaveEverything None.

Lemma writeMessage_everything (m : ByteTranslatorMessage) (p : option Prefix) :
  writeMessage m SaveEverything p = wm m.
Proof. reflexivity. Qed.

(** Each record with the position it is written at. *)
Fixpoint layout (pos : Z) (ms : list ByteTranslatorMessage) : list (ByteTranslatorMessage * Z) :=
  match ms with
  | [] => []
  | m :: rest => (m, pos) :: layout (pos + Z.of_nat (length (wm m))) rest
  end.

Definition index_entry (e : ByteTranslatorMessage * Z) : Z * Z := (msgHash e.1, e.2).

Lemma write_messages_everything (c : Z) (ms : list ByteTranslatorMessage) (pos : Z) :
  write_messages SaveEverything c ms pos =
  (concat (map wm ms), map (fun e => (msgHash e.1, wrap32 e.2)) (layout pos ms)).
Proof.
  revert c pos. induction ms as [|m ms IH]; intros c pos; [done|].
  cbn [write_messages]. rewrite writeMessage_everything, IH. reflexivity.
Qed.

Lemma layout_fst (pos : Z) (ms : list ByteTranslatorMessage) : map fst (layout pos ms) = ms.
Proof. revert pos. induction ms; intros; simpl; [done|]. by rewrite IHms. Qed.

(** Where each record of the layout lies in the message array. *)
Lemma layout_in (pos : Z) (ms : list ByteTranslatorMessage) (m : ByteTranslatorMessage) (o : Z) :
  (m, o) ∈ layout pos ms ->
  exists pre post, concat (map wm ms) = pre ++ wm m ++ post /\ o = pos + Z.of_nat (length pre).
Proof.
  revert pos. induction ms as [|m' ms IH]; intros pos Hin; simpl in Hin.
  - by apply not_elem_of_nil in Hin.
  - apply elem_of_cons in Hin as [Heq|Hin].
    + injection Heq as -> ->. exists [], (concat (map wm ms)). split; [done|]. simpl. lia.
    + destruct (IH _ Hin) as (pre & post & E & ->). exists (wm m' ++ pre), post.
      cbn [map concat]. rewrite E, <- !app_assoc. split; [done|]. rewrite length_app. lia.
Qed.

Lemma wm_nonempty (m : ByteTranslatorMessage) : (1 <= length (wm m))%nat.
Proof. unfold wm, writeMessage. rewrite !length_app. simpl. lia. Qed.

Lemma wms_nonempty (ms : list ByteTranslatorMessage) : ms <> [] -> concat (map wm ms) <> [].
Proof.
  destruct ms as [|m ms]; [done|]. intros _ Ez. apply (f_equal length) in Ez.
  cbn [map concat] in Ez. rewrite length_app in Ez. pose proof (wm_nonempty m). simpl in Ez. lia.
Qed.

Lemma layout_bounds (pos : Z) (ms : list ByteTranslatorMessage) :
  Forall (fun e => pos <= e.2 < pos + Z.of_nat (length (concat (map wm ms)))) (layout pos ms).
Proof.
  revert pos. induction ms as [|m ms IH]; intros pos; simpl; [done|].
  pose proof (wm_nonempty m). constructor; simpl; [rewrite length_app; lia|].
  eapply Forall_impl; [apply IH|]. intros e He. simpl in He. rewrite length_app. lia.
Qed.

Lemma layout_nodup (pos : Z) (ms : list ByteTranslatorMessage) :
  NoDup (map snd (layout pos ms)).
Proof.
  revert pos. induction ms as [|m ms IH]; intros pos; simpl; [constructor|].
  constructor; [|apply IH].
  intros Hin. apply list_elem_of_fmap_1 in Hin as (e & He & Hin).
  pose proof (layout_bounds (pos + Z.of_nat (length (wm m))) ms) as B.
  rewrite Forall_forall in B. specialize (B e Hin). pose proof (wm_nonempty m). lia.
Qed.

(** Below [2^32] the positions need no wrap-around. *)
Lemma layout_wrap (ms : list ByteTranslatorMessage) :
  Z.of_nat (length (concat (map wm ms))) < 2 ^ 32 ->
  map (fun e => (msgHash e.1, wrap32 e.2)) (layout 0 ms) = map index_entry (layout 0 ms).
Proof.
  intros Hl. apply map_ext_in. intros e Hin%list_elem_of_In.
  pose proof (layout_bounds 0 ms) as B. rewrite Forall_forall in B. specialize (B e Hin).
  unfold index_entry. rewrite wrap32_small by lia. reflexivity.
Qed.

(** Two index entries are equivalent for [Offset::operator<] only when
    they are equal. *)
Lemma offset_equiv (a b : Z * Z) : qequiv offset_lt a b = true -> a = b.
Proof.
  destruct a as [h1 o1], b as [h2 o2]. unfold qequiv, offset_lt. simpl.
  destruct (Z.eqb_spec h1 h2), (Z.eqb_spec h2 h1); simpl; zbool_cases; intros; f_equal; lia.
Qed.

(** With distinct positions the index map holds every entry once. *)
Lemma offset_fold_perm (offs acc : list (Z * Z)) :
  NoDup (map snd (offs ++ acc)) ->
  fold_left (fun m o => qmap_insert offset_lt o m) offs acc ≡ₚ offs ++ acc.
Proof.
  revert acc. induction offs as [|o offs IH]; intros acc Hnd; [done|].
  cbn [fold_left]. simpl in Hnd.
  assert (Hc : qmap_contains offset_lt o acc = false).
  { apply not_true_is_false. intros (x & Hx & Hq%offset_equiv)%qmap_contains_spec. subst x.
    apply NoDup_cons in Hnd as [Hn _]. apply Hn. rewrite map_app. apply elem_of_app. right.
    by apply (list_elem_of_fmap_2 snd). }
  rewrite IH.
  - rewrite qmap_insert_perm by done. by rewrite <- Permutation_middle.
  - assert (P : map snd (offs ++ qmap_insert offset_lt o acc) ≡ₚ map snd (o :: offs ++ acc)).
    { apply Permutation_map. rewrite qmap_insert_perm by done. by rewrite <- Permutation_middle. }
    rewrite P. exact Hnd.
Qed.

Lemma offset_map_perm (offs : list (Z * Z)) : NoDup (map snd offs) -> offset_map offs ≡ₚ offs.
Proof. intros Hnd. unfold offset_map. rewrite offset_fold_perm; rewrite ?app_nil_r; done. Qed.

Definition index_bytes (o : Z * Z) : bytes := put_u32 o.1 ++ put_u32 o.2.

Lemma length_index_bytes (om : list (Z * Z)) : length (concat (map index_bytes om)) = (8 * length om)%nat.
Proof.
  induction om as [|o om IH]; cbn [map concat]; [done|].
  rewrite length_app, IH. unfold index_bytes. rewrite length_app, !length_put_u32. simpl. lia.
Qed.

(** Entry [j] of the hash index: its position field is 4 bytes past
    [8 * j]. *)
Lemma index_read (P Q : bytes) (om : list (Z * Z)) (j : nat) (e : Z * Z) :
  om !! j = Some e ->
  read32 (P ++ concat (map index_bytes om) ++ Q) (Z.of_nat (length P) + 8 * Z.of_nat j + 4)
  = Some (wrap32 e.2).
Proof.
  intros Hj. rewrite <- (take_drop_middle om j e Hj).
  rewrite map_app, concat_app. cbn [map concat]. unfold index_bytes at 2.
  replace (P ++ (concat (map index_bytes (take j om)) ++ (put_u32 e.1 ++ put_u32 e.2)
             ++ concat (map index_bytes (drop (S j) om))) ++ Q)
    with ((P ++ concat (map index_bytes (take j om)) ++ put_u32 e.1) ++ put_u32 e.2
            ++ (concat (map index_bytes (drop (S j) om)) ++ Q)) by (rewrite <- !app_assoc; reflexivity).
  apply lookup_lt_Some in Hj.
  replace (Z.of_nat (length P) + 8 * Z.of_nat j + 4)
    with (Z.of_nat (length (P ++ concat (map index_bytes (take j om)) ++ put_u32 e.1))).
  - apply read32_put_u32.
  - rewrite !length_app, length_index_bytes, length_take, length_put_u32. lia.
Qed.

Lemma tsteps_le (t : QStringN) : (tsteps t <= length (write_translation t))%nat.
Proof.
  unfold write_translation. destruct t; simpl; rewrite ?length_app, ?length_put_u32; lia.
Qed.

Lemma msteps_le (m : ByteTranslatorMessage) : (msteps m <= length (wm m))%nat.
Proof.
  unfold msteps, wm, writeMessage, field, put_bytearray. cbv iota beta zeta.
  rewrite !length_app, !length_put_u32, length_concat_map. cbn [length put_u8].
  assert (sum_list_with tsteps (btm_translations m)
          <= sum_list_with (fun t => length (write_translation t)) (btm_translations m))%nat.
  { induction (btm_translations m) as [|t ts IH]; cbn [sum_list_with]; [done|]. pose proof (tsteps_le t). lia. }
  lia.
Qed.

Section Items.
Context `{Utf8Codec} (host : ByteOrder).

(** The message [loadQM] builds from a record written in full. *)
Definition loaded (guess : bool) (m : ByteTranslatorMessage) : TranslatorMessage :=
  build_message guess (decoded_state [] m).

Definition placed (ba : bytes) (ma : Z) (e : ByteTranslatorMessage * Z) : Prop :=
  good_msg e.1 /\ (fromUtf8 (btm_context e.1)).2 = false /\
  exists pre post, ba = pre ++ wm e.1 ++ post /\ ma + e.2 = Z.of_nat (length pre).

Lemma decode_items_entries (ba : bytes) (offArr ma : Z) (es : list (ByteTranslatorMessage * Z))
    (guess : bool) : forall (k : nat) (st : DecState) (tr : Translator),
  (forall j e, es !! j = Some e -> read32 ba (offArr + 8 * Z.of_nat (k + j) + 4) = Some e.2) ->
  Forall (placed ba ma) es -> ds_translations st = [] -> ds_utf8Fail st = false ->
  exists st', decode_items host ba offArr (Some ma) (seq k (length es)) guess st tr =
    ItemsOk (mkTranslator (tr_messages tr ++ map (fun e => loaded guess e.1) es)
               (tr_language tr) (tr_dependencies tr)) st' /\ ds_utf8Fail st' = false.
Proof.
  induction es as [|e es IH]; intros k st tr Hr Hp Ht Hu.
  - exists st. destruct tr. simpl. rewrite app_nil_r. done.
  - apply Forall_cons in Hp as [(Hg & Hc & pre & post & Eba & Epos) Hp].
    cbn [length seq decode_items].
    assert (H0 : read32 ba (offArr + 8 * Z.of_nat k + 4) = Some e.2).
    { rewrite <- (Hr 0%nat e) by done. by rewrite Nat.add_0_r. }
    rewrite H0.
    destruct (Nat.le_exists_sub (msteps e.1) (S (length ba))) as (f & Ef & _).
    { pose proof (msteps_le e.1). rewrite Eba, !length_app. lia. }
    rewrite Ef, Nat.add_comm, Epos, Eba.
    rewrite (decode_writeMessage host pre post e.1 None) by done. rewrite <- Eba, Ht.
    fold (loaded guess e.1).
    destruct (IH (S k) (clear_tlns (decoded_state [] e.1)) (tr_append tr (loaded guess e.1)))
      as (st' & E & Hu'); [| done | done | done |].
    + intros j e' Hj. rewrite <- (Hr (S j) e') by done. by rewrite Nat.add_succ_r.
    + exists st'. split; [|done]. rewrite E. destruct tr. simpl. by rewrite <- app_assoc.
Qed.
End Items.

(** ** The [Dependencies] payload *)

Lemma length_put_qstring (d : QStringN) :
  length (put_qstring d) = match d with None => 4%nat | Some us => (4 + 2 * length us)%nat end.
Proof. destruct d; simpl; rewrite ?length_app, ?length_put_u32, ?length_put_u16s; lia. Qed.

Lemma read_qstring_put (pre post : bytes) (d : QStringN) : good_tln d ->
  read_qstring_stream (pre ++ put_qstring d ++ post) (Z.of_nat (length pre)) =
  (d, Z.of_nat (length pre) + Z.of_nat (length (put_qstring d))).
Proof.
  unfold read_qstring_stream. destruct d as [us|]; intros Hg.
  - destruct Hg as [Hu Hlen]. cbn [put_qstring]. rewrite <- app_assoc, read32_put_u32, wrap32_small by lia.
    destruct (Z.eqb_spec (2 * Z.of_nat (length us)) 0xFFFFFFFF); [lia|].
    destruct (Z.eqb_spec (2 * Z.of_nat (length us)) 0) as [E0|E0].
    + destruct us; [|simpl in E0; lia]. f_equal; simpl; lia.
    + replace (Z.odd (2 * Z.of_nat (length us))) with false by (rewrite Z.odd_mul; reflexivity).
      replace (Z.to_nat (2 * Z.of_nat (length us) / 2)) with (length us)
        by (rewrite Z.mul_comm, Z.div_mul by lia; lia).
      replace (pre ++ put_u32 (2 * Z.of_nat (length us)) ++ concat (map put_u16 us) ++ post)
        with ((pre ++ put_u32 (2 * Z.of_nat (length us))) ++ concat (map put_u16 us) ++ post)
        by (rewrite <- !app_assoc; reflexivity).
      replace (Z.of_nat (length pre) + 4)
        with (Z.of_nat (length (pre ++ put_u32 (2 * Z.of_nat (length us)))))
        by (rewrite length_app, length_put_u32; lia).
      rewrite read_units_put_u16.
      pose proof (fix_unit_bytes BigEndian us Hu) as F. cbn [fix_byte_order] in F. rewrite F.
      f_equal. rewrite !length_app, length_put_u32, length_put_u16s. lia.
  - cbn [put_qstring]. rewrite read32_put_u32. reflexivity.
Qed.

Lemma read_dependencies_put (pre : bytes) (deps : list QStringN) (f : nat) :
  Forall good_tln deps ->
  read_dependencies (length deps + S f) (pre ++ concat (map put_qstring deps)) (Z.of_nat (length pre))
  = deps.
Proof.
  revert pre. induction deps as [|d deps IH]; intros pre Hg.
  - cbn. rewrite app_nil_r. by destruct (Z.leb_spec (Z.of_nat (length pre)) (Z.of_nat (length pre))); [|lia].
  - apply Forall_cons in Hg as [Hd Hds]. cbn [length Nat.add read_dependencies map concat].
    set (ba := pre ++ put_qstring d ++ concat (map put_qstring deps)).
    assert (Hlt : Z.of_nat (length pre) < Z.of_nat (length ba))
      by (subst ba; rewrite !length_app, length_put_qstring; destruct d; lia).
    destruct (Z.leb_spec (Z.of_nat (length ba)) (Z.of_nat (length pre))); [lia|]. subst ba.
    rewrite read_qstring_put by done.
    replace (pre ++ put_qstring d ++ concat (map put_qstring deps))
      with ((pre ++ put_qstring d) ++ concat (map put_qstring deps)) by (rewrite <- !app_assoc; reflexivity).
    replace (Z.of_nat (length pre) + Z.of_nat (length (put_qstring d)))
      with (Z.of_nat (length (pre ++ put_qstring d))) by (rewrite length_app; lia).
    f_equal. by apply IH.
Qed.

(** ** The walk over the blocks of [save] *)

Definition blk (tp : BlockTag * bytes) : bytes := block tp.1 tp.2.
Definition good_block (tp : BlockTag * bytes) : Prop :=
  tp.2 <> [] /\ Z.of_nat (length tp.2) < 2 ^ 32.

Lemma block_layout (t : BlockTag) (pl : bytes) : Z.of_nat (length pl) < 2 ^ 32 ->
  block t pl = block_value t :: put_u32 (Z.of_nat (length pl)) ++ pl.
Proof.
  intros Hl. unfold block. rewrite wrap32_small by lia. rewrite Nat2Z.id, take_ge by lia.
  by destruct t.
Qed.

Lemma length_blk (tp : BlockTag * bytes) : good_block tp -> length (blk tp) = (5 + length tp.2)%nat.
Proof.
  intros [_ Hl]. unfold blk. rewrite block_layout by done. cbn [length].
  rewrite length_app, length_put_u32. lia.
Qed.

Section Scan.
Context `{Utf8Codec}.

(** What [handle_block] does with a payload already cut out. *)
Definition apply_block (t : BlockTag) (data : Z) (pl : bytes) (s : ScanState) : ScanState :=
  match t with
  | Hashes => mkScan (sc_pos s) (Some data) (Z.of_nat (length pl)) (sc_messageArray s) (sc_ok s)
                (sc_utf8Fail s) (sc_tr s)
  | Messages => mkScan (sc_pos s) (sc_offsetArray s) (sc_offsetLength s) (Some data)
                  (sc_ok s) (sc_utf8Fail s) (sc_tr s)
  | Dependencies =>
      mkScan (sc_pos s) (sc_offsetArray s) (sc_offsetLength s) (sc_messageArray s) (sc_ok s)
        (sc_utf8Fail s) (tr_setDependencies (sc_tr s) (read_dependencies (S (length pl)) pl 0))
  | Language =>
      mkScan (sc_pos s) (sc_offsetArray s) (sc_offsetLength s) (sc_messageArray s) (sc_ok s)
        (fromUtf8 pl).2 (tr_setLanguageCode (sc_tr s) (fromUtf8 pl).1)
  | _ => s
  end.

Lemma handle_block_apply (ba : bytes) (t : BlockTag) (data : Z) (pl : bytes) (s : ScanState) :
  take (Z.to_nat (Z.of_nat (length pl))) (drop (Z.to_nat data) ba) = pl ->
  handle_block ba (block_value t) data (Z.of_nat (length pl)) s = apply_block t data pl s.
Proof.
  intros Hp. unfold handle_block. rewrite Hp.
  destruct t; try reflexivity. simpl. by destruct (fromUtf8 pl).
Qed.

Fixpoint scan_list (bl : list (BlockTag * bytes)) (s : ScanState) : ScanState :=
  match bl with
  | [] => s
  | tp :: rest =>
      scan_list rest (set_pos (apply_block tp.1 (sc_pos s + 5) tp.2 s)
                        (sc_pos s + 5 + Z.of_nat (length tp.2)))
  end.

Lemma scan_blocks_list (ba pre : bytes) (bl : list (BlockTag * bytes)) (f : nat) :
  forall s, ba = pre ++ concat (map blk bl) -> sc_pos s = Z.of_nat (length pre) ->
  Forall good_block bl -> scan_blocks (length bl + S f) ba s = Some (scan_list bl s).
Proof.
  revert pre. induction bl as [|[t pl] bl IH]; intros pre s Eba Hp Hg.
  - simpl. apply scan_blocks_exit. rewrite Eba, app_nil_r. lia.
  - apply Forall_cons in Hg as [[Hne Hl] Hg]. cbn [length Nat.add map concat fst snd] in *.
    assert (Hpl : (1 <= length pl)%nat) by (destruct pl; [done|simpl; lia]).
    assert (Hba : ba = (pre ++ [block_value t] ++ put_u32 (Z.of_nat (length pl))) ++ pl
                         ++ concat (map blk bl))
      by (rewrite Eba; unfold blk at 1; cbn [fst snd]; rewrite block_layout by done;
          rewrite <- !app_assoc; reflexivity).
    assert (Hlen : Z.of_nat (length pre) + 5 + Z.of_nat (length pl) <= Z.of_nat (length ba))
      by (rewrite Hba, !length_app, length_put_u32; simpl; lia).
    rewrite (scan_blocks_step _ _ _ (block_value t) (Z.of_nat (length pl))).
    + destruct (Z.eqb_spec (block_value t) 0); [destruct t; discriminate|].
      destruct (Z.eqb_spec (Z.of_nat (length pl)) 0); [lia|]. simpl orb. cbv iota.
      destruct (Z.ltb_spec (Z.of_nat (length ba)) (sc_pos s + 5 + Z.of_nat (length pl))); [lia|].
      rewrite handle_block_apply.
      * apply (IH (pre ++ blk (t, pl))); [by rewrite Eba, app_assoc| |done].
        cbn [sc_pos set_pos]. rewrite length_app, length_blk by done. simpl. lia.
      * rewrite Hba, Hp. replace (Z.to_nat (Z.of_nat (length pre) + 5))
          with (length (pre ++ [block_value t] ++ put_u32 (Z.of_nat (length pl))))
          by (rewrite !length_app, length_put_u32; simpl; lia).
        rewrite drop_app_length, Nat2Z.id, take_app_length. done.
    + rewrite Hp. lia.
    + rewrite Eba, Hp. unfold blk at 1. cbn [fst snd]. rewrite block_layout by done. apply read8_app.
    + rewrite Hba, Hp. rewrite <- (app_assoc pre), <- app_assoc.
      replace (Z.of_nat (length pre) + 1) with (Z.of_nat (length (pre ++ [block_value t])))
        by (rewrite length_app; simpl; lia).
      rewrite (app_assoc pre [block_value t]).
      rewrite read32_put_u32, wrap32_small by lia. done.
Qed.

Lemma scan_list_app (bl1 bl2 : list (BlockTag * bytes)) (s : ScanState) :
  scan_list (bl1 ++ bl2) s = scan_list bl2 (scan_list bl1 s).
Proof. revert s. induction bl1; intros s; simpl; [done|]. apply IHbl1. Qed.

Lemma scan_list_pos (bl : list (BlockTag * bytes)) (s : ScanState) : Forall good_block bl ->
  sc_pos (scan_list bl s) = sc_pos s + Z.of_nat (length (concat (map blk bl))).
Proof.
  revert s. induction bl as [|tp bl IH]; intros s Hg; cbn [scan_list map concat length]; [lia|].
  apply Forall_cons in Hg as [Hb Hg]. rewrite IH by done. cbn [sc_pos set_pos].
  rewrite length_app, length_blk by done. lia.
Qed.

(** A view of the scan state that the blocks of [bl] leave alone. *)
Lemma scan_list_keep {A} (g : ScanState -> A) (bl : list (BlockTag * bytes)) (s : ScanState) :
  (forall tp s' d, tp ∈ bl -> g (apply_block tp.1 d tp.2 s') = g s') ->
  (forall s' p, g (set_pos s' p) = g s') ->
  g (scan_list bl s) = g s.
Proof.
  intros Ha Hp. revert s. induction bl as [|tp bl IH]; intros s; simpl; [done|].
  rewrite IH.
  - rewrite Hp, Ha; [done|apply list_elem_of_here].
  - intros tp' s' d Hin. apply Ha. by apply list_elem_of_further.
Qed.
End Scan.

(** ** The blocks [save] writes *)

Definition optl (t : BlockTag) (pl : bytes) : list (BlockTag * bytes) :=
  if bool_decide (pl = []) then [] else [(t, pl)].

Lemma opt_block_optl (t : BlockTag) (pl : bytes) : opt_block t pl = concat (map blk (optl t pl)).
Proof. unfold opt_block, optl. case_bool_decide; simpl; [done|]. by rewrite app_nil_r. Qed.

Lemma optl_tag (t : BlockTag) (pl : bytes) (tp : BlockTag * bytes) : tp ∈ optl t pl -> tp.1 = t.
Proof.
  unfold optl. case_bool_decide; [by intros ?%not_elem_of_nil|].
  by intros ->%list_elem_of_singleton.
Qed.

Lemma optl_good (t : BlockTag) (pl : bytes) :
  Z.of_nat (length pl) < 2 ^ 32 -> Forall good_block (optl t pl).
Proof. unfold optl. case_bool_decide; repeat constructor; done. Qed.

Section SaveBlocks.
Context `{Utf8Codec}.

Definition save_list (st : Releaser) : list (BlockTag * bytes) :=
  optl Language (originalBytes (m_language st)) ++ optl Dependencies (m_dependencyArray st)
  ++ optl Hashes (m_offsetArray st) ++ optl Messages (m_messageArray st)
  ++ optl Contexts (m_contextArray st) ++ optl NumerusRules (m_numerusRules st).

Lemma save_blocks (st : Releaser) : (save st).1 = magic ++ concat (map blk (save_list st)).
Proof.
  unfold save, save_list. cbn [fst]. rewrite !map_app, !concat_app, <- !opt_block_optl.
  f_equal. f_equal. unfold originalBytes, opt_block. destruct (decide (m_language st = [])) as [E|E].
  - by rewrite (bool_decide_eq_true_2 (m_language st = [])).
  - rewrite (bool_decide_eq_false_2 (m_language st = [])) by done.
    rewrite bool_decide_eq_false_2 by (by rewrite toUtf8_nil_iff). done.
Qed.
End SaveBlocks.

Lemma length_blks (bl : list (BlockTag * bytes)) : Forall good_block bl ->
  (length bl <= length (concat (map blk bl)))%nat.
Proof.
  induction bl as [|tp bl IH]; intros Hg; cbn [length map concat]; [done|].
  apply Forall_cons in Hg as [Hb Hg]. rewrite length_app, length_blk by done. specialize (IH Hg). lia.
Qed.

(** The side conditions of [scan_list_keep] for blocks whose tags are
    known. *)
Ltac keep_tac :=
  first
    [ intros ? ?; reflexivity
    | let tp := fresh "tp" in let Hin := fresh "Hin" in
      intros tp ? ? Hin; repeat (apply elem_of_app in Hin as [Hin|Hin]);
      apply optl_tag in Hin; destruct tp as [t pl]; cbn [fst snd] in *; subst t; reflexivity ].

Section ScanSave.
Context `{Utf8Codec}.

Lemma scan_optl (t : BlockTag) (pl : bytes) (s : ScanState) :
  scan_list (optl t pl) s =
  if bool_decide (pl = []) then s
  else set_pos (apply_block t (sc_pos s + 5) pl s) (sc_pos s + 5 + Z.of_nat (length pl)).
Proof. unfold optl. by case_bool_decide. Qed.

(** The scan state after the blocks of [save], one view at a time. *)
Lemma scan_save_state (lb db hb mb nb : bytes) :
  let L := optl Language lb in let D := optl Dependencies db in
  let Hh := optl Hashes hb in let M := optl Messages mb in
  let s := scan_list (L ++ D ++ Hh ++ M ++ optl Contexts [] ++ optl NumerusRules nb)
             (initScan emptyTranslator) in
  Forall good_block (L ++ D ++ Hh) ->
  sc_ok s = true /\ tr_messages (sc_tr s) = [] /\
  (tr_language (sc_tr s), sc_utf8Fail s) =
    (if bool_decide (lb = []) then ([], false) else fromUtf8 lb) /\
  tr_dependencies (sc_tr s) =
    (if bool_decide (db = []) then [] else read_dependencies (S (length db)) db 0) /\
  (sc_offsetArray s, sc_offsetLength s) =
    (if bool_decide (hb = []) then (None, 0)
     else (Some (21 + Z.of_nat (length (concat (map blk (L ++ D))))), Z.of_nat (length hb))) /\
  sc_messageArray s =
    (if bool_decide (mb = []) then None
     else Some (21 + Z.of_nat (length (concat (map blk (L ++ D ++ Hh)))))).
Proof.
  intros L D Hh M s Hg. subst s.
  assert (HLD : Forall good_block (L ++ D)) by (rewrite app_assoc in Hg; by apply Forall_app in Hg as [? _]).
  split; [|split; [|split; [|split; [|split]]]].
  - by rewrite (scan_list_keep sc_ok) by (first [intros ? ?; reflexivity | intros [[] ?] ? ? ?; reflexivity]).
  - by rewrite (scan_list_keep (fun s => tr_messages (sc_tr s))) by (first [intros ? ?; reflexivity | intros [[] ?] ? ? ?; reflexivity]).
  - rewrite scan_list_app, (scan_list_keep (fun s => (tr_language (sc_tr s), sc_utf8Fail s)))
      by keep_tac.
    subst L. rewrite scan_optl. destruct (bool_decide (lb = [])); [done|cbn; by destruct (fromUtf8 lb)].
  - rewrite scan_list_app, (scan_list_app D), (scan_list_keep (fun s => tr_dependencies (sc_tr s)))
      by keep_tac.
    subst D. rewrite scan_optl. destruct (bool_decide (db = [])); [|reflexivity].
    by rewrite (scan_list_keep (fun s => tr_dependencies (sc_tr s))) by keep_tac.
  - rewrite app_assoc, scan_list_app, (scan_list_app Hh).
    rewrite (scan_list_keep (fun s => (sc_offsetArray s, sc_offsetLength s))) by keep_tac.
    subst Hh. rewrite scan_optl. destruct (bool_decide (hb = [])).
    + by rewrite (scan_list_keep (fun s => (sc_offsetArray s, sc_offsetLength s))) by keep_tac.
    + cbn. rewrite scan_list_pos by done. change (sc_pos (initScan emptyTranslator)) with 16.
      f_equal. f_equal. lia.
  - rewrite (app_assoc L), (app_assoc (L ++ D)), scan_list_app, (scan_list_app M).
    rewrite (scan_list_keep sc_messageArray) by keep_tac.
    subst M. rewrite scan_optl. destruct (bool_decide (mb = [])).
    + by rewrite (scan_list_keep sc_messageArray) by keep_tac.
    + cbn. rewrite scan_list_pos by (rewrite <- app_assoc; done).
      change (sc_pos (initScan emptyTranslator)) with 16. rewrite <- app_assoc.
      f_equal. lia.
Qed.
End ScanSave.

(** ** From the hash index to the loaded messages *)

Section Index.
Context `{Utf8Codec} (host : ByteOrder).

Definition msg_ok (m : ByteTranslatorMessage) : Prop :=
  good_msg m /\ (fromUtf8 (btm_context m)).2 = false.

Lemma decode_index (out P Q P' Q' : bytes) (ms : list ByteTranslatorMessage) (guess : bool)
    (st0 : DecState) (tr : Translator) :
  let om := offset_map (map index_entry (layout 0 ms)) in
  out = P ++ concat (map index_bytes om) ++ Q -> out = P' ++ concat (map wm ms) ++ Q' ->
  Z.of_nat (length (concat (map wm ms))) < 2 ^ 32 -> Forall msg_ok ms ->
  ds_translations st0 = [] -> ds_utf8Fail st0 = false ->
  exists msgs st', decode_items host out (Z.of_nat (length P)) (Some (Z.of_nat (length P')))
      (seq 0 (length om)) guess st0 tr =
    ItemsOk (mkTranslator (tr_messages tr ++ msgs) (tr_language tr) (tr_dependencies tr)) st' /\
    ds_utf8Fail st' = false /\ msgs ≡ₚ map (loaded guess) ms.
Proof.
  intros om E1 E2 Hsz Hm Ht Hu.
  assert (Hnd : NoDup (map snd (map index_entry (layout 0 ms))))
    by (rewrite map_map; apply layout_nodup).
  destruct (Permutation_map_inv _ _ (offset_map_perm _ Hnd)) as (es & Eom & Hperm).
  assert (Hes : forall e, e ∈ es -> e ∈ layout 0 ms) by (intros e He; by rewrite Hperm).
  destruct (decode_items_entries host out (Z.of_nat (length P)) (Z.of_nat (length P')) es guess
              0 st0 tr) as (st' & Ed & Hu'); [| |done|done|].
  - intros j e Hj. cbn [Nat.add].
    assert (Hom : om !! j = Some (index_entry e)) by (unfold om; rewrite Eom, list_lookup_fmap, Hj; done).
    rewrite E1, (index_read P Q om j _ Hom). cbn [index_entry snd].
    pose proof (layout_bounds 0 ms) as B. rewrite Forall_forall in B.
    specialize (B e (Hes e (list_elem_of_lookup_2 _ _ _ Hj))). rewrite wrap32_small by lia. done.
  - apply Forall_forall. intros e He. pose proof (Hes e He) as Hl.
    destruct (layout_in 0 ms e.1 e.2) as (pre & post & Em & Eo); [by destruct e|].
    rewrite Forall_forall in Hm.
    assert (Hin : e.1 ∈ ms) by (rewrite <- (layout_fst 0 ms); by apply (list_elem_of_fmap_2 fst)).
    destruct (Hm _ Hin) as [Hg Hc]. split; [done|split; [done|]].
    exists (P' ++ pre), (post ++ Q'). split.
    + rewrite E2, Em, <- !app_assoc. reflexivity.
    + rewrite length_app. lia.
  - exists (map (fun e => loaded guess e.1) es), st'. split; [|split; [done|]].
    + replace (length om) with (length es) by (unfold om; rewrite Eom; symmetry; apply length_map). done.
    + rewrite <- (layout_fst 0 ms), map_map, Hperm. reflexivity.
Qed.
End Index.

(** ** [squeeze] in [SaveEverything] mode *)

Lemma offset_array_nil : offset_array [] = [].
Proof. reflexivity. Qed.

(** On a fresh [Releaser] the early return for an empty map and the main
    path agree: both give the arrays of the records. *)
Lemma squeeze_everything (st : Releaser) :
  m_messageArray st = [] -> m_offsetArray st = [] -> m_contextArray st = [] ->
  squeeze SaveEverything st =
  Some (mkReleaser (m_language st) (concat (map wm (m_messages st)))
          (offset_array (map (fun e => (msgHash e.1, wrap32 e.2)) (layout 0 (m_messages st))))
          [] [] (m_numerusRules st) (m_dependencies st)
          (concat (map put_qstring (m_dependencies st)))).
Proof.
  intros E1 E2 E3. unfold squeeze. destruct (m_messages st) as [|m ms] eqn:Em.
  - rewrite bool_decide_eq_true_2 by done. simpl. by rewrite E1, E2, E3.
  - rewrite bool_decide_eq_false_2 by done. simpl andb. cbv iota.
    rewrite write_messages_everything. reflexivity.
Qed.

Section Roundtrip.
Context `{Utf8Codec} `{NumerusInfo} (host : ByteOrder).

Lemma language_block (l : QString) : utf8_valid l = true ->
  (if bool_decide (originalBytes l = []) then ([], false) else fromUtf8 (originalBytes l)) = (l, false).
Proof.
  intros Hv. unfold originalBytes. destruct (decide (l = [])) as [->|E].
  - by rewrite bool_decide_eq_true_2.
  - rewrite (bool_decide_eq_false_2 (l = [])) by done.
    rewrite bool_decide_eq_false_2 by (by rewrite toUtf8_nil_iff). by apply fromUtf8_toUtf8.
Qed.

Lemma dependencies_block (deps : list QStringN) : Forall good_tln deps ->
  (if bool_decide (concat (map put_qstring deps) = []) then []
   else read_dependencies (S (length (concat (map put_qstring deps)))) (concat (map put_qstring deps)) 0)
  = deps.
Proof.
  intros Hg. case_bool_decide as E.
  - destruct deps as [|d deps]; [done|]. cbn in E. apply app_eq_nil in E as [E _].
    pose proof (f_equal length E) as L. rewrite length_put_qstring in L. destruct d; simpl in L; lia.
  - assert (Hl : (length deps <= length (concat (map put_qstring deps)))%nat).
    { clear. induction deps as [|d deps IH]; cbn [length map concat]; [lia|].
      rewrite length_app, length_put_qstring. destruct d; lia. }
    destruct (Nat.le_exists_sub (length deps) (length (concat (map put_qstring deps)))) as (f & Ef & _);
      [done|].
    replace (S (length (concat (map put_qstring deps)))) with (length deps + S f)%nat by lia.
    exact (read_dependencies_put [] deps f Hg).
Qed.
Lemma blocks_split (X Y : list (BlockTag * bytes)) (t : BlockTag) (pl : bytes) :
  pl <> [] -> Z.of_nat (length pl) < 2 ^ 32 ->
  concat (map blk (X ++ optl t pl ++ Y)) =
  (concat (map blk X) ++ [block_value t] ++ put_u32 (Z.of_nat (length pl))) ++ pl
    ++ concat (map blk Y).
Proof.
  intros Hne Hl. unfold optl. rewrite bool_decide_eq_false_2 by done.
  rewrite !map_app, !concat_app. cbn [map concat]. unfold blk at 2. cbn [fst snd].
  rewrite block_layout by done. rewrite app_nil_r, <- !app_assoc. reflexivity.
Qed.

(** What the theorem asks of the [Releaser] before [squeeze]: it is
    fresh (as in [saveQM]), its language is valid UTF-8, its
    dependencies and records are well formed and every context decodes
    without error. *)
Definition roundtrip_ok (st : Releaser) : Prop :=
  m_messageArray st = [] /\ m_offsetArray st = [] /\ m_contextArray st = [] /\
  utf8_valid (m_language st) = true /\ Forall good_tln (m_dependencies st) /\
  Forall msg_ok (m_messages st).

(** Every block fits the [quint32] size field. *)
Definition fits_u32 (st : Releaser) : Prop :=
  Z.of_nat (length (originalBytes (m_language st))) < 2 ^ 32 /\
  Z.of_nat (length (m_dependencyArray st)) < 2 ^ 32 /\
  Z.of_nat (length (m_offsetArray st)) < 2 ^ 32 /\
  Z.of_nat (length (m_messageArray st)) < 2 ^ 32 /\
  Z.of_nat (length (m_numerusRules st)) < 2 ^ 32.
Lemma load_blocks (bl : list (BlockTag * bytes)) : Forall good_block bl ->
  loadQM host emptyTranslator (magic ++ concat (map blk bl)) =
  after_scan host emptyTranslator (magic ++ concat (map blk bl))
    (Some (scan_list bl (initScan emptyTranslator))).
Proof.
  intros Hg. rewrite loadQM_magic by (by rewrite take_app_length').
  destruct (Nat.le_exists_sub (S (length bl)) (length (magic ++ concat (map blk bl))))
    as (f & Ef & _).
  { rewrite (length_app magic). pose proof (length_blks _ Hg). change (length magic) with 16%nat. lia. }
  rewrite Ef. replace (f + S (length bl))%nat with (length bl + S f)%nat by lia.
  by rewrite (scan_blocks_list _ magic _ f).
Qed.

Lemma index_length (ms : list ByteTranslatorMessage) :
  length (offset_map (map index_entry (layout 0 ms))) = length ms.
Proof.
  assert (Hnd : NoDup (map snd (map index_entry (layout 0 ms))))
    by (rewrite map_map; apply layout_nodup).
  rewrite (Permutation_length (offset_map_perm _ Hnd)), length_map.
  by rewrite <- (layout_fst 0 ms) at 2; rewrite length_map.
Qed.

Lemma index_nonempty (ms : list ByteTranslatorMessage) :
  ms <> [] -> offset_array (map index_entry (layout 0 ms)) <> [].
Proof.
  intros Hne Ez. apply (f_equal length) in Ez. unfold offset_array in Ez.
  fold index_bytes in Ez. rewrite length_index_bytes, index_length in Ez.
  destruct ms; [done|simpl in Ez; lia].
Qed.

(** The record loop over the [Hashes] and [Messages] blocks that [save]
    writes for a non-empty map. *)
Lemma decode_save_items (L D CN : list (BlockTag * bytes)) (ms : list ByteTranslatorMessage)
    (guess : bool) (lang : QString) (deps : list QStringN) :
  let hb := offset_array (map index_entry (layout 0 ms)) in
  let mb := concat (map wm ms) in
  Z.of_nat (length hb) < 2 ^ 32 -> Z.of_nat (length mb) < 2 ^ 32 ->
  ms <> [] -> Forall msg_ok ms ->
  exists msgs st', decode_items host
      (magic ++ concat (map blk (L ++ D ++ optl Hashes hb ++ optl Messages mb ++ CN)))
      (21 + Z.of_nat (length (concat (map blk (L ++ D)))))
      (Some (21 + Z.of_nat (length (concat (map blk (L ++ D ++ optl Hashes hb))))))
      (seq 0 (Z.to_nat (Z.of_nat (length hb) / 8))) guess (mkDecState [] [] [] [] false)
      (mkTranslator [] lang deps) =
    ItemsOk (mkTranslator msgs lang deps) st' /\ ds_utf8Fail st' = false /\
    msgs ≡ₚ map (loaded guess) ms.
Proof.
  intros hb mb F3 F4 Hne Hm.
  set (om := offset_map (map index_entry (layout 0 ms))).
  assert (Hhb : hb = concat (map index_bytes om)) by reflexivity.
  pose proof (index_nonempty ms Hne) as Hne_h. pose proof (wms_nonempty ms Hne) as Hne_m.
  replace (Z.to_nat (Z.of_nat (length hb) / 8)) with (length om)
    by (rewrite Hhb, length_index_bytes, Nat2Z.inj_mul, Z.mul_comm, Z.div_mul by lia; lia).
  set (P := magic ++ concat (map blk (L ++ D)) ++ [block_value Hashes] ++ put_u32 (Z.of_nat (length hb))).
  set (P' := magic ++ concat (map blk (L ++ D ++ optl Hashes hb)) ++ [block_value Messages]
               ++ put_u32 (Z.of_nat (length mb))).
  replace (21 + Z.of_nat (length (concat (map blk (L ++ D))))) with (Z.of_nat (length P))
    by (subst P; rewrite !length_app, length_put_u32; simpl; lia).
  replace (21 + Z.of_nat (length (concat (map blk (L ++ D ++ optl Hashes hb))))) with (Z.of_nat (length P'))
    by (subst P'; rewrite !length_app, length_put_u32; simpl; lia).
  destruct (decode_index host (magic ++ concat (map blk (L ++ D ++ optl Hashes hb ++ optl Messages mb ++ CN)))
    P (concat (map blk (optl Messages mb ++ CN))) P' (concat (map blk CN))
    ms guess (mkDecState [] [] [] [] false) (mkTranslator [] lang deps)) as (msgs & st' & Ed & Hr);
    try done.
  - rewrite (app_assoc L D), blocks_split by done. subst P. rewrite Hhb, <- !app_assoc. reflexivity.
  - rewrite (app_assoc L D), (app_assoc (L ++ D)), blocks_split by done.
    subst P'. rewrite <- !app_assoc. reflexivity.
  - exists msgs, st'. split; [|done]. exact Ed.
Qed.

(** C1: a catalog written by [squeeze] and [save] in [SaveEverything]
    mode loads back: [loadQM] succeeds without diagnostic, restores the
    language and the dependencies, and returns one message per record
    of the map, in the order of the hash index (a permutation of the
    map's order), each with the decoded context, source text, comment
    and translations. *)
Theorem save_load_roundtrip (st st' : Releaser) :
  roundtrip_ok st -> squeeze SaveEverything st = Some st' -> fits_u32 st' ->
  exists msgs, loadQM host emptyTranslator (save st').1 =
    Loaded (mkTranslator msgs (m_language st) (m_dependencies st)) true [] /\
    msgs ≡ₚ map (loaded (guessPlurals (m_language st))) (m_messages st).
Proof.
  intros (E1 & E2 & E3 & Hl & Hd & Hm) Hsq Hfit.
  rewrite squeeze_everything in Hsq by done. injection Hsq as <-.
  destruct Hfit as (F1 & F2 & F3 & F4 & F5). cbn [m_language m_dependencyArray m_offsetArray
    m_messageArray m_numerusRules] in F1, F2, F3, F4, F5.
  rewrite layout_wrap in * by done.
  rewrite save_blocks. unfold save_list. cbn [m_language m_dependencyArray m_offsetArray
    m_messageArray m_contextArray m_numerusRules].
  set (ms := m_messages st) in *. set (lang := m_language st) in *.
  set (deps := m_dependencies st) in *.
  set (hb := offset_array (map index_entry (layout 0 ms))) in *.
  set (mb := concat (map wm ms)) in *.
  set (CN := optl Contexts [] ++ optl NumerusRules (m_numerusRules st)).
  assert (HgLDH : Forall good_block (optl Language (originalBytes lang)
    ++ optl Dependencies (concat (map put_qstring deps)) ++ optl Hashes hb))
    by (repeat apply Forall_app_2; by apply optl_good).
  rewrite load_blocks by (repeat apply Forall_app_2; try apply optl_good; done).
  unfold after_scan.
  destruct (scan_save_state (originalBytes lang) (concat (map put_qstring deps)) hb mb
              (m_numerusRules st) HgLDH) as (Hok & Hmsgs & Hlang & Hdeps & Hoff & Hmsg).
  fold CN in Hok, Hmsgs, Hlang, Hdeps, Hoff, Hmsg.
  rewrite language_block in Hlang by done. injection Hlang as HL HU.
  rewrite dependencies_block in Hdeps by done.
  set (s := scan_list _ (initScan emptyTranslator)) in *.
  assert (Htr : sc_tr s = mkTranslator [] lang deps)
    by (destruct (sc_tr s); cbn in *; congruence).
  rewrite Htr, HU, Hok. cbn [tr_language].
  destruct (decide (ms = [])) as [Ems|Ems].
  - exists []. split; [|by rewrite Ems].
    assert (Hz : hb = []) by (unfold hb; rewrite Ems; reflexivity).
    rewrite Hz, bool_decide_eq_true_2 in Hoff by done. injection Hoff as _ ->. reflexivity.
  - rewrite bool_decide_eq_false_2 in Hoff, Hmsg by (by apply index_nonempty || by apply wms_nonempty).
    injection Hoff as -> ->. rewrite Hmsg.
    destruct (decode_save_items (optl Language (originalBytes lang))
      (optl Dependencies (concat (map put_qstring deps))) CN ms (guessPlurals lang) lang deps)
      as (msgs & st'' & Ed & Hu' & Hp); try done.
    unfold hb, mb. rewrite Ed, Hu'. by exists msgs.
Qed.
End Roundtrip.

(** ** A concrete catalog

    One record: context "C", source text "Hi", no comment, translation
    "Hallo", in a catalog for English with no dependencies. *)
Definition sample_message : ByteTranslatorMessage :=
  BTM [0x43] [0x48; 0x69] [] [Some [0x48; 0x61; 0x6c; 0x6c; 0x6f]].

Definition sample_releaser : Releaser :=
  set_messages (newReleaser code_en) [sample_message].

Definition sample_squeezed : Releaser :=
  mkReleaser code_en (concat (map wm [sample_message]))
    (offset_array (map (fun e => (msgHash e.1, wrap32 e.2)) (layout 0 [sample_message])))
    [] [] [] [] [].

Lemma save_load_roundtrip_witness :
  squeeze SaveEverything sample_releaser = Some sample_squeezed /\ roundtrip_ok sample_releaser /\
  fits_u32 sample_squeezed /\
  exists msgs, loadQM BigEndian emptyTranslator (save sample_squeezed).1 =
    Loaded (mkTranslator msgs (m_language sample_releaser) (m_dependencies sample_releaser)) true [] /\
    msgs ≡ₚ map (loaded (guessPlurals (m_language sample_releaser))) (m_messages sample_releaser).
Proof.
  assert (Hsq : squeeze SaveEverything sample_releaser = Some sample_squeezed) by reflexivity.
  assert (Hok : roundtrip_ok sample_releaser).
  { unfold roundtrip_ok. do 4 (split; [reflexivity|]). split; [constructor|].
    repeat constructor; cbn; lia. }
  assert (Hfit : fits_u32 sample_squeezed) by (unfold fits_u32; repeat split; vm_compute; reflexivity).
  split; [exact Hsq|]. split; [exact Hok|]. split; [exact Hfit|].
  exact (save_load_roundtrip BigEndian sample_releaser sample_squeezed Hok Hsq Hfit).
Defined.

(** ** Stripped mode and colliding hashes

    Two records with the same context "C" and source text "Hi" and the
    comments "`r" and "ab": [elfHash] gives both the same hash, so
    [squeeze] in [SaveStripped] mode writes the second record at prefix
    level [HashContextSourceText], without its comment. *)
Definition collide_1 : ByteTranslatorMessage := BTM [0x43] [0x48; 0x69] [0x60; 0x72] [Some [0x41]].
Definition collide_2 : ByteTranslatorMessage := BTM [0x43] [0x48; 0x69] [0x61; 0x62] [Some [0x42]].

Definition collide_releaser : Releaser :=
  set_messages (newReleaser code_en) [collide_1; collide_2].

(** In [SaveStripped] mode a record whose comment is elided because
    its hash collides with its neighbour's loads back with the
    neighbour's comment: the translation "B" of the record commented "ab"
    comes back under the comment "`r".  The same catalog written in
    [SaveEverything] mode keeps both comments. *)
Theorem stripped_comment_lost (host : ByteOrder) :
  msgHash collide_1 = msgHash collide_2 /\
  option_map (fun st => loadQM host emptyTranslator (save st).1)
    (squeeze SaveStripped collide_releaser) =
  Some (Loaded (mkTranslator
     [mkMessage [0x43] [0x48; 0x69] [0x60; 0x72] [] [Some [0x41]] Finished false;
      mkMessage [0x43] [0x48; 0x69] [0x60; 0x72] [] [Some [0x42]] Finished false] code_en []) true []) /\
  option_map (fun st => loadQM host emptyTranslator (save st).1)
    (squeeze SaveEverything collide_releaser) =
  Some (Loaded (mkTranslator
     [mkMessage [0x43] [0x48; 0x69] [0x60; 0x72] [] [Some [0x41]] Finished false;
      mkMessage [0x43] [0x48; 0x69] [0x61; 0x62] [] [Some [0x42]] Finished false] code_en []) true []).
Proof. destruct host; (split; [reflexivity|split; vm_compute; reflexivity]). Qed.
