(* ===== verification/SaveQM.v ===== *)
(** [saveQM] of qm.cpp: the policy that decides which messages of a
    [Translator] reach the [Releaser] and with which translations and
    comment, the counters it reports, and the calls [setDependencies],
    [squeeze] and [save] that follow.  [containsStripped] is the lookup
    that decides whether a comment may be dropped.  A division by zero in
    [squeeze] (the [quint16] table size) ends the program: [saveQM] is
    then [None]. *)

From S2P Require Import Prelude QmFormat Translator Releaser LoadQM.

(** The counters of [saveQM]: [finished], [unfinished], [untranslated],
    [missingIds], [droppedData]. *)
Record SaveCounts := mkCounts {
  c_finished : Z;
  c_unfinished : Z;
  c_untranslated : Z;
  c_missingIds : Z;
  c_droppedData : Z
}.

Definition zeroCounts : SaveCounts := mkCounts 0 0 0 0 0.

Definition inc_finished (c : SaveCounts) : SaveCounts :=
  mkCounts (c_finished c + 1) (c_unfinished c) (c_untranslated c) (c_missingIds c) (c_droppedData c).
Definition inc_unfinished (c : SaveCounts) : SaveCounts :=
  mkCounts (c_finished c) (c_unfinished c + 1) (c_untranslated c) (c_missingIds c) (c_droppedData c).
Definition inc_untranslated (c : SaveCounts) : SaveCounts :=
  mkCounts (c_finished c) (c_unfinished c) (c_untranslated c + 1) (c_missingIds c) (c_droppedData c).
Definition inc_missingIds (c : SaveCounts) : SaveCounts :=
  mkCounts (c_finished c) (c_unfinished c) (c_untranslated c) (c_missingIds c + 1) (c_droppedData c).
Definition inc_droppedData (c : SaveCounts) : SaveCounts :=
  mkCounts (c_finished c) (c_unfinished c) (c_untranslated c) (c_missingIds c) (c_droppedData c + 1).

Definition is_kept_type (t : MsgType) : bool :=
  match t with Obsolete | Vanished => false | _ => true end.

Section SaveQM.
Context `{Utf8Codec} `{NumerusInfo}.

(** [containsStripped]: some message of the translator, whatever its
    type, has the same source text and context and an empty comment. *)
Definition containsStripped (tr : Translator) (msg : TranslatorMessage) : bool :=
  existsb (fun t => bool_decide (tm_sourceText t = tm_sourceText msg) &&
                    bool_decide (tm_context t = tm_context msg) &&
                    bool_decide (tm_comment t = [])) (tr_messages tr).

(** The translations passed to the releaser: for an unfinished message
    in id-based mode or with an untranslated prefix, every empty
    translation becomes the prefix followed by the source text. *)
Definition fill_untranslated (cd : ConversionData) (msg : TranslatorMessage) : list QStringN :=
  if bool_decide (tm_type msg = Unfinished) && (cd_idBased cd || negb (bool_decide (cd_unTrPrefix cd = [])))
  then map (fun t => if qs_isEmpty t then Some (cd_unTrPrefix cd ++ tm_sourceText msg) else t)
         (tm_translations msg)
  else tm_translations msg.

(** One turn of the loop over [translator.message(i)]. *)
Definition save_step (tr : Translator) (cd : ConversionData) (acc : Releaser * SaveCounts)
    (msg : TranslatorMessage) : Releaser * SaveCounts :=
  let '(rel, cnt) := acc in
  if negb (is_kept_type (tm_type msg)) then acc
  else if cd_idBased cd && bool_decide (tm_id msg = []) then (rel, inc_missingIds cnt)
  else
    let counted :=
      if bool_decide (tm_type msg = Unfinished) then
        if qs_isEmpty (translation msg) && negb (cd_idBased cd) && bool_decide (cd_unTrPrefix cd = [])
        then inr (inc_untranslated cnt)
        else if cd_ignoreUnfinished cd then inr cnt
        else inl (inc_unfinished cnt)
      else inl (inc_finished cnt) in
    match counted with
    | inr cnt' => (rel, cnt')
    | inl cnt' =>
        let tlns := fill_untranslated cd msg in
        if cd_idBased cd then
          let cnt'' := if negb (bool_decide (tm_context msg = [])) || negb (bool_decide (tm_comment msg = []))
                       then inc_droppedData cnt' else cnt' in
          (insertIdBased rel msg tlns, cnt'')
        else
          let forceComment := bool_decide (tm_comment msg = []) || bool_decide (tm_context msg = [])
                              || containsStripped tr msg in
          (insert rel msg tlns forceComment, cnt')
    end.

Definition first_diagnostics (cnt : SaveCounts) : list Diagnostic :=
  (if c_missingIds cnt =? 0 then [] else [DroppedWithoutId (c_missingIds cnt)]) ++
  (if c_droppedData cnt =? 0 then [] else [ExcessDataDropped (c_droppedData cnt)]).

Definition verbose_diagnostics (cnt : SaveCounts) : list Diagnostic :=
  Generated (c_finished cnt + c_unfinished cnt) (c_finished cnt) (c_unfinished cnt) ::
  (if c_untranslated cnt =? 0 then [] else [IgnoredUntranslated (c_untranslated cnt)]).

(** [saveQM]: the bytes written to the device, the result and the
    diagnostics appended to [cd]; [None] when [squeeze] divides by zero. *)
Definition saveQM (tr : Translator) (cd : ConversionData) : option (bytes * bool * list Diagnostic) :=
  let rel0 := newReleaser (tr_language tr) in
  let rel0 := match numerusRules (tr_language tr) with
              | Some rules => setNumerusRules rel0 rules
              | None => rel0
              end in
  let '(rel, cnt) := fold_left (save_step tr cd) (tr_messages tr) (rel0, zeroCounts) in
  let rel := setDependencies rel (tr_dependencies tr) in
  match squeeze (cd_saveMode cd) rel with
  | None => None
  | Some rel' =>
      let '(out, saved) := save rel' in
      Some (out, saved, first_diagnostics cnt ++
                        (if saved && cd_verbose cd then verbose_diagnostics cnt else []))
  end.
End SaveQM.

(** ** Which messages reach the releaser *)

Section SavePolicy.
Context `{Utf8Codec} `{NumerusInfo} (tr : Translator) (cd : ConversionData).

(** Whether [save_step] hands the message to the releaser, outside
    id-based mode. *)
Definition written (msg : TranslatorMessage) : bool :=
  is_kept_type (tm_type msg) &&
  (negb (bool_decide (tm_type msg = Unfinished)) ||
   (negb (qs_isEmpty (translation msg) && bool_decide (cd_unTrPrefix cd = [])) &&
    negb (cd_ignoreUnfinished cd))).

Definition total (c : SaveCounts) : Z :=
  c_finished c + c_unfinished c + c_untranslated c + c_missingIds c.

Lemma save_step_skip (acc : Releaser * SaveCounts) (msg : TranslatorMessage) :
  is_kept_type (tm_type msg) = false -> save_step tr cd acc msg = acc.
Proof. destruct acc. unfold save_step. by intros ->. Qed.

(** Obsolete and vanished messages never reach the releaser: the
    loop over all messages does exactly what the loop over the other
    messages does. *)
Theorem saveQM_skips_obsolete (ms : list TranslatorMessage) (acc : Releaser * SaveCounts) :
  fold_left (save_step tr cd) ms acc =
  fold_left (save_step tr cd) (filter (fun m => is_kept_type (tm_type m)) ms) acc.
Proof.
  revert acc. induction ms as [|m ms IH]; intros acc; [done|].
  rewrite filter_cons. cbn [fold_left]. destruct (is_kept_type (tm_type m)) eqn:E.
  - apply IH.
  - rewrite save_step_skip by done. apply IH.
Qed.

Lemma save_step_total (acc : Releaser * SaveCounts) (msg : TranslatorMessage) :
  cd_ignoreUnfinished cd = false ->
  total (save_step tr cd acc msg).2 = total acc.2 + (if is_kept_type (tm_type msg) then 1 else 0).
Proof.
  intros Hi. destruct acc as [rel c]. unfold save_step.
  destruct (is_kept_type (tm_type msg)); cbn [negb]; [|simpl; lia].
  rewrite Hi. unfold total.
  repeat (case_match; simplify_eq/=); lia.
Qed.

(** Unless unfinished messages are ignored, every message that is
    neither obsolete nor vanished is counted exactly once, as finished,
    unfinished, untranslated or missing its id. *)
Theorem saveQM_counts (ms : list TranslatorMessage) (acc : Releaser * SaveCounts) :
  cd_ignoreUnfinished cd = false ->
  total (fold_left (save_step tr cd) ms acc).2 =
  total acc.2 + Z.of_nat (length (filter (fun m => is_kept_type (tm_type m)) ms)).
Proof.
  intros Hi. revert acc. induction ms as [|m ms IH]; intros acc; [simpl; lia|].
  cbn [fold_left]. rewrite IH, save_step_total by done. rewrite filter_cons.
  destruct (is_kept_type (tm_type m)); simpl; lia.
Qed.

(** What one turn does to the releaser: nothing, an [insertIdBased] in
    id-based mode, or an [insert] otherwise. *)
Lemma save_step_cases (acc : Releaser * SaveCounts) (msg : TranslatorMessage) :
  (save_step tr cd acc msg).1 = acc.1 \/
  (cd_idBased cd = true /\
   (save_step tr cd acc msg).1 = insertIdBased acc.1 msg (fill_untranslated cd msg)) \/
  (cd_idBased cd = false /\
   exists fc, (save_step tr cd acc msg).1 = insert acc.1 msg (fill_untranslated cd msg) fc).
Proof.
  destruct acc as [rel c]. unfold save_step.
  destruct (is_kept_type (tm_type msg)); [|by left]. cbn [negb].
  destruct (cd_idBased cd && bool_decide (tm_id msg = [])); [by left|].
  repeat case_match; simplify_eq/=; try by left.
  all: right; first [left; done | right; split; [done|eexists; reflexivity]].
Qed.

Lemma save_step_written (acc : Releaser * SaveCounts) (msg : TranslatorMessage) :
  cd_idBased cd = false -> written msg = true ->
  exists fc, (save_step tr cd acc msg).1 = insert acc.1 msg (fill_untranslated cd msg) fc.
Proof.
  intros Hid Hw. destruct acc as [rel c]. unfold written in Hw. unfold save_step.
  apply andb_true_iff in Hw as [Hk Hw]. rewrite Hk, Hid. cbn [negb andb].
  destruct (bool_decide (tm_type msg = Unfinished)); cbn [negb orb] in Hw |- *.
  - apply andb_true_iff in Hw as [Hu Hi]. apply negb_true_iff in Hi, Hu.
    rewrite andb_true_r, Hu, Hi. cbn -[insert]. eexists; reflexivity.
  - cbn -[insert]. eexists; reflexivity.
Qed.

Lemma save_step_incl (acc : Releaser * SaveCounts) (msg : TranslatorMessage) (x : ByteTranslatorMessage) :
  x ∈ m_messages acc.1 -> x ∈ m_messages (save_step tr cd acc msg).1.
Proof.
  intros Hx. destruct (save_step_cases acc msg) as [->|[[_ ->]|[_ [fc ->]]]]; [done| |].
  - by apply qmap_insert_incl.
  - by apply (insert_represented acc.1 msg).
Qed.

Lemma fold_save_incl (ms : list TranslatorMessage) (acc : Releaser * SaveCounts) (x : ByteTranslatorMessage) :
  x ∈ m_messages acc.1 -> x ∈ m_messages (fold_left (save_step tr cd) ms acc).1.
Proof.
  revert acc. induction ms as [|m ms IH]; intros acc Hx; [done|].
  cbn [fold_left]. apply IH. by apply save_step_incl.
Qed.

(** C24: outside id-based mode every message that [saveQM] counts as
    written is represented in the releaser's map by a record with its
    context and source text, and with its comment or an empty one: the
    comment may be dropped, the message is not. *)
Theorem saveQM_messages_represented (ms : list TranslatorMessage) (acc : Releaser * SaveCounts)
    (msg : TranslatorMessage) :
  cd_idBased cd = false -> msg ∈ ms -> written msg = true ->
  exists r, r ∈ m_messages (fold_left (save_step tr cd) ms acc).1 /\
    btm_context r = originalBytes (tm_context msg) /\
    btm_sourceText r = originalBytes (tm_sourceText msg) /\
    (btm_comment r = originalBytes (tm_comment msg) \/ btm_comment r = []).
Proof.
  intros Hid Hin Hw. revert acc. induction ms as [|m ms IH]; intros acc;
    [by apply not_elem_of_nil in Hin|].
  apply elem_of_cons in Hin as [<-|Hin]; cbn [fold_left]; [|by apply IH].
  destruct (save_step_written acc msg Hid Hw) as [fc Ef].
  destruct (insert_represented acc.1 msg (fill_untranslated cd msg) fc) as (_ & r & Hr & Hc & Hs & Hm).
  exists r. split; [apply fold_save_incl; by rewrite Ef|]. naive_solver.
Qed.

(** In id-based mode the releaser's map only holds records with an
    empty context and an empty comment: the excess data is dropped (and
    counted in [droppedData]). *)
Theorem saveQM_idbased_keys (ms : list TranslatorMessage) (acc : Releaser * SaveCounts) :
  cd_idBased cd = true ->
  (forall r, r ∈ m_messages acc.1 -> btm_context r = [] /\ btm_comment r = []) ->
  forall r, r ∈ m_messages (fold_left (save_step tr cd) ms acc).1 ->
    btm_context r = [] /\ btm_comment r = [].
Proof.
  intros Hid. revert acc. induction ms as [|m ms IH]; intros acc Hacc; [done|].
  cbn [fold_left]. apply IH. intros r Hr.
  destruct (save_step_cases acc m) as [E|[[_ E]|[Hf _]]]; [rewrite E in Hr; auto| |congruence].
  rewrite E in Hr. apply qmap_insert_elem in Hr as [->|Hr]; [done|auto].
Qed.
End SavePolicy.

(** ** [saveQM] then [loadQM] on small catalogs *)

Definition load_saved `{Utf8Codec} `{NumerusInfo} (host : ByteOrder) (tr : Translator)
    (cd : ConversionData) : option (bool * list Diagnostic * LoadResult) :=
  match saveQM tr cd with
  | Some (out, ok, ds) => Some (ok, ds, loadQM host emptyTranslator out)
  | None => None
  end.

Definition finished_msg (ctx src cmt : QString) (tlns : list QStringN) (plural : bool) :=
  mkMessage ctx src cmt [] tlns Finished plural.

(** An unfinished message "Hi" in context "C" with no translation. *)
Definition tr_untranslated : Translator :=
  mkTranslator [mkMessage [0x43] [0x48; 0x69] [] [] [None] Unfinished false] code_en [].

(** With the untranslated prefix ">" an unfinished message with an
    empty translation is saved with the translation ">Hi" (prefix then
    source text) and loads back with it; without a prefix it is dropped
    and counted as untranslated. *)
Theorem saveQM_untranslated_prefix (host : ByteOrder) :
  load_saved host tr_untranslated (mkConversionData false [0x3e] SaveEverything false true) =
  Some (true, [Generated 1 0 1],
        Loaded (mkTranslator [finished_msg [0x43] [0x48; 0x69] [] [Some [0x3e; 0x48; 0x69]] false]
                  code_en []) true []) /\
  load_saved host tr_untranslated (mkConversionData false [] SaveEverything false true) =
  Some (true, [Generated 0 0 0; IgnoredUntranslated 1],
        Loaded (mkTranslator [] code_en []) true []).
Proof. destruct host; split; vm_compute; reflexivity. Qed.

(** A finished message whose source text "%n f" holds a [%n]. *)
Definition tr_percent_n (lang : QString) : Translator :=
  mkTranslator [mkMessage [0x43] [0x25; 0x6e; 0x20; 0x66] [] [] [Some [0x41]] Finished false] lang [].

(** The plural guess of the loader: a record with one translation
    and a source text containing "%n" loads as plural for a language with
    one plural form (Japanese), and as not plural for a language with two
    (English). *)
Theorem loadQM_plural_heuristic (host : ByteOrder) :
  load_saved host (tr_percent_n code_ja) (mkConversionData false [] SaveEverything false false) =
  Some (true, [], Loaded (mkTranslator [finished_msg [0x43] [0x25; 0x6e; 0x20; 0x66] [] [Some [0x41]] true]
                            code_ja []) true []) /\
  load_saved host (tr_percent_n code_en) (mkConversionData false [] SaveEverything false false) =
  Some (true, [], Loaded (mkTranslator [finished_msg [0x43] [0x25; 0x6e; 0x20; 0x66] [] [Some [0x41]] false]
                            code_en []) true []).
Proof. destruct host; split; vm_compute; reflexivity. Qed.

(** ** Witnesses *)

(** A message "Hi" in context "C" with the comment "c" and the
    translation "A". *)
Definition msg_commented : TranslatorMessage :=
  mkMessage [0x43] [0x48; 0x69] [0x63] [] [Some [0x41]] Finished false.

Definition cd_plain : ConversionData := mkConversionData false [] SaveEverything false false.
Definition cd_ids : ConversionData := mkConversionData true [] SaveEverything false false.

Lemma saveQM_messages_represented_witness :
  (cd_idBased cd_plain = false /\ msg_commented ∈ [msg_commented] /\ written cd_plain msg_commented = true) /\
  exists r, r ∈ m_messages (fold_left (save_step (mkTranslator [msg_commented] code_en []) cd_plain)
                              [msg_commented] (newReleaser code_en, zeroCounts)).1 /\
    btm_context r = originalBytes (tm_context msg_commented) /\
    btm_sourceText r = originalBytes (tm_sourceText msg_commented) /\
    (btm_comment r = originalBytes (tm_comment msg_commented) \/ btm_comment r = []).
Proof.
  assert (H0 : cd_idBased cd_plain = false) by reflexivity.
  assert (H1 : msg_commented ∈ [msg_commented]) by apply list_elem_of_here.
  assert (H2 : written cd_plain msg_commented = true) by reflexivity.
  split; [exact (conj H0 (conj H1 H2))|].
  exact (saveQM_messages_represented (mkTranslator [msg_commented] code_en []) cd_plain
           [msg_commented] (newReleaser code_en, zeroCounts) msg_commented H0 H1 H2).
Defined.

Lemma saveQM_counts_witness :
  cd_ignoreUnfinished cd_plain = false /\
  total (fold_left (save_step (mkTranslator [msg_commented] code_en []) cd_plain)
           [msg_commented] (newReleaser code_en, zeroCounts)).2 =
  total zeroCounts + Z.of_nat (length (filter (fun m => is_kept_type (tm_type m)) [msg_commented])).
Proof.
  assert (H0 : cd_ignoreUnfinished cd_plain = false) by reflexivity.
  split; [exact H0|].
  exact (saveQM_counts (mkTranslator [msg_commented] code_en []) cd_plain [msg_commented]
           (newReleaser code_en, zeroCounts) H0).
Defined.

Lemma saveQM_idbased_keys_witness :
  (cd_idBased cd_ids = true /\
   forall r, r ∈ m_messages (newReleaser code_en) -> btm_context r = [] /\ btm_comment r = []) /\
  forall r, r ∈ m_messages (fold_left (save_step (mkTranslator [msg_commented] code_en []) cd_ids)
                              [msg_commented] (newReleaser code_en, zeroCounts)).1 ->
    btm_context r = [] /\ btm_comment r = [].
Proof.
  assert (H0 : cd_idBased cd_ids = true) by reflexivity.
  assert (H1 : forall r, r ∈ m_messages (newReleaser code_en) -> btm_context r = [] /\ btm_comment r = [])
    by (intros r Hr; by apply not_elem_of_nil in Hr).
  split; [exact (conj H0 H1)|].
  exact (saveQM_idbased_keys (mkTranslator [msg_commented] code_en []) cd_ids [msg_commented]
           (newReleaser code_en, zeroCounts) H0 H1).
Defined.
