(* ===== verification/QtCore.v ===== *)
(** The pieces of QtCore the modelled tools share ([QString], the list
    of UTF-16 code units, is declared in the prelude): Latin-1 literals
    ([qs]), [QChar::isSpace], [QString::trimmed], the order of
    [QString::operator<], [QStringList::sort], [QMap<QString, T>] as
    a list sorted by key, [QString::split] and [QString::startsWith],
    and the enumerations [Qt::Orientation] and
    [Qt::LayoutDirection].  These are library classes, not part of the
    repository: they are modelled from Qt's documented behaviour, and
    their lemmas are the facts the components' proofs use. *)

From S2P Require Import Prelude.
From stdpp Require Import sorting sets.
From Stdlib Require Strings.String Strings.Ascii.
Import String.StringSyntax.
Local Open Scope Z_scope.

(** Latin-1 literals as code units. *)
Definition qs (s : String.string) : QString :=
  map (fun c => Z.of_nat (Ascii.nat_of_ascii c)) (String.list_ascii_of_string s).

(** [QChar::isSpace]. *)
Definition is_space (u : Z) : bool :=
  ((9 <=? u) && (u <=? 13)) || (u =? 32) || (u =? 0x85) || (u =? 0xA0) || (u =? 0x1680) ||
  ((0x2000 <=? u) && (u <=? 0x200A)) || (u =? 0x2028) || (u =? 0x2029) || (u =? 0x202F) ||
  (u =? 0x205F) || (u =? 0x3000).

(** [QString::trimmed]: white space removed at both ends. *)
Fixpoint trim_left (s : QString) : QString :=
  match s with
  | c :: r => if is_space c then trim_left r else s
  | [] => []
  end.

Definition trimmed (s : QString) : QString := reverse (trim_left (reverse (trim_left s))).

(** [QString::operator<] and [<=]: code units compared as unsigned
    numbers, a proper prefix first. *)
Fixpoint qstr_leb (a b : QString) : bool :=
  match a, b with
  | [], _ => true
  | _ :: _, [] => false
  | x :: a', y :: b' => (x <? y) || ((x =? y) && qstr_leb a' b')
  end.

Definition qstr_le (a b : QString) : Prop := qstr_leb a b = true.

#[export] Instance qstr_le_dec : RelDecision qstr_le.
Proof. intros a b. unfold qstr_le. apply _. Defined.

(** [QStringList::sort()] (case sensitive): any sort gives the same
    list, equal strings being identical. *)
Definition qsort (l : list QString) : list QString := merge_sort qstr_le l.

(** [QMap<QString, T>] as its key-ordered list of entries; [insert]
    replaces the value of an existing key. *)
Section QMap.
Context {T : Type}.

Fixpoint qmap_put (k : QString) (x : T) (m : list (QString * T)) : list (QString * T) :=
  match m with
  | [] => [(k, x)]
  | (k', y) :: m' =>
      if bool_decide (k = k') then (k, x) :: m'
      else if qstr_leb k k' then (k, x) :: m
      else (k', y) :: qmap_put k x m'
  end.

Definition qmap_of (l : list (QString * T)) : list (QString * T) :=
  fold_left (fun m kx => qmap_put kx.1 kx.2 m) l [].
End QMap.

(** [Qt::Orientation], [Qt::LayoutDirection]. *)
Inductive Orientation := Horizontal | Vertical.
Inductive LayoutDirection := LeftToRight | RightToLeft | LayoutDirectionAuto.

#[export] Instance Orientation_eq_dec : EqDecision Orientation.
Proof. solve_decision. Defined.

#[export] Instance LayoutDirection_eq_dec : EqDecision LayoutDirection.
Proof. solve_decision. Defined.

(** [QString::split(QChar sep)] with [Qt::KeepEmptyParts]: the parts
    between separators, empty ones included; never an empty list. *)
Fixpoint qsplit (sep : Z) (s : QString) : list QString :=
  match s with
  | [] => [[]]
  | c :: r =>
      let parts := qsplit sep r in
      if c =? sep then [] :: parts
      else match parts with
           | p :: ps => (c :: p) :: ps
           | [] => [[c]]
           end
  end.

(** [QString::startsWith]. *)
Definition qstartsWith (s prefix : QString) : bool :=
  bool_decide (take (length prefix) s = prefix).

(** ** Lemmas *)

Lemma qstr_leb_refl a : qstr_leb a a = true.
Proof. induction a as [|x a IH]; cbn; [done|]. by rewrite Z.eqb_refl, IH, orb_true_r. Qed.

Lemma qstr_leb_total a b : qstr_leb a b = true \/ qstr_leb b a = true.
Proof.
  revert b. induction a as [|x a IH]; intros [|y b]; cbn; auto.
  destruct (Z.ltb_spec x y); [auto|]. destruct (Z.ltb_spec y x); [auto|].
  assert (x = y) as -> by lia. rewrite Z.eqb_refl. cbn. apply IH.
Qed.

Lemma qstr_leb_trans a b c : qstr_leb a b = true -> qstr_leb b c = true -> qstr_leb a c = true.
Proof.
  revert b c. induction a as [|x a IH]; intros [|y b] [|z c]; cbn; try done.
  rewrite !orb_true_iff, !andb_true_iff, !Z.ltb_lt, !Z.eqb_eq.
  intros [?|[-> ?]] [?|[-> ?]]; [left; lia|left; lia|left; lia|right; eauto].
Qed.

Lemma qstr_leb_antisym a b : qstr_leb a b = true -> qstr_leb b a = true -> a = b.
Proof.
  revert b. induction a as [|x a IH]; intros [|y b]; cbn; try done.
  rewrite !orb_true_iff, !andb_true_iff, !Z.ltb_lt, !Z.eqb_eq.
  intros [?|[-> ?]] [?|[? ?]]; try lia. f_equal. auto.
Qed.

#[export] Instance qstr_le_total : Total qstr_le.
Proof. intros a b. apply qstr_leb_total. Qed.

#[export] Instance qstr_le_trans : Transitive qstr_le.
Proof. intros a b c. apply qstr_leb_trans. Qed.

#[export] Instance qstr_le_antisym : AntiSymm (=) qstr_le.
Proof. intros a b. apply qstr_leb_antisym. Qed.

Lemma qsort_sorted l : Sorted qstr_le (qsort l).
Proof. apply Sorted_merge_sort, _. Qed.

Lemma qsort_perm l : qsort l ≡ₚ l.
Proof. apply merge_sort_Permutation. Qed.

(** [split] always gives at least one part: [dotSplit[0]] exists. *)
Lemma qsplit_cons sep s : exists p ps, qsplit sep s = p :: ps.
Proof.
  induction s as [|c r [p [ps IH]]]; cbn; [eauto|].
  rewrite IH. case_match; eauto.
Qed.

(** A string without the separator is its only part. *)
Lemma qsplit_no_sep sep s : sep ∉ s -> qsplit sep s = [s].
Proof.
  induction s as [|c r IH]; intros Hs; cbn; [done|].
  rewrite elem_of_cons in Hs. rewrite IH by tauto.
  destruct (Z.eqb_spec c sep); [subst; tauto|done].
Qed.

(** The separator splits the string at its first occurrence. *)
Lemma qsplit_app sep a b : sep ∉ a -> qsplit sep (a ++ sep :: b) = a :: qsplit sep b.
Proof.
  induction a as [|c a IH]; intros Ha; cbn; [by rewrite Z.eqb_refl|].
  rewrite elem_of_cons in Ha. rewrite IH by tauto.
  destruct (Z.eqb_spec c sep); [subst; tauto|done].
Qed.

(** A string without the separator is its only part, and conversely. *)
Lemma qsplit_single sep s g : qsplit sep s = [g] -> g = s.
Proof.
  revert g. induction s as [|c r IH]; intros g; cbn; [by intros [= <-]|].
  destruct (qsplit_cons sep r) as (p & ps & Hr). rewrite Hr.
  destruct (c =? sep); [done|]. intros [= <- ->]. f_equal. by apply IH.
Qed.

(** No part contains the separator. *)
Lemma qsplit_parts sep s x : x ∈ qsplit sep s -> sep ∉ x.
Proof.
  revert x. induction s as [|c r IH]; intros x; cbn.
  - rewrite list_elem_of_singleton. intros ->. apply not_elem_of_nil.
  - destruct (qsplit_cons sep r) as (p & ps & Hr). pose proof (IH p) as Hp. rewrite Hr in IH, Hp |- *.
    destruct (Z.eqb_spec c sep).
    + rewrite elem_of_cons. intros [->|Hx]; [apply not_elem_of_nil|by apply IH].
    + rewrite elem_of_cons. intros [->|Hx]; [|apply IH; by right].
      rewrite not_elem_of_cons. split; [done|]. apply Hp. left.
Qed.

(** ** [QMap] keys *)

Section QMapKeys.
Context {T : Type}.

Lemma qmap_put_keys (k : QString) (x : T) m : (qmap_put k x m).*1 ⊆ k :: m.*1.
Proof.
  induction m as [|[k' y] m IH]; cbn; [done|].
  repeat case_match; [set_solver|set_solver|]. rewrite fmap_cons. cbn. set_solver.
Qed.

(** Every key of [qmap_of l] is a key of [l]. *)
Lemma qmap_of_keys (l : list (QString * T)) : (qmap_of l).*1 ⊆ l.*1.
Proof.
  unfold qmap_of. cut (forall m, (fold_left (fun m kx => qmap_put kx.1 kx.2 m) l m).*1 ⊆ l.*1 ++ m.*1).
  { intros H k Hk. specialize (H [] k Hk). set_solver. }
  induction l as [|[k x] l IH]; intros m; cbn; [done|].
  intros j Hj. apply IH in Hj. apply elem_of_app in Hj as [Hj|Hj]; [set_solver|].
  apply qmap_put_keys in Hj. set_solver.
Qed.
End QMapKeys.
