(* ===== verification/FormatRegistry.v ===== *)
(** The registration of the qm format ([initQM] of
    src/src/linguist/shared/qm.cpp) in Translator's table of file
    formats, and the lookup by extension through which [Translator::load]
    and [Translator::save] reach [loadQM] and [saveQM].  The table,
    [Translator::registerFileFormat] and the two lookups live in
    translator.cpp, which is not in the repository: they are modelled
    from their documented behaviour (a list kept in priority order per
    file type, searched front to back for the extension).  The C++
    function pointers are option-valued fields of the record. *)

From S2P Require Import Prelude QmFormat Translator Releaser LoadQM SaveQM QtCore.
From Stdlib Require Strings.String.
Import String.StringSyntax.
Local Open Scope Z_scope.
Local Open Scope string_scope.

(** ** [Translator::FileFormat] *)

Inductive FileType := TranslationSource | TranslationBinary.

#[export] Instance FileType_eq_dec : EqDecision FileType.
Proof. solve_decision. Defined.

(** The [loader] pointer, [bool (Translator &, QIODevice &, ConversionData &)]: the
    model's loader reads the bytes into the translator it is given. *)
Definition Loader := Translator -> bytes -> LoadResult.

(** The [saver] pointer, [bool (const Translator &, QIODevice &, ConversionData &)]:
    the bytes written, the result and the diagnostics, or [None] when the
    saver does not return. *)
Definition Saver := Translator -> ConversionData -> option (bytes * bool * list Diagnostic).

Record FileFormat := mkFileFormat {
  ff_extension : QString;
  ff_untranslatedDescription : QString;
  ff_fileType : FileType;
  ff_priority : Z;
  ff_loader : option Loader;
  ff_saver : option Saver
}.

(** ** The table of formats *)

(** [registerFileFormat]: before the first format of the same file
    type with a higher priority, else at the end. *)
Fixpoint registerFileFormat (format : FileFormat) (formats : list FileFormat) : list FileFormat :=
  match formats with
  | [] => [format]
  | f :: rest =>
      if bool_decide (ff_fileType format = ff_fileType f) && (ff_priority format <? ff_priority f)
      then format :: f :: rest
      else f :: registerFileFormat format rest
  end.

(** The loop of [load] and [save]: the first format with the
    extension. *)
Fixpoint findFormat (formats : list FileFormat) (fmt : QString) : option FileFormat :=
  match formats with
  | [] => None
  | f :: rest => if bool_decide (fmt = ff_extension f) then Some f else findFormat rest fmt
  end.

(** What [load] returns: the loader's result, or one of the two errors
    it appends to [ConversionData] ("No loader for format %1 found",
    "Unknown format %1 for file %2"). *)
Inductive LoadOutcome := LoadedBy (r : LoadResult) | NoLoader | UnknownLoadFormat.

Inductive SaveOutcome :=
  | SavedBy (r : option (bytes * bool * list Diagnostic))
  | CannotSave
  | UnknownSaveFormat.

Definition tr_load (formats : list FileFormat) (fmt : QString) (tr : Translator) (ba : bytes) : LoadOutcome :=
  match findFormat formats fmt with
  | Some f => match ff_loader f with Some l => LoadedBy (l tr ba) | None => NoLoader end
  | None => UnknownLoadFormat
  end.

Definition tr_save (formats : list FileFormat) (fmt : QString) (tr : Translator) (cd : ConversionData) : SaveOutcome :=
  match findFormat formats fmt with
  | Some f => match ff_saver f with Some s => SavedBy (s tr cd) | None => CannotSave end
  | None => UnknownSaveFormat
  end.

(** A file written in one format and read back in the same one, as
    lrelease's output is read by lconvert. *)
Definition save_then_load (formats : list FileFormat) (fmt : QString) (tr : Translator) (cd : ConversionData)
    : option (bool * list Diagnostic * LoadOutcome) :=
  match tr_save formats fmt tr cd with
  | SavedBy (Some (out, ok, ds)) => Some (ok, ds, tr_load formats fmt emptyTranslator out)
  | _ => None
  end.

(** ** [initQM] *)

Section InitQM.
Context `{Utf8Codec} `{NumerusInfo} (host : ByteOrder).

Definition qmFormat : FileFormat :=
  mkFileFormat (qs "qm") (qs "Compiled Qt translations") TranslationBinary 0
    (Some (loadQM host)) (Some saveQM).

(** [initQM]: the format registered, and [1]. *)
Definition initQM (formats : list FileFormat) : list FileFormat * Z :=
  (registerFileFormat qmFormat formats, 1).
End InitQM.

(** ** The table is ordered by priority within each file type *)

Definition prio_le (f g : FileFormat) : Prop := ff_fileType f = ff_fileType g -> ff_priority f <= ff_priority g.

Definition formats_ordered (formats : list FileFormat) : Prop := ForallOrdPairs prio_le formats.

Lemma register_perm format formats : registerFileFormat format formats ≡ₚ format :: formats.
Proof.
  induction formats as [|f rest IH]; cbn; [done|]. case_match; [done|].
  rewrite IH. apply perm_swap.
Qed.

Lemma register_ordered format formats :
  formats_ordered formats -> formats_ordered (registerFileFormat format formats).
Proof.
  unfold formats_ordered. induction formats as [|f rest IH]; intros Hord; cbn.
  { repeat constructor. }
  inversion Hord as [|? ? Hf Hrest]; subst.
  destruct (bool_decide _ && _) eqn:Hc.
  - apply andb_true_iff in Hc as [Ht%bool_decide_eq_true Hp%Z.ltb_lt].
    constructor; [|done]. constructor; [intros _; lia|].
    eapply Forall_impl; [exact Hf|]. unfold prio_le. intros g Hg Htg. rewrite Ht in Htg. specialize (Hg Htg). lia.
  - constructor; [|by apply IH]. rewrite register_perm. constructor; [|done].
    intros Ht. apply andb_false_iff in Hc as [Hn|Hp].
    + by rewrite bool_decide_eq_false in Hn.
    + apply Z.ltb_ge in Hp. lia.
Qed.

Lemma findFormat_register_new format formats :
  (forall f, f ∈ formats -> ff_extension f <> ff_extension format) ->
  findFormat (registerFileFormat format formats) (ff_extension format) = Some format.
Proof.
  induction formats as [|f rest IH]; intros Hnew; cbn; [by rewrite bool_decide_true|].
  case_match; cbn; [by rewrite bool_decide_true|].
  rewrite bool_decide_false by (intros He; by apply (Hnew f); [left|]).
  apply IH. intros g Hg. apply Hnew. by right.
Qed.

Lemma findFormat_register_other format formats e :
  e <> ff_extension format -> findFormat (registerFileFormat format formats) e = findFormat formats e.
Proof.
  intros Hne. induction formats as [|f rest IH]; cbn; [by rewrite bool_decide_false|].
  case_match; cbn; [by rewrite bool_decide_false|]. by rewrite IH.
Qed.

Lemma register_fold_perm fs t0 :
  fold_left (fun t f => registerFileFormat f t) fs t0 ≡ₚ fs ++ t0.
Proof.
  revert t0. induction fs as [|f fs IH]; intros t0; cbn; [done|].
  rewrite IH, register_perm. symmetry. apply Permutation_middle.
Qed.

Lemma register_fold_ordered fs t0 :
  formats_ordered t0 -> formats_ordered (fold_left (fun t f => registerFileFormat f t) fs t0).
Proof.
  revert t0. induction fs as [|f fs IH]; intros t0 Ht0; cbn; [done|]. by apply IH, register_ordered.
Qed.

(** Whatever formats the tools register, in whatever order, the
    table holds each of them once and is ordered by priority within each
    file type. *)
Theorem registry_ordered (fs : list FileFormat) :
  formats_ordered (fold_left (fun t f => registerFileFormat f t) fs []) /\
  (fold_left (fun t f => registerFileFormat f t) fs [] ≡ₚ fs).
Proof.
  split; [apply register_fold_ordered; constructor|]. by rewrite register_fold_perm, app_nil_r.
Qed.

(** ** What [initQM] gives [load] and [save] *)

Section Dispatch.
Context `{Utf8Codec} `{NumerusInfo} (host : ByteOrder).

Lemma findFormat_initQM formats :
  (forall f, f ∈ formats -> ff_extension f <> qs "qm") ->
  findFormat (initQM host formats).1 (qs "qm") = Some (qmFormat host).
Proof. intros Hnew. by apply (findFormat_register_new (qmFormat host)). Qed.

(** Once [initQM] has run on a table with no other [qm] format,
    [Translator::load] and [Translator::save] with format [qm] call
    [loadQM] and [saveQM], every other extension finds what it found
    before, and the table stays ordered by priority within each file
    type. *)
Theorem initQM_dispatch formats :
  formats_ordered formats ->
  (forall f, f ∈ formats -> ff_extension f <> qs "qm") ->
  (forall tr ba, tr_load (initQM host formats).1 (qs "qm") tr ba = LoadedBy (loadQM host tr ba)) /\
  (forall tr cd, tr_save (initQM host formats).1 (qs "qm") tr cd = SavedBy (saveQM tr cd)) /\
  (forall e, e <> qs "qm" -> findFormat (initQM host formats).1 e = findFormat formats e) /\
  formats_ordered (initQM host formats).1.
Proof.
  intros Hord Hnew. split_and!.
  - intros tr ba. unfold tr_load. by rewrite findFormat_initQM.
  - intros tr cd. unfold tr_save. by rewrite findFormat_initQM.
  - intros e He. by apply findFormat_register_other.
  - by apply register_ordered.
Qed.

(** Writing a translator as a [qm] file and reading it back through
    the table [initQM] filled is [saveQM] followed by [loadQM] into an
    empty translator. *)
Theorem qm_save_then_load formats tr cd :
  (forall f, f ∈ formats -> ff_extension f <> qs "qm") ->
  save_then_load (initQM host formats).1 (qs "qm") tr cd =
    (fun '(ok, ds, r) => (ok, ds, LoadedBy r)) <$> load_saved host tr cd.
Proof.
  intros Hnew. unfold save_then_load, tr_save, tr_load, load_saved. rewrite findFormat_initQM by done.
  cbn [qmFormat ff_saver ff_loader]. by destruct (saveQM tr cd) as [[[out ok] ds]|].
Qed.
End Dispatch.

(** ** A table with the ts and po formats *)

Definition tsFormat : FileFormat :=
  mkFileFormat (qs "ts") (qs "Qt translation sources") TranslationSource 0 None None.
Definition poFormat : FileFormat :=
  mkFileFormat (qs "po") (qs "GNU Gettext localization files") TranslationSource 1 None None.

Definition sample_table : list FileFormat := fold_left (fun t f => registerFileFormat f t) [poFormat; tsFormat] [].

Lemma sample_table_no_qm : forall f, f ∈ sample_table -> ff_extension f <> qs "qm".
Proof. intros f Hf. repeat (inversion Hf as [|? ? ? Hf']; subst; clear Hf; rename Hf' into Hf || done). Qed.

Lemma initQM_dispatch_witness :
  (formats_ordered sample_table /\ forall f, f ∈ sample_table -> ff_extension f <> qs "qm") /\
  (forall tr ba, tr_load (initQM LittleEndian sample_table).1 (qs "qm") tr ba = LoadedBy (loadQM LittleEndian tr ba)) /\
  (forall tr cd, tr_save (initQM LittleEndian sample_table).1 (qs "qm") tr cd = SavedBy (saveQM tr cd)) /\
  (forall e, e <> qs "qm" -> findFormat (initQM LittleEndian sample_table).1 e = findFormat sample_table e) /\
  formats_ordered (initQM LittleEndian sample_table).1.
Proof.
  assert (Ho : formats_ordered sample_table) by (apply register_fold_ordered; constructor).
  split; [split; [exact Ho|exact sample_table_no_qm]|].
  exact (initQM_dispatch LittleEndian sample_table Ho sample_table_no_qm).
Defined.

Definition cd_prefix : ConversionData := mkConversionData false [0x3e] SaveEverything false true.

Lemma qm_save_then_load_witness :
  (forall f, f ∈ sample_table -> ff_extension f <> qs "qm") /\
  save_then_load (initQM LittleEndian sample_table).1 (qs "qm") tr_untranslated cd_prefix =
    (fun '(ok, ds, r) => (ok, ds, LoadedBy r)) <$> load_saved LittleEndian tr_untranslated cd_prefix.
Proof.
  split; [exact sample_table_no_qm|].
  exact (qm_save_then_load LittleEndian sample_table tr_untranslated cd_prefix sample_table_no_qm).
Defined.

(** Through the table: lrelease writes the untranslated message with
    the prefix, and reading the file back gives it as a finished
    translation. *)
Example sample_qm_file :
  save_then_load (initQM LittleEndian sample_table).1 (qs "qm") tr_untranslated cd_prefix =
  Some (true, [Generated 1 0 1],
        LoadedBy (Loaded (mkTranslator [finished_msg [0x43] [0x48; 0x69] [] [Some [0x3e; 0x48; 0x69]] false]
                            code_en []) true [])) /\
  save_then_load (initQM LittleEndian sample_table).1 (qs "ts") tr_untranslated cd_prefix = None.
Proof. split; vm_compute; reflexivity. Qed.
