(* ===== verification/MarkupVisitor.v ===== *)
(** [QmlMarkupVisitor] of qdoc (src/qdoc/qmlmarkupvisitor.cpp): it walks
    the AST of a QML snippet and rebuilds the source text with qdoc's
    markup ([<@type>], [<@name>], [<@comment>], ...) around the tokens
    and HTML entities for the ampersand, angle brackets and double quote.  The visitor's state is
    the record [Visitor]; [addExtra], [addMarkedUpToken], [addVerbatim]
    and [markedUpCode] are functions on it, each visit function is a
    [visit_*] definition, and [accept] runs them over a QQmlJS syntax tree
    [Node].  Source positions are [quint32] values with their wrap-around.
    The theorems: the markup reads back as the source, comments and
    pragmas included ([unmark], invariant [Good], theorem
    [markedUpCode_lossless]); [protect] round-trips; the
    constructor's merge of comments and pragmas and the attribute loop
    misbehave (findings); tokens visited out of order lose their markup. *)

From S2P Require Import Prelude QtCore.
From Stdlib Require Strings.String.
Import String.StringSyntax.

Local Open Scope string_scope.

(** ** Source locations (QQmlJS::SourceLocation) *)

Record SourceLocation := mkLoc {
  sl_offset : Z;
  sl_length : Z;
  sl_startLine : Z;
  sl_startColumn : Z
}.

(** [isValid]: not the default location. *)
Definition isValid (l : SourceLocation) : bool :=
  negb ((sl_offset l =? 0) && (sl_length l =? 0) && (sl_startLine l =? 0) && (sl_startColumn l =? 0)).

Definition noLoc : SourceLocation := mkLoc 0 0 0 0.

Definition sl_begin (l : SourceLocation) : Z := sl_offset l.
Definition sl_end (l : SourceLocation) : Z := wrap32 (sl_offset l + sl_length l).

Inductive ExtraType := Comment | Pragma.

#[export] Instance ExtraType_eq_dec : EqDecision ExtraType.
Proof. solve_decision. Defined.

Record Visitor := mkVisitor {
  v_source : QString;
  v_extraTypes : list ExtraType;
  v_extraLocations : list SourceLocation;
  v_extraIndex : Z;
  v_cursor : Z;
  v_output : QString;
  v_hasRecursionDepthError : bool
}.

(** ** The constructor: merging comments and pragmas

    The first loop runs while both lists have items left; each turn
    consumes one, so [length comments + length pragmas] turns are
    enough.  On the pragma side it appends [comments[j]]; when [j] is
    past the end of [comments] that read is out of range, the result
    [None]. *)
Fixpoint merge_loop (fuel : nat) (comments pragmas : list SourceLocation) (i j : nat)
    (types : list ExtraType) (locs : list SourceLocation)
    : option (list ExtraType * list SourceLocation * nat * nat) :=
  match fuel with
  | O => Some (types, locs, i, j)
  | S f =>
      match comments !! i, pragmas !! j with
      | Some ci, Some pj =>
          if sl_offset ci <? sl_offset pj
          then merge_loop f comments pragmas (S i) j (types ++ [Comment]) (locs ++ [ci])
          else match comments !! j with
               | Some cj => merge_loop f comments pragmas i (S j) (types ++ [Pragma]) (locs ++ [cj])
               | None => None
               end
      | _, _ => Some (types, locs, i, j)
      end
  end.

Definition newVisitor (source : QString) (pragmas comments : list SourceLocation) : option Visitor :=
  match merge_loop (length comments + length pragmas) comments pragmas 0 0 [] [] with
  | None => None
  | Some (types, locs, i, j) =>
      let rest_c := drop i comments in
      let rest_p := drop j pragmas in
      Some (mkVisitor source
              (types ++ map (fun _ => Comment) rest_c ++ map (fun _ => Pragma) rest_p)
              (locs ++ rest_c ++ rest_p) 0 0 [] false)
  end.

(** ** [protect] *)

Definition protect_char (c : Z) : QString :=
  if c =? 0x26 then qs "&amp;"
  else if c =? 0x3c then qs "&lt;"
  else if c =? 0x3e then qs "&gt;"
  else if c =? 0x22 then qs "&quot;"
  else [c].

Definition protect (s : QString) : QString := concat (map protect_char s).

(** ** QString helpers: [mid] with a non-negative position and length,
    and [trimmed().isEmpty()] ([QChar::isSpace]). *)
Definition qmid (s : QString) (pos n : Z) : QString :=
  if Z.of_nat (length s) <? pos then [] else take (Z.to_nat n) (drop (Z.to_nat pos) s).

Definition trimmed_empty (s : QString) : bool := forallb is_space s.

(** Text between tokens: as it is when blank, protected otherwise. *)
Definition extra_text (s : QString) : QString := if trimmed_empty s then s else protect s.

(** ** [addExtra] *)

Definition set_output (v : Visitor) (out : QString) (idx cursor : Z) : Visitor :=
  mkVisitor (v_source v) (v_extraTypes v) (v_extraLocations v) idx cursor out
    (v_hasRecursionDepthError v).

Definition extras (v : Visitor) : list (ExtraType * SourceLocation) :=
  combine (v_extraTypes v) (v_extraLocations v).

(** The first loop: skip the comments and pragmas that start before
    [start] (a comment's text starts two characters before its offset). *)
Fixpoint skip_extras (start : Z) (rest : list (ExtraType * SourceLocation)) (idx : Z) : Z :=
  match rest with
  | [] => idx
  | (t, l) :: rest' =>
      let first := match t with Comment => wrap32 (sl_offset l - 2) | Pragma => sl_offset l end in
      if start <=? first then idx else skip_extras start rest' (idx + 1)
  end.

(** The second loop: copy the text up to each comment or pragma that
    starts inside [i, finish), then the comment ([<@comment>]) or the
    pragma. *)
Fixpoint emit_extras (src : QString) (finish : Z) (rest : list (ExtraType * SourceLocation))
    (i idx : Z) (out : QString) : Z * Z * QString :=
  match rest with
  | [] => (i, idx, out)
  | (t, loc) :: rest' =>
      if negb (i <? finish) then (i, idx, out)
      else
        let j := wrap32 (sl_offset loc - 2) in
        if (i <=? j) && (j <? finish) then
          let out := if i <? j then out ++ protect (qmid src i (wrap32 (j - i))) else out in
          let l := sl_length loc in
          let '(l, out) :=
            match t with
            | Comment =>
                let l := if bool_decide (qmid src j 2 = qs "/*") then wrap32 (l + 4) else wrap32 (l + 2) in
                (l, out ++ qs "<@comment>" ++ protect (qmid src j l) ++ qs "</@comment>")
            | Pragma => (l, out ++ protect (qmid src j l))
            end in
          emit_extras src finish rest' (wrap32 (j + l)) (idx + 1) out
        else (i, idx, out)
  end.

Definition addExtra (v : Visitor) (start finish : Z) : Visitor :=
  let src := v_source v in
  if Z.of_nat (length (v_extraLocations v)) <=? v_extraIndex v then
    set_output v (v_output v ++ extra_text (qmid src start (wrap32 (finish - start))))
      (v_extraIndex v) finish
  else
    let idx := skip_extras start (drop (Z.to_nat (v_extraIndex v)) (extras v)) (v_extraIndex v) in
    let '(i, idx, out) := emit_extras src finish (drop (Z.to_nat idx) (extras v)) start idx (v_output v) in
    set_output v (out ++ extra_text (qmid src i (wrap32 (finish - i)))) idx finish.

(** ** Tokens *)

Definition sourceText (v : Visitor) (l : SourceLocation) : QString :=
  qmid (v_source v) (sl_offset l) (sl_length l).

(** [attributes[key]] on a const [QHash]: the value, or the empty string. *)
Fixpoint hash_value (k : QString) (attrs : list (QString * QString)) : QString :=
  match attrs with
  | [] => []
  | (k', x) :: rest => if bool_decide (k' = k) then x else hash_value k rest
  end.

(** [for (const auto &key : attributes)] visits the values of the hash. *)
Definition attributes_text (attrs : list (QString * QString)) : QString :=
  concat (map (fun kv => qs " " ++ kv.2 ++ qs "=" ++ [0x22] ++ hash_value kv.2 attrs ++ [0x22]) attrs).

Definition addMarkedUpToken (v : Visitor) (l : SourceLocation) (tagName : QString)
    (attrs : list (QString * QString)) : Visitor :=
  if negb (isValid l) then v
  else if v_cursor v >? sl_offset l then v
  else
    let v := if v_cursor v <? sl_offset l then addExtra v (v_cursor v) (sl_offset l) else v in
    set_output v (v_output v ++ qs "<@" ++ tagName ++ attributes_text attrs ++ qs ">" ++
                  protect (sourceText v l) ++ qs "</@" ++ tagName ++ qs ">")
      (v_extraIndex v) (wrap32 (v_cursor v + sl_length l)).

Definition addVerbatim (v : Visitor) (first last : SourceLocation) : Visitor :=
  if negb (isValid first) then v
  else
    let start := sl_begin first in
    let finish := if isValid last then sl_end last else sl_end first in
    if v_cursor v >? start then v
    else
      let v := if v_cursor v <? start then addExtra v (v_cursor v) start else v in
      set_output v (v_output v ++ protect (qmid (v_source v) start (wrap32 (finish - start))))
        (v_extraIndex v) finish.

Definition int_of_u32 (u : Z) : Z := if u <? 2 ^ 31 then u else u - 2 ^ 32.

(** [markedUpCode]: the rest of the source after the last token, then
    the output. *)
Definition markedUpCode (v : Visitor) : QString * Visitor :=
  let v := if int_of_u32 (v_cursor v) <? Z.of_nat (length (v_source v))
           then addExtra v (v_cursor v) (Z.of_nat (length (v_source v))) else v in
  (v_output v, v).

Definition hasError (v : Visitor) : bool := v_hasRecursionDepthError v.

(** Called by QQmlJS when the tree is too deep to visit. *)
Definition throwRecursionDepthError (v : Visitor) : Visitor :=
  mkVisitor (v_source v) (v_extraTypes v) (v_extraLocations v) (v_extraIndex v) (v_cursor v)
    (v_output v) true.

(** ** The syntax tree and the visit functions

    A [Node] is a QQmlJS AST node with the tokens and children the visit
    functions use; a child that may be null is an [option], a node list
    a [list].  For a [visit] that returns [true] the children are the
    ones QQmlJS's [accept0] visits, in its order; [endVisit] follows in
    every case. *)
Inductive LiteralKind := LNull | LTrue | LFalse | LNumeric | LString.

Inductive UnaryKind :=
  | PostIncrement | PostDecrement | Delete | Void | TypeOf | PreIncrement | PreDecrement
  | UnaryPlus | UnaryMinus | Tilde | Not.

Scheme All for list.
Scheme All for option.
Scheme All for prod.

Inductive Node :=
  | UiImport (importToken fileNameToken : SourceLocation) (hasImportUri : bool)
      (version : option (SourceLocation * SourceLocation))
      (asToken importIdToken semicolonToken : SourceLocation)
  | UiPublicMember (isProperty : bool)
      (defaultToken readonlyToken propertyToken typeModifierToken typeToken identifierToken
       colonToken semicolonToken : SourceLocation)
      (binding statement parameters : option Node)
  | UiObjectInitializer (lbraceToken rbraceToken : SourceLocation) (members : list Node)
  | UiObjectBinding (qualifiedId : Node) (colonToken : SourceLocation) (qualifiedTypeNameId : Node)
      (initializer : Node)
  | UiScriptBinding (qualifiedId : Node) (colonToken : SourceLocation) (statement : Node)
  | UiArrayBinding (qualifiedId : Node) (colonToken lbracketToken rbracketToken : SourceLocation)
      (members : list Node)
  | UiQualifiedId (identifierToken : SourceLocation)
  | UiObjectDefinition (typeNameToken : SourceLocation) (initializer : Node)
  | ThisExpression (thisToken : SourceLocation)
  | IdentifierExpression (identifierToken : SourceLocation)
  | Literal (kind : LiteralKind) (literalToken : SourceLocation)
  | RegExpLiteral (literalToken : SourceLocation)
  | ArrayPattern (lbracketToken rbracketToken : SourceLocation) (elements : list Node)
      (elision : option Node)
  | ObjectPattern (lbraceToken rbraceToken : SourceLocation) (properties : list Node)
  | Elision (commaToken : SourceLocation)
  | PatternProperty (name : Node) (colonToken : SourceLocation) (initializer : option Node)
  | ArrayMemberExpression (base : Node) (lbracketToken : SourceLocation) (expression : Node)
      (rbracketToken : SourceLocation)
  | FieldMemberExpression (base : Node) (dotToken identifierToken : SourceLocation)
  | NewMemberExpression (newToken : SourceLocation) (base : Node) (lparenToken : SourceLocation)
      (arguments : option Node) (rparenToken : SourceLocation)
  | NewExpression (newToken : SourceLocation) (expression : Node)
  | ArgumentList (commaToken : SourceLocation) (arguments : list Node)
  | UnaryExpression (kind : UnaryKind) (token : SourceLocation) (expression : Node)
  | BinaryExpression (left : Node) (operatorToken : SourceLocation) (right : Node)
  | ConditionalExpression (expression : Node) (questionToken : SourceLocation) (ok : Node)
      (colonToken : SourceLocation) (ko : Node)
  | Expression (left : Node) (commaToken : SourceLocation) (right : Node)
  | Block (lbraceToken rbraceToken : SourceLocation) (statements : list Node)
  | VariableStatement (declarationKindToken : SourceLocation) (declarations : list (Node * SourceLocation))
  | EmptyStatement (semicolonToken : SourceLocation)
  | ExpressionStatement (expression : Node) (semicolonToken : SourceLocation)
  | IfStatement (ifToken lparenToken : SourceLocation) (expression : Node) (rparenToken : SourceLocation)
      (ok : Node) (elseToken : SourceLocation) (ko : option Node)
  | DoWhileStatement (doToken : SourceLocation) (statement : Node) (whileToken lparenToken : SourceLocation)
      (expression : Node) (rparenToken semicolonToken : SourceLocation)
  | WhileStatement (whileToken lparenToken : SourceLocation) (expression : Node)
      (rparenToken : SourceLocation) (statement : Node)
  | ForStatement (forToken lparenToken : SourceLocation) (initialiser : option Node)
      (firstSemicolonToken : SourceLocation) (condition : option Node)
      (secondSemicolonToken : SourceLocation) (expression : option Node)
      (rparenToken : SourceLocation) (statement : Node)
  | ForEachStatement (forToken lparenToken : SourceLocation) (lhs : Node) (inOfToken : SourceLocation)
      (expression : Node) (rparenToken : SourceLocation) (statement : Node)
  | ContinueStatement (continueToken identifierToken semicolonToken : SourceLocation)
  | BreakStatement (breakToken identifierToken semicolonToken : SourceLocation)
  | ReturnStatement (returnToken : SourceLocation) (expression : option Node) (semicolonToken : SourceLocation)
  | WithStatement (withToken lparenToken : SourceLocation) (expression : Node)
      (rparenToken : SourceLocation) (statement : Node)
  | CaseBlock (lbraceToken rbraceToken : SourceLocation) (clauses : list Node)
  | SwitchStatement (switchToken lparenToken : SourceLocation) (expression : Node)
      (rparenToken : SourceLocation) (block : Node)
  | CaseClause (caseToken : SourceLocation) (expression : Node) (colonToken : SourceLocation)
      (statements : list Node)
  | DefaultClause (defaultToken colonToken : SourceLocation) (statements : list Node)
  | LabelledStatement (identifierToken colonToken : SourceLocation) (statement : Node)
  | ThrowStatement (throwToken : SourceLocation) (expression : Node) (semicolonToken : SourceLocation)
  | Catch (catchToken lparenToken identifierToken rparenToken : SourceLocation)
  | Finally (finallyToken : SourceLocation) (statement : Node)
  | TryStatement (tryToken : SourceLocation) (statement : Node) (catchExpression finallyExpression : option Node)
  | FunctionExpression (functionToken identifierToken lparenToken : SourceLocation) (formals : option Node)
      (rparenToken lbraceToken : SourceLocation) (body : option Node) (rbraceToken : SourceLocation)
  | FunctionDeclaration (functionToken identifierToken lparenToken : SourceLocation) (formals : option Node)
      (rparenToken lbraceToken : SourceLocation) (body : option Node) (rbraceToken : SourceLocation)
  | FormalParameterList (element : Node) (rest : list Node)
  | DebuggerStatement (debuggerToken semicolonToken : SourceLocation).

Definition verb (v : Visitor) (t : SourceLocation) : Visitor := addVerbatim v t noLoc.
Definition mark (v : Visitor) (t : SourceLocation) (tag : String.string) : Visitor :=
  addMarkedUpToken v t (qs tag) [].

Definition literal_tag (k : LiteralKind) : String.string :=
  match k with LString => "string" | _ => "number" end.

(** The children of a list node, in order ([for (it = list; it; it = it->next)]). *)
Definition accept_nodes (acc : Node -> Visitor -> Visitor) (l : list Node) (v : Visitor) : Visitor :=
  fold_left (fun v x => acc x v) l v.

Definition accept_opt (acc : Node -> Visitor -> Visitor) (o : option Node) (v : Visitor) : Visitor :=
  match o with None => v | Some x => acc x v end.

(** One definition per [visit] (and its [endVisit]); [acc] is
    [Node::accept] on the children. *)
Section Visits.
Context (acc : Node -> Visitor -> Visitor).

Definition visit_UiImport v imp file (hasUri : bool) (version : option (SourceLocation * SourceLocation))
    asT idT semi :=
  let v := verb v imp in
  let v := if hasUri then v else mark v file "headerfile" in
  let v := match version with Some (f, l) => addVerbatim v f l | None => v end in
  let v := verb v asT in
  let v := mark v idT "headerfile" in
  verb v semi.

Definition visit_UiPublicMember v (isProperty : bool) dflt ro prop tmod ty ident colon semi
    (binding statement parameters : option Node) :=
  let v :=
    if isProperty then
      let v := verb v dflt in
      let v := verb v ro in
      let v := verb v prop in
      let v := verb v tmod in
      let v := mark v ty "type" in
      let v := mark v ident "name" in
      let v := verb v colon in
      match binding with
      | Some b => acc b v
      | None => accept_opt acc statement v
      end
    else
      let v := verb v prop in
      let v := verb v tmod in
      let v := mark v ty "type" in
      accept_opt acc parameters v in
  verb v semi.

Definition visit_UiObjectInitializer v lb rb members :=
  addVerbatim (accept_nodes acc members (addVerbatim v lb lb)) rb rb.

Definition visit_UiObjectBinding v qid colon tyId init :=
  acc init (acc tyId (verb (acc qid v) colon)).

Definition visit_UiScriptBinding v qid colon st := acc st (verb (acc qid v) colon).

Definition visit_UiArrayBinding v qid colon lb rb members :=
  verb (accept_nodes acc members (verb (verb (acc qid v) colon) lb)) rb.

Definition visit_UiQualifiedId v ident := mark v ident "name".

Definition visit_UiObjectDefinition v tyName init := acc init (mark v tyName "type").

Definition visit_ThisExpression v t := verb v t.

Definition visit_IdentifierExpression v ident := mark v ident "name".

Definition visit_Literal v k t := mark v t (literal_tag k).

Definition visit_RegExpLiteral v t := verb v t.

Definition visit_ArrayPattern v lb rb elements (elision : option Node) :=
  verb (accept_opt acc elision (accept_nodes acc elements (verb v lb))) rb.

Definition visit_ObjectPattern v lb rb props := verb (accept_nodes acc props (verb v lb)) rb.

Definition visit_Elision v c := addVerbatim v c c.

Definition visit_PatternProperty v name colon init :=
  accept_opt acc init (addVerbatim (acc name v) colon colon).

Definition visit_ArrayMemberExpression v base lb e rb := verb (acc e (verb (acc base v) lb)) rb.

Definition visit_FieldMemberExpression v base dot ident := mark (verb (acc base v) dot) ident "name".

Definition visit_NewMemberExpression v nw base lp args rp :=
  verb (accept_opt acc args (verb (acc base (verb v nw)) lp)) rp.

Definition visit_NewExpression v nw e := acc e (verb v nw).

Definition visit_ArgumentList v c args := accept_nodes acc args (addVerbatim v c c).

(** The eleven unary visits: the operator token, then the operand. *)
Definition visit_Unary v (t : SourceLocation) e := acc e (verb v t).

Definition visit_BinaryExpression v l op r := acc r (mark (acc l v) op "op").

Definition visit_ConditionalExpression v e q ok colon ko :=
  acc ko (verb (acc ok (verb (acc e v) q)) colon).

Definition visit_Expression v l c r := acc r (verb (acc l v) c).

Definition visit_Block v lb rb stmts := verb (accept_nodes acc stmts (verb v lb)) rb.

Definition visit_VariableDeclarationList (decls : list (Node * SourceLocation)) v :=
  fold_left (fun v dc => verb (acc dc.1 v) dc.2) decls v.

Definition visit_VariableStatement v kind decls := visit_VariableDeclarationList decls (verb v kind).

Definition visit_EmptyStatement v semi := verb v semi.

Definition visit_ExpressionStatement v e semi := verb (acc e v) semi.

Definition visit_IfStatement v ifT lp e rp ok elseT (ko : option Node) :=
  let v := acc ok (verb (acc e (verb (mark v ifT "keyword") lp)) rp) in
  match ko with
  | Some k => acc k (mark v elseT "keyword")
  | None => v
  end.

Definition visit_DoWhileStatement v doT st whileT lp e rp semi :=
  let v := acc st (mark v doT "keyword") in
  let v := acc e (verb (mark v whileT "keyword") lp) in
  verb (verb v rp) semi.

Definition visit_WhileStatement v whileT lp e rp st :=
  acc st (verb (acc e (verb (mark v whileT "keyword") lp)) rp).

Definition visit_ForStatement v forT lp init s1 cond s2 e rp st :=
  let v := accept_opt acc init (verb (mark v forT "keyword") lp) in
  let v := accept_opt acc cond (verb v s1) in
  let v := accept_opt acc e (verb v s2) in
  acc st (verb v rp).

Definition visit_ForEachStatement v forT lp lhs inOf e rp st :=
  let v := acc lhs (verb (mark v forT "keyword") lp) in
  acc st (verb (acc e (verb v inOf)) rp).

Definition visit_ContinueStatement v t ident semi := verb (mark (mark v t "keyword") ident "name") semi.

Definition visit_BreakStatement v t ident semi := verb (mark (mark v t "keyword") ident "name") semi.

Definition visit_ReturnStatement v t e semi := verb (accept_opt acc e (mark v t "keyword")) semi.

Definition visit_WithStatement v t lp e rp st :=
  acc st (verb (acc e (verb (mark v t "keyword") lp)) rp).

Definition visit_CaseBlock v lb rb clauses := addVerbatim (accept_nodes acc clauses (verb v lb)) rb rb.

Definition visit_SwitchStatement v t lp e rp block :=
  acc block (verb (acc e (verb (mark v t "keyword") lp)) rp).

Definition visit_CaseClause v t e colon stmts := accept_nodes acc stmts (verb (acc e (mark v t "keyword")) colon).

Definition visit_DefaultClause v t colon stmts :=
  accept_nodes acc stmts (addVerbatim (mark v t "keyword") colon colon).

Definition visit_LabelledStatement v ident colon st := acc st (verb (mark v ident "name") colon).

Definition visit_ThrowStatement v t e semi := verb (acc e (mark v t "keyword")) semi.

Definition visit_Catch v t lp ident rp := verb (mark (verb (mark v t "keyword") lp) ident "name") rp.

Definition visit_Finally v t st := acc st (mark v t "keyword").

Definition visit_TryStatement v t st c f := accept_opt acc f (accept_opt acc c (acc st (mark v t "keyword"))).

(** [FunctionExpression] and [FunctionDeclaration] have the same body. *)
Definition visit_Function v ft ident lp formals rp lb body rb :=
  let v := verb (mark (mark v ft "keyword") ident "name") lp in
  let v := verb (verb (accept_opt acc formals v) rp) lb in
  verb (accept_opt acc body v) rb.

(** Only the first parameter's element is visited. *)
Definition visit_FormalParameterList v element := acc element v.

Definition visit_DebuggerStatement v t semi := verb (verb v t) semi.
End Visits.

(** [Node::accept]: dispatch to the node's visit function. *)
Fixpoint accept (n : Node) (v : Visitor) {struct n} : Visitor :=
  match n with
  | UiImport imp file hasUri version asT idT semi => visit_UiImport v imp file hasUri version asT idT semi
  | UiPublicMember p dflt ro prop tmod ty ident colon semi b s ps =>
      visit_UiPublicMember accept v p dflt ro prop tmod ty ident colon semi b s ps
  | UiObjectInitializer lb rb members => visit_UiObjectInitializer accept v lb rb members
  | UiObjectBinding qid colon tyId init => visit_UiObjectBinding accept v qid colon tyId init
  | UiScriptBinding qid colon st => visit_UiScriptBinding accept v qid colon st
  | UiArrayBinding qid colon lb rb members => visit_UiArrayBinding accept v qid colon lb rb members
  | UiQualifiedId ident => visit_UiQualifiedId v ident
  | UiObjectDefinition tyName init => visit_UiObjectDefinition accept v tyName init
  | ThisExpression t => visit_ThisExpression v t
  | IdentifierExpression ident => visit_IdentifierExpression v ident
  | Literal k t => visit_Literal v k t
  | RegExpLiteral t => visit_RegExpLiteral v t
  | ArrayPattern lb rb elements elision => visit_ArrayPattern accept v lb rb elements elision
  | ObjectPattern lb rb props => visit_ObjectPattern accept v lb rb props
  | Elision c => visit_Elision v c
  | PatternProperty name colon init => visit_PatternProperty accept v name colon init
  | ArrayMemberExpression base lb e rb => visit_ArrayMemberExpression accept v base lb e rb
  | FieldMemberExpression base dot ident => visit_FieldMemberExpression accept v base dot ident
  | NewMemberExpression nw base lp args rp => visit_NewMemberExpression accept v nw base lp args rp
  | NewExpression nw e => visit_NewExpression accept v nw e
  | ArgumentList c args => visit_ArgumentList accept v c args
  | UnaryExpression _ t e => visit_Unary accept v t e
  | BinaryExpression l op r => visit_BinaryExpression accept v l op r
  | ConditionalExpression e q ok colon ko => visit_ConditionalExpression accept v e q ok colon ko
  | Expression l c r => visit_Expression accept v l c r
  | Block lb rb stmts => visit_Block accept v lb rb stmts
  | VariableStatement kind decls => visit_VariableStatement accept v kind decls
  | EmptyStatement semi => visit_EmptyStatement v semi
  | ExpressionStatement e semi => visit_ExpressionStatement accept v e semi
  | IfStatement ifT lp e rp ok elseT ko => visit_IfStatement accept v ifT lp e rp ok elseT ko
  | DoWhileStatement doT st whileT lp e rp semi => visit_DoWhileStatement accept v doT st whileT lp e rp semi
  | WhileStatement t lp e rp st => visit_WhileStatement accept v t lp e rp st
  | ForStatement t lp init s1 cond s2 e rp st => visit_ForStatement accept v t lp init s1 cond s2 e rp st
  | ForEachStatement t lp lhs inOf e rp st => visit_ForEachStatement accept v t lp lhs inOf e rp st
  | ContinueStatement t ident semi => visit_ContinueStatement v t ident semi
  | BreakStatement t ident semi => visit_BreakStatement v t ident semi
  | ReturnStatement t e semi => visit_ReturnStatement accept v t e semi
  | WithStatement t lp e rp st => visit_WithStatement accept v t lp e rp st
  | CaseBlock lb rb clauses => visit_CaseBlock accept v lb rb clauses
  | SwitchStatement t lp e rp block => visit_SwitchStatement accept v t lp e rp block
  | CaseClause t e colon stmts => visit_CaseClause accept v t e colon stmts
  | DefaultClause t colon stmts => visit_DefaultClause accept v t colon stmts
  | LabelledStatement ident colon st => visit_LabelledStatement accept v ident colon st
  | ThrowStatement t e semi => visit_ThrowStatement accept v t e semi
  | Catch t lp ident rp => visit_Catch v t lp ident rp
  | Finally t st => visit_Finally accept v t st
  | TryStatement t st c f => visit_TryStatement accept v t st c f
  | FunctionExpression ft ident lp formals rp lb body rb
  | FunctionDeclaration ft ident lp formals rp lb body rb =>
      visit_Function accept v ft ident lp formals rp lb body rb
  | FormalParameterList element _ => visit_FormalParameterList accept v element
  | DebuggerStatement t semi => visit_DebuggerStatement v t semi
  end.

(** ** Well-formed trees

    The spans a visit passes to [addVerbatim] and [addMarkedUpToken], in
    the order [accept] passes them: a single token as [(t, noLoc)], a
    range as [(first, last)]. *)
Definition tk (t : SourceLocation) : SourceLocation * SourceLocation := (t, noLoc).

Fixpoint node_spans (n : Node) : list (SourceLocation * SourceLocation) :=
  let fix spans_list (l : list Node) :=
    match l with [] => [] | x :: r => node_spans x ++ spans_list r end in
  let spans_opt (o : option Node) := match o with None => [] | Some x => node_spans x end in
  let fix spans_decls (l : list (Node * SourceLocation)) :=
    match l with [] => [] | (d, c) :: r => node_spans d ++ tk c :: spans_decls r end in
  match n with
  | UiImport imp file hasUri version asT idT semi =>
      [tk imp] ++ (if hasUri then [] else [tk file]) ++
      (match version with Some (f, l) => [(f, l)] | None => [] end) ++ [tk asT; tk idT; tk semi]
  | UiPublicMember true dflt ro prop tmod ty ident colon semi binding statement _ =>
      [tk dflt; tk ro; tk prop; tk tmod; tk ty; tk ident; tk colon] ++
      (match binding with Some b => node_spans b | None => spans_opt statement end) ++ [tk semi]
  | UiPublicMember false _ _ prop tmod ty _ _ semi _ _ params =>
      [tk prop; tk tmod; tk ty] ++ spans_opt params ++ [tk semi]
  | UiObjectInitializer lb rb members => [(lb, lb)] ++ spans_list members ++ [(rb, rb)]
  | UiObjectBinding qid colon tyId init => node_spans qid ++ [tk colon] ++ node_spans tyId ++ node_spans init
  | UiScriptBinding qid colon st => node_spans qid ++ [tk colon] ++ node_spans st
  | UiArrayBinding qid colon lb rb members =>
      node_spans qid ++ [tk colon; tk lb] ++ spans_list members ++ [tk rb]
  | UiQualifiedId t | ThisExpression t | IdentifierExpression t | Literal _ t | RegExpLiteral t
  | EmptyStatement t => [tk t]
  | UiObjectDefinition tyName init => tk tyName :: node_spans init
  | ArrayPattern lb rb elements elision => [tk lb] ++ spans_list elements ++ spans_opt elision ++ [tk rb]
  | ObjectPattern lb rb props => [tk lb] ++ spans_list props ++ [tk rb]
  | Elision c => [(c, c)]
  | PatternProperty name colon init => node_spans name ++ [(colon, colon)] ++ spans_opt init
  | ArrayMemberExpression base lb e rb => node_spans base ++ [tk lb] ++ node_spans e ++ [tk rb]
  | FieldMemberExpression base dot ident => node_spans base ++ [tk dot; tk ident]
  | NewMemberExpression nw base lp args rp =>
      [tk nw] ++ node_spans base ++ [tk lp] ++ spans_opt args ++ [tk rp]
  | NewExpression t e | UnaryExpression _ t e => tk t :: node_spans e
  | ArgumentList c args => (c, c) :: spans_list args
  | BinaryExpression l t r | Expression l t r => node_spans l ++ [tk t] ++ node_spans r
  | ConditionalExpression e q ok colon ko =>
      node_spans e ++ [tk q] ++ node_spans ok ++ [tk colon] ++ node_spans ko
  | Block lb rb stmts => [tk lb] ++ spans_list stmts ++ [tk rb]
  | VariableStatement kind decls => tk kind :: spans_decls decls
  | ExpressionStatement e semi => node_spans e ++ [tk semi]
  | IfStatement ifT lp e rp ok elseT ko =>
      [tk ifT; tk lp] ++ node_spans e ++ [tk rp] ++ node_spans ok ++
      (match ko with Some k => tk elseT :: node_spans k | None => [] end)
  | DoWhileStatement doT st whileT lp e rp semi =>
      [tk doT] ++ node_spans st ++ [tk whileT; tk lp] ++ node_spans e ++ [tk rp; tk semi]
  | WhileStatement t lp e rp st | WithStatement t lp e rp st | SwitchStatement t lp e rp st =>
      [tk t; tk lp] ++ node_spans e ++ [tk rp] ++ node_spans st
  | ForStatement forT lp init s1 cond s2 e rp st =>
      [tk forT; tk lp] ++ spans_opt init ++ [tk s1] ++ spans_opt cond ++ [tk s2] ++ spans_opt e ++
      [tk rp] ++ node_spans st
  | ForEachStatement forT lp lhs inOf e rp st =>
      [tk forT; tk lp] ++ node_spans lhs ++ [tk inOf] ++ node_spans e ++ [tk rp] ++ node_spans st
  | ContinueStatement t ident semi | BreakStatement t ident semi => [tk t; tk ident; tk semi]
  | ReturnStatement t e semi => [tk t] ++ spans_opt e ++ [tk semi]
  | CaseBlock lb rb clauses => [tk lb] ++ spans_list clauses ++ [(rb, rb)]
  | CaseClause t e colon stmts => [tk t] ++ node_spans e ++ [tk colon] ++ spans_list stmts
  | DefaultClause t colon stmts => [tk t; (colon, colon)] ++ spans_list stmts
  | LabelledStatement ident colon st => [tk ident; tk colon] ++ node_spans st
  | ThrowStatement t e semi => [tk t] ++ node_spans e ++ [tk semi]
  | Catch t lp ident rp => [tk t; tk lp; tk ident; tk rp]
  | Finally t st => tk t :: node_spans st
  | TryStatement t st c f => [tk t] ++ node_spans st ++ spans_opt c ++ spans_opt f
  | FunctionExpression ft ident lp formals rp lb body rb
  | FunctionDeclaration ft ident lp formals rp lb body rb =>
      [tk ft; tk ident; tk lp] ++ spans_opt formals ++ [tk rp; tk lb] ++ spans_opt body ++ [tk rb]
  | FormalParameterList element _ => node_spans element
  | DebuggerStatement t semi => [tk t; tk semi]
  end.

Definition spans_list : list Node -> list (SourceLocation * SourceLocation) :=
  fix spans_list (l : list Node) :=
    match l with [] => [] | x :: r => node_spans x ++ spans_list r end.

Definition spans_decls : list (Node * SourceLocation) -> list (SourceLocation * SourceLocation) :=
  fix spans_decls (l : list (Node * SourceLocation)) :=
    match l with [] => [] | (d, c) :: r => node_spans d ++ tk c :: spans_decls r end.

Definition loc_okb (l : SourceLocation) : bool :=
  (0 <=? sl_offset l) && (0 <=? sl_length l) && (sl_offset l + sl_length l <? 2 ^ 32).

Definition span_okb (s : SourceLocation * SourceLocation) : bool :=
  negb (isValid s.1) ||
  (loc_okb s.1 && (negb (isValid s.2) || (loc_okb s.2 && (sl_offset s.1 <=? sl_offset s.2 + sl_length s.2)))).

(** Every token of the tree lies in the 32-bit range. *)
Definition node_ok (n : Node) : bool := forallb span_okb (node_spans n).

(** ** Reading the markup back

    [unmark] is the reader's view of the output: tags [<...>] are
    dropped and the four entities [protect] writes are decoded.  It is
    the specification of the output; the code has no such function. *)
Definition entity (r : QString) : option (Z * nat) :=
  if bool_decide (take 4 r = qs "amp;") then Some (0x26, 4%nat)
  else if bool_decide (take 3 r = qs "lt;") then Some (0x3c, 3%nat)
  else if bool_decide (take 3 r = qs "gt;") then Some (0x3e, 3%nat)
  else if bool_decide (take 5 r = qs "quot;") then Some (0x22, 5%nat)
  else None.

Fixpoint unmark_aux (skip : nat) (in_tag : bool) (s : QString) : QString :=
  match s with
  | [] => []
  | c :: r =>
      match skip with
      | S k => unmark_aux k in_tag r
      | O =>
          if in_tag then unmark_aux 0 (negb (c =? 0x3e)) r
          else if c =? 0x3c then unmark_aux 0 true r
          else if c =? 0x26 then
            match entity r with
            | Some (d, n) => d :: unmark_aux n false r
            | None => c :: unmark_aux 0 false r
            end
          else c :: unmark_aux 0 false r
      end
  end.

Definition unmark (s : QString) : QString := unmark_aux 0 false s.

Lemma unmark_plain c r : c <> 0x3c -> c <> 0x26 -> unmark (c :: r) = c :: unmark r.
Proof. intros H1 H2. unfold unmark; cbn. rewrite (proj2 (Z.eqb_neq _ _) H1), (proj2 (Z.eqb_neq _ _) H2). done. Qed.

Lemma unmark_protect_char c r : unmark (protect_char c ++ r) = c :: unmark r.
Proof.
  unfold protect_char.
  destruct (Z.eqb_spec c 0x26); [subst; reflexivity|].
  destruct (Z.eqb_spec c 0x3c); [subst; reflexivity|].
  destruct (Z.eqb_spec c 0x3e); [subst; reflexivity|].
  destruct (Z.eqb_spec c 0x22); [subst; reflexivity|].
  by apply unmark_plain.
Qed.

Lemma unmark_protect s r : unmark (protect s ++ r) = s ++ unmark r.
Proof.
  induction s as [|c s IH]; [done|].
  unfold protect in *; cbn [map concat]. rewrite <- app_assoc, unmark_protect_char.
  by rewrite IH.
Qed.

Lemma unmark_extra_text s r : unmark (extra_text s ++ r) = s ++ unmark r.
Proof.
  unfold extra_text. destruct (trimmed_empty s) eqn:E; [|apply unmark_protect].
  induction s as [|c s IH]; [done|].
  unfold trimmed_empty in E; cbn [forallb] in E. apply andb_prop in E as [Hc Hs].
  cbn [app]. rewrite unmark_plain, IH; [done|done| |];
    intros ->; discriminate Hc.
Qed.

(** A tag whose text has no [>] is skipped whole. *)
Definition tag_ok (t : QString) : bool := forallb (fun c => negb (c =? 0x3e)) t.

Lemma unmark_skip_tag t r : tag_ok t = true -> unmark_aux 0 true (t ++ 0x3e :: r) = unmark r.
Proof.
  induction t as [|c t IH]; [done|].
  cbn [tag_ok forallb app]. intros [Hc Ht]%andb_prop. cbn.
  destruct (c =? 0x3e); [discriminate|]. by apply IH.
Qed.

Lemma unmark_tag t r : tag_ok t = true -> unmark (0x3c :: t ++ 0x3e :: r) = unmark r.
Proof. intros Ht. unfold unmark at 1; cbn. by apply unmark_skip_tag. Qed.

(** [mid] at [c] for [f - c] characters continues [take c]. *)
Lemma take_qmid src c f :
  0 <= c <= f -> take (Z.to_nat c) src ++ qmid src c (f - c) = take (Z.to_nat f) src.
Proof.
  intros Hc. unfold qmid. destruct (Z.ltb_spec (Z.of_nat (length src)) c).
  - rewrite app_nil_r, !take_ge; [done| lia | lia].
  - rewrite take_take_drop. f_equal. lia.
Qed.

Lemma take_qmid_len src c n :
  0 <= c -> 0 <= n -> take (Z.to_nat c) src ++ qmid src c n = take (Z.to_nat (c + n)) src.
Proof. intros. rewrite <- (take_qmid src c (c + n)) by lia. do 2 f_equal. lia. Qed.

(** ** The lossless invariant

    A comment or pragma [x] of the visitor's list covers the source from
    [ext_start x] for [ext_len src x] characters, as [addExtra] copies it:
    two characters before its location, and for a comment its two
    delimiters.  [gap_okb src xs finish]: every one of them that starts
    before [finish] ends there at the latest. *)
Definition ext_start (x : ExtraType * SourceLocation) : Z := wrap32 (sl_offset x.2 - 2).

Definition ext_len (src : QString) (x : ExtraType * SourceLocation) : Z :=
  match x.1 with
  | Comment =>
      if bool_decide (qmid src (ext_start x) 2 = qs "/*") then wrap32 (sl_length x.2 + 4)
      else wrap32 (sl_length x.2 + 2)
  | Pragma => sl_length x.2
  end.

Definition gap_cond (src : QString) (finish : Z) (x : ExtraType * SourceLocation) : bool :=
  negb (ext_start x <? finish) || ((0 <=? ext_len src x) && (ext_start x + ext_len src x <=? finish)).

Definition gap_okb (src : QString) (xs : list (ExtraType * SourceLocation)) (finish : Z) : bool :=
  forallb (gap_cond src finish) xs.

(** A span of the tree in the 32-bit range, and no comment or pragma
    across the start of its token. *)
Definition span_good (src : QString) (xs : list (ExtraType * SourceLocation))
    (s : SourceLocation * SourceLocation) : bool :=
  span_okb s && gap_okb src xs (sl_offset s.1).

(** [Good src xs v]: the visitor reads [src] with the comments and
    pragmas [xs], its cursor is a [quint32], and its output reads back as
    the source up to the cursor, whatever follows it. *)
Definition Good (src : QString) (xs : list (ExtraType * SourceLocation)) (v : Visitor) : Prop :=
  v_source v = src /\ extras v = xs /\
  0 <= v_cursor v < 2 ^ 32 /\
  forall r, unmark (v_output v ++ r) = take (Z.to_nat (v_cursor v)) src ++ unmark r.

(** A token inside the 32-bit range; a span [first..last] whose last
    token does not end before the first one starts. *)
Definition loc_ok (l : SourceLocation) : Prop :=
  0 <= sl_offset l /\ 0 <= sl_length l /\ sl_offset l + sl_length l < 2 ^ 32.

Definition span_ok (s : SourceLocation * SourceLocation) : Prop :=
  isValid s.1 = true ->
  loc_ok s.1 /\ (isValid s.2 = true -> loc_ok s.2 /\ sl_offset s.1 <= sl_offset s.2 + sl_length s.2).

Lemma forallb_drop {A} (f : A -> bool) (n : nat) (l : list A) :
  forallb f l = true -> forallb f (drop n l) = true.
Proof. rewrite <- (take_drop n l) at 1. rewrite forallb_app. by intros [_ ?]%andb_prop. Qed.

Lemma unmark_comment s r :
  unmark (qs "<@comment>" ++ protect s ++ qs "</@comment>" ++ r) = s ++ unmark r.
Proof.
  change (qs "<@comment>" ++ ?x) with (60 :: [64; 99; 111; 109; 109; 101; 110; 116] ++ 62 :: x).
  rewrite unmark_tag, unmark_protect by reflexivity. f_equal.
Qed.

Section Primitives.
Context (src : QString) (xs : list (ExtraType * SourceLocation)).

Lemma set_output_good v out c :
  Good src xs v -> 0 <= c < 2 ^ 32 ->
  (forall r, unmark (out ++ r) = take (Z.to_nat c) src ++ unmark r) ->
  Good src xs (set_output v out (v_extraIndex v) c).
Proof. intros (? & ? & ? & ?) ? ?. unfold Good, set_output; cbn. split_and!; try done; lia. Qed.

Lemma set_output_good' v out idx c :
  Good src xs v -> 0 <= c < 2 ^ 32 ->
  (forall r, unmark (out ++ r) = take (Z.to_nat c) src ++ unmark r) ->
  Good src xs (set_output v out idx c).
Proof. intros (? & ? & ? & ?) ? ?. unfold Good, set_output; cbn. split_and!; try done; lia. Qed.

(** The text from [i] to [j], then a comment or pragma copied from [j]. *)
Lemma emit_piece out i j l (t : ExtraType) :
  0 <= i <= j -> 0 <= l -> j < 2 ^ 32 ->
  (forall r, unmark (out ++ r) = take (Z.to_nat i) src ++ unmark r) ->
  forall r, unmark (((if i <? j then out ++ protect (qmid src i (wrap32 (j - i))) else out) ++
    match t with
    | Comment => qs "<@comment>" ++ protect (qmid src j l) ++ qs "</@comment>"
    | Pragma => protect (qmid src j l)
    end) ++ r) = take (Z.to_nat (j + l)) src ++ unmark r.
Proof.
  intros Hij Hl Hj Ho r.
  assert (Hpre : forall r', unmark ((if i <? j then out ++ protect (qmid src i (wrap32 (j - i))) else out) ++ r')
                            = take (Z.to_nat j) src ++ unmark r').
  { intros r'. destruct (Z.ltb_spec i j).
    - rewrite <- app_assoc, Ho, unmark_protect, app_assoc, wrap32_small, take_qmid by lia. done.
    - rewrite Ho. do 3 f_equal. lia. }
  rewrite <- app_assoc, Hpre, <- take_qmid_len by lia. rewrite <- app_assoc. f_equal.
  destruct t; rewrite <- ?app_assoc; [apply unmark_comment|apply unmark_protect].
Qed.

Lemma emit_extras_good finish rest i idx out i' idx' out' :
  emit_extras src finish rest i idx out = (i', idx', out') ->
  0 <= i <= finish -> finish < 2 ^ 32 ->
  (forall r, unmark (out ++ r) = take (Z.to_nat i) src ++ unmark r) ->
  forallb (gap_cond src finish) rest = true ->
  i <= i' <= finish /\ forall r, unmark (out' ++ r) = take (Z.to_nat i') src ++ unmark r.
Proof.
  revert i idx out. induction rest as [|[t loc] rest IH]; intros i idx out E Hi Hf Ho Hg;
    cbn [emit_extras] in E; [injection E as <- <- <-; split; [lia|done]|].
  cbn [forallb] in Hg. apply andb_prop in Hg as [Hx Hg].
  destruct (Z.ltb_spec i finish) as [Hlt|Hge]; cbn [negb] in E; [|injection E as <- <- <-; split; [lia|done]].
  set (j := wrap32 (sl_offset loc - 2)) in E.
  destruct (Z.leb_spec i j); cbn [andb] in E; [|injection E as <- <- <-; split; [lia|done]].
  destruct (Z.ltb_spec j finish); cbn [andb] in E; [|injection E as <- <- <-; split; [lia|done]].
  unfold gap_cond, ext_start in Hx; cbn [fst snd] in Hx. fold j in Hx.
  rewrite (proj2 (Z.ltb_lt _ _)) in Hx by done. cbn [negb orb] in Hx.
  apply andb_prop in Hx as [Hl0 Hle]. apply Z.leb_le in Hl0, Hle.
  set (l := ext_len src (t, loc)) in Hl0, Hle.
  assert (Hpiece := emit_piece out i j l t ltac:(lia) Hl0 ltac:(lia) Ho).
  assert (El : (match t with
                | Comment => if bool_decide (qmid src j 2 = qs "/*") then wrap32 (sl_length loc + 4)
                             else wrap32 (sl_length loc + 2)
                | Pragma => sl_length loc end) = l) by (subst l; unfold ext_len, ext_start; done).
  destruct t; cbn zeta in E; rewrite El, wrap32_small in E by lia;
    (apply IH in E as [? ?]; [split; [lia|done]|lia|lia|apply Hpiece|done]).
Qed.

Lemma emit_extras_stop finish rest i idx out :
  finish <= i -> emit_extras src finish rest i idx out = (i, idx, out).
Proof. intros H. destruct rest as [|[t loc] rest]; cbn; [done|]. by rewrite (proj2 (Z.ltb_ge _ _) H). Qed.

Lemma addExtra_good v f :
  Good src xs v -> v_cursor v <= f < 2 ^ 32 -> gap_okb src xs f = true ->
  Good src xs (addExtra v (v_cursor v) f) /\ v_cursor (addExtra v (v_cursor v) f) = f.
Proof.
  intros HG Hf Hgap. pose proof HG as (Hs & Hx & Hc & Ho). unfold addExtra.
  destruct (_ <=? _).
  - split; [|done]. apply set_output_good; [done|lia|]. intros r.
    rewrite <- app_assoc, Ho, unmark_extra_text, Hs, wrap32_small by lia.
    rewrite app_assoc, take_qmid by lia. done.
  - destruct (emit_extras _ _ _ _ _ _) as [[i idx] out] eqn:E. split; [|done].
    rewrite Hs in E. apply emit_extras_good in E as [Hi Hout]; [|lia|lia|done|].
    2: { apply forallb_drop. by rewrite Hx. }
    apply set_output_good'; [done|lia|]. intros r.
    rewrite <- app_assoc, Hout, unmark_extra_text, Hs, wrap32_small by lia.
    rewrite app_assoc, take_qmid by lia. done.
Qed.

(** The text between the cursor and a token that starts at [start]. *)
Lemma pre_good v start :
  Good src xs v -> v_cursor v <= start < 2 ^ 32 -> gap_okb src xs start = true ->
  exists v', Good src xs v' /\ v_cursor v' = start /\
    (if v_cursor v <? start then addExtra v (v_cursor v) start else v) = v'.
Proof.
  intros HG Hs Hgap. destruct (Z.ltb_spec (v_cursor v) start).
  - destruct (addExtra_good v start HG Hs Hgap) as [HA HB].
    by exists (addExtra v (v_cursor v) start).
  - exists v. split_and!; [done|lia|done].
Qed.

Lemma unmark_markup tag s r :
  tag_ok tag = true ->
  unmark ((qs "<@" ++ tag ++ attributes_text [] ++ qs ">" ++ protect s ++ qs "</@" ++ tag ++ qs ">") ++ r) =
  s ++ unmark r.
Proof.
  intros Ht. change (qs "<@") with [60; 64]. change (qs ">") with [62]. change (qs "</@") with [60; 47; 64].
  cbn [attributes_text map concat]. rewrite !app_nil_l, <- !app_assoc.
  change ([60; 64] ++ ?x) with (60 :: (64 :: tag) ++ 62 :: protect s ++ [60; 47; 64] ++ tag ++ [62] ++ r).
  rewrite (unmark_tag (64 :: tag)) by done. rewrite unmark_protect. f_equal.
  change ([60; 47; 64] ++ ?x) with (60 :: (47 :: 64 :: tag) ++ 62 :: r).
  by rewrite (unmark_tag (47 :: 64 :: tag)).
Qed.

Lemma addMarkedUpToken_good v l tag :
  Good src xs v -> (isValid l = true -> loc_ok l) -> gap_okb src xs (sl_offset l) = true ->
  tag_ok tag = true -> Good src xs (addMarkedUpToken v l tag []).
Proof.
  intros HG Hl Hgap Ht. unfold addMarkedUpToken.
  destruct (isValid l) eqn:Hv; [|done]. destruct (Hl eq_refl) as (H0 & H1 & H2).
  destruct (Z.gtb_spec (v_cursor v) (sl_offset l)); [done|]. cbn [negb].
  destruct (pre_good v (sl_offset l) HG) as (v' & HG' & Hc & ->); [pose proof HG as (_&_&?&_); lia|done|].
  pose proof HG' as (Hs & _ & _ & Ho).
  apply set_output_good; [done|rewrite wrap32_small; lia|]. intros r.
  rewrite <- app_assoc, Ho, unmark_markup, app_assoc by done.
  unfold sourceText. rewrite Hs, Hc, wrap32_small, take_qmid_len by lia. done.
Qed.

Lemma addVerbatim_good v f l :
  Good src xs v -> span_ok (f, l) -> gap_okb src xs (sl_offset f) = true -> Good src xs (addVerbatim v f l).
Proof.
  intros HG Hsp Hgap. unfold addVerbatim.
  destruct (isValid f) eqn:Hv; [|done]. destruct (Hsp Hv) as ((H0 & H1 & H2) & Hl). cbn [negb fst snd] in *.
  set (finish := if isValid l then sl_end l else sl_end f).
  assert (Hfin : sl_begin f <= finish < 2 ^ 32).
  { subst finish. unfold sl_begin, sl_end. destruct (isValid l).
    - destruct (Hl eq_refl) as ((? & ? & ?) & ?). rewrite wrap32_small; lia.
    - rewrite wrap32_small; lia. }
  destruct (Z.gtb_spec (v_cursor v) (sl_begin f)); [done|].
  destruct (pre_good v (sl_begin f) HG) as (v' & HG' & Hc & ->); [unfold sl_begin in *; lia|done|].
  pose proof HG' as (Hs & _ & _ & Ho).
  apply set_output_good; [done|pose proof HG as (_&_&?&_); lia|]. intros r.
  unfold sl_begin in *. rewrite <- app_assoc, Ho, unmark_protect, app_assoc, Hs, <- Hc, wrap32_small, take_qmid by lia. done.
Qed.
End Primitives.

Lemma span_okb_sound s : span_okb s = true -> span_ok s.
Proof.
  destruct s as [f l]. unfold span_okb, span_ok, loc_okb, loc_ok; cbn.
  intros H Hf. rewrite Hf in H. cbn in H.
  destruct (isValid l); cbn in H; rewrite ?andb_true_iff, ?Z.leb_le, ?Z.ltb_lt in H; [|split; [lia|done]].
  split; [lia|]. intros _. lia.
Qed.

(** ** [accept] keeps the output lossless *)
Section AcceptGood.
Context (src : QString) (xs : list (ExtraType * SourceLocation)).

Lemma verb_good v t : Good src xs v -> span_good src xs (tk t) = true -> Good src xs (verb v t).
Proof. intros HG [Hs Hg]%andb_prop. apply addVerbatim_good; [done|by apply span_okb_sound|done]. Qed.

Lemma pair_good v f l : Good src xs v -> span_good src xs (f, l) = true -> Good src xs (addVerbatim v f l).
Proof. intros HG [Hs Hg]%andb_prop. apply addVerbatim_good; [done|by apply span_okb_sound|done]. Qed.

Lemma mark_good v t tag :
  Good src xs v -> span_good src xs (tk t) = true -> tag_ok (qs tag) = true -> Good src xs (mark v t tag).
Proof.
  intros HG [Hs Hg]%andb_prop Ht. apply addMarkedUpToken_good; [done| |done|done].
  apply (span_okb_sound _ Hs).
Qed.

Definition accept_good_at (n : Node) : Prop :=
  forall v, forallb (span_good src xs) (node_spans n) = true -> Good src xs v -> Good src xs (accept n v).

Lemma accept_nodes_good l v :
  list_all Node accept_good_at l -> forallb (span_good src xs) (spans_list l) = true -> Good src xs v ->
  Good src xs (accept_nodes accept l v).
Proof.
  intros H. unfold accept_nodes. revert v. induction H as [|x Hx l _ IH]; intros v Hs HG; [done|].
  cbn in Hs. rewrite forallb_app in Hs. apply andb_prop in Hs as [Hx' Hl].
  by apply IH, Hx.
Qed.

Lemma declarations_good l v :
  list_all (Node * SourceLocation) (prod_all Node accept_good_at SourceLocation (fun _ => unit)) l ->
  forallb (span_good src xs) (spans_decls l) = true -> Good src xs v ->
  Good src xs (visit_VariableDeclarationList accept l v).
Proof.
  intros H. unfold visit_VariableDeclarationList. revert v. induction H as [|[d c] Hx l _ IH]; intros v Hs HG; [done|].
  inversion Hx as [? Hd]; subst.
  cbn in Hs. rewrite forallb_app in Hs. cbn in Hs. apply andb_prop in Hs as [Hd' Hl].
  apply andb_prop in Hl as [Hc Hl]. apply IH; [done|]. apply verb_good; [by apply Hd|done].
Qed.

Ltac unfold_visits :=
  unfold visit_UiImport, visit_UiPublicMember, visit_UiObjectInitializer, visit_UiObjectBinding, visit_UiScriptBinding, visit_UiArrayBinding, visit_UiQualifiedId, visit_UiObjectDefinition, visit_ThisExpression, visit_IdentifierExpression, visit_Literal, visit_RegExpLiteral, visit_ArrayPattern, visit_ObjectPattern, visit_Elision, visit_PatternProperty, visit_ArrayMemberExpression, visit_FieldMemberExpression, visit_NewMemberExpression, visit_NewExpression, visit_ArgumentList, visit_Unary, visit_BinaryExpression, visit_ConditionalExpression, visit_Expression, visit_Block, visit_VariableStatement, visit_EmptyStatement, visit_ExpressionStatement, visit_IfStatement, visit_DoWhileStatement, visit_WhileStatement, visit_ForStatement, visit_ForEachStatement, visit_ContinueStatement, visit_BreakStatement, visit_ReturnStatement, visit_WithStatement, visit_CaseBlock, visit_SwitchStatement, visit_CaseClause, visit_DefaultClause, visit_LabelledStatement, visit_ThrowStatement, visit_Catch, visit_Finally, visit_TryStatement, visit_Function, visit_FormalParameterList, visit_DebuggerStatement,
    accept_opt in *; cbn beta iota zeta in *.

Ltac split_spans :=
  repeat match goal with
  | H : forallb _ (_ ++ _) = true |- _ => rewrite forallb_app in H
  | H : forallb _ (_ :: _) = true |- _ => cbn [forallb] in H
  | H : _ && _ = true |- _ => apply andb_prop in H as [? ?]
  end.

Ltac good_tac :=
  repeat match goal with
  | |- Good _ _ (verb _ _) => apply verb_good; [|assumption]
  | |- Good _ _ (mark _ _ _) => apply mark_good; [| assumption | reflexivity]
  | |- Good _ _ (addVerbatim _ _ _) => apply pair_good; [|assumption]
  | |- Good _ _ (accept_nodes accept _ _) => apply accept_nodes_good; [assumption|assumption|]
  | |- Good _ _ (visit_VariableDeclarationList accept _ _) => apply declarations_good; [assumption|assumption|]
  | H : accept_good_at ?x |- Good _ _ (accept ?x _) => apply H; [assumption|]
  end; try assumption.

Lemma accept_good n : accept_good_at n.
Proof.
  induction n using Node_ind; intros v Hs HG;
    repeat match goal with
    | H : option_all _ _ _ |- _ => destruct H
    | b : bool |- _ => destruct b
    | k : LiteralKind |- _ => destruct k
    | o : option (SourceLocation * SourceLocation) |- _ => destruct o as [[? ?]|]
    | o : option Node |- _ => destruct o
    end;
    cbn [accept node_spans] in *; unfold_visits; fold spans_list spans_decls in *;
    split_spans; good_tac.
Qed.
End AcceptGood.

Lemma markedUpCode_good src xs v :
  Good src xs v -> Z.of_nat (length src) < 2 ^ 32 -> gap_okb src xs (Z.of_nat (length src)) = true ->
  unmark (markedUpCode v).1 = src.
Proof.
  intros HG Hl Hgap. pose proof HG as (Hs & Hx & Hc & Ho).
  assert (Hend : forall w, Good src xs w -> Z.of_nat (length src) <= v_cursor w -> unmark (v_output w) = src).
  { intros w (_ & _ & _ & Hw) Hle. rewrite <- (app_nil_r (v_output w)), Hw, take_ge by lia.
    apply app_nil_r. }
  unfold markedUpCode; cbn [fst]. rewrite Hs.
  destruct (Z.ltb_spec (int_of_u32 (v_cursor v)) (Z.of_nat (length src))) as [Hlt|Hge].
  - destruct (Z.le_gt_cases (v_cursor v) (Z.of_nat (length src))) as [Hle|Hgt].
    + destruct (addExtra_good src xs v (Z.of_nat (length src)) HG) as [HG' Hc']; [lia|done|].
      apply (Hend _ HG'). lia.
    + assert (Hq : qmid src (v_cursor v) (wrap32 (Z.of_nat (length src) - v_cursor v)) = []).
      { unfold qmid. by rewrite (proj2 (Z.ltb_lt _ _) Hgt). }
      unfold addExtra. rewrite Hs. destruct (_ <=? _); cbn [v_output set_output].
      * rewrite Hq, app_nil_r. apply (Hend _ HG). lia.
      * rewrite emit_extras_stop by lia. rewrite Hq, app_nil_r. apply (Hend _ HG). lia.
  - apply (Hend _ HG). unfold int_of_u32 in Hge. destruct (Z.ltb_spec (v_cursor v) (2 ^ 31)); lia.
Qed.

Lemma forallb_span_good src xs l :
  forallb span_okb l = true -> forallb (fun s => gap_okb src xs (sl_offset s.1)) l = true ->
  forallb (span_good src xs) l = true.
Proof.
  induction l as [|s l IH]; [done|]. cbn. intros [H1 H2]%andb_prop [H3 H4]%andb_prop.
  unfold span_good. rewrite H1, H3. cbn. by apply IH.
Qed.

(** C2: the markup [QmlMarkupVisitor] produces reads back, tags removed
    and entities decoded, as exactly the source text: for any tree whose
    tokens lie in the 32-bit range, and any comments and pragmas none of
    which runs across the start of a token or the end of the source. *)
Theorem markedUpCode_lossless (src : QString) (pragmas comments : list SourceLocation) (n : Node) (v : Visitor) :
  newVisitor src pragmas comments = Some v ->
  node_ok n = true ->
  forallb (fun s => gap_okb src (extras v) (sl_offset s.1)) (node_spans n) = true ->
  gap_okb src (extras v) (Z.of_nat (length src)) = true ->
  Z.of_nat (length src) < 2 ^ 32 ->
  unmark (markedUpCode (accept n v)).1 = src.
Proof.
  intros Hv Hn Hgaps Hend Hl.
  assert (HG : Good src (extras v) v).
  { unfold newVisitor in Hv. destruct (merge_loop _ _ _ _ _ _ _) as [[[[ts ls] i] j]|]; [|done].
    injection Hv as <-. split_and!; [done|done|cbn; lia|cbn; lia|done]. }
  apply (markedUpCode_good src (extras v)); [|done|done].
  apply accept_good; [by apply forallb_span_good|done].
Qed.

(** A QML snippet and its tree: [Item { x: 1 }]. *)
Definition loc_at (off len : Z) : SourceLocation := mkLoc off len 1 (off + 1).

Definition item_src : QString := qs "Item { x: 1 }".

Definition item_tree : Node :=
  UiObjectDefinition (loc_at 0 4)
    (UiObjectInitializer (loc_at 5 1) (loc_at 12 1)
       [UiScriptBinding (UiQualifiedId (loc_at 7 1)) (loc_at 8 1)
          (ExpressionStatement (Literal LNumeric (loc_at 10 1)) noLoc)]).

Definition comment_src : QString := qs "x /* c */;".
Definition comment_tree : Node :=
  ExpressionStatement (IdentifierExpression (loc_at 0 1)) (loc_at 9 1).

Lemma markedUpCode_lossless_witness :
  exists v, newVisitor comment_src [] [loc_at 4 3] = Some v /\
    unmark (markedUpCode (accept comment_tree v)).1 = comment_src.
Proof.
  eexists. split; [reflexivity|].
  apply (markedUpCode_lossless comment_src [] [loc_at 4 3]); vm_compute; reflexivity.
Defined.

Example item_markup :
  option_map (fun v => (markedUpCode (accept item_tree v)).1) (newVisitor item_src [] []) =
  Some (qs "<@type>Item</@type> { <@name>x</@name>: <@number>1</@number> }").
Proof. vm_compute. reflexivity. Qed.

(** ** The merge of comments and pragmas *)
Lemma merge_loop_prefix f cs ps i j ts ls r :
  merge_loop f cs ps i j ts ls = Some r -> ts `prefix_of` r.1.1.1 /\ ls `prefix_of` r.1.1.2.
Proof.
  revert i j ts ls. induction f as [|f IH]; intros i j ts ls H; cbn in H; [by simplify_eq|].
  repeat case_match; simplify_eq; try done;
    match goal with H : merge_loop _ _ _ _ _ _ _ = Some _ |- _ => apply IH in H as [? ?] end;
    split; (etrans; [apply prefix_app_r; reflexivity|done]).
Qed.

(** C35: when the first pragma does not come after the first comment,
    the constructor records the pragma with the comment's location
    (line 38 appends [comments[j]]): the pragma's own location is lost. *)
Theorem newVisitor_pragma_takes_comment_location src p c ps cs v :
  sl_offset p <= sl_offset c -> newVisitor src (p :: ps) (c :: cs) = Some v ->
  v_extraTypes v !! 0%nat = Some Pragma /\ v_extraLocations v !! 0%nat = Some c.
Proof.
  intros Hle H. unfold newVisitor in H. cbn [length Nat.add merge_loop lookup list_lookup] in H.
  rewrite (proj2 (Z.ltb_ge _ _) Hle) in H.
  destruct (merge_loop _ _ _ _ _ _ _) as [[[[ts ls] i] j]|] eqn:E; [|done].
  apply merge_loop_prefix in E as [Ht Hl]; cbn in Ht, Hl. injection H as <-; cbn.
  split; [eapply (prefix_lookup_Some [Pragma])|eapply (prefix_lookup_Some [c])]; try done;
    (etrans; [done|by apply prefix_app_r]).
Qed.

(** Two pragmas before the only comment: the second turn of the
    merge reads [comments[1]], past the end of the list. *)
Theorem newVisitor_pragma_overrun src p0 p1 c :
  sl_offset p0 <= sl_offset c -> sl_offset p1 <= sl_offset c ->
  newVisitor src [p0; p1] [c] = None.
Proof.
  intros H0 H1. unfold newVisitor; cbn.
  by rewrite (proj2 (Z.ltb_ge _ _) H0), (proj2 (Z.ltb_ge _ _) H1).
Qed.

Definition pragma_loc : SourceLocation := loc_at 0 10.
Definition comment_loc : SourceLocation := loc_at 20 5.

Lemma newVisitor_pragma_takes_comment_location_witness :
  exists v, newVisitor item_src [pragma_loc] [comment_loc] = Some v /\
    v_extraTypes v !! 0%nat = Some Pragma /\ v_extraLocations v !! 0%nat = Some comment_loc.
Proof.
  eexists. split; [reflexivity|].
  apply (newVisitor_pragma_takes_comment_location item_src pragma_loc comment_loc [] []);
    [vm_compute; discriminate|reflexivity].
Defined.

Lemma newVisitor_pragma_overrun_witness :
  newVisitor item_src [pragma_loc; loc_at 12 1] [comment_loc] = None.
Proof. apply newVisitor_pragma_overrun; vm_compute; discriminate. Defined.

(** ** [protect] *)

(** [protect] is undone by reading the markup back: the four
    entities decode to the characters they replace. *)
Theorem protect_unmark_roundtrip (s : QString) : unmark (protect s) = s.
Proof. rewrite <- (app_nil_r (protect s)), unmark_protect. apply app_nil_r. Qed.

(** The output of [protect] holds no angle bracket and no double
    quote, so protected text never opens or closes a tag. *)
Theorem protect_no_markup (s : QString) (c : Z) :
  c ∈ protect s -> c <> 0x3c /\ c <> 0x3e /\ c <> 0x22.
Proof.
  unfold protect. rewrite list_elem_of_In, in_concat. intros (l & Hl & Hc).
  apply in_map_iff in Hl as (d & <- & _). unfold protect_char in Hc.
  repeat case_match; cbn in Hc; naive_solver lia.
Qed.

Lemma protect_no_markup_witness :
  0x26 ∈ protect [0x3c] /\ (0x26 <> 0x3c /\ 0x26 <> 0x3e /\ 0x26 <> 0x22).
Proof.
  split; [unfold protect; cbn; constructor|].
  apply (protect_no_markup [0x3c]). unfold protect; cbn. constructor.
Defined.

(** [addMarkedUpToken] iterates over the values of the attribute
    hash and prints each one as a key: an attribute [k="x"] with [k <> x]
    comes out as [x=""]. *)
Theorem attributes_text_value_as_key (k x : QString) :
  k <> x -> attributes_text [(k, x)] = qs " " ++ x ++ qs "=" ++ [0x22; 0x22].
Proof.
  intros Hk. unfold attributes_text; cbn. rewrite bool_decide_false by done.
  by rewrite ?app_nil_r, <- ?app_assoc.
Qed.

Lemma attributes_text_value_as_key_witness :
  qs "href" <> qs "a.html" /\
  attributes_text [(qs "href", qs "a.html")] = qs " a.html=" ++ [0x22; 0x22].
Proof.
  split; [discriminate|].
  exact (attributes_text_value_as_key (qs "href") (qs "a.html") ltac:(discriminate)).
Defined.

(** ** Tokens out of order *)
Definition markup_of (src : QString) (pragmas comments : list SourceLocation) (n : Node) : option QString :=
  option_map (fun v => (markedUpCode (accept n v)).1) (newVisitor src pragmas comments).

(** A postfix operator is visited before its operand, so the
    operand's token is behind the cursor and is copied as plain text:
    [x++] loses the [<@name>] markup that [++x] gets. *)
Example postfix_operand_unmarked :
  markup_of (qs "x++;") [] []
    (ExpressionStatement (UnaryExpression PostIncrement (loc_at 1 2) (IdentifierExpression (loc_at 0 1)))
       (loc_at 3 1)) = Some (qs "x++;") /\
  markup_of (qs "++x;") [] []
    (ExpressionStatement (UnaryExpression PreIncrement (loc_at 0 2) (IdentifierExpression (loc_at 2 1)))
       (loc_at 3 1)) = Some (qs "++<@name>x</@name>;").
Proof. split; vm_compute; reflexivity. Qed.

(** A comment between two tokens is copied with its delimiters
    inside [<@comment>] (its location starts after the [/*]). *)
Example comment_markup :
  markup_of comment_src [] [loc_at 4 3] comment_tree =
  Some (qs "<@name>x</@name> <@comment>/* c */</@comment>;").
Proof. vm_compute. reflexivity. Qed.
