(* ===== verification/RunQtTool.v ===== *)
(** [runQtTool] of lupdate/lrelease (src/linguist/shared/runqttool.cpp):
    the command line built for [std::system] from a program path and an
    argument list ([shellQuoted], [commandLineForSystem]), the path of a
    Qt tool ([qtToolFilePath]) and the exit status read back with
    [WEXITSTATUS].  The system call and the library paths are parameters
    of a Section.  The word splitting of the shell is modelled for the
    two rules the quoting relies on: blanks separate words, double
    quotes group them. *)

From S2P Require Import Prelude QtCore.

Definition dblqt : Z := 0x22.
Definition space : Z := 0x20.

(** [\s] of QRegularExpression (PCRE2 without Unicode properties):
    tab, line feed, vertical tab, form feed, carriage return, space. *)
Definition is_rx_space (c : Z) : bool := ((9 <=? c) && (c <=? 13)) || (c =? 32).

Definition shellQuoted (str : QString) : QString :=
  if existsb is_rx_space str then dblqt :: str ++ [dblqt] else str.

Definition shellQuoted_list (strs : list QString) : list QString := map shellQuoted strs.

(** [QStringList::join(QChar)]. *)
Fixpoint join (sep : Z) (l : list QString) : QString :=
  match l with
  | [] => []
  | [x] => x
  | x :: r => x ++ sep :: join sep r
  end.

Definition commandLineForSystem (program : QString) (arguments : list QString) : QString :=
  shellQuoted program ++ [space] ++ join space (shellQuoted_list arguments).

(** [WEXITSTATUS] of the value [std::system] returns. *)
Definition WEXITSTATUS (ret : Z) : Z := Z.land (Z.shiftr ret 8) 255.

Inductive RunResult := Continue | Exit (code : Z).

Definition slash : Z := 0x2f.
Definition qs_out : QString := [0x2d; 0x6f; 0x75; 0x74].
Definition qs_lprodump : QString := [0x6c; 0x70; 0x72; 0x6f; 0x64; 0x75; 0x6d; 0x70].

Section Run.
(** [QLibraryInfo::path(LibraryExecutablesPath)], [QDir::cleanPath] and [std::system]. *)
Variable libexecPath : QString.
Variable cleanPath : QString -> QString.
Variable system : QString -> Z.

Definition qtToolFilePath (toolName : QString) (location : QString) : QString :=
  cleanPath (location ++ slash :: toolName).

(** The Unix branch: the tool's exit status, and [exit] when it is not 0. *)
Definition runQtTool (toolName : QString) (arguments : list QString) (location : QString) : RunResult :=
  let commandLine := commandLineForSystem (qtToolFilePath toolName location) arguments in
  let exitCode := WEXITSTATUS (system commandLine) in
  if exitCode =? 0 then Continue else Exit exitCode.

Definition runInternalQtTool (toolName : QString) (arguments : list QString) : RunResult :=
  runQtTool toolName arguments libexecPath.

(** [tmp] is the temporary file's name, [None] when it cannot be opened. *)
Definition createProjectDescription (tmp : option QString) (args : list QString)
    : RunResult * option QString :=
  match tmp with
  | None => (Exit 1, None)
  | Some name => (runInternalQtTool qs_lprodump (args ++ [qs_out; name]), Some name)
  end.
End Run.

(** ** Word splitting by the shell: unquoted spaces separate words, a
    double quote opens or closes a quoted part. *)
Fixpoint words_aux (s : QString) (inq started : bool) (cur : QString) : list QString :=
  match s with
  | [] => if started then [cur] else []
  | c :: r =>
      if c =? dblqt then words_aux r (negb inq) true cur
      else if (c =? space) && negb inq then
        (if started then cur :: words_aux r false false [] else words_aux r false false [])
      else words_aux r inq true (cur ++ [c])
  end.

Definition sh_words (s : QString) : list QString := words_aux s false false [].

(** ** Properties *)
Definition plain (c : Z) : Prop := c <> dblqt.

Lemma words_quoted w r cur :
  Forall plain w -> words_aux (w ++ r) true true cur = words_aux r true true (cur ++ w).
Proof.
  revert cur. induction w as [|c w IH]; intros cur Hw; cbn; [by rewrite app_nil_r|].
  apply Forall_cons in Hw as [Hc Hw]. rewrite (proj2 (Z.eqb_neq _ _) Hc), andb_false_r.
  by rewrite IH, <- app_assoc.
Qed.

Lemma words_unquoted w r cur :
  Forall (fun c => plain c /\ is_rx_space c = false) w ->
  words_aux (w ++ r) false true cur = words_aux r false true (cur ++ w).
Proof.
  revert cur. induction w as [|c w IH]; intros cur Hw; cbn; [by rewrite app_nil_r|].
  apply Forall_cons in Hw as [[Hc Hs] Hw]. rewrite (proj2 (Z.eqb_neq _ _) Hc).
  assert (Hsp : (c =? space) = false) by (apply Z.eqb_neq; intros ->; discriminate Hs).
  by rewrite Hsp, IH, <- app_assoc.
Qed.

(** A non-empty word without double quote, quoted or not, is read back
    as one word. *)
Lemma words_shellQuoted w r :
  w <> [] -> Forall plain w ->
  words_aux (shellQuoted w ++ r) false false [] = words_aux r false true w.
Proof.
  intros Hne Hw. unfold shellQuoted. destruct (existsb is_rx_space w) eqn:E.
  - cbn. rewrite <- app_assoc, words_quoted by done. cbn. done.
  - destruct w as [|c w]; [done|]. apply Forall_cons in Hw as [Hc Hw].
    cbn in E |- *. apply orb_false_iff in E as [Ec Ew].
    rewrite (proj2 (Z.eqb_neq _ _) Hc).
    assert (Hsp : (c =? space) = false) by (apply Z.eqb_neq; intros ->; discriminate Ec).
    rewrite Hsp, words_unquoted; [done|].
    apply Forall_forall. intros x Hx. split; [by eapply Forall_forall|].
    destruct (is_rx_space x) eqn:Ex; [|done]. rewrite <- Ew. symmetry.
    apply existsb_exists. exists x. by rewrite <- list_elem_of_In.
Qed.

Definition good_arg (w : QString) : Prop := w <> [] /\ Forall plain w.

Lemma words_join args :
  Forall good_arg args -> words_aux (join space (shellQuoted_list args)) false false [] = args.
Proof.
  induction args as [|x [|y r] IH]; intros Hargs; [done| |].
  - apply Forall_cons in Hargs as [[Hx Hx'] _]. cbn [shellQuoted_list map join].
    rewrite <- (app_nil_r (shellQuoted x)), words_shellQuoted by done. done.
  - apply Forall_cons in Hargs as [[Hx Hx'] Hr]. cbn [shellQuoted_list map join] in *.
    rewrite words_shellQuoted by done. cbn. f_equal. by apply IH.
Qed.

(** For a program path and arguments that are non-empty and hold
    no double quote, the shell splits the command line back into the
    program and the arguments, whitespace inside an argument included. *)
Theorem commandLine_words (program : QString) (arguments : list QString) :
  good_arg program -> Forall good_arg arguments ->
  sh_words (commandLineForSystem program arguments) = program :: arguments.
Proof.
  intros [Hp Hp'] Hargs. unfold sh_words, commandLineForSystem.
  rewrite words_shellQuoted by done. cbn. f_equal. by apply words_join.
Qed.

Definition qs_tool : QString := [0x2f; 0x62; 0x69; 0x6e; 0x2f; 0x6c; 0x75].
Definition qs_a_b : QString := [0x61; 0x20; 0x62].

Lemma commandLine_words_witness :
  sh_words (commandLineForSystem qs_tool [qs_a_b; qs_out]) = [qs_tool; qs_a_b; qs_out].
Proof.
  apply commandLine_words; [split; [discriminate|repeat constructor; discriminate]|].
  repeat constructor; discriminate.
Defined.

(** [shellQuoted] does not escape a double quote inside an
    argument: the one argument [a b] and the two arguments ["a] and [b"]
    give the same command line. *)
Theorem commandLine_quote_collision (program : QString) :
  commandLineForSystem program [qs_a_b] =
  commandLineForSystem program [[dblqt; 0x61]; [0x62; dblqt]].
Proof. reflexivity. Qed.

(** An empty argument is not quoted, so the shell drops it. *)
Theorem commandLine_empty_argument_lost (program x : QString) :
  good_arg program -> good_arg x ->
  sh_words (commandLineForSystem program [[]; x]) = [program; x].
Proof.
  intros [Hp Hp'] [Hx Hx']. unfold sh_words, commandLineForSystem.
  rewrite words_shellQuoted by done. cbn.
  rewrite <- (app_nil_r (shellQuoted x)), words_shellQuoted by done. done.
Qed.

Lemma commandLine_empty_argument_lost_witness :
  sh_words (commandLineForSystem qs_tool [[]; qs_out]) = [qs_tool; qs_out].
Proof.
  apply commandLine_empty_argument_lost; split; try discriminate; repeat constructor; discriminate.
Defined.

(** C36: a tool killed by a signal ([std::system] returns the signal
    number, below 256) has exit status 0: [runQtTool] goes on as if the
    tool had succeeded. *)
Theorem runQtTool_signal_continues cleanPath system toolName arguments location :
  0 <= system (commandLineForSystem (qtToolFilePath cleanPath toolName location) arguments) < 256 ->
  runQtTool cleanPath system toolName arguments location = Continue.
Proof.
  intros H. unfold runQtTool, WEXITSTATUS. cbv zeta.
  rewrite Z.shiftr_div_pow2, Z.div_small by lia. done.
Qed.

(** A tool that exits with status [code <> 0] makes [runQtTool]
    exit with the same code. *)
Theorem runQtTool_exit_code cleanPath system toolName arguments location code :
  0 < code < 256 ->
  system (commandLineForSystem (qtToolFilePath cleanPath toolName location) arguments) = code * 256 ->
  runQtTool cleanPath system toolName arguments location = Exit code.
Proof.
  intros Hc H. unfold runQtTool, WEXITSTATUS. cbv zeta. rewrite H.
  rewrite Z.shiftr_div_pow2, Z.div_mul, land_255_mod, Z.mod_small by lia.
  by rewrite (proj2 (Z.eqb_neq _ _)) by lia.
Qed.

Definition sigkill_system (_ : QString) : Z := 9.
Definition exit2_system (_ : QString) : Z := 512.

Lemma runQtTool_signal_continues_witness :
  runQtTool (fun p => p) sigkill_system qs_lprodump [] qs_tool = Continue.
Proof. apply runQtTool_signal_continues. unfold sigkill_system. lia. Defined.

Lemma runQtTool_exit_code_witness :
  runQtTool (fun p => p) exit2_system qs_lprodump [] qs_tool = Exit 2.
Proof. apply runQtTool_exit_code; [lia|reflexivity]. Defined.
