(* ===== verification/SignalSlotModel.v ===== *)
(** The data side of the signal/slot editor window of Qt Designer
    (src/designer/src/components/signalsloteditor/signalsloteditorwindow.cpp):
    [objectNameList], the list of object names a form offers, and
    [ConnectionModel], the item model that shows the form's connections
    as a four-column table and keeps its view informed of insertions and
    removals.  The connection editor ([SignalSlotEditor], not in the
    repository) is the record [Editor]: its connection list, each
    connection with an identity (a pointer in the code), and its
    selection.  The view side of [QAbstractItemModel] (the row count the
    view knows and the pending [beginInsertRows]/[beginRemoveRows]) is the
    record [View]; the editor's insertions and removals, with the signals
    they emit, are the steps of [sys_step]. *)

From S2P Require Import Prelude QtCore.
From stdpp Require Import sorting relations.
From Stdlib Require Strings.String.
Import String.StringSyntax.
Local Open Scope Z_scope.
Local Open Scope string_scope.

(** ** Forms and [objectNameList] *)

Inductive WidgetClass := QLayoutWidgetClass | SpacerClass | OtherWidgetClass.

Record FormWidget := mkFormWidget { w_class : WidgetClass; w_objectName : QString }.

(** An action: separator or not, its menu with the menu's name and
    whether the meta database manages it, its own name and whether the
    meta database manages it. *)
Record Action := mkAction {
  a_isSeparator : bool;
  a_menu : option (QString * bool);
  a_objectName : QString;
  a_managed : bool
}.

Record ButtonGroup := mkButtonGroup { g_objectName : QString; g_managed : bool }.

(** What [objectNameList] reads of a form: whether it has a main
    container, the pages of the main container's container extension
    (if it has one), the widgets of the form cursor, and the actions and
    button groups found below the main container. *)
Record Form := mkForm {
  f_mainContainer : bool;
  f_containerPages : option (list FormWidget);
  f_cursorWidgets : list FormWidget;
  f_actions : list Action;
  f_buttonGroups : list ButtonGroup
}.

Definition addWidgetToObjectList (w : FormWidget) (r : list QString) : list QString :=
  match w_class w with
  | QLayoutWidgetClass | SpacerClass => r
  | OtherWidgetClass =>
      let name := trimmed (w_objectName w) in
      if bool_decide (name = []) then r else r ++ [name]
  end.

Definition add_widgets (ws : list FormWidget) (r : list QString) : list QString :=
  fold_left (fun r w => addWidgetToObjectList w r) ws r.

Definition action_names (a : Action) : list QString :=
  if a_isSeparator a then []
  else match a_menu a with
       | Some (menuName, menuManaged) => if menuManaged then [menuName] else []
       | None => if a_managed a then [a_objectName a] else []
       end.

Definition group_names (b : ButtonGroup) : list QString :=
  if g_managed b then [g_objectName b] else [].

Definition objectNameList (form : Form) : list QString :=
  if negb (f_mainContainer form) then []
  else
    let r := match f_containerPages form with Some ws => add_widgets ws [] | None => [] end in
    let r := add_widgets (f_cursorWidgets form) r in
    let r := r ++ concat (map action_names (f_actions form)) in
    let r := r ++ concat (map group_names (f_buttonGroups form)) in
    qsort r.

(** ** Connections and the editor *)

Record Connection := mkConnection {
  c_id : nat;
  c_sender : QString;
  c_signal : QString;
  c_receiver : QString;
  c_slot : QString
}.

#[export] Instance Connection_eq_dec : EqDecision Connection.
Proof. solve_decision. Defined.

(** [e_id] is the editor object's identity (the pointer [setEditor]
    compares). *)
Record Editor := mkEditor { e_id : nat; e_connections : list Connection; e_selected : list nat }.

Definition connectionCount (ed : Editor) : Z := Z.of_nat (length (e_connections ed)).

Definition connection (ed : Editor) (row : Z) : option Connection :=
  if row <? 0 then None else e_connections ed !! Z.to_nat row.

Definition indexOfConnection (ed : Editor) (con : nat) : Z :=
  match list_find (fun c => c_id c = con) (e_connections ed) with
  | Some (i, _) => Z.of_nat i
  | None => -1
  end.

(** ** [QModelIndex], [QVariant] and roles *)

Record QModelIndex := mkIndex { mi_row : Z; mi_column : Z; mi_model : bool }.

Definition invalidIndex : QModelIndex := mkIndex (-1) (-1) false.
Definition createIndex (row column : Z) : QModelIndex := mkIndex row column true.
Definition isValidIndex (i : QModelIndex) : bool := (0 <=? mi_row i) && (0 <=? mi_column i) && mi_model i.

Inductive QVariant := VInvalid | VString (s : QString) | VOther.

Inductive Role := DisplayRole | EditRole | ForegroundRole | FontRole | UserRole | OtherRole.

#[export] Instance Role_eq_dec : EqDecision Role.
Proof. solve_decision. Defined.

(** ** [ConnectionModel] *)

Record ConnectionModel := mkConnectionModel { m_editor : option Editor }.

Definition headerData (section : Z) (orientation : Orientation) (role : Role) : QVariant :=
  if bool_decide (orientation = Vertical) || negb (bool_decide (role = DisplayRole)) then VInvalid
  else if section =? 0 then VString (qs "Sender")
  else if section =? 1 then VString (qs "Signal")
  else if section =? 2 then VString (qs "Receiver")
  else if section =? 3 then VString (qs "Slot")
  else VInvalid.

Definition index (m : ConnectionModel) (row column : Z) (parent : QModelIndex) : QModelIndex :=
  match m_editor m with
  | None => invalidIndex
  | Some ed =>
      if isValidIndex parent then invalidIndex
      else if (row <? 0) || (connectionCount ed <=? row) then invalidIndex
      else createIndex row column
  end.

Definition indexToConnection (m : ConnectionModel) (i : QModelIndex) : option Connection :=
  match m_editor m with
  | None => None
  | Some ed =>
      if negb (isValidIndex i) then None
      else if (mi_row i <? 0) || (connectionCount ed <=? mi_row i) then None
      else connection ed (mi_row i)
  end.

(** [Q_ASSERT(m_editor)]: [None] without an editor. *)
Definition connectionToIndex (m : ConnectionModel) (con : nat) : option QModelIndex :=
  match m_editor m with
  | None => None
  | Some ed => Some (createIndex (indexOfConnection ed con) 0)
  end.

Definition rowCount (m : ConnectionModel) (parent : QModelIndex) : Z :=
  match m_editor m with
  | None => 0
  | Some ed => if isValidIndex parent then 0 else connectionCount ed
  end.

Definition columnCount (parent : QModelIndex) : Z := if isValidIndex parent then 0 else 4.

Definition connectionAt (m : ConnectionModel) (i : QModelIndex) : option Connection :=
  match m_editor m with
  | None => None
  | Some ed =>
      let row := mi_row i in
      if (0 <=? row) && (row <? connectionCount ed) then connection ed row else None
  end.

Definition or_default (s dflt : QString) : QString := if bool_decide (s = []) then dflt else s.

Definition columnText (con : Connection) (column : Z) : QString :=
  if column =? 0 then or_default (c_sender con) (qs "<sender>")
  else if column =? 1 then or_default (c_signal con) (qs "<signal>")
  else if column =? 2 then or_default (c_receiver con) (qs "<receiver>")
  else if column =? 3 then or_default (c_slot con) (qs "<slot>")
  else [].

(** [deprecatedMember] is the constant 0: no colour and no font. *)
Definition data (m : ConnectionModel) (i : QModelIndex) (role : Role) : QVariant :=
  match connectionAt m i with
  | None => VInvalid
  | Some con =>
      match role with
      | DisplayRole | EditRole => VString (columnText con (mi_column i))
      | _ => VInvalid
      end
  end.

Inductive ItemFlag := ItemIsSelectable | ItemIsEditable | ItemIsEnabled.

Definition flags (_ : QModelIndex) : list ItemFlag := [ItemIsSelectable; ItemIsEditable; ItemIsEnabled].

(** ** Editing a cell: [setData]

    The connection editor's setters [setSource], [setSignal],
    [setTarget] and [setSlot] replace one field of the connection. *)
Inductive MemberType := SignalMember | SlotMember.

Definition update_connection (ed : Editor) (con : Connection) : Editor :=
  mkEditor (e_id ed) ((fun c => if decide (c_id c = c_id con) then con else c) <$> e_connections ed)
    (e_selected ed).

Definition setSource (ed : Editor) (con : Connection) (s : QString) : Editor :=
  update_connection ed (mkConnection (c_id con) s (c_signal con) (c_receiver con) (c_slot con)).
Definition setSignal (ed : Editor) (con : Connection) (s : QString) : Editor :=
  update_connection ed (mkConnection (c_id con) (c_sender con) s (c_receiver con) (c_slot con)).
Definition setTarget (ed : Editor) (con : Connection) (s : QString) : Editor :=
  update_connection ed (mkConnection (c_id con) (c_sender con) (c_signal con) s (c_slot con)).
Definition setSlot (ed : Editor) (con : Connection) (s : QString) : Editor :=
  update_connection ed (mkConnection (c_id con) (c_sender con) (c_signal con) (c_receiver con) s).

Section SetData.
(** [memberFunctionListContains(core, object, type, name)]: whether the
    object of that name has a signal or slot of that signature. *)
Variable memberFunctionListContains : Form -> QString -> MemberType -> QString -> bool.

(** The result and the model afterwards; [None] when the row is out of
    the editor's range ([QList::at] on a stale index). *)
Definition setData (m : ConnectionModel) (form : Form) (i : QModelIndex) (v : QVariant)
    : option (bool * ConnectionModel) :=
  match m_editor m with
  | None => Some (false, m)
  | Some ed =>
      if negb (isValidIndex i) then Some (false, m)
      else match v with
      | VString s =>
          match connection ed (mi_row i) with
          | None => None
          | Some con =>
              let objectOk s := bool_decide (s = []) || bool_decide (s ∈ objectNameList form) in
              let col := mi_column i in
              let ed' :=
                if col =? 0 then setSource ed con (if objectOk s then s else [])
                else if col =? 1 then
                  setSignal ed con (if memberFunctionListContains form (c_sender con) SignalMember s then s else [])
                else if col =? 2 then setTarget ed con (if objectOk s then s else [])
                else if col =? 3 then
                  setSlot ed con (if memberFunctionListContains form (c_receiver con) SlotMember s then s else [])
                else ed in
              Some (true, mkConnectionModel (Some ed'))
          end
      | _ => Some (false, m)
      end
  end.
End SetData.

(** ** [connectionChanged] and [updateAll] *)

Definition same_ends (a b : Connection) : bool :=
  bool_decide (c_sender a = c_sender b) && bool_decide (c_signal a = c_signal b) &&
  bool_decide (c_receiver a = c_receiver b) && bool_decide (c_slot a = c_slot b).

(** The loop over the other rows: whether one of them has the same four
    ends (the warning [The connection already exists!]). *)
Definition duplicate_found (ed : Editor) (idx : Z) (changed : Connection) : bool :=
  existsb (fun ic => negb (Z.of_nat ic.1 =? idx) && same_ends ic.2 changed)
    (zip (seq 0 (length (e_connections ed))) (e_connections ed)).

(** Whether the warning is shown, and the [dataChanged] range; [None]
    for a connection the editor does not hold ([connection(-1)]). *)
Definition connectionChanged (m : ConnectionModel) (con : nat)
    : option (bool * (QModelIndex * QModelIndex)) :=
  match m_editor m with
  | None => None
  | Some ed =>
      let idx := indexOfConnection ed con in
      match connection ed idx with
      | None => None
      | Some changed => Some (duplicate_found ed idx changed, (createIndex idx 0, createIndex idx 3))
      end
  end.

Definition updateAll (m : ConnectionModel) : QModelIndex * QModelIndex :=
  (index m 0 0 invalidIndex,
   index m (rowCount m invalidIndex - 1) (columnCount invalidIndex - 1) invalidIndex).

(** ** The row notifications

    [View] is what [QAbstractItemModel] has told the view: its row count
    and the insertion or removal begun and not yet ended.  The [begin*]
    functions are [None] where Qt's assertions fail ([first >= 0],
    [first <= rowCount()] for an insertion, [last < rowCount()] for a
    removal, no other change pending). *)
Inductive Pending := PInsert (first last : Z) | PRemove (first last : Z).

Record View := mkView { v_rows : Z; v_pending : option Pending }.

Definition beginInsertRows (v : View) (count first last : Z) : option View :=
  if bool_decide (v_pending v = None) && (0 <=? first) && (first <=? count) && (first <=? last)
  then Some (mkView (v_rows v) (Some (PInsert first last))) else None.

Definition endInsertRows (v : View) : option View :=
  match v_pending v with
  | Some (PInsert first last) => Some (mkView (v_rows v + (last - first + 1)) None)
  | _ => None
  end.

Definition beginRemoveRows (v : View) (count first last : Z) : option View :=
  if bool_decide (v_pending v = None) && (0 <=? first) && (first <=? last) && (last <? count)
  then Some (mkView (v_rows v) (Some (PRemove first last))) else None.

Definition endRemoveRows (v : View) : option View :=
  match v_pending v with
  | Some (PRemove first last) => Some (mkView (v_rows v - (last - first + 1)) None)
  | _ => None
  end.

(** The four slots connected to the editor's signals. *)
Definition aboutToAddConnection (m : ConnectionModel) (v : View) (idx : Z) : option View :=
  match m_editor m with
  | None => None
  | Some _ => beginInsertRows v (rowCount m invalidIndex) idx idx
  end.

Definition connectionAdded (v : View) : option View := endInsertRows v.

Definition aboutToRemoveConnection (m : ConnectionModel) (v : View) (con : nat) : option View :=
  match m_editor m with
  | None => None
  | Some ed =>
      let idx := indexOfConnection ed con in
      beginRemoveRows v (rowCount m invalidIndex) idx idx
  end.

Definition connectionRemoved (v : View) : option View := endRemoveRows v.

(** [setEditor]: nothing for the same editor, a model reset otherwise. *)
Definition setEditor (m : ConnectionModel) (v : View) (editor : option Editor) : ConnectionModel * View :=
  if bool_decide (option_map e_id (m_editor m) = option_map e_id editor) then (m, v)
  else let m' := mkConnectionModel editor in (m', mkView (rowCount m' invalidIndex) None).

(** ** The editor's insertions and removals ([ConnectionEdit], not in
    the repository): the signal before the change, the change, the
    signal after it. *)
Record Sys := mkSys { s_editor : Editor; s_view : View }.

Definition s_model (s : Sys) : ConnectionModel := mkConnectionModel (Some (s_editor s)).

Definition ed_append (ed : Editor) (con : Connection) : Editor :=
  mkEditor (e_id ed) (e_connections ed ++ [con]) (e_selected ed).

Definition ed_remove (ed : Editor) (con : nat) : Editor :=
  mkEditor (e_id ed) (filter (fun c => c_id c <> con) (e_connections ed))
    (filter (fun c => c <> con) (e_selected ed)).

Definition sys_add (s : Sys) (con : Connection) : option Sys :=
  v1 ← aboutToAddConnection (s_model s) (s_view s) (connectionCount (s_editor s));
  v2 ← connectionAdded v1;
  Some (mkSys (ed_append (s_editor s) con) v2).

Definition sys_remove (s : Sys) (con : nat) : option Sys :=
  v1 ← aboutToRemoveConnection (s_model s) (s_view s) con;
  v2 ← connectionRemoved v1;
  Some (mkSys (ed_remove (s_editor s) con) v2).

Definition ids (ed : Editor) : list nat := c_id <$> e_connections ed.

Inductive sys_step : Sys -> Sys -> Prop :=
  | step_add s con s' :
      c_id con ∉ ids (s_editor s) -> sys_add s con = Some s' -> sys_step s s'
  | step_remove s con s' :
      con ∈ ids (s_editor s) -> sys_remove s con = Some s' -> sys_step s s'
  | step_setData mflc s form i x b m' ed' :
      setData mflc (s_model s) form i x = Some (b, m') -> m_editor m' = Some ed' ->
      sys_step s (mkSys ed' (s_view s)).

(** The view is up to date: it knows as many rows as the editor holds,
    nothing is pending, and the connections are distinct objects. *)
Definition consistent (s : Sys) : Prop :=
  v_rows (s_view s) = connectionCount (s_editor s) /\ v_pending (s_view s) = None /\
  NoDup (ids (s_editor s)).

(** ** Lemmas *)

Lemma isValidIndex_invalidIndex : isValidIndex invalidIndex = false.
Proof. reflexivity. Qed.

Lemma rowCount_model ed : rowCount (mkConnectionModel (Some ed)) invalidIndex = connectionCount ed.
Proof. reflexivity. Qed.

Lemma list_find_id_in (l : list Connection) con :
  con ∈ c_id <$> l -> exists i c, list_find (fun c => c_id c = con) l = Some (i, c) /\ c_id c = con /\
    (i < length l)%nat /\ l !! i = Some c.
Proof.
  intros Hin. apply list_elem_of_fmap in Hin as (c0 & Hc0 & Hin).
  destruct (list_find (fun c => c_id c = con) l) as [[i c]|] eqn:E.
  - apply list_find_Some in E as (Hl & Hc & _). exists i, c. split_and!; [done|done| |done].
    by eapply lookup_lt_Some.
  - apply list_find_None in E. rewrite Forall_forall in E. by destruct (E c0).
Qed.

Lemma indexOfConnection_in ed con :
  con ∈ ids ed ->
  0 <= indexOfConnection ed con < connectionCount ed /\
  exists c, connection ed (indexOfConnection ed con) = Some c /\ c_id c = con.
Proof.
  intros Hin. destruct (list_find_id_in _ _ Hin) as (i & c & E & Hc & Hi & Hl).
  unfold indexOfConnection, connectionCount, connection. rewrite E. split; [lia|].
  exists c. rewrite (proj2 (Z.ltb_ge _ _)) by lia. by rewrite Nat2Z.id.
Qed.

Lemma indexOfConnection_notin ed con : con ∉ ids ed -> indexOfConnection ed con = -1.
Proof.
  intros Hn. unfold indexOfConnection.
  destruct (list_find _ _) as [[i c]|] eqn:E; [|done].
  apply list_find_Some in E as (Hl & Hc & _). destruct Hn.
  apply list_elem_of_fmap. exists c. split; [done|]. by eapply list_elem_of_lookup_2.
Qed.

Lemma ids_remove ed con : ids (ed_remove ed con) = filter (fun x => x <> con) (ids ed).
Proof.
  unfold ids, ed_remove; cbn. induction (e_connections ed) as [|c l IH]; [done|].
  rewrite filter_cons, fmap_cons, filter_cons. by case_decide; rewrite ?fmap_cons, IH.
Qed.

Lemma filter_all_id {A} (P : A -> Prop) `{forall x, Decision (P x)} (l : list A) :
  (forall z, z ∈ l -> P z) -> filter P l = l.
Proof.
  induction l as [|y l IH]; intros Hall; [done|]. rewrite filter_cons, decide_True by (apply Hall; left).
  f_equal. apply IH. intros z Hz. apply Hall. by right.
Qed.

Lemma length_filter_one (l : list nat) x :
  NoDup l -> x ∈ l -> length (filter (fun y => y <> x) l) = (length l - 1)%nat.
Proof.
  induction l as [|y l IH]; [by intros _ ?%not_elem_of_nil|].
  intros [Hy Hnd]%NoDup_cons [->|Hin]%elem_of_cons; rewrite filter_cons.
  - rewrite decide_False by naive_solver. rewrite filter_all_id; [cbn; lia|].
    intros z Hz <-. done.
  - rewrite decide_True by (intros <-; done). cbn. rewrite IH by done.
    destruct l; [by apply not_elem_of_nil in Hin|cbn; lia].
Qed.

Lemma ids_append ed con : ids (ed_append ed con) = ids ed ++ [c_id con].
Proof. unfold ids, ed_append; cbn. by rewrite fmap_app. Qed.

Lemma connectionCount_ids ed : connectionCount ed = Z.of_nat (length (ids ed)).
Proof. unfold connectionCount, ids. by rewrite length_fmap. Qed.

Lemma NoDup_snoc (l : list nat) x : NoDup l -> x ∉ l -> NoDup (l ++ [x]).
Proof.
  intros Hnd Hx. apply NoDup_app. split_and!; [done| |apply NoDup_singleton].
  intros y Hy ->%list_elem_of_singleton. done.
Qed.

Lemma sys_add_ok s con :
  consistent s -> c_id con ∉ ids (s_editor s) ->
  exists s', sys_add s con = Some s' /\ consistent s'.
Proof.
  destruct s as [ed [rows pend]]. intros (Hr & Hp & Hnd) Hn; cbn in *; subst.
  assert (0 <= connectionCount ed) by (unfold connectionCount; lia).
  unfold sys_add, aboutToAddConnection, beginInsertRows, connectionAdded, endInsertRows.
  cbn [s_model s_view s_editor m_editor v_pending]. rewrite bool_decide_true, Z.leb_refl,
    (proj2 (Z.leb_le 0 _)) by done.
  cbn -[ed_append connectionCount ids]. eexists. split; [reflexivity|].
  split_and!; cbn -[ed_append connectionCount ids].
  - rewrite !connectionCount_ids, ids_append, length_app. cbn. lia.
  - done.
  - rewrite ids_append. by apply NoDup_snoc.
Qed.

Lemma sys_remove_ok s con :
  consistent s -> con ∈ ids (s_editor s) ->
  exists s', sys_remove s con = Some s' /\ consistent s'.
Proof.
  destruct s as [ed [rows pend]]. intros (Hr & Hp & Hnd) Hin; cbn in *; subst.
  destruct (indexOfConnection_in ed con Hin) as [Hidx _].
  unfold sys_remove, aboutToRemoveConnection, beginRemoveRows, connectionRemoved, endRemoveRows.
  cbn [s_model s_view s_editor m_editor v_pending]. rewrite bool_decide_true, Z.leb_refl, (proj2 (Z.leb_le 0 _)), (proj2 (Z.ltb_lt _ _))
    by (done || lia).
  cbn -[ed_remove connectionCount ids]. eexists. split; [reflexivity|].
  split_and!; cbn -[ed_remove connectionCount ids].
  - rewrite !connectionCount_ids, ids_remove, length_filter_one by done.
    pose proof (length_fmap c_id (e_connections ed)).
    destruct (ids ed) eqn:E; [by apply not_elem_of_nil in Hin|cbn; lia].
  - done.
  - rewrite ids_remove. by apply NoDup_filter.
Qed.

Lemma ids_update ed con : ids (update_connection ed con) = ids ed.
Proof.
  unfold ids, update_connection; cbn. rewrite <- list_fmap_compose.
  apply list_fmap_ext. intros i c _. cbn. by case_decide.
Qed.

Lemma setData_ids mflc ed form i x b m' ed' :
  setData mflc (mkConnectionModel (Some ed)) form i x = Some (b, m') -> m_editor m' = Some ed' ->
  ids ed' = ids ed /\ e_selected ed' = e_selected ed.
Proof.
  unfold setData; cbn. intros E Hm.
  destruct (isValidIndex i); cbn in E; [|injection E as <- <-; cbn in Hm; by simplify_eq].
  destruct x as [|s|]; try (injection E as <- <-; cbn in Hm; by simplify_eq).
  destruct (connection ed (mi_row i)) as [con|]; [|done]. injection E as <- <-. cbn in Hm. simplify_eq.
  unfold setSource, setSignal, setTarget, setSlot. repeat case_match; by rewrite ?ids_update.
Qed.

Lemma sys_step_consistent s s' : consistent s -> sys_step s s' -> consistent s'.
Proof.
  intros Hc Hs. destruct Hs as [s con s' Hn E|s con s' Hin E|mflc s form i x b m' ed' E Hm].
  - destruct (sys_add_ok s con Hc Hn) as (s'' & E' & Hc'). congruence.
  - destruct (sys_remove_ok s con Hc Hin) as (s'' & E' & Hc'). congruence.
  - destruct Hc as (Hr & Hp & Hnd). pose proof (setData_ids _ _ _ _ _ _ _ _ E Hm) as [Hids _].
    split_and!; cbn; [by rewrite Hr, !connectionCount_ids, Hids|done|by rewrite Hids].
Qed.

(** ** The table the model shows *)

(** The abstract table: one row per connection, its four ends with the
    placeholders for the empty ones. *)
Definition row_spec (con : Connection) : list QString :=
  [or_default (c_sender con) (qs "<sender>"); or_default (c_signal con) (qs "<signal>");
   or_default (c_receiver con) (qs "<receiver>"); or_default (c_slot con) (qs "<slot>")].

Definition table_spec (ed : Editor) : list (list QString) := row_spec <$> e_connections ed.

(** What a view reads through the model: [data(index(r, c), DisplayRole)]
    for the rows [rowCount()] announces and the four columns. *)
Definition model_cell (m : ConnectionModel) (r c : Z) : QVariant := data m (index m r c invalidIndex) DisplayRole.

Definition model_table (m : ConnectionModel) : list (list QVariant) :=
  (fun r => (fun c => model_cell m r c) <$> [0; 1; 2; 3]) <$> seqZ 0 (rowCount m invalidIndex).

Lemma model_cell_in ed r c con :
  0 <= r -> e_connections ed !! Z.to_nat r = Some con ->
  model_cell (mkConnectionModel (Some ed)) r c = VString (columnText con c).
Proof.
  intros Hr E. pose proof (lookup_lt_Some _ _ _ E) as Hlt. pose proof (Z2Nat.id r Hr).
  unfold model_cell, index, data, connectionAt, connection, connectionCount; cbn.
  rewrite (proj2 (Z.ltb_ge _ _) Hr), (proj2 (Z.leb_gt (Z.of_nat (length (e_connections ed))) r)) by lia. cbn.
  rewrite (proj2 (Z.leb_le 0 r)), (proj2 (Z.ltb_lt r _)), (proj2 (Z.ltb_ge r 0)), E by lia. done.
Qed.

Lemma model_cell_out ed r c :
  r < 0 \/ connectionCount ed <= r -> model_cell (mkConnectionModel (Some ed)) r c = VInvalid.
Proof.
  intros Hr. unfold model_cell, index; cbn.
  replace ((r <? 0) || (connectionCount ed <=? r)) with true by (symmetry; apply orb_true_iff; lia).
  reflexivity.
Qed.

Lemma length_model_table ed :
  length (model_table (mkConnectionModel (Some ed))) = length (e_connections ed).
Proof. unfold model_table. rewrite length_fmap, length_seqZ. cbn. unfold connectionCount. lia. Qed.

(** [ConnectionModel] refines the abstract table of connections:
    the cells a view reads through [rowCount], [index] and [data] are,
    row by row, the four ends of the editor's connections with the
    placeholders for the empty ones, and every row outside the editor's
    range reads as an invalid variant. *)
Theorem model_refines_table (ed : Editor) :
  model_table (mkConnectionModel (Some ed)) = (fun row : list QString => VString <$> row) <$> table_spec ed /\
  forall r c, r < 0 \/ connectionCount ed <= r -> model_cell (mkConnectionModel (Some ed)) r c = VInvalid.
Proof.
  split; [|apply model_cell_out].
  apply list_eq. intros i. unfold model_table, table_spec. rewrite !list_lookup_fmap. cbn.
  destruct (e_connections ed !! i) as [con|] eqn:E.
  - pose proof (lookup_lt_Some _ _ _ E) as Hlt.
    rewrite lookup_seqZ_lt by (unfold connectionCount; lia). cbn. f_equal.
    rewrite !(model_cell_in ed (0 + Z.of_nat i) _ con) by (rewrite ?Z.add_0_l, ?Nat2Z.id; done || lia).
    reflexivity.
  - apply lookup_ge_None in E. rewrite lookup_seqZ_ge by (unfold connectionCount; lia). done.
Qed.

Lemma or_default_nonempty s dflt : dflt <> [] -> or_default s dflt <> [].
Proof. unfold or_default. by case_bool_decide. Qed.

Lemma columnText_nonempty con c : 0 <= c <= 3 -> columnText con c <> [].
Proof.
  intros Hc. assert (c = 0 \/ c = 1 \/ c = 2 \/ c = 3) as [-> | [-> | [-> | ->] ] ] by lia;
    cbn; apply or_default_nonempty; discriminate.
Qed.

(** C30: the values [data] hands to the view and the delegate are an
    invalid variant or a string, a string only for the display and edit
    roles, and never the empty string in one of the four columns (an
    empty end shows its placeholder). *)
Theorem data_type (m : ConnectionModel) (i : QModelIndex) (role : Role) :
  data m i role = VInvalid \/
  exists s, data m i role = VString s /\ (role = DisplayRole \/ role = EditRole) /\
    (0 <= mi_column i <= 3 -> s <> []).
Proof.
  unfold data. destruct (connectionAt m i) as [con|]; [|by left].
  destruct role; try (by left);
    (right; eexists; split; [reflexivity|split; [auto|apply columnText_nonempty]]).
Qed.

(** In an up-to-date view, the editor's insertion of a new
    connection and its removal of a connection it holds both satisfy the
    assertions of [beginInsertRows] and [beginRemoveRows]. *)
Theorem protocol_progress (s : Sys) :
  consistent s ->
  (forall con, c_id con ∉ ids (s_editor s) -> is_Some (sys_add s con)) /\
  (forall con, con ∈ ids (s_editor s) -> is_Some (sys_remove s con)).
Proof.
  intros Hc. split; intros con Hcon.
  - destruct (sys_add_ok s con Hc Hcon) as (s' & -> & _). by eexists.
  - destruct (sys_remove_ok s con Hc Hcon) as (s' & -> & _). by eexists.
Qed.

(** C3: no assertion of Qt's row protocol fails along any sequence of
    the editor's insertions, removals and cell edits from an up-to-date
    view: the view stays up to date (it knows exactly the rows of the
    table the model shows, nothing is pending, the connections are
    distinct), and in every state reached the insertion of a new
    connection and the removal of a held one both pass the assertions
    of [beginInsertRows] and [beginRemoveRows]. *)
Theorem reachable_consistent (s s' : Sys) :
  consistent s -> rtc sys_step s s' ->
  consistent s' /\ v_rows (s_view s') = Z.of_nat (length (model_table (s_model s'))) /\
  (forall con, c_id con ∉ ids (s_editor s') -> is_Some (sys_add s' con)) /\
  (forall con, con ∈ ids (s_editor s') -> is_Some (sys_remove s' con)).
Proof.
  intros Hc Hsteps. assert (Hc' : consistent s').
  { induction Hsteps as [s|s s1 s' Hs _ IH]; [done|apply IH; by eapply sys_step_consistent]. }
  split; [done|split; [|by apply protocol_progress]].
  destruct Hc' as (Hr & _ & _). unfold s_model. by rewrite length_model_table, Hr.
Qed.


(** C31: [aboutToRemoveConnection] for a connection the editor does not
    hold asks [beginRemoveRows] for row -1, which Qt's assertion refuses. *)
Theorem aboutToRemoveConnection_unknown (ed : Editor) (v : View) (con : nat) :
  con ∉ ids ed -> aboutToRemoveConnection (mkConnectionModel (Some ed)) v con = None.
Proof.
  intros Hn. unfold aboutToRemoveConnection, beginRemoveRows. cbn.
  rewrite indexOfConnection_notin by done. by rewrite andb_false_r, andb_false_l.
Qed.

Lemma existsb_zip_seq {A} (f : nat -> A -> bool) (k : nat) (l : list A) :
  existsb (fun ix => f ix.1 ix.2) (zip (seq k (length l)) l) = true <->
  exists j x, l !! j = Some x /\ f (k + j)%nat x = true.
Proof.
  revert k. induction l as [|y l IH]; intros k; cbn.
  - split; [done|]. by intros (j & x & ? & _).
  - rewrite orb_true_iff, IH. split.
    + intros [H|(j & x & Hj & H)]; [exists 0%nat, y; by rewrite Nat.add_0_r|].
      exists (S j), x. split; [done|]. by replace (k + S j)%nat with (S k + j)%nat by lia.
    + intros ([|j] & x & Hj & H); cbn in Hj; simplify_eq; [left; by rewrite Nat.add_0_r in H|].
      right. exists j, x. split; [done|]. by replace (S k + j)%nat with (k + S j)%nat by lia.
Qed.

(** [connectionChanged] warns that the connection already exists
    exactly when another row of the editor has the same sender, signal,
    receiver and slot. *)
Theorem connectionChanged_warns (ed : Editor) (con : nat) :
  con ∈ ids ed ->
  exists w rng c, connectionChanged (mkConnectionModel (Some ed)) con = Some (w, rng) /\
    e_connections ed !! Z.to_nat (indexOfConnection ed con) = Some c /\ c_id c = con /\
    (w = true <-> exists j c', j <> Z.to_nat (indexOfConnection ed con) /\
                              e_connections ed !! j = Some c' /\ same_ends c' c = true).
Proof.
  intros Hin. destruct (indexOfConnection_in ed con Hin) as [Hidx (c & Hc & Hid)].
  unfold connectionChanged. cbn. rewrite Hc. do 3 eexists. split; [reflexivity|].
  unfold connection in Hc. rewrite (proj2 (Z.ltb_ge _ _)) in Hc by lia.
  split; [done|split; [done|]]. unfold duplicate_found.
  rewrite (existsb_zip_seq (fun i x => negb (Z.of_nat i =? indexOfConnection ed con) && same_ends x c) 0).
  split.
  - intros (j & x & Hj & Hx). exists j, x. cbn in Hx.
    apply andb_prop in Hx as [Hne Hs]. split; [|done]. intros ->.
    rewrite Z2Nat.id, Z.eqb_refl in Hne by lia. done.
  - intros (j & x & Hne & Hj & Hs). exists j, x. split; [done|]. cbn. rewrite Hs, andb_true_r.
    apply negb_true_iff, Z.eqb_neq. intros E. apply Hne. rewrite <- E. lia.
Qed.

(** [index] checks the row but not the column: a cell right of the
    four columns has a valid index, and [data] gives it an empty string. *)
Theorem index_accepts_any_column (ed : Editor) (r c : Z) :
  0 <= r < connectionCount ed -> 4 <= c ->
  isValidIndex (index (mkConnectionModel (Some ed)) r c invalidIndex) = true /\
  model_cell (mkConnectionModel (Some ed)) r c = VString [].
Proof.
  intros Hr Hc. unfold connectionCount in Hr.
  destruct (e_connections ed !! Z.to_nat r) as [con|] eqn:E;
    [|apply lookup_ge_None in E; lia].
  split.
  - unfold index; cbn. unfold connectionCount.
    rewrite (proj2 (Z.ltb_ge r 0)), (proj2 (Z.leb_gt (Z.of_nat (length (e_connections ed))) r)) by lia.
    unfold isValidIndex; cbn. rewrite (proj2 (Z.leb_le 0 r)), (proj2 (Z.leb_le 0 c)) by lia. done.
  - rewrite (model_cell_in ed r c con) by (lia || done). unfold columnText.
    by rewrite (proj2 (Z.eqb_neq c 0)), (proj2 (Z.eqb_neq c 1)), (proj2 (Z.eqb_neq c 2)),
      (proj2 (Z.eqb_neq c 3)) by lia.
Qed.

(** Editing the sender cell with a name that is not one of the
    form's object names stores an empty sender (and still reports
    success). *)
Theorem setData_clears_unknown_object mflc (ed : Editor) (form : Form) (i : QModelIndex) (s : QString)
    (con : Connection) :
  isValidIndex i = true -> mi_column i = 0 -> connection ed (mi_row i) = Some con ->
  s <> [] -> s ∉ objectNameList form ->
  setData mflc (mkConnectionModel (Some ed)) form i (VString s) =
  Some (true, mkConnectionModel (Some (setSource ed con []))).
Proof.
  intros Hv Hcol Hc Hs Hn. unfold setData; cbn. rewrite Hv, Hc, Hcol. cbn.
  by rewrite !bool_decide_false.
Qed.

Lemma elem_of_concat_map {A B} (f : A -> list B) (l : list A) (x : B) :
  x ∈ concat (map f l) <-> exists a, a ∈ l /\ x ∈ f a.
Proof.
  rewrite list_elem_of_In, in_concat. split.
  - intros (xs & Hxs & Hx). apply in_map_iff in Hxs as (a & <- & Ha).
    exists a. by rewrite !list_elem_of_In.
  - intros (a & Ha & Hx). exists (f a). rewrite <- !list_elem_of_In. split; [|done].
    apply list_elem_of_In, in_map_iff. exists a. by rewrite <- list_elem_of_In.
Qed.

(** The names [addWidgetToObjectList] takes from a list of widgets. *)
Definition widget_name (ws : list FormWidget) (x : QString) : Prop :=
  exists w, w ∈ ws /\ w_class w = OtherWidgetClass /\ trimmed (w_objectName w) = x /\ x <> [].

Lemma addWidget_elem w r x :
  x ∈ addWidgetToObjectList w r <->
  x ∈ r \/ (w_class w = OtherWidgetClass /\ trimmed (w_objectName w) = x /\ x <> []).
Proof.
  unfold addWidgetToObjectList. destruct (w_class w); [naive_solver|naive_solver|].
  case_bool_decide as Hn; rewrite ?elem_of_app, ?list_elem_of_singleton; naive_solver.
Qed.

Lemma add_widgets_elem ws r x : x ∈ add_widgets ws r <-> x ∈ r \/ widget_name ws x.
Proof.
  unfold widget_name. revert r. induction ws as [|w ws IH]; intros r; cbn.
  - split; [by left|]. intros [?|(w & Hw & _)]; [done|by apply not_elem_of_nil in Hw].
  - unfold add_widgets in IH. rewrite IH, addWidget_elem. setoid_rewrite elem_of_cons. naive_solver.
Qed.

Definition form_widgets (form : Form) : list FormWidget :=
  match f_containerPages form with Some ws => ws | None => [] end ++ f_cursorWidgets form.

(** [objectNameList] is sorted, and holds exactly the trimmed,
    non-empty names of the form's widgets other than layouts and
    spacers, the names of the managed menus and of the managed actions
    without a menu (separators excluded), and the names of the managed
    button groups; a form without main container offers none. *)
Theorem objectNameList_spec (form : Form) (x : QString) :
  Sorted qstr_le (objectNameList form) /\
  (x ∈ objectNameList form <->
   f_mainContainer form = true /\
   (widget_name (form_widgets form) x \/
    (exists a, a ∈ f_actions form /\ x ∈ action_names a) \/
    (exists b, b ∈ f_buttonGroups form /\ x ∈ group_names b))).
Proof.
  unfold objectNameList. destruct (f_mainContainer form); cbn [negb]; [|split; [constructor|set_solver]].
  split; [apply qsort_sorted|]. rewrite (qsort_perm _), !elem_of_app.
  rewrite (elem_of_concat_map action_names), (elem_of_concat_map group_names).
  unfold form_widgets. destruct (f_containerPages form) as [ws|]; rewrite add_widgets_elem.
  - rewrite add_widgets_elem, elem_of_nil. unfold widget_name. setoid_rewrite elem_of_app. naive_solver.
  - rewrite elem_of_nil. unfold widget_name. cbn [app]. naive_solver.
Qed.

(** ** Witnesses: a dialog whose OK button is connected twice to
    [accept()]. *)
Definition conA : Connection := mkConnection 1 (qs "okButton") (qs "clicked()") (qs "Dialog") (qs "accept()").
Definition conB : Connection := mkConnection 2 (qs "okButton") (qs "clicked()") (qs "Dialog") (qs "accept()").
Definition conC : Connection := mkConnection 3 [] [] [] [].
Definition sample_editor : Editor := mkEditor 7 [conA; conB] [].
Definition sample_sys : Sys := mkSys sample_editor (mkView 2 None).
Definition sample_sys' : Sys := mkSys (ed_append sample_editor conC) (mkView 3 None).
Definition sample_form : Form :=
  mkForm true None [mkFormWidget OtherWidgetClass (qs " okButton "); mkFormWidget QLayoutWidgetClass (qs "layout");
                    mkFormWidget OtherWidgetClass (qs "Dialog")] [] [].
Definition any_member (_ : Form) (_ : QString) (_ : MemberType) (_ : QString) : bool := true.

Lemma sample_consistent : consistent sample_sys.
Proof. split_and!; [reflexivity|reflexivity|apply (bool_decide_unpack _); reflexivity]. Qed.

Lemma reachable_consistent_witness :
  consistent sample_sys /\ rtc sys_step sample_sys sample_sys' /\
  (consistent sample_sys' /\ v_rows (s_view sample_sys') = Z.of_nat (length (model_table (s_model sample_sys'))) /\
   (forall con, c_id con ∉ ids (s_editor sample_sys') -> is_Some (sys_add sample_sys' con)) /\
   (forall con, con ∈ ids (s_editor sample_sys') -> is_Some (sys_remove sample_sys' con))).
Proof.
  assert (Hs : rtc sys_step sample_sys sample_sys').
  { apply rtc_once. apply (step_add sample_sys conC); [apply (bool_decide_unpack _)|]; reflexivity. }
  split; [apply sample_consistent|split; [exact Hs|]].
  exact (reachable_consistent sample_sys sample_sys' sample_consistent Hs).
Defined.

Lemma protocol_progress_witness :
  consistent sample_sys /\ is_Some (sys_add sample_sys conC) /\ is_Some (sys_remove sample_sys 1).
Proof.
  split; [apply sample_consistent|].
  destruct (protocol_progress sample_sys sample_consistent) as [Ha Hr].
  split; [apply Ha|apply Hr]; apply (bool_decide_unpack _); reflexivity.
Defined.

Lemma aboutToRemoveConnection_unknown_witness :
  3%nat ∉ ids sample_editor /\ aboutToRemoveConnection (mkConnectionModel (Some sample_editor)) (mkView 2 None) 3 = None.
Proof.
  assert (Hn : 3%nat ∉ ids sample_editor) by (apply (bool_decide_unpack _); reflexivity).
  split; [exact Hn|exact (aboutToRemoveConnection_unknown sample_editor (mkView 2 None) 3 Hn)].
Defined.

Lemma connectionChanged_warns_witness :
  2%nat ∈ ids sample_editor /\
  exists w rng c, connectionChanged (mkConnectionModel (Some sample_editor)) 2 = Some (w, rng) /\
    e_connections sample_editor !! Z.to_nat (indexOfConnection sample_editor 2) = Some c /\ c_id c = 2%nat /\
    (w = true <-> exists j c', j <> Z.to_nat (indexOfConnection sample_editor 2) /\
                              e_connections sample_editor !! j = Some c' /\ same_ends c' c = true).
Proof.
  assert (Hin : 2%nat ∈ ids sample_editor) by (apply (bool_decide_unpack _); reflexivity).
  split; [exact Hin|exact (connectionChanged_warns sample_editor 2 Hin)].
Defined.

Lemma index_accepts_any_column_witness :
  isValidIndex (index (mkConnectionModel (Some sample_editor)) 0 5 invalidIndex) = true /\
  model_cell (mkConnectionModel (Some sample_editor)) 0 5 = VString [].
Proof. apply index_accepts_any_column; [unfold connectionCount; cbn; lia|lia]. Defined.

Lemma setData_clears_unknown_object_witness :
  setData any_member (mkConnectionModel (Some sample_editor)) sample_form (createIndex 0 0) (VString (qs "label")) =
  Some (true, mkConnectionModel (Some (setSource sample_editor conA []))).
Proof.
  apply setData_clears_unknown_object; [reflexivity|reflexivity|reflexivity|discriminate|].
  apply (bool_decide_unpack _). vm_compute. reflexivity.
Defined.

(** The connection is flagged as a duplicate, and the trimmed widget
    names are offered in code-unit order, the layout left out. *)
Example sample_duplicate :
  option_map fst (connectionChanged (mkConnectionModel (Some sample_editor)) 2) = Some true /\
  objectNameList sample_form = [qs "Dialog"; qs "okButton"].
Proof. split; vm_compute; reflexivity. Qed.
