(* ===== verification/SignalSlotWindow.v ===== *)
(** The editing side of the signal/slot editor window
    (src/designer/src/components/signalsloteditor/signalsloteditorwindow.cpp):
    [InlineEditorModel] and [InlineEditor], the combo box that edits a
    cell, whose rows are placeholders, class titles and member names;
    [ConnectionDelegate::createEditor], which fills it for a column; and
    [SignalSlotEditorWindow], which keeps the selection of the table view
    and of the connection editor in step through two slots guarded by a
    flag.  The combo box's own behaviour ([QComboBox]: the first row
    becomes current when rows are added to an empty box, an activation
    makes the row current before [activated] is emitted) is modelled
    from Qt's documentation. *)

From S2P Require Import Prelude QtCore SignalSlotModel.
From stdpp Require Import relations.
From Stdlib Require Strings.String.
Import String.StringSyntax.
Local Open Scope Z_scope.
Local Open Scope string_scope.

(** ** [InlineEditorModel]: one column of items *)

Record Item := mkItem { it_text : QString; it_title : bool; it_bold : bool; it_marked : bool }.

Definition addTitle (rows : list Item) (title : QString) : list Item :=
  rows ++ [mkItem (title ++ qs ":") true true false].

Definition addText (rows : list Item) (text : QString) : list Item :=
  rows ++ [mkItem text false false false].

(** [text_list] is the [QMap<QString, bool>] in key order; a [true]
    value marks the entry italic and red. *)
Definition addTextList (rows : list Item) (text_list : list (QString * bool)) : list Item :=
  rows ++ ((fun kv => mkItem kv.1 false false kv.2) <$> text_list).

(** [data(index(idx, 0), Qt::UserRole).toInt() == TitleItem]: an index
    outside the rows has no data. *)
Definition isTitle (rows : list Item) (idx : Z) : bool :=
  if idx =? -1 then false
  else if idx <? 0 then false
  else match rows !! Z.to_nat idx with Some it => it_title it | None => false end.

Definition item_flags (rows : list Item) (idx : Z) : list ItemFlag :=
  if isTitle rows idx then [ItemIsEnabled] else [ItemIsSelectable; ItemIsEnabled].

Fixpoint findText_from (rows : list Item) (text : QString) (i : Z) : Z :=
  match rows with
  | [] => -1
  | it :: rest =>
      if it_title it then findText_from rest text (i + 1)
      else if bool_decide (it_text it = text) then i
      else findText_from rest text (i + 1)
  end.

Definition findText (rows : list Item) (text : QString) : Z := findText_from rows text 0.

(** ** [InlineEditor]: the combo box with its model and [m_idx] *)

Record InlineEditor := mkInlineEditor { ie_rows : list Item; ie_idx : Z; ie_current : Z }.

Definition newInlineEditor : InlineEditor := mkInlineEditor [] (-1) (-1).

(** Rows appended to the combo box's model: the first row becomes
    current when there was none. *)
Definition set_rows (e : InlineEditor) (rows : list Item) : InlineEditor :=
  let cur := if (ie_current e =? -1) && bool_decide (rows <> []) then 0 else ie_current e in
  mkInlineEditor rows (ie_idx e) cur.

Definition ie_addTitle (e : InlineEditor) (title : QString) : InlineEditor :=
  set_rows e (addTitle (ie_rows e) title).
Definition ie_addText (e : InlineEditor) (text : QString) : InlineEditor :=
  set_rows e (addText (ie_rows e) text).
Definition ie_addTextList (e : InlineEditor) (l : list (QString * bool)) : InlineEditor :=
  set_rows e (addTextList (ie_rows e) l).

Definition setCurrentIndex (e : InlineEditor) (idx : Z) : InlineEditor :=
  mkInlineEditor (ie_rows e) (ie_idx e) idx.

Definition checkSelection (e : InlineEditor) (idx : Z) : InlineEditor :=
  if idx =? ie_idx e then e
  else if isTitle (ie_rows e) idx then setCurrentIndex e (ie_idx e)
  else mkInlineEditor (ie_rows e) idx (ie_current e).

(** The user picks row [idx]: the box makes it current, then emits
    [activated(idx)], connected to [checkSelection]. *)
Definition activate (e : InlineEditor) (idx : Z) : InlineEditor := checkSelection (setCurrentIndex e idx) idx.

Definition setText (e : InlineEditor) (text : QString) : InlineEditor :=
  let i := findText (ie_rows e) text in
  let i := if i =? -1 then 0 else i in
  mkInlineEditor (ie_rows e) i i.

Definition ie_text (e : InlineEditor) : QString :=
  if ie_current e <? 0 then []
  else match ie_rows e !! Z.to_nat (ie_current e) with Some it => it_text it | None => [] end.

(** ** [ConnectionDelegate::createEditor]

    [cell c] is the text of column [c] of the edited row
    ([model->data(model->index(row, c))]); the members offered for a
    signal or slot column come from [reverseClassesMemberFunctions], a
    function of the designer's meta-object database (not in the
    repository), as (class name, member signatures) pairs. *)
Section Delegate.
Variable reverseClassesMemberFunctions : QString -> MemberType -> QString -> Form -> list (QString * list QString).

Definition unmarked (l : list QString) : list (QString * bool) := qmap_of ((fun n => (n, false)) <$> l).

Definition add_class (e : InlineEditor) (classInfo : QString * list QString) : InlineEditor :=
  if bool_decide (classInfo.1 = []) || bool_decide (classInfo.2 = []) then e
  else ie_addTextList (ie_addTitle e classInfo.1) (unmarked classInfo.2).

(** [None] is the null editor returned when no form is set. *)
Definition createEditor (form : option Form) (cell : Z -> QString) (column : Z) : option InlineEditor :=
  match form with
  | None => None
  | Some f =>
      let obj_name := cell (if column <=? 1 then 0 else 2) in
      let e := newInlineEditor in
      if (column =? 0) || (column =? 2) then
        let e := ie_addTextList e (unmarked [qs "<object>"]) in
        Some (ie_addTextList e (unmarked (objectNameList f)))
      else if (column =? 1) || (column =? 3) then
        let type := if column =? 1 then SignalMember else SlotMember in
        let peer := cell (if type is SignalMember then 3 else 1) in
        let class_list := reverseClassesMemberFunctions obj_name type peer f in
        let e := ie_addText e (if type is SignalMember then qs "<signal>" else qs "<slot>") in
        Some (fold_left add_class class_list e)
      else Some e
  end.
End Delegate.

(** ** [SignalSlotEditorWindow]

    The window's editor, the view's row state, the guard
    [m_handling_selection_change], the current index of the tree view
    (an index of the sorting proxy model) and the enabled state of the
    two buttons. *)
Record Window := mkWindow {
  w_editor : option Editor;
  w_view : View;
  w_handling : bool;
  w_current : QModelIndex;
  w_addEnabled : bool;
  w_removeEnabled : bool
}.

Definition set_editor (w : Window) (ed : Editor) : Window :=
  mkWindow (Some ed) (w_view w) (w_handling w) (w_current w) (w_addEnabled w) (w_removeEnabled w).
Definition set_handling (w : Window) (b : bool) : Window :=
  mkWindow (w_editor w) (w_view w) b (w_current w) (w_addEnabled w) (w_removeEnabled w).
Definition set_current (w : Window) (i : QModelIndex) : Window :=
  mkWindow (w_editor w) (w_view w) (w_handling w) i (w_addEnabled w) (w_removeEnabled w).
Definition set_view (w : Window) (v : View) : Window :=
  mkWindow (w_editor w) v (w_handling w) (w_current w) (w_addEnabled w) (w_removeEnabled w).

Definition updateUi (w : Window) : Window :=
  mkWindow (w_editor w) (w_view w) (w_handling w) (w_current w)
    (bool_decide (is_Some (w_editor w))) (bool_decide (is_Some (w_editor w)) && isValidIndex (w_current w)).

(** The constructor: no editor, the model empty, the guard down, no
    current index, both tool buttons enabled as created, then
    [updateUi()]. *)
Definition newWindow : Window := updateUi (mkWindow None (mkView 0 None) false invalidIndex true true).

(** The connection editor's selection ([ConnectionEdit], not in the
    repository): [setSelected(con, true)] emits [connectionSelected]
    when it selects a connection that was not selected. *)
Definition selected (ed : Editor) (con : Connection) : bool := bool_decide (c_id con ∈ e_selected ed).

Definition selectNone (ed : Editor) : Editor := mkEditor (e_id ed) (e_connections ed) [].

Definition select (ed : Editor) (con : Connection) : Editor :=
  mkEditor (e_id ed) (e_connections ed) (e_selected ed ++ [c_id con]).

Definition index_eq (a b : QModelIndex) : bool :=
  (mi_row a =? mi_row b) && (mi_column a =? mi_column b) && eqb (mi_model a) (mi_model b).

Section Slots.
(** [QSortFilterProxyModel::mapToSource] and [mapFromSource]. *)
Variable mapToSource mapFromSource : QModelIndex -> QModelIndex.

(** The two slots, each calling the other through the signal it causes
    ([connectionSelected] from [setSelected], [currentChanged] from
    [setCurrentIndex], connected after [updateUi]); [fuel] bounds the
    depth of the calls, [None] when it runs out. *)
Fixpoint updateEditorSelection (fuel : nat) (w : Window) (index : QModelIndex) : option Window :=
  match fuel with
  | O => None
  | S f =>
      if w_handling w then Some w else
      match w_editor w with
      | None => Some w
      | Some ed =>
          match indexToConnection (mkConnectionModel (Some ed)) (mapToSource index) with
          | None => Some (updateUi (set_editor w (selectNone ed)))
          | Some con =>
              if selected ed con then Some w
              else
                let w1 := set_editor (set_handling w true) (select (selectNone ed) con) in
                w2 ← updateDialogSelection f w1 con;
                Some (updateUi (set_handling w2 false))
          end
      end
  end
with updateDialogSelection (fuel : nat) (w : Window) (con : Connection) : option Window :=
  match fuel with
  | O => None
  | S f =>
      if w_handling w then Some w else
      match w_editor w with
      | None => Some w
      | Some ed =>
          let src := match connectionToIndex (mkConnectionModel (Some ed)) (c_id con) with
                     | Some i => i | None => invalidIndex end in
          let index := mapFromSource src in
          if negb (isValidIndex index) || index_eq index (w_current w) then Some w
          else
            let w1 := updateUi (set_current (set_handling w true) index) in
            w2 ← updateEditorSelection f w1 index;
            Some (updateUi (set_handling w2 false))
      end
  end.

(** The user makes [i] the current index of the view: the selection
    model emits [currentChanged] when it changes, connected to [updateUi]
    and then to [updateEditorSelection]. *)
Definition view_setCurrent (fuel : nat) (w : Window) (i : QModelIndex) : option Window :=
  if index_eq i (w_current w) then Some w
  else updateEditorSelection fuel (updateUi (set_current w i)) i.

(** The user picks connection [con] on the form ([ConnectionEdit]: the
    selection cleared, [con] selected, [connectionSelected] emitted,
    connected to [updateDialogSelection]). *)
Definition editor_select (fuel : nat) (w : Window) (con : Connection) : option Window :=
  match w_editor w with
  | None => Some w
  | Some ed =>
      if selected ed con then Some w
      else updateDialogSelection fuel (set_editor w (select (selectNone ed) con)) con
  end.
End Slots.

(** [addConnection] and [removeConnection]: the editor's new empty
    connection (a fresh object) and the removal of the selected ones,
    each through the row notifications of [ConnectionModel]. *)
Definition fresh_id (ed : Editor) : nat := S (foldr Nat.max 0%nat (ids ed)).

Definition addConnection (w : Window) : option Window :=
  match w_editor w with
  | None => Some w
  | Some ed =>
      s ← sys_add (mkSys ed (w_view w)) (mkConnection (fresh_id ed) [] [] [] []);
      Some (updateUi (set_view (set_editor w (s_editor s)) (s_view s)))
  end.

Definition ce_deleteSelected (s : Sys) : option Sys :=
  foldl (fun os con => s ← os; sys_remove s con) (Some s) (e_selected (s_editor s)).

Definition removeConnection (w : Window) : option Window :=
  match w_editor w with
  | None => Some w
  | Some ed =>
      s ← ce_deleteSelected (mkSys ed (w_view w));
      Some (updateUi (set_view (set_editor w (s_editor s)) (s_view s)))
  end.

(** [setActiveFormWindow]: the form's editor, if any, through
    [ConnectionModel::setEditor]. *)
Definition setActiveFormWindow (w : Window) (editor : option Editor) : Window :=
  let '(m, v) := setEditor (mkConnectionModel (w_editor w)) (w_view w) editor in
  updateUi (mkWindow (m_editor m) v (w_handling w) (w_current w) (w_addEnabled w) (w_removeEnabled w)).

(** ** The combo box never settles on a class title *)

(** The invariant of an [InlineEditor] after [setEditorData]: the
    current row is [m_idx], it is not a title, nor is row 0, the
    fallback of [setText]. *)
Definition ie_ok (e : InlineEditor) : Prop :=
  ie_current e = ie_idx e /\ isTitle (ie_rows e) (ie_idx e) = false /\ isTitle (ie_rows e) 0 = false.

(** What the user and the delegate do to an open editor: activate an
    existing row, or set its text. *)
Inductive ie_step : InlineEditor -> InlineEditor -> Prop :=
  | ie_activate e idx : 0 <= idx < Z.of_nat (length (ie_rows e)) -> ie_step e (activate e idx)
  | ie_setText e text : ie_step e (setText e text).

(** No row before the [k]-th matches: each is a title or has another text. *)
Definition no_match_before (rows : list Item) (text : QString) (k : nat) : Prop :=
  forall k' it, (k' < k)%nat -> rows !! k' = Some it -> it_title it = false -> it_text it <> text.

Lemma no_match_before_cons it rows text k :
  (it_title it = true \/ it_text it <> text) -> no_match_before rows text k ->
  no_match_before (it :: rows) text (S k).
Proof.
  intros Hit Hk [|k'] it' Hlt Hl Ht; cbn in Hl.
  - injection Hl as <-. destruct Hit; congruence.
  - apply (Hk k' it'); [lia|done|done].
Qed.

Lemma findText_from_spec rows text i :
  (findText_from rows text i = -1 /\ no_match_before rows text (length rows)) \/
  (exists k it, findText_from rows text i = i + Z.of_nat k /\ rows !! k = Some it /\
     it_title it = false /\ it_text it = text /\ no_match_before rows text k).
Proof.
  revert i. induction rows as [|it rows IH]; intros i; cbn.
  - left. split; [done|]. intros k' it' Hlt. lia.
  - assert (forall j, (findText_from rows text (i + 1) = -1 /\ no_match_before rows text (length rows)) \/
       (exists k it', findText_from rows text (i + 1) = i + 1 + Z.of_nat k /\ rows !! k = Some it' /\
          it_title it' = false /\ it_text it' = text /\ no_match_before rows text k) ->
       (it_title it = true \/ it_text it <> text) -> j = findText_from rows text (i + 1) ->
       (j = -1 /\ no_match_before (it :: rows) text (S (length rows))) \/
       (exists k it', j = i + Z.of_nat k /\ (it :: rows) !! k = Some it' /\ it_title it' = false /\
          it_text it' = text /\ no_match_before (it :: rows) text k)) as Hstep.
    { intros j [[E Hn]|(k & it' & E & Hl & Ht & Hx & Hn)] Hit ->.
      - left. split; [done|]. by apply no_match_before_cons.
      - right. exists (S k), it'. split_and!; [lia|done|done|done|]. by apply no_match_before_cons. }
    destruct (it_title it) eqn:Ht; [by apply Hstep; auto|].
    case_bool_decide as Hx.
    + right. exists 0%nat, it. split_and!; [lia|done|done|done|]. intros k' ? Hlt. lia.
    + apply Hstep; auto.
Qed.

Lemma isTitle_lookup rows k it : rows !! k = Some it -> isTitle rows (Z.of_nat k) = it_title it.
Proof.
  intros Hl. unfold isTitle. rewrite Nat2Z.id, Hl.
  destruct (Z.eqb_spec (Z.of_nat k) (-1)); [lia|]. by rewrite (proj2 (Z.ltb_ge _ _)) by lia.
Qed.

(** C29: [InlineEditor::setText] makes current the first row that is
    not a title and shows [text], and [m_idx] follows it; when no row
    does, it falls back to row 0. *)
Theorem setText_spec (e : InlineEditor) (text : QString) :
  ie_rows (setText e text) = ie_rows e /\ ie_current (setText e text) = ie_idx (setText e text) /\
  ((ie_idx (setText e text) = 0 /\ no_match_before (ie_rows e) text (length (ie_rows e))) \/
   (exists k it, ie_idx (setText e text) = Z.of_nat k /\ ie_rows e !! k = Some it /\
      it_title it = false /\ it_text it = text /\ no_match_before (ie_rows e) text k)).
Proof.
  unfold setText, findText; cbn. split_and!; [done|done|].
  destruct (findText_from_spec (ie_rows e) text 0) as [[-> Hn]|(k & it & -> & Hk)]; [by left|].
  right. exists k, it. rewrite (proj2 (Z.eqb_neq _ _)) by lia. split; [lia|done].
Qed.

Lemma setText_ok e text : isTitle (ie_rows e) 0 = false -> ie_ok (setText e text).
Proof.
  intros H0. destruct (setText_spec e text) as (Hr & Hc & [[Hi _]|(k & it & Hi & Hl & Ht & _)]);
    unfold ie_ok; rewrite Hr, Hi; [done|]. split_and!; [congruence| |done].
  by rewrite (isTitle_lookup _ _ _ Hl).
Qed.

Lemma activate_ok e idx : ie_ok e -> ie_ok (activate e idx).
Proof.
  intros (Hc & Ht & H0). unfold activate, checkSelection; cbn.
  destruct (Z.eqb_spec idx (ie_idx e)) as [->|_]; [done|].
  destruct (isTitle (ie_rows e) idx) eqn:Hti; done.
Qed.

Lemma ie_step_ok e e' : ie_ok e -> ie_step e e' -> ie_ok e'.
Proof.
  intros Hok Hs. destruct Hs as [e0 idx _|e0 text]; [by apply activate_ok|]. apply setText_ok, Hok.
Qed.

Lemma rtc_ie_step_ok e e' : ie_ok e -> rtc ie_step e e' -> ie_ok e'.
Proof. intros Hok Hs. induction Hs; eauto using ie_step_ok. Qed.

(** Appending rows keeps row 0. *)
Lemma set_rows_head e rows it :
  ie_rows e !! 0%nat = Some it -> (exists more, rows = ie_rows e ++ more) ->
  ie_rows (set_rows e rows) !! 0%nat = Some it.
Proof. intros Hl [more ->]. cbn. by apply lookup_app_l_Some. Qed.

Lemma add_class_head e ci it :
  ie_rows e !! 0%nat = Some it -> ie_rows (add_class e ci) !! 0%nat = Some it.
Proof.
  intros Hl. unfold add_class. case_match; [done|].
  apply set_rows_head; [apply set_rows_head; [done|]|]; unfold addTitle, addTextList; eauto.
Qed.

Lemma fold_add_class_head cl e it :
  ie_rows e !! 0%nat = Some it -> ie_rows (fold_left add_class cl e) !! 0%nat = Some it.
Proof. revert e. induction cl; intros e Hl; cbn; [done|]. by apply IHcl, add_class_head. Qed.

Lemma createEditor_row0 rcmf form cell column e :
  createEditor rcmf (Some form) cell column = Some e -> isTitle (ie_rows e) 0 = false.
Proof.
  unfold createEditor. intros E.
  assert (forall it, ie_rows e !! 0%nat = Some it -> it_title it = false -> isTitle (ie_rows e) 0 = false)
    as Hrow by (intros it Hl Ht; by rewrite <- Ht, <- (isTitle_lookup _ _ _ Hl)).
  destruct ((column =? 0) || (column =? 2)); [|destruct ((column =? 1) || (column =? 3))];
    injection E as <-; [eapply Hrow; reflexivity| |reflexivity].
  destruct (column =? 1); (eapply Hrow; [apply fold_add_class_head; reflexivity|reflexivity]).
Qed.

(** C22: an editor the delegate creates, once its text is set, keeps
    its current row equal to [m_idx] and never on a class title,
    whatever rows the user activates and texts are set. *)
Theorem delegate_editor_never_title rcmf (form : Form) (cell : Z -> QString) (column : Z)
    (e e' : InlineEditor) (value : QString) :
  createEditor rcmf (Some form) cell column = Some e -> rtc ie_step (setText e value) e' ->
  ie_current e' = ie_idx e' /\ isTitle (ie_rows e') (ie_current e') = false.
Proof.
  intros Hc Hs. destruct (rtc_ie_step_ok _ _ (setText_ok _ value (createEditor_row0 _ _ _ _ _ Hc)) Hs)
    as (Hcur & Ht & _). by rewrite Hcur.
Qed.

(** ** The window's selection slots *)

Section WindowProps.
Variable mapToSource mapFromSource : QModelIndex -> QModelIndex.

(** C18: the guard [m_handling_selection_change] cuts the mutual calls
    of the two selection slots at depth 2: with fuel 2 they always
    return, more fuel changes nothing, and the guard is back to its
    value before the call. *)
Theorem selection_slots_terminate (n : nat) (w : Window) (i : QModelIndex) (con : Connection) :
  updateEditorSelection mapToSource mapFromSource (2 + n) w i =
    updateEditorSelection mapToSource mapFromSource 2 w i /\
  updateDialogSelection mapToSource mapFromSource (2 + n) w con =
    updateDialogSelection mapToSource mapFromSource 2 w con /\
  (exists w', updateEditorSelection mapToSource mapFromSource 2 w i = Some w' /\ w_handling w' = w_handling w) /\
  (exists w', updateDialogSelection mapToSource mapFromSource 2 w con = Some w' /\ w_handling w' = w_handling w).
Proof.
  cbn [Nat.add updateEditorSelection updateDialogSelection].
  destruct (w_handling w) eqn:Hh; [by eauto 10|].
  destruct (w_editor w) as [ed|]; [|by eauto 10].
  split_and!; repeat (case_match; cbn; try done); eauto.
Qed.

Lemma index_eq_true a b : index_eq a b = true -> a = b.
Proof.
  destruct a as [r c m], b as [r' c' m']. unfold index_eq; cbn.
  rewrite !andb_true_iff, !Z.eqb_eq. intros [[-> ->] Hm]. by apply eqb_prop in Hm as ->.
Qed.

(** The source index [connectionToIndex] gives for a connection of the
    editor is valid and designates it. *)
Lemma connectionToIndex_designates ed (con : Connection) :
  c_id con ∈ ids ed ->
  isValidIndex (createIndex (indexOfConnection ed (c_id con)) 0) = true /\
  exists c, indexToConnection (mkConnectionModel (Some ed)) (createIndex (indexOfConnection ed (c_id con)) 0) = Some c /\
    c_id c = c_id con.
Proof.
  intros Hin. destruct (indexOfConnection_in ed (c_id con) Hin) as (Hb & c & Hc & Hid).
  assert (isValidIndex (createIndex (indexOfConnection ed (c_id con)) 0) = true) as Hv
    by (unfold isValidIndex; cbn; by rewrite (proj2 (Z.leb_le 0 _)) by lia).
  split; [done|]. exists c. unfold indexToConnection; cbn -[isValidIndex]. rewrite Hv; cbn.
  by rewrite (proj2 (Z.ltb_ge _ _)), (proj2 (Z.leb_gt _ _)) by lia.
Qed.

(** When the user selects a connection on the form, the slots leave
    the editor with exactly that connection selected and make current
    the row of the view that shows it. *)
Theorem editor_select_syncs_view
    (proxy_inverse : forall i, isValidIndex i = true -> isValidIndex (mapFromSource i) = true /\ mapToSource (mapFromSource i) = i)
    (w : Window) (ed : Editor) (con : Connection) :
  w_handling w = false -> w_editor w = Some ed -> c_id con ∈ ids ed -> selected ed con = false ->
  exists w' ed', editor_select mapToSource mapFromSource 2 w con = Some w' /\ w_editor w' = Some ed' /\
    e_selected ed' = [c_id con] /\ w_handling w' = false /\
    exists c, indexToConnection (mkConnectionModel (Some ed')) (mapToSource (w_current w')) = Some c /\
      c_id c = c_id con.
Proof.
  intros Hh Hed Hin Hsel. unfold editor_select. rewrite Hed, Hsel.
  destruct (connectionToIndex_designates ed con Hin) as (Hv & c & Hc & Hid).
  destruct (proxy_inverse _ Hv) as [Hv' Hinv].
  cbn [updateDialogSelection set_editor w_handling w_editor connectionToIndex m_editor]. rewrite Hh.
  change (indexOfConnection (select (selectNone ed) con) (c_id con)) with (indexOfConnection ed (c_id con)).
  rewrite Hv'. cbn [negb orb]. change (w_current (set_editor w ?x)) with (w_current w).
  destruct (index_eq (mapFromSource (createIndex (indexOfConnection ed (c_id con)) 0)) (w_current w)) eqn:Heq.
  - apply index_eq_true in Heq. eexists _, _. split_and!; [reflexivity..|exact Hh|]. exists c.
    cbn. rewrite <- Heq, Hinv. split; [exact Hc|done].
  - cbn. eexists _, _. split_and!; [reflexivity..|]. exists c. cbn. rewrite Hinv. split; [exact Hc|done].
Qed.

(** C17: when the user makes a row of the view current, the slots
    select its connection in the editor (alone, unless it was already
    selected), keep the editor's connections, and enable the remove
    button exactly when the new current index is valid. *)
Theorem view_click_syncs_editor (w : Window) (ed : Editor) (i : QModelIndex) (con : Connection) :
  w_handling w = false -> w_editor w = Some ed -> index_eq i (w_current w) = false ->
  indexToConnection (mkConnectionModel (Some ed)) (mapToSource i) = Some con ->
  exists w' ed', view_setCurrent mapToSource mapFromSource 2 w i = Some w' /\ w_current w' = i /\
    w_handling w' = false /\ w_editor w' = Some ed' /\ e_connections ed' = e_connections ed /\
    c_id con ∈ e_selected ed' /\ (selected ed con = false -> e_selected ed' = [c_id con]) /\
    w_removeEnabled w' = isValidIndex i.
Proof.
  intros Hh Hed Hne Hc. unfold view_setCurrent. rewrite Hne.
  cbn [updateEditorSelection updateDialogSelection updateUi set_current w_handling w_editor].
  rewrite Hh, Hed, Hc. destruct (selected ed con) eqn:Hsel.
  - eexists _, _. split_and!; [reflexivity|reflexivity|exact Hh|cbn; exact Hed|reflexivity| |done|].
    + by apply bool_decide_eq_true in Hsel.
    + cbn. by rewrite Hed.
  - cbn. eexists _, _. split_and!; [reflexivity..|cbn; set_solver|done|done].
Qed.
End WindowProps.

(** ** The window's invariant *)

(** The editor's selection: distinct connections of the editor. *)
Definition sel_ok (ed : Editor) : Prop := NoDup (e_selected ed) /\ e_selected ed ⊆ ids ed.

(** Outside the slots the guard is down, and the view is in step with
    the editor, whose selection is well formed. *)
Definition window_ok (w : Window) : Prop :=
  w_handling w = false /\
  match w_editor w with
  | None => True
  | Some ed => consistent (mkSys ed (w_view w)) /\ sel_ok ed
  end.

(** A new window is in step, with both buttons disabled until a form
    becomes active. *)
Lemma newWindow_ok : window_ok newWindow /\ w_addEnabled newWindow = false /\ w_removeEnabled newWindow = false.
Proof. split_and!; [split; done|done|done]. Qed.

Lemma foldr_max_ge (l : list nat) x : x ∈ l -> (x <= foldr Nat.max 0 l)%nat.
Proof. induction l as [|y l IH]; intros Hx; [by apply elem_of_nil in Hx|]. apply elem_of_cons in Hx as [->|Hx]; cbn; [lia|]. specialize (IH Hx). lia. Qed.

Lemma fresh_id_notin ed : fresh_id ed ∉ ids ed.
Proof. intros Hin. apply foldr_max_ge in Hin. unfold fresh_id in Hin. lia. Qed.

Lemma indexToConnection_in ed i c :
  indexToConnection (mkConnectionModel (Some ed)) i = Some c -> c_id c ∈ ids ed.
Proof.
  unfold indexToConnection, connection; cbn. repeat case_match; try done.
  intros Hl. apply list_elem_of_fmap. exists c. split; [done|]. by eapply list_elem_of_lookup_2.
Qed.

Lemma sel_ok_select ed con : c_id con ∈ ids ed -> sel_ok (select (selectNone ed) con).
Proof. intros Hin. split; cbn; [apply NoDup_singleton|set_solver]. Qed.

Lemma sel_ok_selectNone ed : sel_ok (selectNone ed).
Proof. split; cbn; [constructor|set_solver]. Qed.

Lemma sys_add_editor s con s' : sys_add s con = Some s' -> s_editor s' = ed_append (s_editor s) con.
Proof.
  unfold sys_add. destruct (aboutToAddConnection _ _ _) as [v1|]; [|done]. cbn.
  destruct (connectionAdded v1) as [v2|]; [|done]. cbn. intros E. by injection E as <-.
Qed.

Lemma sys_remove_editor s con s' : sys_remove s con = Some s' -> s_editor s' = ed_remove (s_editor s) con.
Proof.
  unfold sys_remove. destruct (aboutToRemoveConnection _ _ _) as [v1|]; [|done]. cbn.
  destruct (connectionRemoved v1) as [v2|]; [|done]. cbn. intros E. by injection E as <-.
Qed.

Lemma sel_ok_remove ed con : sel_ok ed -> sel_ok (ed_remove ed con).
Proof.
  intros [Hnd Hsub]. split; [by apply NoDup_filter|].
  rewrite ids_remove. intros x. cbn. rewrite !list_elem_of_filter. intros [? ?]. split; [done|]. by apply Hsub.
Qed.

Lemma sys_step_sel_ok s s' : sel_ok (s_editor s) -> sys_step s s' -> sel_ok (s_editor s').
Proof.
  intros Hok Hs. destruct Hs as [s con s' _ E|s con s' _ E|mflc s form i x b m' ed' E Hm].
  - rewrite (sys_add_editor _ _ _ E). destruct Hok as [? Hsub]. split; [done|].
    rewrite ids_append. set_solver.
  - rewrite (sys_remove_editor _ _ _ E). by apply sel_ok_remove.
  - destruct (setData_ids _ _ _ _ _ _ _ _ E Hm) as [Hids Hsel]. unfold sel_ok in *; cbn.
    by rewrite Hids, Hsel.
Qed.

Lemma deleteSelected_fold_ok (l : list nat) s :
  consistent s -> sel_ok (s_editor s) -> NoDup l -> l ⊆ ids (s_editor s) ->
  exists s', foldl (fun os con => s ← os; sys_remove s con) (Some s) l = Some s' /\
    consistent s' /\ sel_ok (s_editor s').
Proof.
  revert s. induction l as [|x l IH]; intros s Hc Hsel Hnd Hsub; cbn [foldl mbind option_bind]; [by eauto|].
  apply NoDup_cons in Hnd as [Hx Hnd].
  destruct (sys_remove_ok s x Hc) as (s1 & E & Hc1); [set_solver|]. rewrite E.
  apply IH; [done| |done|].
  - rewrite (sys_remove_editor _ _ _ E). by apply sel_ok_remove.
  - rewrite (sys_remove_editor _ _ _ E), ids_remove. intros y Hy.
    apply list_elem_of_filter. split; [set_solver|]. apply Hsub. set_solver.
Qed.

Lemma window_ok_edit w ed v h cur a r :
  w_handling w = false -> h = false -> consistent (mkSys ed v) -> sel_ok ed ->
  window_ok (mkWindow (Some ed) v h cur a r).
Proof. intros _ -> Hc Hs. by split. Qed.

Lemma window_ok_sys w ed s' :
  window_ok w -> w_editor w = Some ed -> consistent s' -> sel_ok (s_editor s') ->
  window_ok (updateUi (set_view (set_editor w (s_editor s')) (s_view s'))).
Proof. intros [Hh _] _ Hc Hs. destruct s'. by apply (window_ok_edit w). Qed.

Lemma addConnection_ok w : window_ok w -> exists w', addConnection w = Some w' /\ window_ok w'.
Proof.
  intros Hok. unfold addConnection. destruct (w_editor w) as [ed|] eqn:E; [|by eauto].
  pose proof Hok as [Hh Hed]. rewrite E in Hed. destruct Hed as [Hc Hsel].
  set (con := mkConnection (fresh_id ed) [] [] [] []).
  destruct (sys_add_ok _ con Hc (fresh_id_notin ed)) as (s' & Es & Hc'). rewrite Es. cbn.
  eexists. split; [reflexivity|]. apply (window_ok_sys w ed); [done|done|done|].
  apply (sys_step_sel_ok (mkSys ed (w_view w))); [done|]. apply (step_add _ con); [apply fresh_id_notin|exact Es].
Qed.

Lemma removeConnection_ok w : window_ok w -> exists w', removeConnection w = Some w' /\ window_ok w'.
Proof.
  intros Hok. unfold removeConnection. destruct (w_editor w) as [ed|] eqn:E; [|by eauto].
  pose proof Hok as [Hh Hed]. rewrite E in Hed. destruct Hed as [Hc [Hnd Hsub]].
  destruct (deleteSelected_fold_ok (e_selected ed) (mkSys ed (w_view w)) Hc (conj Hnd Hsub) Hnd Hsub)
    as (s' & Es & Hc' & Hsel'). unfold ce_deleteSelected. cbn [s_editor]. rewrite Es. cbn.
  eexists. split; [reflexivity|]. by apply (window_ok_sys w ed).
Qed.

(** A form's editor: distinct connections, a well-formed selection. *)
Definition editor_wf (ed : Editor) : Prop := NoDup (ids ed) /\ sel_ok ed.

Lemma setActiveFormWindow_ok w editor :
  window_ok w -> (forall ed, editor = Some ed -> editor_wf ed) ->
  (forall ed, editor = Some ed -> option_map e_id (w_editor w) = Some (e_id ed) -> w_editor w = Some ed) ->
  window_ok (setActiveFormWindow w editor).
Proof.
  intros Hok Hwf Hsame. pose proof Hok as [Hh Hed]. unfold setActiveFormWindow, setEditor; cbn.
  case_bool_decide as Hid; cbn.
  - destruct (w_editor w) as [ed|] eqn:E; [|by split].
    destruct editor as [ed'|]; [|done]. by split.
  - split; [done|]. destruct editor as [ed|]; [|done]. destruct (Hwf ed eq_refl) as [Hnd Hsel].
    split; [|done]. split_and!; cbn; [apply rowCount_model|done|done].
Qed.

Section WindowSteps.
Variable mapToSource mapFromSource : QModelIndex -> QModelIndex.

Lemma updateEditorSelection_ok w i :
  window_ok w -> exists w', updateEditorSelection mapToSource mapFromSource 2 w i = Some w' /\ window_ok w'.
Proof.
  intros Hok. pose proof Hok as [Hh Hed]. cbn [updateEditorSelection updateDialogSelection]. rewrite Hh.
  destruct (w_editor w) as [ed|] eqn:E; [|by eauto]. destruct Hed as [Hc Hsel].
  destruct (indexToConnection _ _) as [con|] eqn:Hi; [destruct (selected ed con); [by eauto|]|];
    cbn; eexists; (split; [reflexivity|]); apply (window_ok_edit w); try done.
  by eapply sel_ok_select, indexToConnection_in.
  apply sel_ok_selectNone.
Qed.

Lemma updateDialogSelection_ok w con :
  window_ok w -> exists w', updateDialogSelection mapToSource mapFromSource 2 w con = Some w' /\ window_ok w'.
Proof.
  intros Hok. pose proof Hok as [Hh Hed]. cbn [updateDialogSelection updateEditorSelection]. rewrite Hh.
  destruct (w_editor w) as [ed|] eqn:E; [|by eauto]. destruct Hed as [Hc Hsel].
  case_match; [by eauto|]. eexists. split; [reflexivity|]. unfold window_ok; cbn. rewrite E. by split.
Qed.

Lemma view_setCurrent_ok w i :
  window_ok w -> exists w', view_setCurrent mapToSource mapFromSource 2 w i = Some w' /\ window_ok w'.
Proof.
  intros Hok. unfold view_setCurrent. case_match; [by eauto|].
  apply updateEditorSelection_ok. destruct Hok as [Hh Hed]. by split.
Qed.

Lemma editor_select_ok w ed con :
  window_ok w -> w_editor w = Some ed -> c_id con ∈ ids ed ->
  exists w', editor_select mapToSource mapFromSource 2 w con = Some w' /\ window_ok w'.
Proof.
  intros Hok E Hin. unfold editor_select. rewrite E. case_match; [by eauto|].
  apply updateDialogSelection_ok. pose proof Hok as [Hh Hed]. rewrite E in Hed. destruct Hed as [Hc _].
  apply (window_ok_edit w); [done|done|exact Hc|by apply sel_ok_select].
Qed.

(** Everything that happens to the window: its buttons, a change of
    active form (to one whose editor is well formed; the same editor
    object when its identity is unchanged), the user's choice of a row
    or of a connection on the form, and the editor's own insertions,
    removals and edits through the model. *)
Inductive window_step : Window -> Window -> Prop :=
  | ws_add w w' : addConnection w = Some w' -> window_step w w'
  | ws_remove w w' : removeConnection w = Some w' -> window_step w w'
  | ws_form w editor :
      (forall ed, editor = Some ed -> editor_wf ed) ->
      (forall ed, editor = Some ed -> option_map e_id (w_editor w) = Some (e_id ed) -> w_editor w = Some ed) ->
      window_step w (setActiveFormWindow w editor)
  | ws_click w i w' : view_setCurrent mapToSource mapFromSource 2 w i = Some w' -> window_step w w'
  | ws_pick w ed con w' :
      w_editor w = Some ed -> c_id con ∈ ids ed ->
      editor_select mapToSource mapFromSource 2 w con = Some w' -> window_step w w'
  | ws_edit w ed s' :
      w_editor w = Some ed -> sys_step (mkSys ed (w_view w)) s' ->
      window_step w (updateUi (set_view (set_editor w (s_editor s')) (s_view s'))).

Lemma window_step_ok w w' : window_ok w -> window_step w w' -> window_ok w'.
Proof.
  intros Hok Hs. destruct Hs as [w w' E|w w' E|w editor Hwf Hsame|w i w' E|w ed con w' Hed Hin E|w ed s' Hed Hs].
  - destruct (addConnection_ok w Hok) as (w'' & E' & ?). congruence.
  - destruct (removeConnection_ok w Hok) as (w'' & E' & ?). congruence.
  - by apply setActiveFormWindow_ok.
  - destruct (view_setCurrent_ok w i Hok) as (w'' & E' & ?). congruence.
  - destruct (editor_select_ok w ed con Hok Hed Hin) as (w'' & E' & ?). congruence.
  - pose proof Hok as [Hh Hw]. rewrite Hed in Hw. destruct Hw as [Hc Hsel].
    apply (window_ok_sys w ed); [done|done|by eapply sys_step_consistent|].
    by apply (sys_step_sel_ok (mkSys ed (w_view w))).
Qed.

(** C4: from a window in step with its editor, every sequence of
    button clicks, form changes, selections and edits leads to a window
    that is still in step (the guard down, the view's rows those of the
    editor, nothing pending, the selection made of distinct connections
    of the editor), in which the add and remove buttons never fail a
    model assertion. *)
Theorem window_reachable_ok (w w' : Window) :
  window_ok w -> rtc window_step w w' ->
  window_ok w' /\ is_Some (addConnection w') /\ is_Some (removeConnection w').
Proof.
  intros Hok Hs. assert (window_ok w') as Hok'.
  { induction Hs; eauto using window_step_ok. }
  split; [done|]. destruct (addConnection_ok w' Hok') as (? & -> & _).
  destruct (removeConnection_ok w' Hok') as (? & -> & _). by split.
Qed.
End WindowSteps.

(** ** Witnesses *)

Definition sample_window : Window := mkWindow (Some sample_editor) (mkView 2 None) false invalidIndex true false.

Definition sample_classes (_ : QString) (_ : MemberType) (_ : QString) (_ : Form) : list (QString * list QString) :=
  [(qs "QDialog", [qs "reject()"; qs "accept()"]); ([], [qs "hidden()"])].

Definition sample_slot_editor : InlineEditor :=
  match createEditor sample_classes (Some sample_form) (fun _ => qs "okButton") 3 with
  | Some e => e | None => newInlineEditor
  end.

Lemma sample_window_ok : window_ok sample_window.
Proof.
  split; [reflexivity|]. cbn. split; [split_and!; [reflexivity|reflexivity|]|split; [constructor|set_solver]].
  apply (bool_decide_unpack _). reflexivity.
Qed.

Lemma delegate_editor_never_title_witness :
  let e' := activate (setText sample_slot_editor (qs "accept()")) 1 in
  (createEditor sample_classes (Some sample_form) (fun _ => qs "okButton") 3 = Some sample_slot_editor /\
   rtc ie_step (setText sample_slot_editor (qs "accept()")) e') /\
  (ie_current e' = ie_idx e' /\ isTitle (ie_rows e') (ie_current e') = false).
Proof.
  cbv zeta. assert (createEditor sample_classes (Some sample_form) (fun _ => qs "okButton") 3 = Some sample_slot_editor /\
   rtc ie_step (setText sample_slot_editor (qs "accept()")) (activate (setText sample_slot_editor (qs "accept()")) 1))
    as [Hc Hs] by (split; [reflexivity|apply rtc_once, ie_activate; split; [lia|vm_compute; reflexivity]]).
  split; [by split|]. exact (delegate_editor_never_title _ _ _ _ _ _ _ Hc Hs).
Defined.

Lemma editor_select_syncs_view_witness :
  (w_handling sample_window = false /\ w_editor sample_window = Some sample_editor /\
   c_id conB ∈ ids sample_editor /\ selected sample_editor conB = false) /\
  exists w' ed', editor_select id id 2 sample_window conB = Some w' /\ w_editor w' = Some ed' /\
    e_selected ed' = [c_id conB] /\ w_handling w' = false /\
    exists c, indexToConnection (mkConnectionModel (Some ed')) (id (w_current w')) = Some c /\ c_id c = c_id conB.
Proof.
  assert (c_id conB ∈ ids sample_editor) as Hin by (apply (bool_decide_unpack _); reflexivity).
  split; [split_and!; [reflexivity|reflexivity|exact Hin|reflexivity]|].
  apply (editor_select_syncs_view id id (fun i Hv => conj Hv eq_refl) sample_window sample_editor conB); [reflexivity|reflexivity|exact Hin|reflexivity].
Defined.

Lemma view_click_syncs_editor_witness :
  (w_handling sample_window = false /\ w_editor sample_window = Some sample_editor /\
   index_eq (createIndex 1 0) (w_current sample_window) = false /\
   indexToConnection (mkConnectionModel (Some sample_editor)) (id (createIndex 1 0)) = Some conB) /\
  exists w' ed', view_setCurrent id id 2 sample_window (createIndex 1 0) = Some w' /\ w_current w' = createIndex 1 0 /\
    w_handling w' = false /\ w_editor w' = Some ed' /\ e_connections ed' = e_connections sample_editor /\
    c_id conB ∈ e_selected ed' /\ (selected sample_editor conB = false -> e_selected ed' = [c_id conB]) /\
    w_removeEnabled w' = isValidIndex (createIndex 1 0).
Proof.
  split; [split_and!; reflexivity|].
  apply (view_click_syncs_editor id id sample_window sample_editor); reflexivity.
Defined.

Lemma window_reachable_ok_witness :
  let w' := match addConnection sample_window with Some w => w | None => sample_window end in
  (window_ok sample_window /\ rtc (window_step id id) sample_window w') /\
  (window_ok w' /\ is_Some (addConnection w') /\ is_Some (removeConnection w')).
Proof.
  cbv zeta. assert (rtc (window_step id id) sample_window
    (match addConnection sample_window with Some w => w | None => sample_window end)) as Hs
    by (apply rtc_once, ws_add; reflexivity).
  split; [split; [exact sample_window_ok|exact Hs]|].
  exact (window_reachable_ok id id _ _ sample_window_ok Hs).
Defined.
