(* ===== verification/BuddyEditor.v ===== *)
(** Designer's buddy editor
    (src/designer/src/components/buddyeditor/buddyeditor.cpp): the
    connection editor whose connections go from a [QLabel] to the widget
    named by the label's [buddy] property.  The form is a tree of
    widgets ([WTree]) with the properties the editor reads; the editor's
    state is its connections, its selection and its undo stack, whose
    commands set or reset a label's [buddy] property on the form.
    [ConnectionEdit], the base class (not in the repository), is modelled
    from its behaviour: a list of connections with identities, a
    selection, and [addConnection]/[takeConnection]. *)

From S2P Require Import Prelude QtCore.
From stdpp Require Import relations.
From Stdlib Require Strings.String.
Import String.StringSyntax.
Local Open Scope Z_scope.

(** ** The form *)

Inductive WKind := KLabel | KLayoutWidget | KOther.
Inductive FocusPolicy := NoFocus | TabFocus | ClickFocus | StrongFocus | WheelFocus.

#[export] Instance FocusPolicy_eq_dec : EqDecision FocusPolicy.
Proof. solve_decision. Defined.

(** A widget with what the buddy editor asks of it.  [w_focusPolicy] is
    the [focusPolicy] entry of its property sheet: [None] when the sheet
    has none, [Some None] when its value does not convert.  [w_buddy] is
    a label's [buddy] property, [None] when the sheet has none.
    [w_geometry] is [QWidget::geometry()] (x, y, width, height) in the
    parent's coordinates. *)
Record Widget := mkWidget {
  w_id : nat;
  w_kind : WKind;
  w_objectName : QString;
  w_hidden : bool;
  w_managed : bool;
  w_focusPolicy : option (option FocusPolicy);
  w_promoted : bool;
  w_buddy : option QString;
  w_geometry : Z * Z * Z * Z;
  w_direction : LayoutDirection
}.

Scheme All for list.

(** The widget tree: a widget and its children, in [children()] order.
    [WTree_ind] is the nested induction principle: a property of every
    child is available for the parent. *)
Inductive WTree := WNode (w : Widget) (children : list WTree).

Definition root (t : WTree) : Widget := let 'WNode w _ := t in w.

(** [findChildren<QWidget*>()]: the descendants in pre-order, the
    widget itself excluded. *)
Fixpoint descendants (t : WTree) : list Widget :=
  let 'WNode _ cs := t in
  (fix go (l : list WTree) : list Widget :=
     match l with
     | [] => []
     | c :: r => root c :: descendants c ++ go r
     end) cs.

(** [findChild<QWidget*>(name)]: the children first, then each child's
    subtree in turn. *)
Fixpoint findChild (name : QString) (t : WTree) : option Widget :=
  let 'WNode _ cs := t in
  match (fix first (l : list WTree) : option Widget :=
           match l with
           | [] => None
           | c :: r => if bool_decide (w_objectName (root c) = name) then Some (root c) else first r
           end) cs with
  | Some w => Some w
  | None =>
      (fix go (l : list WTree) : option Widget :=
         match l with
         | [] => None
         | c :: r => match findChild name c with Some w => Some w | None => go r end
         end) cs
  end.

(** The subtree of the widget [id], and its parent. *)
Fixpoint subtree (id : nat) (t : WTree) : option WTree :=
  let 'WNode w cs := t in
  if bool_decide (w_id w = id) then Some t
  else (fix go (l : list WTree) : option WTree :=
          match l with
          | [] => None
          | c :: r => match subtree id c with Some s => Some s | None => go r end
          end) cs.

Fixpoint parent_of (id : nat) (t : WTree) : option Widget :=
  let 'WNode w cs := t in
  if existsb (fun c => bool_decide (w_id (root c) = id)) cs then Some w
  else (fix go (l : list WTree) : option Widget :=
          match l with
          | [] => None
          | c :: r => match parent_of id c with Some p => Some p | None => go r end
          end) cs.

Definition lookup_widget (t : WTree) (id : nat) : option Widget :=
  head (filter (fun w => w_id w = id) (root t :: descendants t)).

(** A change of one widget's properties everywhere in the tree. *)
Fixpoint tree_map (f : Widget -> Widget) (t : WTree) : WTree :=
  let 'WNode w cs := t in WNode (f w) (tree_map f <$> cs).

Definition set_buddy_prop (id : nat) (v : QString) (w : Widget) : Widget :=
  if bool_decide (w_id w = id) then
    mkWidget (w_id w) (w_kind w) (w_objectName w) (w_hidden w) (w_managed w) (w_focusPolicy w)
      (w_promoted w) (Some v) (w_geometry w) (w_direction w)
  else w.

Definition is_label (w : Widget) : bool := if w_kind w is KLabel then true else false.

(** [canBeBuddy]: not a layout or a label, not the main container, not
    hidden, and a readable focus policy other than [NoFocus] (or a
    promoted widget). *)
Definition canBeBuddy (mainContainer : nat) (w : Widget) : bool :=
  match w_kind w with
  | KLayoutWidget | KLabel => false
  | KOther =>
      if bool_decide (w_id w = mainContainer) || w_hidden w then false
      else match w_focusPolicy w with
           | None => false
           | Some q => (if q is Some p then bool_decide (p <> NoFocus) else false) || w_promoted w
           end
  end.

(** [buddy(label, core)]: the property's text, empty without one. *)
Definition buddy (label : Widget) : QString :=
  match w_buddy label with Some s => s | None => [] end.

(** ** The editor

    A connection has an identity (the object's address) and its two
    ends, the label and its buddy.  The undo stack records the commands
    pushed; pushing a command runs its [redo], which changes the form. *)
Record BCon := mkBCon { bc_id : nat; bc_source : nat; bc_target : nat }.

Definition con_pair (c : BCon) : nat * nat := (bc_source c, bc_target c).

(** The macro titles [tr("Add %n buddies")], [tr("Remove %n buddies")]
    and [tr("Remove buddies")]. *)
Inductive MacroTitle := AddBuddies (n : Z) | RemoveBuddiesN (n : Z) | RemoveBuddies.

(** [SetPropertyCommand] on [buddy] (text "Add buddy"),
    [ResetPropertyCommand] on [buddy], and a macro. *)
Inductive UndoCmd :=
  | SetBuddy (label : nat) (value : QString)
  | ResetBuddy (label : nat)
  | Macro (title : MacroTitle) (cmds : list UndoCmd).

Inductive EditState := Editing | Connecting | Dragging.

Record BEditor := mkBEditor {
  be_background : option WTree;
  be_mainContainer : nat;
  be_cons : list BCon;
  be_sel : list nat;
  be_next : nat;
  be_updating : bool;
  be_undo : list UndoCmd
}.

Definition set_cons (e : BEditor) (cs : list BCon) (sel : list nat) : BEditor :=
  mkBEditor (be_background e) (be_mainContainer e) cs sel (be_next e) (be_updating e) (be_undo e).
Definition set_background (e : BEditor) (bg : option WTree) : BEditor :=
  mkBEditor bg (be_mainContainer e) (be_cons e) (be_sel e) (be_next e) (be_updating e) (be_undo e).

(** [redo] of a command: the property change on the form. *)
Fixpoint redo (t : WTree) (c : UndoCmd) : WTree :=
  match c with
  | SetBuddy l v => tree_map (set_buddy_prop l v) t
  | ResetBuddy l => tree_map (set_buddy_prop l []) t
  | Macro _ cs => fold_left redo cs t
  end.

(** [undoStack()->push(cmd)]. *)
Definition push (e : BEditor) (c : UndoCmd) : BEditor :=
  mkBEditor (option_map (fun t => redo t c) (be_background e)) (be_mainContainer e) (be_cons e) (be_sel e)
    (be_next e) (be_updating e) (be_undo e ++ [c]).

(** [ConnectionEdit]'s primitives. *)
Definition ce_new (e : BEditor) (src tgt : nat) : BCon * BEditor :=
  (mkBCon (be_next e) src tgt,
   mkBEditor (be_background e) (be_mainContainer e) (be_cons e) (be_sel e) (S (be_next e)) (be_updating e) (be_undo e)).

Definition ce_addConnection (e : BEditor) (c : BCon) : BEditor :=
  if bool_decide (bc_id c ∈ bc_id <$> be_cons e) then e else set_cons e (be_cons e ++ [c]) (be_sel e).

Definition ce_takeConnection (e : BEditor) (id : nat) : BEditor :=
  set_cons e (filter (fun c => bc_id c <> id) (be_cons e)) (filter (fun x => x <> id) (be_sel e)).

Definition ce_setSelected (e : BEditor) (id : nat) (b : bool) : BEditor :=
  if b then (if bool_decide (id ∈ be_sel e) then e else set_cons e (be_cons e) (be_sel e ++ [id]))
  else set_cons e (be_cons e) (filter (fun x => x <> id) (be_sel e)).

Definition ce_selectNone (e : BEditor) : BEditor := set_cons e (be_cons e) [].

Definition ce_clear (e : BEditor) : BEditor := set_cons e [] [].

(** [AddConnectionCommand::redo]: the connection appended and made the
    only selected one. *)
Definition addConnectionCommand (e : BEditor) (c : BCon) : BEditor :=
  ce_setSelected (ce_addConnection (ce_selectNone e) c) (bc_id c) true.

(** [DeleteConnectionsCommand::redo]: each connection deselected and
    removed. *)
Definition deleteConnectionsCommand (e : BEditor) (ids : list nat) : BEditor :=
  fold_left ce_takeConnection ids e.

Definition lookup_in (e : BEditor) (id : nat) : option Widget :=
  bg ← be_background e; lookup_widget bg id.

(** ** [updateBackground] *)

(** The first visible widget named [name] ([find_if] over
    [findChildren<QWidget*>(name)]). *)
Definition visible_named (bg : WTree) (name : QString) : option Widget :=
  head (filter (fun w => w_objectName w = name /\ w_hidden w = false) (descendants bg)).

(** [newList]: one (label, buddy) pair per label whose [buddy] names a
    visible widget. *)
Definition buddy_pair (bg : WTree) (label : Widget) : option (nat * nat) :=
  let name := buddy label in
  if bool_decide (name = []) then None
  else match visible_named bg name with
       | Some t => Some (w_id label, w_id t)
       | None => None
       end.

Definition new_pairs (bg : WTree) : list (nat * nat) :=
  omap (buddy_pair bg) (filter (fun w => is_label w = true) (descendants bg)).

Definition pair_in (p : nat * nat) (ps : list (nat * nat)) : bool := bool_decide (p ∈ ps).

(** The second loop: a pair the editor does not have yet becomes a new
    connection through [AddConnectionCommand]. *)
Definition add_if_new (e : BEditor) (p : nat * nat) : BEditor :=
  if pair_in p (con_pair <$> be_cons e) then e
  else let '(c, e1) := ce_new e p.1 p.2 in addConnectionCommand e1 c.

Definition updateBackground (e : BEditor) : BEditor :=
  if be_updating e then e else
  match be_background e with
  | None => e
  | Some bg =>
      let newList := new_pairs bg in
      let toRemove := filter (fun c => pair_in (con_pair c) newList = false) (be_cons e) in
      let e1 := if bool_decide (toRemove = []) then e else deleteConnectionsCommand e (bc_id <$> toRemove) in
      fold_left add_if_new newList e1
  end.

(** ** [setBackground]

    [ConnectionEdit::clear], the base class's [setBackground] (the new
    background recorded), then one connection per label whose [buddy]
    names a widget [findChild] finds, added by
    [ConnectionEdit::addConnection]. *)
Definition background_label (bg : WTree) (e : BEditor) (label : Widget) : BEditor :=
  let name := buddy label in
  if bool_decide (name = []) then e
  else match findChild name bg with
       | None => e
       | Some target => let '(c, e1) := ce_new e (w_id label) (w_id target) in ce_addConnection e1 c
       end.

Definition setBackground (e : BEditor) (background : option WTree) : BEditor :=
  let e := set_background (ce_clear e) background in
  match background with
  | None => e
  | Some bg => fold_left (background_label bg) (filter (fun w => is_label w = true) (descendants bg)) e
  end.

(** ** Editing: [endConnection], [widgetRemoved], [deleteSelected] *)

(** [createBuddyCommand]: the label's [buddy] set to the buddy's name. *)
Definition createBuddyCommand (label buddy_w : Widget) : UndoCmd := SetBuddy (w_id label) (w_objectName buddy_w).

(** The user drops the connection started on [source] onto [target];
    [None] when either is not a widget of the form ([Q_ASSERT]). *)
Definition endConnection (e : BEditor) (source target : nat) : option BEditor :=
  s ← lookup_in e source;
  t ← lookup_in e target;
  let '(c, e1) := ce_new e source target in
  let e2 := ce_addConnection (ce_selectNone e1) c in
  let e3 := if is_label s then push e2 (createBuddyCommand s t) else e2 in
  Some (ce_setSelected e3 (bc_id c) true).

(** Removing one connection: deselect it, reset its label's [buddy]
    (when the source is a label), take it.  [find] gives the widget
    objects by identity. *)
Definition remove_buddy (find : nat -> option Widget) (e : BEditor) (cmds : list UndoCmd) (c : BCon)
    : BEditor * list UndoCmd :=
  let e1 := ce_setSelected e (bc_id c) false in
  let cmds' := match find (bc_source c) with
               | Some s => if is_label s then cmds ++ [ResetBuddy (bc_source c)] else cmds
               | None => cmds
               end in
  (ce_takeConnection e1 (bc_id c), cmds').

Definition remove_buddies (find : nat -> option Widget) (e : BEditor) (title : MacroTitle) (cs : list BCon)
    : BEditor :=
  let '(e1, cmds) := fold_left (fun acc c => remove_buddy find acc.1 acc.2 c) cs (e, []) in
  push e1 (Macro title cmds).

(** [widgetRemoved(widget)]: [t] is the removed widget with its
    children; every connection with an end in it goes. *)
Definition tree_ids (t : WTree) : list nat := w_id <$> (root t :: descendants t).

Definition widgetRemoved (e : BEditor) (t : WTree) : BEditor :=
  let child_list := tree_ids t in
  let remove_set := filter (fun c => bc_source c ∈ child_list \/ bc_target c ∈ child_list) (be_cons e) in
  let find id := match lookup_in e id with Some w => Some w | None => lookup_widget t id end in
  if bool_decide (remove_set = []) then e else remove_buddies find e RemoveBuddies remove_set.

Definition selection (e : BEditor) : list BCon := filter (fun c => bc_id c ∈ be_sel e) (be_cons e).

Definition deleteSelected (e : BEditor) : BEditor :=
  let sel := selection e in
  if bool_decide (sel = []) then e
  else remove_buddies (lookup_in e) e (RemoveBuddiesN (Z.of_nat (length sel))) sel.

(** ** [widgetAt]

    [ConnectionEdit::widgetAt(pos)] gives the widget under the mouse
    ([hit], a widget of the form); the editor climbs to the first
    managed ancestor, then accepts a label that is not yet the source of
    a connection while editing, and a widget that [canBeBuddy] while
    connecting.  The climb is bounded by the number of widgets. *)
Fixpoint managed_ancestor (bg : WTree) (fuel : nat) (w : Widget) : option Widget :=
  match fuel with
  | O => None
  | S f =>
      if w_managed w then Some w
      else match parent_of (w_id w) bg with Some p => managed_ancestor bg f p | None => None end
  end.

Definition widgetAt (e : BEditor) (state : EditState) (hit : option nat) : option Widget :=
  bg ← be_background e;
  h ← hit;
  w0 ← lookup_widget bg h;
  w ← managed_ancestor bg (S (length (descendants bg))) w0;
  match state with
  | Editing =>
      if negb (is_label w) then None
      else if bool_decide (w_id w ∈ bc_source <$> be_cons e) then None
      else Some w
  | _ => if canBeBuddy (be_mainContainer e) w then Some w else None
  end.

(** ** [findBuddy] and [autoBuddy] *)

Section AutoBuddy.
(** [QWidget::childAt(x, y)] of the widget [parent]: the widget at that
    point, if any. *)
Variable childAt : nat -> Z -> Z -> option nat.

Definition DeltaX : Z := 5.

(** Whether [childAt] hits a managed widget of the form. *)
Definition managed_at (bg : WTree) (parent : nat) (x y : Z) : option Widget :=
  match childAt parent x y with
  | Some c => match lookup_widget bg c with Some w => if w_managed w then Some w else None | None => None end
  | None => None
  end.

(** [for (x = start; x < xEnd; x += DeltaX)] *)
Fixpoint scan_right (bg : WTree) (parent : nat) (x xEnd y : Z) (fuel : nat) : option Widget :=
  match fuel with
  | O => None
  | S f =>
      if x <? xEnd then
        match managed_at bg parent x y with
        | Some w => Some w
        | None => scan_right bg parent (x + DeltaX) xEnd y f
        end
      else None
  end.

(** [for (x = start; x >= 0; x -= DeltaX)] *)
Fixpoint scan_left (bg : WTree) (parent : nat) (x y : Z) (fuel : nat) : option Widget :=
  match fuel with
  | O => None
  | S f =>
      if 0 <=? x then
        match managed_at bg parent x y with
        | Some w => Some w
        | None => scan_left bg parent (x - DeltaX) y f
        end
      else None
  end.

(** Each turn moves [x] by [DeltaX >= 1], so these many turns reach the
    end of the loop. *)
Definition right_fuel (x xEnd : Z) : nat := S (Z.to_nat (xEnd - x)).
Definition left_fuel (x : Z) : nat := S (S (Z.to_nat x)).

(** [QRect::right()] and [QRect::center().y()] ([int] division). *)
Definition rect_right (g : Z * Z * Z * Z) : Z := let '(x, _, w, _) := g in x + w - 1.
Definition rect_center_y (g : Z * Z * Z * Z) : Z := let '(_, y, _, h) := g in Z.quot (y + (y + h - 1)) 2.
Definition rect_x (g : Z * Z * Z * Z) : Z := let '(x, _, _, _) := g in x.
Definition rect_width (g : Z * Z * Z * Z) : Z := let '(_, _, w, _) := g in w.

(** The first managed widget met walking from the label along its
    parent's horizontal line through its centre, away from the label's
    text direction. *)
Definition neighbour (bg : WTree) (l p : Widget) : option Widget :=
  let y := rect_center_y (w_geometry l) in
  match w_direction l with
  | LayoutDirectionAuto | LeftToRight =>
      let xEnd := rect_width (w_geometry p) in
      let x0 := rect_right (w_geometry l) + 1 in
      scan_right bg (w_id p) x0 xEnd y (right_fuel x0 xEnd)
  | RightToLeft =>
      let x0 := rect_x (w_geometry l) - 1 in
      scan_left bg (w_id p) x0 y (left_fuel x0)
  end.

Definition findBuddy (bg : WTree) (mainContainer : nat) (l : Widget) (existingBuddies : list nat) : option Widget :=
  p ← parent_of (w_id l) bg;
  c ← neighbour bg l p;
  if bool_decide (w_id c ∉ existingBuddies) && canBeBuddy mainContainer c then Some c else None.

(** The loop over the labels: a managed label without buddy gets the
    buddy [findBuddy] proposes, which then counts as used. *)
Definition auto_step (bg : WTree) (mainContainer : nat)
    (acc : list (Widget * Widget) * list nat) (l : Widget) : list (Widget * Widget) * list nat :=
  let '(pairs, used) := acc in
  if w_managed l && bool_decide (buddy l = []) then
    match findBuddy bg mainContainer l used with
    | Some b => (pairs ++ [(l, b)], used ++ [w_id b])
    | None => (pairs, used)
    end
  else (pairs, used).

Definition auto_pairs (bg : WTree) (mainContainer : nat) (used : list nat) : list (Widget * Widget) :=
  (fold_left (auto_step bg mainContainer) (filter (fun w => is_label w = true) (descendants bg)) ([], used)).1.

Definition autoBuddy (e : BEditor) : BEditor :=
  match be_background e with
  | None => e
  | Some bg =>
      if bool_decide (filter (fun w => is_label w = true) (descendants bg) = []) then e else
      let pairs := auto_pairs bg (be_mainContainer e) (bc_target <$> be_cons e) in
      if bool_decide (pairs = []) then e else
      let e1 := push e (Macro (AddBuddies (Z.of_nat (length pairs)))
                         ((fun lb => createBuddyCommand lb.1 lb.2) <$> pairs)) in
      let buddies := (fun lb => w_id lb.2) <$> pairs in
      fold_left (fun e c => ce_setSelected e (bc_id c) (bool_decide (bc_target c ∈ buddies))) (be_cons e1) e1
  end.

(** [createContextMenu]: "Set automatically", connected to [autoBuddy],
    and a separator before the entries of [ConnectionEdit]'s menu. *)
Inductive BuddyMenuEntry := SetAutomatically | MenuSeparator | BaseEntry (n : nat).

Definition createContextMenu (base : list BuddyMenuEntry) : list BuddyMenuEntry :=
  SetAutomatically :: MenuSeparator :: base.

(** A menu entry triggered; [baseAction] is what [ConnectionEdit]'s
    entries do. *)
Definition triggerMenuEntry (baseAction : nat -> BEditor -> BEditor) (e : BEditor) (m : BuddyMenuEntry) : BEditor :=
  match m with
  | SetAutomatically => autoBuddy e
  | MenuSeparator => e
  | BaseEntry n => baseAction n e
  end.
End AutoBuddy.

(** ** Lemmas on the editor's primitives *)

(** The connections have distinct identities, all below the next one
    [new] hands out. *)
Definition be_wf (e : BEditor) : Prop :=
  NoDup (bc_id <$> be_cons e) /\ Forall (fun c => (bc_id c < be_next e)%nat) (be_cons e).

Definition pairs_of (e : BEditor) : list (nat * nat) := con_pair <$> be_cons e.

Lemma take_elem ids e c :
  c ∈ be_cons (fold_left ce_takeConnection ids e) <-> c ∈ be_cons e /\ bc_id c ∉ ids.
Proof.
  revert e. induction ids as [|x ids IH]; intros e; cbn; [set_solver|].
  rewrite IH. cbn. rewrite list_elem_of_filter. set_solver.
Qed.

Lemma take_fields ids e :
  be_next (fold_left ce_takeConnection ids e) = be_next e /\
  be_background (fold_left ce_takeConnection ids e) = be_background e /\
  be_updating (fold_left ce_takeConnection ids e) = be_updating e.
Proof.
  revert e. induction ids as [|x ids IH]; intros e; cbn [fold_left]; [done|].
  destruct (IH (ce_takeConnection e x)) as (-> & -> & ->). done.
Qed.

Lemma NoDup_fmap_filter {A B} (f : A -> B) (P : A -> Prop) `{forall x, Decision (P x)} (l : list A) :
  NoDup (f <$> l) -> NoDup (f <$> filter P l).
Proof. intros Hnd. eapply sublist_NoDup; [exact Hnd|]. apply fmap_sublist, sublist_filter. Qed.

Lemma take_wf ids e : be_wf e -> be_wf (fold_left ce_takeConnection ids e).
Proof.
  revert e. induction ids as [|x ids IH]; intros e [Hnd Hlt]; cbn; [done|]. apply IH. split; cbn.
  - by apply NoDup_fmap_filter.
  - rewrite Forall_forall in *. intros c Hc. apply list_elem_of_filter in Hc. naive_solver.
Qed.

Lemma setSelected_fields e id b :
  be_cons (ce_setSelected e id b) = be_cons e /\ be_next (ce_setSelected e id b) = be_next e /\
  be_background (ce_setSelected e id b) = be_background e /\
  be_updating (ce_setSelected e id b) = be_updating e /\ be_undo (ce_setSelected e id b) = be_undo e.
Proof. unfold ce_setSelected. by repeat case_match. Qed.

Lemma fresh_not_in e : be_wf e -> be_next e ∉ bc_id <$> be_cons e.
Proof.
  intros [_ Hlt] Hin. apply list_elem_of_fmap in Hin as (c & Hid & Hc).
  rewrite Forall_forall in Hlt. specialize (Hlt c Hc). lia.
Qed.

Lemma wf_append_fresh (cs : list BCon) (n : nat) (c : BCon) :
  NoDup (bc_id <$> cs) -> Forall (fun c => (bc_id c < n)%nat) cs -> bc_id c = n ->
  NoDup (bc_id <$> cs ++ [c]) /\ Forall (fun c => (bc_id c < S n)%nat) (cs ++ [c]).
Proof.
  intros Hnd Hlt Hc. split.
  - rewrite fmap_app. apply NoDup_app. split_and!; [done| |by apply NoDup_singleton].
    intros x Hx Hx'. apply list_elem_of_singleton in Hx' as ->. rewrite Hc in Hx.
    apply list_elem_of_fmap in Hx as (c' & Hid & Hc'). rewrite Forall_forall in Hlt.
    specialize (Hlt c' Hc'). lia.
  - apply Forall_app. split; [|constructor; [lia|done]].
    eapply Forall_impl; [exact Hlt|]. intros c' Hc'. cbn in *. lia.
Qed.

(** [AddConnectionCommand] with a new connection: appended, fresh. *)
Lemma add_fresh e src tgt :
  be_wf e ->
  let '(c, e1) := ce_new e src tgt in
  be_cons (addConnectionCommand e1 c) = be_cons e ++ [c] /\ be_wf (addConnectionCommand e1 c) /\
  be_background (addConnectionCommand e1 c) = be_background e /\
  be_updating (addConnectionCommand e1 c) = be_updating e /\ bc_source c = src /\ bc_target c = tgt.
Proof.
  intros Hwf. pose proof (fresh_not_in e Hwf) as Hfresh. destruct Hwf as [Hnd Hlt].
  unfold addConnectionCommand, ce_addConnection, ce_new; cbn.
  rewrite (bool_decide_false (be_next e ∈ bc_id <$> be_cons e)) by exact Hfresh. cbn.
  rewrite (bool_decide_false (be_next e ∈ [])) by apply not_elem_of_nil. cbn.
  split_and!; try done. unfold be_wf, set_cons; cbn. by apply wf_append_fresh.
Qed.

Lemma add_if_new_spec e p :
  be_wf e ->
  be_wf (add_if_new e p) /\ (forall q, q ∈ pairs_of (add_if_new e p) <-> q ∈ pairs_of e \/ q = p) /\
  be_background (add_if_new e p) = be_background e /\ be_updating (add_if_new e p) = be_updating e.
Proof.
  intros Hwf. unfold add_if_new, pair_in. case_bool_decide as Hp.
  - split_and!; try done. intros q. split; [by left|]. intros [?| ->]; done.
  - pose proof (add_fresh e p.1 p.2 Hwf) as Hadd. destruct (ce_new e p.1 p.2) as [c e1] eqn:E.
    destruct Hadd as (Hc & Hwf' & Hbg & Hup & Hs & Ht). split_and!; try done.
    assert (con_pair c = p) as Hcp by (unfold con_pair; rewrite Hs, Ht; by destruct p).
    intros q. unfold pairs_of. rewrite Hc, fmap_app. cbn [fmap list_fmap]. rewrite Hcp. set_solver.
Qed.

Lemma fold_add_if_new_spec ps e :
  be_wf e ->
  be_wf (fold_left add_if_new ps e) /\
  (forall q, q ∈ pairs_of (fold_left add_if_new ps e) <-> q ∈ pairs_of e \/ q ∈ ps) /\
  be_background (fold_left add_if_new ps e) = be_background e /\
  be_updating (fold_left add_if_new ps e) = be_updating e.
Proof.
  revert e. induction ps as [|p ps IH]; intros e Hwf; cbn; [split_and!; set_solver|].
  destruct (add_if_new_spec e p Hwf) as (Hwf1 & Hq1 & Hbg1 & Hup1).
  destruct (IH _ Hwf1) as (Hwf2 & Hq2 & Hbg2 & Hup2). split_and!; [done| |congruence|congruence].
  intros q. rewrite Hq2, Hq1. set_solver.
Qed.

Lemma NoDup_fmap_inj_on {A B} (f : A -> B) (l : list A) x y :
  NoDup (f <$> l) -> x ∈ l -> y ∈ l -> f x = f y -> x = y.
Proof.
  induction l as [|z l IH]; intros Hnd Hx Hy E; [by apply elem_of_nil in Hx|].
  cbn in Hnd. apply NoDup_cons in Hnd as [Hn Hnd].
  apply elem_of_cons in Hx as [->|Hx], Hy as [->|Hy]; [done| | |by apply IH].
  - destruct Hn. rewrite E. by apply list_elem_of_fmap_2.
  - destruct Hn. rewrite <- E. by apply list_elem_of_fmap_2.
Qed.

(** The first loop of [updateBackground]: the connections whose pair is
    not in [newList] go, the others stay. *)
Lemma remove_stale_spec e (ps : list (nat * nat)) :
  be_wf e ->
  let toRemove := filter (fun c => pair_in (con_pair c) ps = false) (be_cons e) in
  let e1 := if bool_decide (toRemove = []) then e else deleteConnectionsCommand e (bc_id <$> toRemove) in
  be_wf e1 /\ be_background e1 = be_background e /\ be_updating e1 = be_updating e /\
  (forall p, p ∈ pairs_of e1 <-> p ∈ pairs_of e /\ p ∈ ps).
Proof.
  intros Hwf toRemove e1. subst e1.
  assert (forall c, c ∈ be_cons e -> c ∈ toRemove <-> con_pair c ∉ ps) as Hrem.
  { intros c Hc. subst toRemove. rewrite list_elem_of_filter. unfold pair_in.
    rewrite bool_decide_eq_false. tauto. }
  unfold pairs_of. case_bool_decide as Hnil.
  - split_and!; try done. intros p. rewrite list_elem_of_fmap. split; [|naive_solver].
    intros (c & -> & Hc). split; [by exists c|].
    destruct (decide (con_pair c ∈ ps)) as [|Hn]; [done|].
    apply Hrem in Hn; [|done]. rewrite Hnil in Hn. by apply elem_of_nil in Hn.
  - unfold deleteConnectionsCommand. destruct (take_fields (bc_id <$> toRemove) e) as (_ & Hbg & Hup).
    split_and!; [by apply take_wf|done|done|]. intros p. rewrite !list_elem_of_fmap.
    setoid_rewrite take_elem. split.
    + intros (c & -> & Hc & Hid). split; [by exists c|]. destruct (decide (con_pair c ∈ ps)); [done|].
      destruct Hid. apply list_elem_of_fmap_2. by apply Hrem.
    + intros [(c & -> & Hc) Hp]. exists c. split_and!; [done|done|]. intros Hid.
      apply list_elem_of_fmap in Hid as (c' & Hid & Hc').
      assert (c' ∈ be_cons e) as Hc'' by (subst toRemove; apply list_elem_of_filter in Hc'; tauto).
      rewrite (NoDup_fmap_inj_on bc_id (be_cons e) c c') in Hp by (apply Hwf || done).
      by apply (Hrem c' Hc'') in Hc'.
Qed.

(** ** The connections follow the [buddy] properties *)

Lemma updateBackground_spec (e : BEditor) (bg : WTree) :
  be_wf e -> be_updating e = false -> be_background e = Some bg ->
  be_wf (updateBackground e) /\
  (forall p, p ∈ pairs_of (updateBackground e) <-> p ∈ new_pairs bg).
Proof.
  intros Hwf Hup Hbg. unfold updateBackground. rewrite Hup, Hbg.
  destruct (remove_stale_spec e (new_pairs bg) Hwf) as (Hwf1 & _ & _ & Hp1).
  destruct (fold_add_if_new_spec (new_pairs bg) _ Hwf1) as (Hwf2 & Hp2 & _).
  split; [done|]. intros p. rewrite Hp2, Hp1. tauto.
Qed.

(** C6: [updateBackground] makes the editor's connections the pairs
    the form's [buddy] properties name: a (label, widget) pair is a
    connection afterwards exactly when the label's [buddy] names the
    widget, the first visible one of that name; the connections keep
    distinct identities. *)
Theorem updateBackground_pairs (e : BEditor) (bg : WTree) :
  be_wf e -> be_updating e = false -> be_background e = Some bg ->
  be_wf (updateBackground e) /\
  (forall p, p ∈ pairs_of (updateBackground e) <-> p ∈ new_pairs bg).
Proof. apply updateBackground_spec. Qed.

Lemma filter_none {A} (P : A -> Prop) `{forall x, Decision (P x)} (l : list A) :
  (forall x, x ∈ l -> ~ P x) -> filter P l = [].
Proof.
  induction l as [|x l IH]; intros Hn; [done|]. rewrite filter_cons, decide_False by set_solver.
  apply IH. set_solver.
Qed.

Lemma fold_add_if_new_present ps e :
  (forall p, p ∈ ps -> p ∈ pairs_of e) -> fold_left add_if_new ps e = e.
Proof.
  revert e. induction ps as [|p ps IH]; intros e Hin; cbn; [done|].
  unfold add_if_new at 2, pair_in. rewrite bool_decide_true by set_solver. apply IH. set_solver.
Qed.

(** [updateBackground] is idempotent: run again on an unchanged
    form it changes nothing, neither the connections nor the selection
    nor the undo stack. *)
Theorem updateBackground_idempotent (e : BEditor) :
  be_wf e -> updateBackground (updateBackground e) = updateBackground e.
Proof.
  intros Hwf. destruct (be_updating e) eqn:Hup; [by unfold updateBackground; rewrite Hup, Hup|].
  destruct (be_background e) as [bg|] eqn:Hbg; [|by unfold updateBackground; rewrite Hup, Hbg, Hup, Hbg].
  destruct (updateBackground_spec e bg Hwf Hup Hbg) as [_ Hp].
  assert (be_updating (updateBackground e) = false /\ be_background (updateBackground e) = Some bg) as [Hup' Hbg'].
  { unfold updateBackground. rewrite Hup, Hbg.
    destruct (remove_stale_spec e (new_pairs bg) Hwf) as (Hwf1 & Hbg1 & Hup1 & _).
    destruct (fold_add_if_new_spec (new_pairs bg) _ Hwf1) as (_ & _ & -> & ->). by rewrite Hbg1, Hup1. }
  unfold updateBackground at 1. rewrite Hup', Hbg'.
  rewrite filter_none, bool_decide_true by (done || (intros c Hc; unfold pair_in;
    rewrite bool_decide_eq_false, <- Hp; intros []; by apply list_elem_of_fmap_2)).
  apply fold_add_if_new_present. intros p. by rewrite Hp.
Qed.

(** ** Removing buddies *)

(** The reset command [remove_buddy] pushes for a connection. *)
Definition reset_cmd (find : nat -> option Widget) (c : BCon) : option UndoCmd :=
  match find (bc_source c) with
  | Some s => if is_label s then Some (ResetBuddy (bc_source c)) else None
  | None => None
  end.

Lemma remove_fold_spec find cs e cmds :
  let r := fold_left (fun acc c => remove_buddy find acc.1 acc.2 c) cs (e, cmds) in
  (forall c, c ∈ be_cons r.1 <-> c ∈ be_cons e /\ bc_id c ∉ bc_id <$> cs) /\
  (forall x, x ∈ be_sel r.1 <-> x ∈ be_sel e /\ x ∉ bc_id <$> cs) /\
  r.2 = cmds ++ omap (reset_cmd find) cs /\
  be_background r.1 = be_background e /\ be_undo r.1 = be_undo e.
Proof.
  revert e cmds. induction cs as [|c cs IH]; intros e cmds; cbn [fold_left].
  - cbn. rewrite app_nil_r. split_and!; set_solver.
  - destruct (IH (remove_buddy find e cmds c).1 (remove_buddy find e cmds c).2) as (Hc & Hs & Hcmd & Hbg & Hu).
    unfold remove_buddy in *. cbn -[omap] in *. split_and!.
    + intros c'. rewrite Hc. cbn. rewrite list_elem_of_filter. set_solver.
    + intros x. rewrite Hs. cbn. rewrite !list_elem_of_filter. set_solver.
    + rewrite Hcmd. cbn. unfold reset_cmd. repeat case_match; by rewrite <- ?app_assoc.
    + done.
    + done.
Qed.

Lemma remove_buddies_spec find e title cs :
  (forall c, c ∈ be_cons (remove_buddies find e title cs) <-> c ∈ be_cons e /\ bc_id c ∉ bc_id <$> cs) /\
  (forall x, x ∈ be_sel (remove_buddies find e title cs) <-> x ∈ be_sel e /\ x ∉ bc_id <$> cs) /\
  be_undo (remove_buddies find e title cs) = be_undo e ++ [Macro title (omap (reset_cmd find) cs)].
Proof.
  unfold remove_buddies. destruct (remove_fold_spec find cs e []) as (Hc & Hs & Hcmd & _ & Hu).
  destruct (fold_left _ cs (e, [])) as [e1 cmds]. cbn in *. by rewrite Hu, Hcmd.
Qed.

Lemma selection_ids e c :
  c ∈ be_cons e -> bc_id c ∈ bc_id <$> selection e <-> bc_id c ∈ be_sel e.
Proof.
  intros Hc. unfold selection. rewrite list_elem_of_fmap. split.
  - intros (c' & Hid & Hc'). apply list_elem_of_filter in Hc' as [Hs _]. by rewrite Hid.
  - intros Hs. exists c. split; [done|]. by apply list_elem_of_filter.
Qed.

(** [deleteSelected] removes exactly the selected connections,
    leaves nothing selected when the selection is made of connections of
    the editor, and pushes one macro "Remove %n buddies" with [n] the
    number of selected connections, holding a reset of the [buddy]
    property of each of their labels. *)
Theorem deleteSelected_spec (e : BEditor) :
  (forall c, c ∈ be_cons (deleteSelected e) <-> c ∈ be_cons e /\ bc_id c ∉ be_sel e) /\
  (be_sel e ⊆ bc_id <$> be_cons e -> be_sel (deleteSelected e) = []) /\
  (selection e <> [] ->
   be_undo (deleteSelected e) =
   be_undo e ++ [Macro (RemoveBuddiesN (Z.of_nat (length (selection e))))
                       (omap (reset_cmd (lookup_in e)) (selection e))]).
Proof.
  unfold deleteSelected. case_bool_decide as Hnil.
  - split_and!; [|intros Hsub|done].
    + intros c. split; [|tauto]. intros Hc. split; [done|]. rewrite <- selection_ids by done.
      rewrite Hnil. apply not_elem_of_nil.
    + apply elem_of_nil_inv. intros x Hx. destruct (list_elem_of_fmap_1 _ _ _ (Hsub x Hx)) as (c & -> & Hc).
      apply (selection_ids e c Hc) in Hx. rewrite Hnil in Hx. by apply not_elem_of_nil in Hx.
  - destruct (remove_buddies_spec (lookup_in e) e (RemoveBuddiesN (Z.of_nat (length (selection e)))) (selection e))
      as (Hc & Hs & Hu). split_and!; [|intros Hsub|done].
    + intros c. rewrite Hc. split; intros [Hc' Hn]; split; try done; by rewrite selection_ids in *.
    + apply elem_of_nil_inv. intros x. rewrite Hs. intros [Hx Hn]. apply Hn.
      destruct (list_elem_of_fmap_1 _ _ _ (Hsub x Hx)) as (c & -> & Hc'). by apply selection_ids.
Qed.

(** C23: after [widgetRemoved], no connection has an end in the removed
    widget or in one of its children, and every other connection stays. *)
Theorem widgetRemoved_spec (e : BEditor) (t : WTree) :
  be_wf e ->
  forall c, c ∈ be_cons (widgetRemoved e t) <->
            c ∈ be_cons e /\ bc_source c ∉ tree_ids t /\ bc_target c ∉ tree_ids t.
Proof.
  intros [Hnd _] c. unfold widgetRemoved.
  set (touch := fun c => bc_source c ∈ tree_ids t \/ bc_target c ∈ tree_ids t).
  assert (forall c, c ∈ be_cons e -> c ∈ filter touch (be_cons e) <-> touch c) as Hin.
  { intros c' Hc'. rewrite list_elem_of_filter. tauto. }
  case_bool_decide as Hnil.
  - split; [|tauto]. intros Hc. split; [done|]. destruct (decide (touch c)) as [Ht|Ht]; [|unfold touch in Ht; tauto].
    apply Hin in Ht; [|done]. fold touch in Hnil. rewrite Hnil in Ht. by apply elem_of_nil in Ht.
  - destruct (remove_buddies_spec (fun id => match lookup_in e id with Some w => Some w | None => lookup_widget t id end)
      e RemoveBuddies (filter touch (be_cons e))) as (Hc & _ & _).
    rewrite Hc. split.
    + intros [Hc' Hn]. split; [done|]. destruct (decide (touch c)) as [Ht|Ht]; [|unfold touch in Ht; tauto].
      destruct Hn. apply list_elem_of_fmap_2. by apply Hin.
    + intros (Hc' & Hs & Ht). split; [done|]. intros Hid.
      apply list_elem_of_fmap in Hid as (c' & Hid & Hc'').
      apply list_elem_of_filter in Hc'' as [Htc' Hc''].
      rewrite (NoDup_fmap_inj_on bc_id (be_cons e) c c') in Hs, Ht by done.
      unfold touch in Htc'. tauto.
Qed.

(** ** [autoBuddy] *)

Lemma findBuddy_ok childAt bg mainContainer l ex b :
  findBuddy childAt bg mainContainer l ex = Some b -> (w_id b ∉ ex) /\ canBeBuddy mainContainer b = true.
Proof.
  unfold findBuddy. intros E. destruct (parent_of (w_id l) bg) as [p|]; cbn [mbind option_bind] in E; [|done].
  destruct (neighbour childAt bg l p) as [c|]; cbn [mbind option_bind] in E; [|done].
  destruct (bool_decide (w_id c ∉ ex) && canBeBuddy mainContainer c) eqn:H; [|done].
  injection E as <-. apply andb_true_iff in H as [Hn Hc].
  split; [by apply bool_decide_eq_true in Hn|done].
Qed.

Definition buddy_ids (ps : list (Widget * Widget)) : list nat := (fun lb => w_id lb.2) <$> ps.

(** What every proposed pair satisfies. *)
Definition auto_ok (mainContainer : nat) (labels : list Widget) (used0 : list nat) (lb : Widget * Widget) : Prop :=
  lb.1 ∈ labels /\ w_managed lb.1 = true /\ buddy lb.1 = [] /\
  canBeBuddy mainContainer lb.2 = true /\ w_id lb.2 ∉ used0.

Lemma auto_fold_spec childAt bg mainContainer labels used0 (L : list Widget) ps used :
  L ⊆ labels -> used = used0 ++ buddy_ids ps -> NoDup (buddy_ids ps) ->
  Forall (auto_ok mainContainer labels used0) ps ->
  let r := fold_left (auto_step childAt bg mainContainer) L (ps, used) in
  r.2 = used0 ++ buddy_ids r.1 /\ NoDup (buddy_ids r.1) /\ Forall (auto_ok mainContainer labels used0) r.1.
Proof.
  revert ps used. induction L as [|l L IH]; intros ps used HL -> Hnd Hok; cbn [fold_left]; [done|].
  assert (let r := auto_step childAt bg mainContainer (ps, used0 ++ buddy_ids ps) l in
          r.2 = used0 ++ buddy_ids r.1 /\ NoDup (buddy_ids r.1) /\ Forall (auto_ok mainContainer labels used0) r.1)
    as Hstep.
  { unfold auto_step. destruct (w_managed l && bool_decide (buddy l = [])) eqn:Hl; [|done].
    destruct (findBuddy childAt bg mainContainer l (used0 ++ buddy_ids ps)) as [b|] eqn:Hb; [|done].
    apply findBuddy_ok in Hb as [Hn Hcb]. apply andb_true_iff in Hl as [Hm Hbd]. cbn.
    unfold buddy_ids in *. rewrite fmap_app. split_and!.
    - by rewrite app_assoc.
    - apply NoDup_app. split_and!; [done| |apply NoDup_singleton].
      intros x Hx. cbn. rewrite list_elem_of_singleton. intros ->. set_solver.
    - apply Forall_app. split; [done|]. constructor; [|done].
      split_and!; [set_solver|done|by apply bool_decide_eq_true in Hbd|done|set_solver]. }
  destruct (auto_step childAt bg mainContainer (ps, used0 ++ buddy_ids ps) l) as [ps' used'].
  cbn in Hstep. destruct Hstep as (-> & Hnd' & Hok'). apply IH; [set_solver|done|done|done].
Qed.

(** The buddies [autoBuddy] proposes are sound: each goes to a
    managed label of the form without a buddy, each buddy [canBeBuddy]
    and is not the target of an existing connection, and no widget is
    proposed twice. *)
Theorem auto_pairs_spec (childAt : nat -> Z -> Z -> option nat) (bg : WTree) (mainContainer : nat)
    (used : list nat) :
  NoDup (buddy_ids (auto_pairs childAt bg mainContainer used)) /\
  forall l b, (l, b) ∈ auto_pairs childAt bg mainContainer used ->
    l ∈ descendants bg /\ is_label l = true /\ w_managed l = true /\ buddy l = [] /\
    canBeBuddy mainContainer b = true /\ w_id b ∉ used.
Proof.
  set (labels := filter (fun w => is_label w = true) (descendants bg)).
  destruct (auto_fold_spec childAt bg mainContainer labels used labels [] used) as (_ & Hnd & Hok);
    [done|by rewrite app_nil_r|constructor|constructor|].
  unfold auto_pairs. fold labels. split; [done|]. intros l b Hlb.
  rewrite Forall_forall in Hok. destruct (Hok _ Hlb) as (Hl & Hm & Hb & Hc & Hn); cbn in *.
  apply list_elem_of_filter in Hl as [Hlab Hl]. done.
Qed.

(** ** The geometric search ends and stays inside the parent *)

Section Scan.
Variable childAt : nat -> Z -> Z -> option nat.
Variable bg : WTree.
Variable parent : nat.
Variable y : Z.

Lemma scan_right_fuel x xEnd n m :
  (Z.to_nat (xEnd - x) < n)%nat -> (Z.to_nat (xEnd - x) < m)%nat ->
  scan_right childAt bg parent x xEnd y n = scan_right childAt bg parent x xEnd y m.
Proof.
  revert x m. induction n as [|n IH]; intros x [|m] Hn Hm; try lia. cbn.
  destruct (Z.ltb_spec x xEnd); [|done]. case_match; [done|].
  apply IH; unfold DeltaX; lia.
Qed.

Lemma scan_left_fuel x n m :
  (Z.to_nat (x + 1) < n)%nat -> (Z.to_nat (x + 1) < m)%nat ->
  scan_left childAt bg parent x y n = scan_left childAt bg parent x y m.
Proof.
  revert x m. induction n as [|n IH]; intros x [|m] Hn Hm; try lia. cbn.
  destruct (Z.leb_spec 0 x); [|done]. case_match; [done|].
  apply IH; unfold DeltaX; lia.
Qed.

Lemma scan_right_found x xEnd n w :
  scan_right childAt bg parent x xEnd y n = Some w ->
  exists x', x <= x' < xEnd /\ (x' - x) mod DeltaX = 0 /\ managed_at childAt bg parent x' y = Some w.
Proof.
  revert x. induction n as [|n IH]; intros x; cbn; [done|].
  destruct (Z.ltb_spec x xEnd); [|done]. destruct (managed_at _ _ _ _ _) eqn:E.
  - intros [= ->]. exists x. split_and!; [lia|lia|by rewrite Z.sub_diag|done].
  - intros Hs. destruct (IH _ Hs) as (x' & Hx' & Hm & Hf). exists x'. split_and!; [unfold DeltaX in *; lia..| |done].
    replace (x' - x) with (x' - (x + DeltaX) + 1 * DeltaX) by lia. by rewrite Z_mod_plus_full.
Qed.

Lemma scan_left_found x n w :
  scan_left childAt bg parent x y n = Some w ->
  exists x', 0 <= x' <= x /\ (x - x') mod DeltaX = 0 /\ managed_at childAt bg parent x' y = Some w.
Proof.
  revert x. induction n as [|n IH]; intros x; cbn; [done|].
  destruct (Z.leb_spec 0 x); [|done]. destruct (managed_at _ _ _ _ _) eqn:E.
  - intros [= ->]. exists x. split_and!; [lia|lia|by rewrite Z.sub_diag|done].
  - intros Hs. destruct (IH _ Hs) as (x' & Hx' & Hm & Hf). exists x'. split_and!; [unfold DeltaX in *; lia..| |done].
    replace (x - x') with ((x - DeltaX) - x' + 1 * DeltaX) by lia. by rewrite Z_mod_plus_full.
Qed.
End Scan.

(** [findBuddy]'s walks end: the fuel [right_fuel] and [left_fuel]
    covers every turn of the two [for] loops, so more fuel gives the same
    result. *)
Theorem findBuddy_scans_terminate (childAt : nat -> Z -> Z -> option nat) (bg : WTree) (parent : nat)
    (x xEnd y : Z) (k : nat) :
  scan_right childAt bg parent x xEnd y (right_fuel x xEnd + k) = scan_right childAt bg parent x xEnd y (right_fuel x xEnd) /\
  scan_left childAt bg parent x y (left_fuel x + k) = scan_left childAt bg parent x y (left_fuel x).
Proof.
  unfold right_fuel, left_fuel. split; [apply scan_right_fuel|apply scan_left_fuel]; lia.
Qed.

(** The buddy [findBuddy] proposes is the widget [childAt] finds at
    a point of the label's centre line inside its parent: right of the
    label and left of the parent's width for a left-to-right label, left
    of the label and at a non-negative [x] for a right-to-left one, on
    the [DeltaX] grid. *)
Theorem findBuddy_inside (childAt : nat -> Z -> Z -> option nat) (bg : WTree) (mainContainer : nat)
    (l : Widget) (existing : list nat) (b : Widget) :
  findBuddy childAt bg mainContainer l existing = Some b ->
  exists p x', parent_of (w_id l) bg = Some p /\
    managed_at childAt bg (w_id p) x' (rect_center_y (w_geometry l)) = Some b /\
    (w_direction l <> RightToLeft ->
       rect_right (w_geometry l) < x' < rect_width (w_geometry p) /\
       (x' - (rect_right (w_geometry l) + 1)) mod DeltaX = 0) /\
    (w_direction l = RightToLeft ->
       0 <= x' < rect_x (w_geometry l) /\ (rect_x (w_geometry l) - 1 - x') mod DeltaX = 0).
Proof.
  unfold findBuddy. intros E. destruct (parent_of (w_id l) bg) as [p|]; cbn [mbind option_bind] in E; [|done].
  destruct (neighbour childAt bg l p) as [c|] eqn:Hn; cbn [mbind option_bind] in E; [|done].
  destruct (_ && _); [|done]. injection E as <-. exists p. unfold neighbour in Hn.
  destruct (w_direction l) eqn:Hd;
    [apply scan_right_found in Hn|apply scan_left_found in Hn|apply scan_right_found in Hn];
    destruct Hn as (x' & Hx & Hm & Hf); exists x'; split_and!; try done; intros H; try done; split; lia.
Qed.

(** ** A buddy the user draws survives the editor's refresh *)

Lemma list_all_cons_inv {A} (P : A -> Prop) x l : list_all A P (x :: l) -> (P x * list_all A P l)%type.
Proof. intros H. by inversion H. Qed.

Lemma root_tree_map f t : root (tree_map f t) = f (root t).
Proof. by destruct t. Qed.

Lemma descendants_tree_map f t : descendants (tree_map f t) = f <$> descendants t.
Proof.
  induction t as [w cs IH] using WTree_ind. cbn.
  induction cs as [|c cs IHcs]; cbn; [done|]. destruct (list_all_cons_inv _ _ _ IH) as [Hc Hcs].
  rewrite root_tree_map, Hc, (IHcs Hcs), fmap_app. done.
Qed.

Lemma filter_fmap_same {A} (f : A -> A) (P : A -> Prop) `{forall x, Decision (P x)} (l : list A) :
  (forall x, P (f x) <-> P x) -> filter P (f <$> l) = f <$> filter P l.
Proof.
  intros HP. induction l as [|x l IH]; [done|]. rewrite fmap_cons, !filter_cons.
  destruct (decide (P x)) as [Hx|Hx].
  - rewrite !decide_True by (rewrite ?HP; done). by rewrite fmap_cons, IH.
  - rewrite !decide_False by (rewrite ?HP; done). exact IH.
Qed.

(** Setting a [buddy] property keeps every widget's identity, class,
    name and visibility. *)
Lemma set_buddy_prop_keeps id v w :
  w_id (set_buddy_prop id v w) = w_id w /\ w_kind (set_buddy_prop id v w) = w_kind w /\
  w_objectName (set_buddy_prop id v w) = w_objectName w /\ w_hidden (set_buddy_prop id v w) = w_hidden w.
Proof. unfold set_buddy_prop. by case_bool_decide. Qed.

Lemma set_buddy_prop_self id v w : w_id w = id -> w_buddy (set_buddy_prop id v w) = Some v.
Proof. intros <-. unfold set_buddy_prop. by rewrite bool_decide_true. Qed.

Lemma visible_named_set_buddy bg id v name :
  visible_named (tree_map (set_buddy_prop id v) bg) name = set_buddy_prop id v <$> visible_named bg name.
Proof.
  unfold visible_named. rewrite descendants_tree_map, filter_fmap_same.
  - by destruct (filter _ (descendants bg)).
  - intros w. destruct (set_buddy_prop_keeps id v w) as (_ & _ & -> & ->). done.
Qed.

Lemma lookup_widget_unique bg w :
  NoDup (tree_ids bg) -> w ∈ descendants bg -> lookup_widget bg (w_id w) = Some w.
Proof.
  unfold lookup_widget, tree_ids. intros Hnd Hw.
  destruct (filter (fun w' => w_id w' = w_id w) (root bg :: descendants bg)) as [|w' r] eqn:E.
  - exfalso. eapply (filter_nil_not_elem_of _ _ w); [exact E|done|]. set_solver.
  - cbn. f_equal. assert (w' ∈ filter (fun w' => w_id w' = w_id w) (root bg :: descendants bg)) as Hw'
      by (rewrite E; set_solver).
    apply list_elem_of_filter in Hw' as [Hid Hw'].
    eapply (NoDup_fmap_inj_on w_id); [exact Hnd|exact Hw'|set_solver|exact Hid].
Qed.

Lemma endConnection_label e bg L T e1 :
  be_wf e -> be_background e = Some bg -> NoDup (tree_ids bg) ->
  L ∈ descendants bg -> is_label L = true -> T ∈ descendants bg ->
  endConnection e (w_id L) (w_id T) = Some e1 ->
  be_background e1 = Some (tree_map (set_buddy_prop (w_id L) (w_objectName T)) bg) /\
  be_cons e1 = be_cons e ++ [mkBCon (be_next e) (w_id L) (w_id T)] /\
  be_wf e1 /\ be_updating e1 = be_updating e /\ be_sel e1 = [be_next e].
Proof.
  intros Hwf Hbg Hnd HL Hlab HT. pose proof (fresh_not_in e Hwf) as Hfresh.
  unfold endConnection, lookup_in. rewrite Hbg. cbn [mbind option_bind].
  rewrite !lookup_widget_unique by done. cbn [mbind option_bind]. rewrite Hlab.
  intros [= <-]. unfold ce_addConnection, ce_selectNone, ce_new, set_cons. cbn.
  rewrite (bool_decide_false (be_next e ∈ bc_id <$> be_cons e)) by exact Hfresh. cbn.
  rewrite bool_decide_false by apply not_elem_of_nil. cbn.
  destruct Hwf as [Hnd' Hlt]. split_and!; [by rewrite Hbg|done|unfold be_wf; cbn; by apply wf_append_fresh|done|done].
Qed.

(** C7: a buddy the user draws from a label to a visible widget of the
    form whose name no earlier visible widget shares is a connection at
    once, and survives [updateBackground]: [endConnection] sets the
    label's [buddy] property to the widget's name, and the refresh
    derives the same pair from it. *)
Theorem endConnection_survives_update (e e1 : BEditor) (bg : WTree) (L T : Widget) :
  be_wf e -> be_updating e = false -> be_background e = Some bg -> NoDup (tree_ids bg) ->
  L ∈ descendants bg -> is_label L = true -> T ∈ descendants bg ->
  w_objectName T <> [] -> visible_named bg (w_objectName T) = Some T ->
  endConnection e (w_id L) (w_id T) = Some e1 ->
  (w_id L, w_id T) ∈ pairs_of e1 /\ (w_id L, w_id T) ∈ pairs_of (updateBackground e1).
Proof.
  intros Hwf Hup Hbg Hnd HL Hlab HT Hname Hvis E.
  destruct (endConnection_label e bg L T e1 Hwf Hbg Hnd HL Hlab HT E) as (Hbg1 & Hc1 & Hwf1 & Hup1 & _).
  split; [unfold pairs_of; rewrite Hc1, fmap_app; set_solver|].
  rewrite Hup in Hup1. destruct (updateBackground_spec e1 _ Hwf1 Hup1 Hbg1) as [_ ->].
  set (f := set_buddy_prop (w_id L) (w_objectName T)).
  apply list_elem_of_omap. exists (f L). split.
  - apply list_elem_of_filter. destruct (set_buddy_prop_keeps (w_id L) (w_objectName T) L) as (_ & Hk & _).
    split; [unfold is_label in *; subst f; by rewrite Hk|].
    rewrite descendants_tree_map. by apply list_elem_of_fmap_2.
  - unfold buddy_pair, buddy. subst f. rewrite set_buddy_prop_self, bool_decide_false by done.
    rewrite visible_named_set_buddy, Hvis. cbn.
    destruct (set_buddy_prop_keeps (w_id L) (w_objectName T) T) as (-> & _).
    destruct (set_buddy_prop_keeps (w_id L) (w_objectName T) L) as (-> & _). done.
Qed.

(** ** Witnesses: a form with two labels and two line edits *)

Local Open Scope string_scope.

Definition mkW (id : nat) (k : WKind) (name : String.string) (buddy_v : option QString) (g : Z * Z * Z * Z) : Widget :=
  mkWidget id k (qs name) false true (if k is KOther then Some (Some StrongFocus) else None) false buddy_v g LeftToRight.

Definition formW : Widget := mkW 0 KOther "Form" None (0, 0, 200, 100).
Definition label1 : Widget := mkW 1 KLabel "label" (Some (qs "nameEdit")) (10, 10, 50, 20).
Definition nameEdit : Widget := mkW 2 KOther "nameEdit" None (70, 10, 100, 20).
Definition label2 : Widget := mkW 3 KLabel "label_2" (Some []) (10, 40, 50, 20).
Definition ageEdit : Widget := mkW 4 KOther "ageEdit" None (70, 40, 100, 20).

Definition sample_bg : WTree :=
  WNode formW [WNode label1 []; WNode nameEdit []; WNode label2 []; WNode ageEdit []].

Definition sample_editor : BEditor := mkBEditor (Some sample_bg) 0 [] [] 0 false [].

(** The form's [childAt]: the two line edits. *)
Definition sample_childAt (parent : nat) (x y : Z) : option nat :=
  if (70 <=? x) && (x <? 170) && (40 <=? y) && (y <? 60) then Some 4%nat
  else if (70 <=? x) && (x <? 170) && (10 <=? y) && (y <? 30) then Some 2%nat
  else None.

Lemma sample_wf : be_wf sample_editor.
Proof. split; cbn; constructor. Qed.

Lemma sample_refreshed_wf : be_wf (updateBackground sample_editor).
Proof. apply (updateBackground_spec sample_editor sample_bg sample_wf eq_refl eq_refl). Qed.

Lemma sample_tree_ids : NoDup (tree_ids sample_bg).
Proof. apply (bool_decide_unpack _). reflexivity. Qed.

Lemma updateBackground_pairs_witness :
  (be_wf sample_editor /\ be_updating sample_editor = false /\ be_background sample_editor = Some sample_bg) /\
  (be_wf (updateBackground sample_editor) /\
   forall p, p ∈ pairs_of (updateBackground sample_editor) <-> p ∈ new_pairs sample_bg).
Proof.
  split; [split_and!; [exact sample_wf|reflexivity|reflexivity]|].
  apply updateBackground_pairs; [exact sample_wf|reflexivity|reflexivity].
Defined.

Lemma updateBackground_idempotent_witness :
  be_wf sample_editor /\ updateBackground (updateBackground sample_editor) = updateBackground sample_editor.
Proof. split; [exact sample_wf|]. apply updateBackground_idempotent. exact sample_wf. Defined.

Lemma widgetRemoved_spec_witness :
  be_wf (updateBackground sample_editor) /\
  forall c, c ∈ be_cons (widgetRemoved (updateBackground sample_editor) (WNode nameEdit [])) <->
            c ∈ be_cons (updateBackground sample_editor) /\ bc_source c ∉ tree_ids (WNode nameEdit []) /\
            bc_target c ∉ tree_ids (WNode nameEdit []).
Proof. split; [exact sample_refreshed_wf|]. apply widgetRemoved_spec. exact sample_refreshed_wf. Defined.

Lemma findBuddy_inside_witness :
  findBuddy sample_childAt sample_bg 0 label2 [2%nat] = Some ageEdit /\
  exists p x', parent_of (w_id label2) sample_bg = Some p /\
    managed_at sample_childAt sample_bg (w_id p) x' (rect_center_y (w_geometry label2)) = Some ageEdit /\
    (w_direction label2 <> RightToLeft ->
       rect_right (w_geometry label2) < x' < rect_width (w_geometry p) /\
       (x' - (rect_right (w_geometry label2) + 1)) mod DeltaX = 0) /\
    (w_direction label2 = RightToLeft ->
       0 <= x' < rect_x (w_geometry label2) /\ (rect_x (w_geometry label2) - 1 - x') mod DeltaX = 0).
Proof.
  assert (findBuddy sample_childAt sample_bg 0 label2 [2%nat] = Some ageEdit) as H by reflexivity.
  split; [exact H|]. exact (findBuddy_inside _ _ _ _ _ _ H).
Defined.

Lemma endConnection_survives_update_witness :
  let e1 := match endConnection sample_editor 3 4 with Some e => e | None => sample_editor end in
  (endConnection sample_editor (w_id label2) (w_id ageEdit) = Some e1 /\
   visible_named sample_bg (w_objectName ageEdit) = Some ageEdit) /\
  ((w_id label2, w_id ageEdit) ∈ pairs_of e1 /\ (w_id label2, w_id ageEdit) ∈ pairs_of (updateBackground e1)).
Proof.
  cbv zeta. assert (endConnection sample_editor (w_id label2) (w_id ageEdit) =
    Some (match endConnection sample_editor 3 4 with Some e => e | None => sample_editor end)) as E by reflexivity.
  assert (visible_named sample_bg (w_objectName ageEdit) = Some ageEdit) as Hv by reflexivity.
  split; [by split|].
  apply (endConnection_survives_update sample_editor _ sample_bg label2 ageEdit sample_wf eq_refl eq_refl
    sample_tree_ids); [cbn; set_solver|reflexivity|cbn; set_solver|discriminate|exact Hv|exact E].
Defined.
