(* ===== verification/ToolBar.v ===== *)
(** Designer's tool bar event filter
    (src/src/designer/src/lib/shared/qdesigner_toolbar.cpp): the event filter
    that turns mouse presses, drags, drops and context-menu choices on a
    tool bar of the edited form into undoable commands on the tool bar's
    action list.  The action list is a list of actions with identities;
    the commands ([InsertActionIntoCommand], [RemoveActionFromCommand],
    [AddActionCommand], [DeleteToolBarCommand], not in the repository)
    are modelled from their behaviour through [QWidget::insertAction] and
    [QWidget::removeAction]; the style's handle area, the geometry of the
    actions and [actionIndexAt] are Section variables. *)

From S2P Require Import Prelude QtCore.
From stdpp Require Import relations.
From Stdlib Require Strings.String.
Import String.StringSyntax.
Local Open Scope Z_scope.
Local Open Scope string_scope.

(** ** Actions, the tool bar and its geometry *)

(** An action: its identity, whether it is a separator, its object name,
    whether it has a menu, and whether it belongs to the form
    ([Utils::isObjectAncestorOf(formWindow()->mainContainer(), action)]). *)
Record TAction := mkTAction {
  ta_id : nat;
  ta_separator : bool;
  ta_objectName : QString;
  ta_menu : bool;
  ta_inForm : bool
}.

#[export] Instance TAction_eq_dec : EqDecision TAction.
Proof. solve_decision. Defined.

Definition act_ids (l : list TAction) : list nat := ta_id <$> l.

(** [QPoint] and [QRect] (corners [x1, y1] and [x2, y2], both inside). *)
Definition QPoint : Type := Z * Z.
Definition nullPoint : QPoint := (0, 0).
Definition isNull (p : QPoint) : bool := (p.1 =? 0) && (p.2 =? 0).
Definition manhattanLength (p : QPoint) : Z := Z.abs p.1 + Z.abs p.2.

Record QRect := mkRect { r_x1 : Z; r_y1 : Z; r_x2 : Z; r_y2 : Z }.

Definition rect_of_size (w h : Z) : QRect := mkRect 0 0 (w - 1) (h - 1).

(** [QRect::contains(p)]: the bounds are swapped when the rectangle is
    inverted by more than one pixel. *)
Definition rect_contains (r : QRect) (p : QPoint) : bool :=
  let '(l, rr) := if r_x2 r <? r_x1 r - 1 then (r_x2 r, r_x1 r) else (r_x1 r, r_x2 r) in
  let '(t, b) := if r_y2 r <? r_y1 r - 1 then (r_y2 r, r_y1 r) else (r_y1 r, r_y2 r) in
  (l <=? p.1) && (p.1 <=? rr) && (t <=? p.2) && (p.2 <=? b).

Record ToolBar := mkToolBar {
  tb_actions : list TAction;
  tb_objectName : QString;
  tb_orientation : Orientation;
  tb_direction : LayoutDirection;
  tb_size : Z * Z;
  tb_deleted : bool
}.

Definition set_actions (tb : ToolBar) (l : list TAction) : ToolBar :=
  mkToolBar l (tb_objectName tb) (tb_orientation tb) (tb_direction tb) (tb_size tb) (tb_deleted tb).

(** ** [QWidget::insertAction] and [QWidget::removeAction] *)

Definition removeAction (l : list TAction) (a : TAction) : list TAction :=
  filter (fun x => ta_id x <> ta_id a) l.

(** An action already present is taken out first; [before] missing or
    absent appends. *)
Definition insertAction (l : list TAction) (before : option TAction) (a : TAction) : list TAction :=
  let l' := if bool_decide (ta_id a ∈ act_ids l) then removeAction l a else l in
  match before with
  | Some b =>
      match list_find (fun x => ta_id x = ta_id b) l' with
      | Some (i, _) => take i l' ++ a :: drop i l'
      | None => l' ++ [a]
      end
  | None => l' ++ [a]
  end.

(** ** The commands and the form's command history *)

Inductive Cmd :=
  | InsertActionInto (a : TAction) (before : option TAction)
  | RemoveActionFrom (a : TAction) (before : option TAction)
  | AddAction (a : TAction)
  | DeleteToolBar
  | Macro (text : QString) (cmds : list Cmd).

Fixpoint cmd_redo (tb : ToolBar) (c : Cmd) : ToolBar :=
  match c with
  | InsertActionInto a before => set_actions tb (insertAction (tb_actions tb) before a)
  | RemoveActionFrom a _ => set_actions tb (removeAction (tb_actions tb) a)
  | AddAction _ => tb
  | DeleteToolBar => mkToolBar (tb_actions tb) (tb_objectName tb) (tb_orientation tb) (tb_direction tb)
                       (tb_size tb) true
  | Macro _ cs => fold_left cmd_redo cs tb
  end.

(** [undo]: the action commands put the list back, the macro undoes its
    commands last first. *)
Fixpoint cmd_undo (tb : ToolBar) (c : Cmd) : ToolBar :=
  match c with
  | InsertActionInto a _ => set_actions tb (removeAction (tb_actions tb) a)
  | RemoveActionFrom a before => set_actions tb (insertAction (tb_actions tb) before a)
  | AddAction _ => tb
  | DeleteToolBar => mkToolBar (tb_actions tb) (tb_objectName tb) (tb_orientation tb) (tb_direction tb)
                       (tb_size tb) false
  | Macro _ cs => fold_right (fun c tb => cmd_undo tb c) tb cs
  end.

(** The filter: its tool bar, [m_startPosition], the command history
    of the form, the next identity [new QAction] hands out, and the drag
    indicator's position. *)
Record Filter := mkFilter {
  f_tb : ToolBar;
  f_start : QPoint;
  f_history : list Cmd;
  f_next : nat;
  f_indicator : QPoint
}.

Definition set_start (f : Filter) (p : QPoint) : Filter :=
  mkFilter (f_tb f) p (f_history f) (f_next f) (f_indicator f).
Definition set_indicator (f : Filter) (p : QPoint) : Filter :=
  mkFilter (f_tb f) (f_start f) (f_history f) (f_next f) p.

(** [fw->commandHistory()->push(cmd)]: the command runs. *)
Definition fw_push (f : Filter) (c : Cmd) : Filter :=
  mkFilter (cmd_redo (f_tb f) c) (f_start f) (f_history f ++ [c]) (f_next f) (f_indicator f).

(** [QUndoStack::undo]: the last command is undone and popped. *)
Definition fw_undo (f : Filter) : Filter :=
  match last (f_history f) with
  | Some c => mkFilter (cmd_undo (f_tb f) c) (f_start f) (removelast (f_history f)) (f_next f) (f_indicator f)
  | None => f
  end.

(** ** The event handlers *)

Inductive MouseButton := LeftButton | OtherButton.

(** The entries of the context menu, with the action each carries. *)
Inductive MenuEntry :=
  | InsertSeparatorBefore (a : TAction)
  | AppendSeparator
  | PromotionEntries
  | RemoveActionEntry (a : TAction)
  | RemoveToolBarEntry.

#[export] Instance MenuEntry_eq_dec : EqDecision MenuEntry.
Proof. solve_decision. Defined.

(** The events of a drag in progress that reach this filter, during
    [QDrag::exec]; [mime] is the dragged action list of an
    [ActionRepositoryMimeData], [None] for other data. *)
Inductive DragEvent :=
  | DEnterMove (mime : option (list TAction)) (pos : QPoint)
  | DLeave
  | DDrop (mime : option (list TAction)) (pos : QPoint).

Definition is_drop (ev : DragEvent) : bool := if ev is DDrop _ _ then true else false.

Section Handlers.
Local Set Default Proof Using "Type".
(** [actionIndexAt(tb, pos, orientation)] of the tool bar's current
    actions; the style's handle area; [QToolBar::actionGeometry];
    [QApplication::startDragDistance]; [ensureUniqueObjectName]. *)
Variable actionIndexAt : list TAction -> Orientation -> QPoint -> Z.
Variable handleArea : QRect.
Variable actionGeometry : TAction -> QRect.
Variable startDragDistance : Z.
Variable ensureUniqueObjectName : QString -> QString.

Definition withinHandleArea (pos : QPoint) : bool := rect_contains handleArea pos.

Definition hideDragIndicator (f : Filter) : Filter := set_indicator f (-1, -1).

Definition action_at (l : list TAction) (index : Z) : option TAction :=
  if index <? 0 then None else l !! Z.to_nat index.

(** [freeArea]: the tool bar's rectangle behind the last action (or the
    handle when there is none). *)
Definition freeArea (tb : ToolBar) : QRect :=
  let rc := rect_of_size (tb_size tb).1 (tb_size tb).2 in
  let excl := match last (tb_actions tb) with None => handleArea | Some a => actionGeometry a end in
  match tb_orientation tb with
  | Horizontal =>
      match tb_direction tb with
      | LayoutDirectionAuto | LeftToRight => mkRect (r_x2 excl + 1) (r_y1 rc) (r_x2 rc) (r_y2 rc)
      | RightToLeft => mkRect (r_x1 rc) (r_y1 rc) (r_x1 excl) (r_y2 rc)
      end
  | Vertical => mkRect (r_x1 rc) (r_y2 excl + 1) (r_x2 rc) (r_y2 rc)
  end.

Definition index_of (f : Filter) (pos : QPoint) : Z :=
  actionIndexAt (tb_actions (f_tb f)) (tb_orientation (f_tb f)) pos.

(** [contextMenuActions] *)
Definition contextMenuActions (f : Filter) (pos : QPoint) : list MenuEntry :=
  let actions := tb_actions (f_tb f) in
  let index := index_of f pos in
  let action := if index =? -1 then None else action_at actions index in
  match action with
  | Some a => if negb (index =? 0) && negb (ta_separator a) then [InsertSeparatorBefore a] else []
  | None => []
  end ++
  (match last actions with Some l => if ta_separator l then [] else [AppendSeparator] | None => [AppendSeparator] end) ++
  [PromotionEntries] ++
  (match action with Some a => [RemoveActionEntry a] | None => [] end) ++
  [RemoveToolBarEntry].

(** [slotRemoveSelectedAction]: the command remembers the action after
    the removed one, where [undo] puts it back. *)
Definition slotRemoveSelectedAction (f : Filter) (a : TAction) : Filter :=
  let actions := tb_actions (f_tb f) in
  let before := match list_find (fun x => ta_id x = ta_id a) actions with
                | Some (pos, _) => actions !! S pos
                | None => None
                end in
  fw_push f (RemoveActionFrom a before).

Definition slotRemoveToolBar (f : Filter) : Filter := fw_push f DeleteToolBar.

(** [slotInsertSeparator(previous)]: a new separator action ([createAction])
    added to the form and inserted before [previous], in one macro. *)
Definition slotInsertSeparator (f : Filter) (previous : option TAction) : Filter :=
  let sep := mkTAction (f_next f) true (ensureUniqueObjectName (qs "separator")) false true in
  let f1 := mkFilter (f_tb f) (f_start f) (f_history f) (S (f_next f)) (f_indicator f) in
  fw_push f1 (Macro (qs "Insert Separator") [AddAction sep; InsertActionInto sep previous]).

(** A menu entry chosen: the slot its action is connected to. *)
Definition trigger (f : Filter) (m : MenuEntry) : Filter :=
  match m with
  | InsertSeparatorBefore a => slotInsertSeparator f (Some a)
  | AppendSeparator => slotInsertSeparator f None
  | PromotionEntries => f
  | RemoveActionEntry a => slotRemoveSelectedAction f a
  | RemoveToolBarEntry => slotRemoveToolBar f
  end.

(** [handleContextMenuEvent]: [choose] is the user's pick in the menu. *)
Definition handleContextMenuEvent (f : Filter) (pos : QPoint) (choose : list MenuEntry -> option MenuEntry)
    : bool * Filter :=
  match choose (contextMenuActions f pos) with
  | Some m => (true, trigger f m)
  | None => (true, f)
  end.

(** [handleDragEnterMoveEvent]: handled, accepted, and the new state. *)
Definition handleDragEnterMoveEvent (f : Filter) (mime : option (list TAction)) (pos : QPoint)
    : bool * bool * Filter :=
  match mime with
  | None => (false, false, f)
  | Some [] => (true, false, hideDragIndicator f)
  | Some (a :: _) =>
      if ta_menu a || bool_decide (ta_id a ∈ act_ids (tb_actions (f_tb f))) || negb (ta_inForm a)
      then (true, false, hideDragIndicator f)
      else (true, true, set_indicator f pos)
  end.

Definition handleDragLeaveEvent (f : Filter) : bool * Filter := (false, hideDragIndicator f).

(** [handleDropEvent]: the dragged action goes before the action under
    the cursor, or at the end when dropped in the free area. *)
Definition handleDropEvent (f : Filter) (mime : option (list TAction)) (pos : QPoint) : bool * bool * Filter :=
  match mime with
  | None => (false, false, f)
  | Some [] => (true, false, hideDragIndicator f)
  | Some (a :: _) =>
      let actions := tb_actions (f_tb f) in
      if bool_decide (ta_id a ∈ act_ids actions) then (true, false, hideDragIndicator f)
      else
        let index := index_of f pos in
        if negb (index =? -1) then
          (true, true, hideDragIndicator (fw_push f (InsertActionInto a (action_at actions index))))
        else if negb (rect_contains (freeArea (f_tb f)) pos) then (true, false, hideDragIndicator f)
        else (true, true, hideDragIndicator (fw_push f (InsertActionInto a None)))
  end.

Definition drag_event (f : Filter) (ev : DragEvent) : Filter :=
  match ev with
  | DEnterMove mime pos => (handleDragEnterMoveEvent f mime pos).2
  | DLeave => (handleDragLeaveEvent f).2
  | DDrop mime pos => (handleDropEvent f mime pos).2
  end.

(** [startDrag]: a move first removes the action; the drag's own events
    ([during]) reach the filter while [QDrag::exec] runs; when nobody
    took the drop ([ignored]) a moved action goes back where it was. *)
Definition startDrag (f : Filter) (pos : QPoint) (ctrl : bool) (during : list DragEvent) (ignored : bool) : Filter :=
  let index := index_of f pos in
  if index =? -1 then f else
  let actions := tb_actions (f_tb f) in
  match action_at actions index with
  | None => f
  | Some action =>
      let move := negb ctrl in
      let f1 := if move then fw_push f (RemoveActionFrom action (action_at actions (index + 1))) else f in
      let f2 := fold_left drag_event during f1 in
      if ignored then
        let f3 := hideDragIndicator f2 in
        if move then
          let current := tb_actions (f_tb f3) in
          let previous := if (0 <=? index) && (index <? Z.of_nat (length current)) then action_at current index else None in
          fw_push f3 (InsertActionInto action previous)
        else f3
      else f2
  end.

Definition handleMousePressEvent (f : Filter) (button : MouseButton) (pos : QPoint) : bool * Filter :=
  if negb (if button is LeftButton then true else false) || withinHandleArea pos then (false, f)
  else (true, set_start f pos).

Definition handleMouseReleaseEvent (f : Filter) (button : MouseButton) (pos : QPoint) : bool * Filter :=
  if negb (if button is LeftButton then true else false) || isNull (f_start f) || withinHandleArea pos then (false, f)
  else (true, set_start f nullPoint).

Definition handleMouseMoveEvent (f : Filter) (pos : QPoint) (ctrl : bool) (during : list DragEvent) (ignored : bool)
    : bool * Filter :=
  if isNull (f_start f) || withinHandleArea pos then (false, f)
  else if startDragDistance <? manhattanLength (pos.1 - (f_start f).1, pos.2 - (f_start f).2) then
    (true, set_start (startDrag f (f_start f) ctrl during ignored) nullPoint)
  else (false, f).

(** [eventFilter]: the events of the tool bar, dispatched. *)
Inductive Event :=
  | ChildAdded
  | ContextMenu (pos : QPoint) (choose : list MenuEntry -> option MenuEntry)
  | DragEnterMove (mime : option (list TAction)) (pos : QPoint)
  | DragLeave
  | Drop (mime : option (list TAction)) (pos : QPoint)
  | MousePress (button : MouseButton) (pos : QPoint)
  | MouseRelease (button : MouseButton) (pos : QPoint)
  | MouseMove (pos : QPoint) (ctrl : bool) (during : list DragEvent) (ignored : bool)
  | OtherEvent.

Definition eventFilter (f : Filter) (ev : Event) : bool * Filter :=
  match ev with
  | ChildAdded | OtherEvent => (false, f)
  | ContextMenu pos choose => handleContextMenuEvent f pos choose
  | DragEnterMove mime pos => let '(h, _, f') := handleDragEnterMoveEvent f mime pos in (h, f')
  | DragLeave => handleDragLeaveEvent f
  | Drop mime pos => let '(h, _, f') := handleDropEvent f mime pos in (h, f')
  | MousePress b pos => handleMousePressEvent f b pos
  | MouseRelease b pos => handleMouseReleaseEvent f b pos
  | MouseMove pos ctrl during ignored => handleMouseMoveEvent f pos ctrl during ignored
  end.

(** One event through the filter. *)
Definition filter_step (f f' : Filter) : Prop := exists ev, (eventFilter f ev).2 = f'.

(** The tool bar's actions are distinct [QAction]s. *)
Definition actions_unique (f : Filter) : Prop := NoDup (act_ids (tb_actions (f_tb f))).

(** ** Lemmas on the action list *)

Lemma filter_all {A} (P : A -> Prop) `{!forall x, Decision (P x)} (l : list A) :
  Forall P l -> filter P l = l.
Proof.
  induction 1 as [|x l' Hx _ IH]; [done|].
  rewrite filter_cons_True by done. by f_equal.
Qed.

Lemma act_ids_app l1 l2 : act_ids (l1 ++ l2) = act_ids l1 ++ act_ids l2.
Proof. apply fmap_app. Qed.

Lemma elem_of_act_ids x l : x ∈ act_ids l <-> exists a, a ∈ l /\ ta_id a = x.
Proof.
  unfold act_ids. rewrite list_elem_of_fmap.
  split; intros (a & H1 & H2); exists a; split; done.
Qed.

Lemma removeAction_nodup l a : NoDup (act_ids l) -> NoDup (act_ids (removeAction l a)).
Proof.
  intros H. assert (act_ids (removeAction l a) `sublist_of` act_ids l)
    by apply fmap_sublist, sublist_filter.
  by eapply sublist_NoDup.
Qed.

Lemma removeAction_gone l a : ta_id a ∉ act_ids (removeAction l a).
Proof.
  rewrite elem_of_act_ids. intros (x & Hx & Hid).
  unfold removeAction in Hx. apply list_elem_of_filter in Hx as [Hne _]. by apply Hne.
Qed.

(** An action not on the list is not removed from it. *)
Lemma removeAction_absent l a : ta_id a ∉ act_ids l -> removeAction l a = l.
Proof.
  intros H. apply filter_all, Forall_forall. intros x Hx Heq.
  apply H, elem_of_act_ids. eauto.
Qed.

(** On a list without duplicate identities, removing the action at index
    [i] splices it out. *)
Lemma removeAction_at l i a : NoDup (act_ids l) -> l !! i = Some a ->
  removeAction l a = take i l ++ drop (S i) l.
Proof.
  intros Hnd Hi. pose proof (take_drop_middle l i a Hi) as Hl.
  rewrite <- Hl in Hnd. rewrite <- Hl at 1.
  unfold act_ids in Hnd. rewrite fmap_app, fmap_cons in Hnd.
  apply NoDup_app in Hnd as (_ & Hdis & Hnd2). apply NoDup_cons in Hnd2 as [Hna _].
  unfold removeAction. rewrite filter_app, filter_cons_False by (intros Hne; by apply Hne).
  rewrite !filter_all; [done| |].
  - apply Forall_forall. intros x Hx Heq. apply Hna, list_elem_of_fmap. eauto.
  - apply Forall_forall. intros x Hx Heq. apply (Hdis (ta_id x)).
    + apply list_elem_of_fmap. eauto.
    + rewrite Heq. left.
Qed.

Lemma insertAction_ids l before a :
  act_ids (insertAction l before a) ≡ₚ ta_id a :: act_ids (removeAction l a).
Proof.
  assert (Hr : (if bool_decide (ta_id a ∈ act_ids l) then removeAction l a else l) = removeAction l a).
  { case_bool_decide; [done|]. by rewrite removeAction_absent. }
  unfold insertAction. rewrite Hr.
  destruct before as [b|]; [destruct (list_find _ _) as [[i ?]|]|];
    unfold act_ids; rewrite ?fmap_app, ?fmap_cons, ?fmap_take, ?fmap_drop.
  - rewrite <- Permutation_middle, take_drop. done.
  - by rewrite Permutation_app_comm.
  - by rewrite Permutation_app_comm.
Qed.

(** [insertAction] keeps identities unique. *)
Lemma insertAction_nodup l before a : NoDup (act_ids l) -> NoDup (act_ids (insertAction l before a)).
Proof.
  intros H. rewrite insertAction_ids. constructor.
  - apply removeAction_gone.
  - by apply removeAction_nodup.
Qed.

(** Removing the action at [i] and inserting it back before the action
    that followed it (or at the end when it was the last) gives the list
    back: the shared core of [RemoveActionFromCommand::undo] and of the
    restore at the end of an ignored move drag. *)
Lemma remove_insert_roundtrip l i a : NoDup (act_ids l) -> l !! i = Some a ->
  insertAction (removeAction l a) (l !! S i) a = l.
Proof.
  intros Hnd Hi.
  pose proof (take_drop_middle l i a Hi) as Hl.
  assert (Hlen : (i < length l)%nat) by (apply lookup_lt_is_Some; eauto).
  unfold insertAction. rewrite bool_decide_false by apply removeAction_gone.
  rewrite (removeAction_at l i a Hnd Hi).
  destruct (l !! S i) as [b|] eqn:Hb.
  - assert (Hd : drop (S i) l = b :: drop (S (S i)) l).
    { by apply drop_S. }
    rewrite <- Hl in Hnd. unfold act_ids in Hnd. rewrite fmap_app, fmap_cons, Hd, fmap_cons in Hnd.
    apply NoDup_app in Hnd as (_ & Hdis & _).
    rewrite list_find_app_r.
    + rewrite Hd. cbn. rewrite decide_True by done. cbn.
      rewrite length_take_le by lia.
      rewrite take_app_length', drop_app_length' by (rewrite length_take_le; lia).
      by rewrite <- Hd.
    + apply list_find_None, Forall_forall. intros x Hx Heq.
      apply (Hdis (ta_id x)); [apply list_elem_of_fmap; eauto|]. rewrite Heq. right. left.
  - rewrite drop_ge by (apply lookup_ge_None in Hb; lia).
    rewrite app_nil_r. rewrite <- Hl at 2.
    by rewrite drop_ge by (apply lookup_ge_None in Hb; lia).
Qed.

(** [actions.indexOf(a)] on a list with unique identities. *)
Lemma find_at l i a : NoDup (act_ids l) -> l !! i = Some a ->
  list_find (fun x => ta_id x = ta_id a) l = Some (i, a).
Proof.
  intros Hnd Hi. apply list_find_Some. split_and!; [done|done|].
  intros j y Hj Hlt Heq. assert (j = i); [|lia].
  eapply NoDup_lookup; [exact Hnd| |];
    unfold act_ids; rewrite list_lookup_fmap; [rewrite Hj|rewrite Hi]; cbn; [rewrite Heq|]; done.
Qed.

(** Inserting a new action anywhere and removing it again gives the list
    back: [InsertActionIntoCommand::undo] after [redo]. *)
Lemma insert_remove_roundtrip l before a : ta_id a ∉ act_ids l ->
  removeAction (insertAction l before a) a = l.
Proof.
  intros Ha. unfold insertAction. rewrite bool_decide_false by done.
  assert (Hsplit : forall l1 l2, l1 ++ l2 = l -> removeAction (l1 ++ a :: l2) a = l).
  { intros l1 l2 <-. unfold removeAction. rewrite filter_app, filter_cons_False by (intros Hne; by apply Hne).
    rewrite act_ids_app in Ha. rewrite <- filter_app. apply removeAction_absent. by rewrite act_ids_app. }
  destruct before as [b|]; [destruct (list_find _ _) as [[i ?]|]|].
  - apply Hsplit, take_drop.
  - exact (Hsplit l [] (app_nil_r l)).
  - exact (Hsplit l [] (app_nil_r l)).
Qed.

Lemma set_actions_same tb : set_actions tb (tb_actions tb) = tb.
Proof. by destruct tb. Qed.

Lemma tb_actions_set tb l : tb_actions (set_actions tb l) = l.
Proof. done. Qed.

Lemma set_actions_twice tb l1 l2 : set_actions (set_actions tb l1) l2 = set_actions tb l2.
Proof. done. Qed.

Lemma fw_undo_push f c :
  fw_undo (fw_push f c) = mkFilter (cmd_undo (cmd_redo (f_tb f) c) c) (f_start f) (f_history f) (f_next f) (f_indicator f).
Proof. unfold fw_undo, fw_push. cbn. by rewrite last_snoc, removelast_last. Qed.

(** Every command keeps the identities on the tool bar unique. *)
Lemma cmd_redo_nodup : forall c tb, NoDup (act_ids (tb_actions tb)) -> NoDup (act_ids (tb_actions (cmd_redo tb c))).
Proof.
  fix IH 1. intros [a b|a b|a| |t cs] tb H; cbn; try done.
  - by apply insertAction_nodup.
  - by apply removeAction_nodup.
  - revert tb H. induction cs as [|c cs IHcs]; intros tb H; cbn; [done|]. apply IHcs, IH, H.
Qed.

Lemma fw_push_unique f c : actions_unique f -> actions_unique (fw_push f c).
Proof. apply cmd_redo_nodup. Qed.

Lemma set_indicator_unique f p : actions_unique f -> actions_unique (set_indicator f p).
Proof. done. Qed.

Lemma set_start_unique f p : actions_unique f -> actions_unique (set_start f p).
Proof. done. Qed.

Lemma hideDragIndicator_unique f : actions_unique f -> actions_unique (hideDragIndicator f).
Proof. done. Qed.

Lemma next_unique tb s h n i : actions_unique (mkFilter tb s h n i) -> actions_unique (mkFilter tb s h (S n) i).
Proof. done. Qed.

Create HintDb toolbar.
#[local] Hint Resolve fw_push_unique set_indicator_unique set_start_unique hideDragIndicator_unique
  next_unique : toolbar.

(** Splits a handler into its branches. *)
Ltac handler_cases := repeat (case_match || case_bool_decide); simplify_eq/=.

Lemma drag_event_unique f ev : actions_unique f -> actions_unique (drag_event f ev).
Proof.
  intros H. destruct ev; cbn;
    unfold handleDragEnterMoveEvent, handleDragLeaveEvent, handleDropEvent; handler_cases; eauto with toolbar.
Qed.

Lemma drag_events_unique during f : actions_unique f -> actions_unique (fold_left drag_event during f).
Proof.
  revert f. induction during; intros f H; cbn; [done|]. by apply IHduring, drag_event_unique.
Qed.
#[local] Hint Resolve drag_event_unique drag_events_unique : toolbar.

Lemma startDrag_unique f pos ctrl during ignored :
  actions_unique f -> actions_unique (startDrag f pos ctrl during ignored).
Proof. intros H. unfold startDrag. handler_cases; eauto 10 with toolbar. Qed.

Lemma trigger_unique f m : actions_unique f -> actions_unique (trigger f m).
Proof.
  intros H. destruct m; cbn;
    unfold slotInsertSeparator, slotRemoveSelectedAction, slotRemoveToolBar; eauto with toolbar.
Qed.
#[local] Hint Resolve startDrag_unique trigger_unique : toolbar.

Lemma eventFilter_unique f ev : actions_unique f -> actions_unique (eventFilter f ev).2.
Proof.
  intros H. destruct ev; cbn;
    unfold handleContextMenuEvent, handleDragEnterMoveEvent, handleDragLeaveEvent, handleDropEvent,
      handleMousePressEvent, handleMouseReleaseEvent, handleMouseMoveEvent;
    handler_cases; eauto 10 with toolbar.
Qed.

Lemma action_at_nat l (i : nat) : action_at l (Z.of_nat i) = l !! i.
Proof. unfold action_at. destruct (Z.ltb_spec (Z.of_nat i) 0); [lia|]. by rewrite Nat2Z.id. Qed.

Lemma action_at_succ l (i : nat) : action_at l (Z.of_nat i + 1) = l !! S i.
Proof. by rewrite <- action_at_nat, Nat2Z.inj_succ, Z.add_1_r. Qed.

(** Enter, move and leave events of a drag only move the indicator. *)
Lemma drag_events_no_drop during f : Forall (fun e => is_drop e = false) during ->
  f_tb (fold_left drag_event during f) = f_tb f /\ f_history (fold_left drag_event during f) = f_history f.
Proof.
  intros Hd. revert f. induction Hd as [|e during He _ IH]; intros f; [done|]. cbn.
  destruct (IH (drag_event f e)) as [-> ->].
  destruct e as [[[|a ?]|] pos| |]; cbn in *; try done;
    unfold handleDragEnterMoveEvent; handler_cases; done.
Qed.

(** The action that follows the removed one is where the ignored move
    drag puts it back ([currentActions.at(index)]). *)
Lemma previous_after_remove l (i : nat) a : NoDup (act_ids l) -> l !! i = Some a ->
  (if (0 <=? Z.of_nat i) && (Z.of_nat i <? Z.of_nat (length (removeAction l a)))
   then action_at (removeAction l a) (Z.of_nat i) else None) = l !! S i.
Proof.
  intros Hnd Hi. rewrite (removeAction_at l i a Hnd Hi), action_at_nat.
  assert (Hlen : (i < length l)%nat) by (apply lookup_lt_is_Some; eauto).
  rewrite length_app, length_take_le, length_drop by lia.
  assert (H0 : (0 <=? Z.of_nat i) = true) by (apply Z.leb_le; lia). rewrite H0. cbn [andb].
  destruct (Z.of_nat i <? Z.of_nat (i + (length l - S i))) eqn:E; cbn.
  - rewrite lookup_app_r by (rewrite length_take_le; lia).
    rewrite length_take_le, lookup_drop by lia. f_equal. lia.
  - apply Z.ltb_ge in E. symmetry. apply lookup_ge_None. lia.
Qed.

(** ** The tool bar's properties *)

(** C8: undoing the removal chosen from the context menu
    ([slotRemoveSelectedAction]) restores the filter exactly: the action
    goes back before the action that followed it, or at the end. *)
Theorem removeSelected_undo f i a :
  actions_unique f -> tb_actions (f_tb f) !! i = Some a ->
  fw_undo (slotRemoveSelectedAction f a) = f.
Proof.
  intros Hnd Hi. unfold slotRemoveSelectedAction. rewrite (find_at _ i a Hnd Hi), fw_undo_push. cbn.
  rewrite set_actions_twice, remove_insert_roundtrip, set_actions_same by done.
  by destruct f.
Qed.

(** C9: a move drag of the action at index [i] that nobody accepts
    ([QDrag::exec] returns [Qt::IgnoreAction]) and that meets no drop on
    the way leaves the tool bar as it was, with the removal and the
    re-insertion on the command history. *)
Theorem move_drag_ignored_restores f pos (i : nat) a during :
  actions_unique f -> index_of f pos = Z.of_nat i -> tb_actions (f_tb f) !! i = Some a ->
  Forall (fun e => is_drop e = false) during ->
  f_tb (startDrag f pos false during true) = f_tb f /\
  f_history (startDrag f pos false during true) =
    f_history f ++ [RemoveActionFrom a (tb_actions (f_tb f) !! S i);
                    InsertActionInto a (tb_actions (f_tb f) !! S i)].
Proof.
  intros Hnd Hidx Hi Hd. unfold startDrag. rewrite Hidx.
  destruct (Z.eqb_spec (Z.of_nat i) (-1)); [lia|].
  rewrite action_at_nat, Hi, action_at_succ. cbn [negb].
  destruct (drag_events_no_drop during (fw_push f (RemoveActionFrom a (tb_actions (f_tb f) !! S i))) Hd)
    as [Htb Hh].
  unfold fw_push at 1, hideDragIndicator, set_indicator. cbn. rewrite Htb, Hh. cbn.
  rewrite (previous_after_remove _ i a Hnd Hi), set_actions_twice, remove_insert_roundtrip, set_actions_same by done.
  by rewrite <- app_assoc.
Qed.

(** Undoing an inserted separator ([slotInsertSeparator]) gives the
    tool bar and the history back, when the new action's identity is
    fresh; only the allocator has moved on. *)
Theorem insertSeparator_undo f previous :
  Forall (fun x => ta_id x < f_next f)%nat (tb_actions (f_tb f)) ->
  fw_undo (slotInsertSeparator f previous) =
    mkFilter (f_tb f) (f_start f) (f_history f) (S (f_next f)) (f_indicator f).
Proof.
  intros Hfresh. unfold slotInsertSeparator. set (sep := mkTAction _ _ _ _ _).
  rewrite fw_undo_push. cbn [f_tb f_start f_history f_next f_indicator cmd_redo cmd_undo fold_left fold_right].
  rewrite tb_actions_set, set_actions_twice, insert_remove_roundtrip, set_actions_same; [done|].
  rewrite elem_of_act_ids. intros (x & Hx & Hid). rewrite Forall_forall in Hfresh.
  specialize (Hfresh x Hx). cbn in Hid. lia.
Qed.

(** The actions on the tool bar stay distinct along every sequence of
    events the filter handles. *)
Theorem reachable_unique f0 f : rtc filter_step f0 f -> actions_unique f0 -> actions_unique f.
Proof. induction 1 as [|x y z [ev <-] _ IH]; [done|]. intros H. by apply IH, eventFilter_unique. Qed.

(** C21: a new action dropped on the action at index [i] is inserted
    before it by one [InsertActionIntoCommand], and the indicator is
    hidden. *)
Theorem drop_on_action_inserts f a rest pos (i : nat) b :
  actions_unique f -> ta_id a ∉ act_ids (tb_actions (f_tb f)) ->
  index_of f pos = Z.of_nat i -> tb_actions (f_tb f) !! i = Some b ->
  let r := handleDropEvent f (Some (a :: rest)) pos in
  r.1 = (true, true) /\
  tb_actions (f_tb r.2) = take i (tb_actions (f_tb f)) ++ a :: drop i (tb_actions (f_tb f)) /\
  f_history r.2 = f_history f ++ [InsertActionInto a (Some b)] /\
  f_indicator r.2 = (-1, -1).
Proof.
  intros Hnd Ha Hidx Hb. unfold handleDropEvent. rewrite bool_decide_false, Hidx by done.
  destruct (Z.eqb_spec (Z.of_nat i) (-1)); [lia|]. rewrite action_at_nat, Hb. cbn.
  unfold insertAction. rewrite bool_decide_false, (find_at _ i b Hnd Hb) by done. done.
Qed.

(** A drop of an action already on the tool bar, or outside every
    action and outside the free area, is ignored: nothing changes but the
    indicator. *)
Theorem drop_rejected f a rest pos :
  ta_id a ∈ act_ids (tb_actions (f_tb f)) \/
  (index_of f pos = -1 /\ rect_contains (freeArea (f_tb f)) pos = false) ->
  handleDropEvent f (Some (a :: rest)) pos = (true, false, hideDragIndicator f).
Proof.
  unfold handleDropEvent. intros [Hin | [Hidx Hfree]].
  - by rewrite bool_decide_true.
  - case_bool_decide; [done|]. by rewrite Hidx, Hfree.
Qed.

Lemma drop_in_free_area_appends f a rest pos :
  ta_id a ∉ act_ids (tb_actions (f_tb f)) -> index_of f pos = -1 -> rect_contains (freeArea (f_tb f)) pos = true ->
  tb_actions (f_tb (handleDropEvent f (Some (a :: rest)) pos).2) = tb_actions (f_tb f) ++ [a].
Proof.
  intros Ha Hidx Hfree. unfold handleDropEvent. rewrite bool_decide_false, Hidx, Hfree by done. cbn.
  unfold insertAction. by rewrite bool_decide_false.
Qed.

(** C32: a left press at the tool bar's own origin [(0, 0)] outside the
    handle is accepted, but stores a null [m_startPosition], which
    [handleMouseMoveEvent] reads as "no press": no later move starts a drag
    from there. *)
Theorem press_at_origin_never_drags f :
  withinHandleArea (0, 0) = false ->
  let f' := (handleMousePressEvent f LeftButton (0, 0)).2 in
  (handleMousePressEvent f LeftButton (0, 0)).1 = true /\
  forall pos ctrl during ignored, handleMouseMoveEvent f' pos ctrl during ignored = (false, f').
Proof.
  intros Hh. unfold handleMousePressEvent. rewrite Hh. cbn. split; [done|].
  intros pos ctrl during ignored. done.
Qed.

(** C19: a left press on the action at index [i] away from the origin and
    the handle, then a move farther than the start-drag distance without
    Ctrl, starts a move drag: when the drop is taken elsewhere the action
    has left the tool bar, the removal is on the history, and the press is
    forgotten. *)
Theorem press_and_drag_moves_action f p q (i : nat) a :
  actions_unique f -> isNull p = false -> withinHandleArea p = false -> withinHandleArea q = false ->
  startDragDistance < manhattanLength (q.1 - p.1, q.2 - p.2) ->
  index_of f p = Z.of_nat i -> tb_actions (f_tb f) !! i = Some a ->
  let f1 := (handleMousePressEvent f LeftButton p).2 in
  let r := handleMouseMoveEvent f1 q false [] false in
  r.1 = true /\
  tb_actions (f_tb r.2) = take i (tb_actions (f_tb f)) ++ drop (S i) (tb_actions (f_tb f)) /\
  f_history r.2 = f_history f ++ [RemoveActionFrom a (tb_actions (f_tb f) !! S i)] /\
  f_start r.2 = nullPoint.
Proof.
  intros Hnd Hp Hhp Hhq Hdist Hidx Hi. unfold handleMousePressEvent. rewrite Hhp. cbn.
  unfold handleMouseMoveEvent. cbn [f_start set_start]. rewrite Hp, Hhq. cbn [orb].
  destruct (Z.ltb_spec startDragDistance (manhattanLength (q.1 - p.1, q.2 - p.2))); [|lia].
  unfold startDrag. change (index_of (set_start f p) p) with (index_of f p). rewrite Hidx.
  destruct (Z.eqb_spec (Z.of_nat i) (-1)); [lia|].
  change (tb_actions (f_tb (set_start f p))) with (tb_actions (f_tb f)).
  rewrite action_at_nat, Hi, action_at_succ. cbn.
  by rewrite (removeAction_at _ i a Hnd Hi).
Qed.

(** The context menu offers "Append Separator" exactly when the tool bar
    is empty or does not end with a separator. *)
Lemma append_offered f pos :
  AppendSeparator ∈ contextMenuActions f pos <->
  forall x, last (tb_actions (f_tb f)) = Some x -> ta_separator x = false.
Proof.
  unfold contextMenuActions.
  repeat case_match; rewrite ?elem_of_app, ?list_elem_of_singleton, ?elem_of_nil;
    (split; [intros Hm; repeat destruct Hm as [Hm|Hm]; try discriminate; try contradiction;
             intros x Hsx; simplify_eq; done
            |intros Hx; first [right; left; done | specialize (Hx _ eq_refl); congruence]]).
Qed.

(** The menu never puts a second separator at the end of the tool
    bar: when "Append Separator" is offered and chosen, the new action is
    a separator appended after an action that is none. *)
Theorem append_separator_single f pos :
  AppendSeparator ∈ contextMenuActions f pos ->
  Forall (fun x => ta_id x < f_next f)%nat (tb_actions (f_tb f)) ->
  exists sep, ta_separator sep = true /\
    tb_actions (f_tb (trigger f AppendSeparator)) = tb_actions (f_tb f) ++ [sep] /\
    (forall x, last (tb_actions (f_tb f)) = Some x -> ta_separator x = false).
Proof.
  rewrite append_offered. intros Hoff Hfresh. cbn. unfold slotInsertSeparator.
  set (sep := mkTAction _ _ _ _ _). exists sep. split_and!; [done| |done]. cbn.
  unfold insertAction. rewrite bool_decide_false; [done|].
  rewrite elem_of_act_ids. intros (x & Hx & Hid). rewrite Forall_forall in Hfresh.
  specialize (Hfresh x Hx). cbn in Hid. lia.
Qed.
End Handlers.

(** ** [install], the constructor and [eventFilterOf] *)

(** A child object of the tool bar: a widget, an event filter of this
    class (by identity), or any other object. *)
Inductive Child := ChildWidget | ChildFilter (id : nat) | ChildObject.

(** The tool bar as a [QObject]: its children in creation order, its
    event filters (the last installed first, as
    [QObject::installEventFilter] keeps them) and [acceptDrops]. *)
Record ToolBarObject := mkToolBarObject {
  to_children : list Child;
  to_eventFilters : list nat;
  to_acceptDrops : bool
}.

(** [ToolBarEventFilter(tb)]: [m_toolBar] set, no press recorded
    ([m_startPosition] is a null [QPoint]); the command history and the
    drag indicator belong to the form window. *)
Definition newToolBarEventFilter (tb : ToolBar) (history : list Cmd) (next : nat) (indicator : QPoint) : Filter :=
  mkFilter tb nullPoint history next indicator.

(** [install(tb)]: a new filter [id] created as a child of the tool
    bar, installed ([installEventFilter] drops an earlier installation
    of the same object and puts it first), and drops accepted. *)
Definition install (o : ToolBarObject) (id : nat) : ToolBarObject :=
  mkToolBarObject (to_children o ++ [ChildFilter id]) (id :: filter (fun j => j <> id) (to_eventFilters o)) true.

(** [eventFilterOf(tb)]: the first child that is not a widget and is a
    [ToolBarEventFilter]. *)
Fixpoint eventFilterOf (children : list Child) : option nat :=
  match children with
  | [] => None
  | ChildFilter id :: _ => Some id
  | _ :: rest => eventFilterOf rest
  end.

Lemma eventFilterOf_app l1 l2 :
  eventFilterOf (l1 ++ l2) = match eventFilterOf l1 with Some x => Some x | None => eventFilterOf l2 end.
Proof. induction l1 as [|[| |] l1 IH]; cbn; auto. Qed.

(** Installing the filter on a tool bar that has none makes it the
    filter [eventFilterOf] finds, the first filter the tool bar's events
    go through, and makes the tool bar accept drops. *)
Theorem install_eventFilterOf (o : ToolBarObject) (id : nat) :
  eventFilterOf (to_children o) = None ->
  eventFilterOf (to_children (install o id)) = Some id /\
  head (to_eventFilters (install o id)) = Some id /\ to_acceptDrops (install o id) = true.
Proof. intros Hnone. cbn. by rewrite eventFilterOf_app, Hnone. Qed.

(** [install] does not look for a filter already there: a second
    installation adds a second filter that the tool bar's events go
    through first, while [eventFilterOf] still reports the first. *)
Lemma install_twice (o : ToolBarObject) (id0 id : nat) :
  eventFilterOf (to_children o) = Some id0 -> id <> id0 -> id0 ∈ to_eventFilters o ->
  eventFilterOf (to_children (install o id)) = Some id0 /\
  to_eventFilters (install o id) !! 0%nat = Some id /\ id0 ∈ to_eventFilters (install o id).
Proof.
  intros Hf Hne Hin. cbn. rewrite eventFilterOf_app, Hf. split_and!; [done|done|].
  right. apply list_elem_of_filter. split; [congruence|done].
Qed.

(** ** A tool bar to run the handlers on *)

(** Three actions 20 pixels wide from the left edge, the middle one a
    separator; the tool bar cannot be moved, so its handle area is the
    null rectangle. *)
Definition sample_action (n : nat) (sep : bool) (name : String.string) : TAction := mkTAction n sep (qs name) false true.
Definition actOpen := sample_action 1 false "actionOpen".
Definition actSep := sample_action 2 true "separator".
Definition actSave := sample_action 3 false "actionSave".
Definition actQuit := sample_action 7 false "actionQuit".

Definition sample_filter : Filter :=
  mkFilter (mkToolBar [actOpen; actSep; actSave] (qs "mainToolBar") Horizontal LeftToRight (100, 20) false)
    nullPoint [] 8 (-1, -1).

Definition sample_index (l : list TAction) (o : Orientation) (p : QPoint) : Z :=
  if (p.1 <? 0) || (Z.of_nat (length l) * 20 <=? p.1) then -1 else p.1 / 20.
Definition sample_handle : QRect := mkRect 0 0 (-1) (-1).
Definition sample_geometry (a : TAction) : QRect :=
  mkRect (20 * (Z.of_nat (ta_id a) - 1)) 0 (20 * Z.of_nat (ta_id a) - 1) 19.
Definition sample_unique (s : QString) : QString := s.

Lemma sample_filter_unique : actions_unique sample_filter.
Proof. apply (bool_decide_unpack _). reflexivity. Qed.

Lemma removeSelected_undo_witness :
  (actions_unique sample_filter /\ tb_actions (f_tb sample_filter) !! 1%nat = Some actSep) /\
  fw_undo (slotRemoveSelectedAction sample_filter actSep) = sample_filter.
Proof.
  split; [split; [exact sample_filter_unique|reflexivity]|].
  apply (removeSelected_undo _ 1); [exact sample_filter_unique|reflexivity].
Defined.

Lemma move_drag_ignored_restores_witness :
  (actions_unique sample_filter /\ index_of sample_index sample_filter (25, 5) = Z.of_nat 1 /\
   tb_actions (f_tb sample_filter) !! 1%nat = Some actSep /\
   Forall (fun e => is_drop e = false) [DEnterMove None (30, 5); DLeave]) /\
  (f_tb (startDrag sample_index sample_handle sample_geometry sample_filter (25, 5) false
           [DEnterMove None (30, 5); DLeave] true) = f_tb sample_filter /\
   f_history (startDrag sample_index sample_handle sample_geometry sample_filter (25, 5) false
           [DEnterMove None (30, 5); DLeave] true) =
     f_history sample_filter ++ [RemoveActionFrom actSep (tb_actions (f_tb sample_filter) !! S 1);
                                 InsertActionInto actSep (tb_actions (f_tb sample_filter) !! S 1)]).
Proof.
  split; [split_and!; [exact sample_filter_unique|reflexivity|reflexivity|repeat constructor]|].
  apply move_drag_ignored_restores; [exact sample_filter_unique|reflexivity|reflexivity|repeat constructor].
Defined.

Lemma insertSeparator_undo_witness :
  Forall (fun x => ta_id x < f_next sample_filter)%nat (tb_actions (f_tb sample_filter)) /\
  fw_undo (slotInsertSeparator sample_unique sample_filter (Some actSave)) =
    mkFilter (f_tb sample_filter) (f_start sample_filter) (f_history sample_filter)
      (S (f_next sample_filter)) (f_indicator sample_filter).
Proof.
  split; [repeat constructor; cbn; lia|].
  apply insertSeparator_undo. repeat constructor; cbn; lia.
Defined.

(** A drop of [actionQuit] on the separator. *)
Definition sample_dropped : Filter :=
  (eventFilter sample_index sample_handle sample_geometry 10 sample_unique sample_filter
     (Drop (Some [actQuit]) (25, 5))).2.

Lemma reachable_unique_witness :
  (rtc (filter_step sample_index sample_handle sample_geometry 10 sample_unique) sample_filter sample_dropped /\
   actions_unique sample_filter) /\ actions_unique sample_dropped.
Proof.
  assert (Hstep : rtc (filter_step sample_index sample_handle sample_geometry 10 sample_unique)
                    sample_filter sample_dropped) by (apply rtc_once; eexists; reflexivity).
  split; [split; [exact Hstep|exact sample_filter_unique]|].
  exact (reachable_unique _ _ _ _ _ _ _ Hstep sample_filter_unique).
Defined.

Lemma drop_on_action_inserts_witness :
  (actions_unique sample_filter /\ ta_id actQuit ∉ act_ids (tb_actions (f_tb sample_filter)) /\
   index_of sample_index sample_filter (25, 5) = Z.of_nat 1 /\ tb_actions (f_tb sample_filter) !! 1%nat = Some actSep) /\
  let r := handleDropEvent sample_index sample_handle sample_geometry sample_filter (Some [actQuit]) (25, 5) in
  r.1 = (true, true) /\
  tb_actions (f_tb r.2) = take 1 (tb_actions (f_tb sample_filter)) ++ actQuit :: drop 1 (tb_actions (f_tb sample_filter)) /\
  f_history r.2 = f_history sample_filter ++ [InsertActionInto actQuit (Some actSep)] /\
  f_indicator r.2 = (-1, -1).
Proof.
  assert (Hn : ta_id actQuit ∉ act_ids (tb_actions (f_tb sample_filter))) by (apply (bool_decide_unpack _); reflexivity).
  split; [split_and!; [exact sample_filter_unique|exact Hn|reflexivity|reflexivity]|].
  apply drop_on_action_inserts; [exact sample_filter_unique|exact Hn|reflexivity|reflexivity].
Defined.

Lemma drop_rejected_witness :
  (ta_id actQuit ∈ act_ids (tb_actions (f_tb sample_filter)) \/
   (index_of sample_index sample_filter (-5, 5) = -1 /\
    rect_contains (freeArea sample_handle sample_geometry (f_tb sample_filter)) (-5, 5) = false)) /\
  handleDropEvent sample_index sample_handle sample_geometry sample_filter (Some [actQuit]) (-5, 5) =
    (true, false, hideDragIndicator sample_filter).
Proof.
  split; [right; split; reflexivity|].
  apply drop_rejected. right. split; reflexivity.
Defined.

Lemma press_at_origin_never_drags_witness :
  withinHandleArea sample_handle (0, 0) = false /\
  let f' := (handleMousePressEvent sample_handle sample_filter LeftButton (0, 0)).2 in
  (handleMousePressEvent sample_handle sample_filter LeftButton (0, 0)).1 = true /\
  forall pos ctrl during ignored,
    handleMouseMoveEvent sample_index sample_handle sample_geometry 10 f' pos ctrl during ignored = (false, f').
Proof. split; [reflexivity|]. apply press_at_origin_never_drags. reflexivity. Defined.

Lemma press_and_drag_moves_action_witness :
  (actions_unique sample_filter /\ isNull (25, 5) = false /\ withinHandleArea sample_handle (25, 5) = false /\
   withinHandleArea sample_handle (45, 5) = false /\ 10 < manhattanLength (45 - 25, 5 - 5) /\
   index_of sample_index sample_filter (25, 5) = Z.of_nat 1 /\ tb_actions (f_tb sample_filter) !! 1%nat = Some actSep) /\
  let f1 := (handleMousePressEvent sample_handle sample_filter LeftButton (25, 5)).2 in
  let r := handleMouseMoveEvent sample_index sample_handle sample_geometry 10 f1 (45, 5) false [] false in
  r.1 = true /\
  tb_actions (f_tb r.2) = take 1 (tb_actions (f_tb sample_filter)) ++ drop (S 1) (tb_actions (f_tb sample_filter)) /\
  f_history r.2 = f_history sample_filter ++ [RemoveActionFrom actSep (tb_actions (f_tb sample_filter) !! S 1)] /\
  f_start r.2 = nullPoint.
Proof.
  split; [split_and!; [exact sample_filter_unique|reflexivity..|vm_compute; reflexivity|reflexivity|reflexivity]|].
  apply (press_and_drag_moves_action _ _ _ _ _ (25, 5) (45, 5) 1 actSep);
    [exact sample_filter_unique|reflexivity..|vm_compute; reflexivity|reflexivity|reflexivity].
Defined.

(** "Insert Separator before" is offered on an action that follows a
    separator, and gives two separators side by side. *)
Example insert_before_separator_doubles :
  InsertSeparatorBefore actSave ∈ contextMenuActions sample_index sample_filter (45, 5) /\
  ta_separator <$> tb_actions (f_tb (trigger sample_unique sample_filter (InsertSeparatorBefore actSave)))
    = [false; true; true; false].
Proof. split; [apply (bool_decide_unpack _)|]; reflexivity. Qed.

(** A tool bar with a button and a layout object, before [install]. *)
Definition sample_toolbar_object : ToolBarObject := mkToolBarObject [ChildWidget; ChildObject] [] false.

Lemma install_eventFilterOf_witness :
  eventFilterOf (to_children sample_toolbar_object) = None /\
  (eventFilterOf (to_children (install sample_toolbar_object 5)) = Some 5%nat /\
   head (to_eventFilters (install sample_toolbar_object 5)) = Some 5%nat /\
   to_acceptDrops (install sample_toolbar_object 5) = true).
Proof. split; [reflexivity|exact (install_eventFilterOf sample_toolbar_object 5 eq_refl)]. Defined.
