(* ===== verification/QmlPropertyNode.v ===== *)
(** qdoc's QML property node (src/src/qdoc/qmlpropertynode.cpp): the
    constructor, [isWritable], [isRequired] and
    [findCorrespondingCppProperty], which looks a QML property up in the
    C++ class that implements its QML type.  The node tree is seen from
    the property: the chain of its ancestors, nearest first, each a QML
    or JavaScript type or some other aggregate.  The C++ side
    ([ClassNode::findPropertyNode], [QDocDatabase::findClassNode] and
    qdoc's [extractClassName], none of them in the repository) are
    Section variables. *)

From S2P Require Import Prelude QtCore.
From Stdlib Require Strings.String.
Import String.StringSyntax.
Local Open Scope Z_scope.
Local Open Scope string_scope.

(** ** Nodes *)

Inductive NodeType := QmlProperty | JsProperty.

Inductive Status := Active | Internal.

(** [Node::FlagValue] and [Node::fromFlagValue]. *)
Inductive FlagValue := FlagValueDefault | FlagValueTrue | FlagValueFalse.

#[export] Instance FlagValue_eq_dec : EqDecision FlagValue.
Proof. solve_decision. Defined.

Definition fromFlagValue (fv : FlagValue) (defaultValue : bool) : bool :=
  match fv with
  | FlagValueTrue => true
  | FlagValueFalse => false
  | FlagValueDefault => defaultValue
  end.

(** A C++ class of the database, by its identity. *)
Definition ClassId : Type := nat.

(** A [QmlTypeNode] (or a JavaScript type): whether it is a JavaScript
    type, its C++ class ([classNode()]), whether it must have one
    ([cppClassRequired()]), its name and its module's name. *)
Record QmlTypeInfo := mkQmlType {
  qt_isJs : bool;
  qt_classNode : option ClassId;
  qt_cppClassRequired : bool;
  qt_name : QString;
  qt_logicalModuleName : QString
}.

(** An ancestor of the property: a QML or JavaScript type, or another
    aggregate. *)
Inductive Ancestor := AType (t : QmlTypeInfo) | AOther.

(** A C++ [PropertyNode]: [isWritable()], [isRequired()] and
    [qualifiedDataType()]. *)
Record PropertyInfo := mkProperty {
  p_writable : bool;
  p_required : bool;
  p_qualifiedDataType : QString
}.

Record QmlPropertyNode := mkQmlPropertyNode {
  qp_nodeType : NodeType;
  qp_ancestors : list Ancestor;
  qp_name : QString;
  qp_type : QString;
  qp_attached : bool;
  qp_isAlias : bool;
  qp_status : Status;
  qp_readOnly : FlagValue;
  qp_required : FlagValue
}.

(** The constructor: the parent decides between a QML and a JavaScript
    property; a property of type [alias] is an alias and a name starting
    with two underscores is internal.  [parent] is the new node's parent,
    [above] the parent's own ancestors. *)
Definition newQmlPropertyNode (parent : Ancestor) (above : list Ancestor) (name type : QString)
    (attached : bool) : QmlPropertyNode :=
  let isJsParent := match parent with AType t => qt_isJs t | AOther => false end in
  mkQmlPropertyNode (if isJsParent then JsProperty else QmlProperty) (parent :: above) name type attached
    (bool_decide (type = qs "alias"))
    (if qstartsWith name (qs "__") then Internal else Active)
    FlagValueDefault FlagValueDefault.

(** [while (n && !(n->isQmlType() || n->isJsType())) n = n->parent();]
    over the ancestor chain. *)
Fixpoint nearestType (chain : list Ancestor) : option QmlTypeInfo :=
  match chain with
  | [] => None
  | AType t :: _ => Some t
  | AOther :: rest => nearestType rest
  end.

(** [Node::qmlTypeNode()]: the same walk from the property. *)
Definition qmlTypeNode (p : QmlPropertyNode) : option QmlTypeInfo := nearestType (qp_ancestors p).

Definition dot : Z := 46.

(** The warnings [isWritable] emits on the property's location. *)
Inductive Warning :=
  | PropertyNotInClass (module type name : QString)
  | ClassNotFound (module type name : QString).

Section Lookup.
Local Set Default Proof Using "Type".
Variable findPropertyNode : ClassId -> QString -> option PropertyInfo.
Variable findClassNode : list QString -> option ClassId.
Variable extractClassName : QString -> QString.

(** What the comments of [findCorrespondingCppProperty] promise: the
    C++ property of a plain name in the class of the nearest QML type;
    for [<group>.<property>], the property of the group's type if there
    is one, otherwise the group's own C++ property. *)
Inductive corresponds (p : QmlPropertyNode) : PropertyInfo -> Prop :=
  | corr_plain qcn cn pn :
      nearestType (qp_ancestors p) = Some qcn -> qt_classNode qcn = Some cn ->
      qsplit dot (qp_name p) = [qp_name p] -> findPropertyNode cn (qp_name p) = Some pn ->
      corresponds p pn
  | corr_member qcn cn group member rest gp nn pn :
      nearestType (qp_ancestors p) = Some qcn -> qt_classNode qcn = Some cn ->
      qsplit dot (qp_name p) = group :: member :: rest -> findPropertyNode cn group = Some gp ->
      findClassNode [extractClassName (p_qualifiedDataType gp)] = Some nn ->
      findPropertyNode nn member = Some pn -> corresponds p pn
  | corr_group qcn cn group member rest gp :
      nearestType (qp_ancestors p) = Some qcn -> qt_classNode qcn = Some cn ->
      qsplit dot (qp_name p) = group :: member :: rest -> findPropertyNode cn group = Some gp ->
      (forall nn, findClassNode [extractClassName (p_qualifiedDataType gp)] = Some nn ->
                  findPropertyNode nn member = None) ->
      corresponds p gp.

(** The case the code handles otherwise: the group property is found but
    its type is not a class of the database. *)
Definition group_class_unknown (p : QmlPropertyNode) : Prop :=
  exists qcn cn group member rest gp,
    nearestType (qp_ancestors p) = Some qcn /\ qt_classNode qcn = Some cn /\
    qsplit dot (qp_name p) = group :: member :: rest /\ findPropertyNode cn group = Some gp /\
    findClassNode [extractClassName (p_qualifiedDataType gp)] = None.

(** [findCorrespondingCppProperty] *)
Definition findCorrespondingCppProperty (p : QmlPropertyNode) : option PropertyInfo :=
  match nearestType (qp_ancestors p) with
  | None => None
  | Some qcn =>
      match qt_classNode qcn with
      | None => None
      | Some cn =>
          match qsplit dot (qp_name p) with
          | [] => None
          | group :: rest =>
              match findPropertyNode cn group with
              | None => None
              | Some pn =>
                  match rest with
                  | member :: _ =>
                      match findClassNode [extractClassName (p_qualifiedDataType pn)] with
                      | Some nn =>
                          match findPropertyNode nn member with
                          | Some pn2 => Some pn2
                          | None => Some pn
                          end
                      | None => None
                      end
                  | [] => Some pn
                  end
              end
          end
      end
  end.

(** [isWritable]: the result and the warnings it emits. *)
Definition isWritable (p : QmlPropertyNode) : bool * list Warning :=
  if bool_decide (qp_readOnly p <> FlagValueDefault) then (negb (fromFlagValue (qp_readOnly p) false), [])
  else
    match qmlTypeNode p with
    | Some qcn =>
        if qt_cppClassRequired qcn then
          match qt_classNode qcn with
          | Some _ =>
              match findCorrespondingCppProperty p with
              | Some pn => (p_writable pn, [])
              | None => (true, [PropertyNotInClass (qt_logicalModuleName qcn) (qt_name qcn) (qp_name p)])
              end
          | None => (true, [ClassNotFound (qt_logicalModuleName qcn) (qt_name qcn) (qp_name p)])
          end
        else (true, [])
    | None => (true, [])
    end.

(** [isRequired] *)
Definition isRequired (p : QmlPropertyNode) : bool :=
  if bool_decide (qp_required p <> FlagValueDefault) then fromFlagValue (qp_required p) false
  else match findCorrespondingCppProperty p with
       | Some pn => p_required pn
       | None => false
       end.

(** ** Lemmas *)

(** The lookup succeeds only through the class of the nearest type. *)
Lemma findCorresponding_class p pn : findCorrespondingCppProperty p = Some pn ->
  exists qcn cn, nearestType (qp_ancestors p) = Some qcn /\ qt_classNode qcn = Some cn.
Proof. unfold findCorrespondingCppProperty. repeat case_match; try done; eauto. Qed.

(** The lookup, branch by branch, from the nearest type's class. *)
Lemma findCorresponding_at p qcn cn :
  nearestType (qp_ancestors p) = Some qcn -> qt_classNode qcn = Some cn ->
  findCorrespondingCppProperty p =
    match qsplit dot (qp_name p) with
    | [] => None
    | group :: rest =>
        match findPropertyNode cn group with
        | None => None
        | Some pn =>
            match rest with
            | member :: _ =>
                match findClassNode [extractClassName (p_qualifiedDataType pn)] with
                | Some nn => Some (default pn (findPropertyNode nn member))
                | None => None
                end
            | [] => Some pn
            end
        end
    end.
Proof.
  intros Ht Hc. unfold findCorrespondingCppProperty. rewrite Ht, Hc.
  repeat case_match; simplify_eq/=; done.
Qed.

(** ** Properties *)

(** C10: [findCorrespondingCppProperty] implements what its comments
    promise (a plain name's property in the nearest QML type's class; for
    [group.member] the member's property in the group's class, or else
    the group's property) everywhere except where the group's type is not
    a known class: there it finds nothing. *)
Theorem findCorresponding_refines p pn :
  findCorrespondingCppProperty p = Some pn <-> corresponds p pn /\ ~ group_class_unknown p.
Proof.
  split.
  - intros H. destruct (findCorresponding_class p pn H) as (qcn & cn & Ht & Hc).
    rewrite (findCorresponding_at p qcn cn Ht Hc) in H.
    destruct (qsplit dot (qp_name p)) as [|group [|member rest]] eqn:Hs; [done| |];
      destruct (findPropertyNode cn group) as [gp|] eqn:Hg; try done.
    + injection H as <-. pose proof (qsplit_single _ _ _ Hs) as ->. split.
      * by eapply corr_plain.
      * intros (q' & c' & g' & m' & r' & gp' & Ht' & Hc' & Hs' & _). congruence.
    + destruct (findClassNode _) as [nn|] eqn:Hn; [|done]. split.
      * destruct (findPropertyNode nn member) as [pn2|] eqn:Hm; cbn in H; injection H as <-.
        -- by eapply corr_member.
        -- eapply corr_group; eauto. intros nn' Hn'. congruence.
      * intros (q' & c' & g' & m' & r' & gp' & Ht' & Hc' & Hs' & Hg' & Hn'). simplify_eq. congruence.
  - intros [Hc Hu]. destruct Hc as [qcn cn pn Ht Hc Hs Hp|qcn cn group member rest gp nn pn Ht Hc Hs Hg Hn Hm
                                    |qcn cn group member rest gp Ht Hc Hs Hg Hnone];
      rewrite (findCorresponding_at p qcn cn Ht Hc), Hs.
    + cbn. by rewrite Hp.
    + by rewrite Hg, Hn, Hm.
    + rewrite Hg. destruct (findClassNode _) as [nn|] eqn:Hn.
      * by rewrite (Hnone nn eq_refl).
      * exfalso. apply Hu. exists qcn, cn, group, member, rest, gp. done.
Qed.

(** C13: [isWritable] says no exactly when the read-only flag says so,
    or, with no flag, when the nearest QML type requires a C++ class and
    the corresponding C++ property is not writable. *)
Theorem isWritable_false_iff p :
  (isWritable p).1 = false <->
  qp_readOnly p = FlagValueTrue \/
  (qp_readOnly p = FlagValueDefault /\
   exists qcn pn, qmlTypeNode p = Some qcn /\ qt_cppClassRequired qcn = true /\
     findCorrespondingCppProperty p = Some pn /\ p_writable pn = false).
Proof.
  unfold isWritable. case_bool_decide as Hf.
  - destruct (qp_readOnly p); cbn; [done| |]; naive_solver.
  - try apply dec_stable in Hf. rewrite Hf.
    destruct (qmlTypeNode p) as [qcn|] eqn:Ht; [|naive_solver].
    destruct (qt_cppClassRequired qcn) eqn:Hreq; [|naive_solver].
    destruct (findCorrespondingCppProperty p) as [pn|] eqn:Hfc.
    + destruct (findCorresponding_class p pn Hfc) as (q' & cn & Ht' & Hc').
      unfold qmlTypeNode in Ht. rewrite Ht' in Ht. injection Ht as <-. rewrite Hc'. cbn. naive_solver.
    + destruct (qt_classNode qcn); cbn; naive_solver.
Qed.

(** C33: when the group's type is not a class of the database, the
    group's own C++ property is what the comments promise, but
    [findCorrespondingCppProperty] returns nothing, and [isWritable] of a
    QML type that requires a C++ class then warns that the property is
    missing and calls it writable. *)
Theorem group_fallback_lost p qcn cn group member rest gp :
  nearestType (qp_ancestors p) = Some qcn -> qt_classNode qcn = Some cn ->
  qsplit dot (qp_name p) = group :: member :: rest -> findPropertyNode cn group = Some gp ->
  findClassNode [extractClassName (p_qualifiedDataType gp)] = None ->
  corresponds p gp /\ findCorrespondingCppProperty p = None /\
  (qp_readOnly p = FlagValueDefault -> qt_cppClassRequired qcn = true ->
   isWritable p = (true, [PropertyNotInClass (qt_logicalModuleName qcn) (qt_name qcn) (qp_name p)])).
Proof.
  intros Ht Hc Hs Hg Hn.
  assert (Hf : findCorrespondingCppProperty p = None)
    by (by rewrite (findCorresponding_at p qcn cn Ht Hc), Hs, Hg, Hn).
  split_and!; [eapply corr_group; eauto; congruence|done|].
  intros Hr Hreq. unfold isWritable, qmlTypeNode. rewrite Hr, bool_decide_false by tauto.
  by rewrite Ht, Hreq, Hc, Hf.
Qed.

(** Only the first two parts of a dotted name count: a property
    [a.b.c] is looked up as [a.b]. *)
Theorem only_two_parts_matter p p' group member rest :
  qsplit dot (qp_name p) = group :: member :: rest ->
  qp_ancestors p' = qp_ancestors p -> qp_name p' = group ++ dot :: member ->
  findCorrespondingCppProperty p' = findCorrespondingCppProperty p.
Proof.
  intros Hs Ha Hn.
  assert (Hs' : qsplit dot (qp_name p') = [group; member]).
  { rewrite Hn, qsplit_app, qsplit_no_sep; [done| |]; apply (qsplit_parts _ (qp_name p)); rewrite Hs, !elem_of_cons; tauto. }
  unfold findCorrespondingCppProperty. by rewrite Ha, Hs, Hs'.
Qed.

(** [isWritable] emits a warning, and then exactly one, when no
    read-only flag is set, the nearest QML type requires a C++ class and
    no corresponding C++ property is found. *)
Theorem isWritable_warns p :
  (length (isWritable p).2 <= 1)%nat /\
  ((isWritable p).2 <> [] <->
   qp_readOnly p = FlagValueDefault /\
   exists qcn, qmlTypeNode p = Some qcn /\ qt_cppClassRequired qcn = true /\ findCorrespondingCppProperty p = None).
Proof.
  unfold isWritable. case_bool_decide as Hf.
  - split; [cbn; lia|]. split; [done|]. intros [Hd _]. by rewrite Hd in Hf.
  - try apply dec_stable in Hf. rewrite Hf.
    destruct (qmlTypeNode p) as [qcn|] eqn:Ht.
    2:{ split; [cbn; lia|]. split; [done|]. by intros (_ & q & [=] & _). }
    destruct (qt_cppClassRequired qcn) eqn:Hreq.
    2:{ split; [cbn; lia|]. split; [done|]. intros (_ & q & [= <-] & Hq & _). congruence. }
    destruct (qt_classNode qcn) as [cn|] eqn:Hc.
    + destruct (findCorrespondingCppProperty p) as [pn|] eqn:Hfc; (split; [cbn; lia|]).
      * split; [done|]. by intros (_ & q & _ & _ & ?).
      * split; [|done]. intros _. split; [done|]. by exists qcn.
    + assert (findCorrespondingCppProperty p = None).
      { unfold findCorrespondingCppProperty. unfold qmlTypeNode in Ht. by rewrite Ht, Hc. }
      split; [cbn; lia|]. split; [|done]. intros _. split; [done|]. by exists qcn.
Qed.

(** [isRequired] follows the [\required] flag, and without one the
    corresponding C++ property's [REQUIRED]. *)
Theorem isRequired_iff p :
  isRequired p = true <->
  qp_required p = FlagValueTrue \/
  (qp_required p = FlagValueDefault /\ exists pn, findCorrespondingCppProperty p = Some pn /\ p_required pn = true).
Proof.
  unfold isRequired. case_bool_decide as Hf.
  - destruct (qp_required p); cbn; naive_solver.
  - try apply dec_stable in Hf. rewrite Hf. destruct (findCorrespondingCppProperty p); naive_solver.
Qed.
End Lookup.

(** ** A QML type to look properties up in *)

(** [Text] of [QtQuick], implemented by the C++ class 1 with the
    properties [font] (a [QFont], class 2, with [pixelSize]) and
    [anchors] (a [QQuickAnchors*], not a class of the database). *)
Definition fontProp := mkProperty true false (qs "QFont").
Definition anchorsProp := mkProperty false true (qs "QQuickAnchors*").
Definition pixelSizeProp := mkProperty true false (qs "int").

Definition sample_findPropertyNode (c : ClassId) (n : QString) : option PropertyInfo :=
  if (c =? 1)%nat then
    if bool_decide (n = qs "font") then Some fontProp
    else if bool_decide (n = qs "anchors") then Some anchorsProp else None
  else if (c =? 2)%nat then
    if bool_decide (n = qs "pixelSize") then Some pixelSizeProp else None
  else None.

Definition sample_findClassNode (path : list QString) : option ClassId :=
  if bool_decide (path = [qs "QFont"]) then Some 2%nat else None.

(** Drops the pointer star. *)
Definition sample_extractClassName (t : QString) : QString := filter (fun c => c <> 42) t.

Definition textType := mkQmlType false (Some 1%nat) true (qs "Text") (qs "QtQuick").

Definition textProperty (name : String.string) : QmlPropertyNode :=
  newQmlPropertyNode (AType textType) [] (qs name) (qs "real") false.

Lemma group_fallback_lost_witness :
  (nearestType (qp_ancestors (textProperty "anchors.fill")) = Some textType /\
   qt_classNode textType = Some 1%nat /\
   qsplit dot (qp_name (textProperty "anchors.fill")) = qs "anchors" :: qs "fill" :: [] /\
   sample_findPropertyNode 1%nat (qs "anchors") = Some anchorsProp /\
   sample_findClassNode [sample_extractClassName (p_qualifiedDataType anchorsProp)] = None) /\
  (corresponds sample_findPropertyNode sample_findClassNode sample_extractClassName
     (textProperty "anchors.fill") anchorsProp /\
   findCorrespondingCppProperty sample_findPropertyNode sample_findClassNode sample_extractClassName
     (textProperty "anchors.fill") = None /\
   (qp_readOnly (textProperty "anchors.fill") = FlagValueDefault -> qt_cppClassRequired textType = true ->
    isWritable sample_findPropertyNode sample_findClassNode sample_extractClassName (textProperty "anchors.fill") =
      (true, [PropertyNotInClass (qt_logicalModuleName textType) (qt_name textType)
                (qp_name (textProperty "anchors.fill"))]))).
Proof.
  split; [split_and!; reflexivity|].
  apply group_fallback_lost with (cn := 1%nat) (group := qs "anchors") (member := qs "fill") (rest := []); reflexivity.
Defined.

Lemma only_two_parts_matter_witness :
  (qsplit dot (qp_name (textProperty "font.pixelSize.x")) = qs "font" :: qs "pixelSize" :: [qs "x"] /\
   qp_ancestors (textProperty "font.pixelSize") = qp_ancestors (textProperty "font.pixelSize.x") /\
   qp_name (textProperty "font.pixelSize") = qs "font" ++ dot :: qs "pixelSize") /\
  findCorrespondingCppProperty sample_findPropertyNode sample_findClassNode sample_extractClassName
    (textProperty "font.pixelSize") =
  findCorrespondingCppProperty sample_findPropertyNode sample_findClassNode sample_extractClassName
    (textProperty "font.pixelSize.x").
Proof.
  split; [split_and!; reflexivity|].
  eapply only_two_parts_matter; reflexivity.
Defined.

(** [font.pixelSize] finds the member in [QFont]. *)
Example font_pixelSize_found :
  findCorrespondingCppProperty sample_findPropertyNode sample_findClassNode sample_extractClassName
    (textProperty "font.pixelSize") = Some pixelSizeProp.
Proof. reflexivity. Qed.
