(* ===== verification/PropertySheet.v ===== *)
(** Designer's property sheets: the interface
    [QDesignerPropertySheetExtension] as a class [PropertySheet] with its
    laws [PropertySheetLaws], the base sheet [QDesignerPropertySheet]
    (not in the repository: modelled from its documented behaviour) as
    an instance, and [QLayoutWidgetPropertySheet]
    (src/src/designer/src/components/formeditor/qlayoutwidget_propertysheet.cpp),
    which delegates to the base sheet and overrides [isVisible] and
    [dynamicPropertiesAllowed], as a second instance.  The property
    editor is a client written against the class. *)

From S2P Require Import Prelude QtCore.
From stdpp Require Import relations.
From Stdlib Require Strings.String.
Import String.StringSyntax.
Local Open Scope string_scope.

(** ** The interface *)

(** The values the sheet stores ([QVariant], the cases the editor uses). *)
Inductive Value := VInt (z : Z) | VString (s : QString) | VBool (b : bool).

(** [QDesignerPropertySheetExtension]: the members the layout sheet
    touches and the property editor reads. *)
Class PropertySheet (S : Type) := {
  ps_count : S -> nat;
  ps_propertyGroup : S -> nat -> QString;
  ps_setPropertyGroup : S -> nat -> QString -> S;
  ps_isVisible : S -> nat -> bool;
  ps_setVisible : S -> nat -> bool -> S;
  ps_property : S -> nat -> option Value;
  ps_setProperty : S -> nat -> Value -> S;
  ps_dynamicPropertiesAllowed : S -> bool
}.

(** What a sheet promises the editor: a property set is read back, the
    other properties and the groups are left alone, and only existing
    properties are visible. *)
Class PropertySheetLaws (S : Type) `{PropertySheet S} := {
  count_setProperty s i v : ps_count (ps_setProperty s i v) = ps_count s;
  property_setProperty s i v : (i < ps_count s)%nat -> ps_property (ps_setProperty s i v) i = Some v;
  property_setProperty_other s i j v : i <> j -> ps_property (ps_setProperty s i v) j = ps_property s j;
  group_setProperty s i j v : ps_propertyGroup (ps_setProperty s i v) j = ps_propertyGroup s j;
  visible_in_range s i : ps_isVisible s i = true -> (i < ps_count s)%nat
}.

(** ** The base sheet [QDesignerPropertySheet] *)

(** A property: its name, group, visibility, and whether it is a fake
    property (no [Q_PROPERTY] of the object backs it) with its value;
    the values of fake properties live in [m_fakeProperties]. *)
Record PropertyEntry := mkEntry {
  pe_name : QString;
  pe_group : QString;
  pe_visible : bool;
  pe_fake : bool;
  pe_value : option Value
}.

Record DesignerSheet := mkDesignerSheet {
  ds_entries : list PropertyEntry;
  ds_fakeProperties : list (nat * Value);
  ds_dynamic : bool
}.

Definition set_entry (s : DesignerSheet) (i : nat) (f : PropertyEntry -> PropertyEntry) : DesignerSheet :=
  mkDesignerSheet (alter f i (ds_entries s)) (ds_fakeProperties s) (ds_dynamic s).

(** [m_fakeProperties[index] = value]: the newest binding first. *)
Definition fake_insert (i : nat) (v : Value) (m : list (nat * Value)) : list (nat * Value) :=
  (i, v) :: filter (fun kv => kv.1 <> i) m.

(** [m_fakeProperties.value(index)]: invalid when absent. *)
Fixpoint fake_lookup (i : nat) (m : list (nat * Value)) : option Value :=
  match m with
  | [] => None
  | (k, v) :: r => if decide (k = i) then Some v else fake_lookup i r
  end.

Definition ds_property (s : DesignerSheet) (i : nat) : option Value :=
  match ds_entries s !! i with
  | Some e => if pe_fake e then fake_lookup i (ds_fakeProperties s) else pe_value e
  | None => None
  end.

Definition ds_setProperty (s : DesignerSheet) (i : nat) (v : Value) : DesignerSheet :=
  match ds_entries s !! i with
  | Some e =>
      if pe_fake e then mkDesignerSheet (ds_entries s) (fake_insert i v (ds_fakeProperties s)) (ds_dynamic s)
      else set_entry s i (fun e => mkEntry (pe_name e) (pe_group e) (pe_visible e) false (Some v))
  | None => s
  end.

Definition ds_isVisible (s : DesignerSheet) (i : nat) : bool :=
  match ds_entries s !! i with Some e => pe_visible e | None => false end.

(** [QDesignerPropertySheet::clearFakeProperties] *)
Definition clearFakeProperties (s : DesignerSheet) : DesignerSheet :=
  mkDesignerSheet (ds_entries s) [] (ds_dynamic s).

#[export] Instance DesignerSheet_sheet : PropertySheet DesignerSheet := {
  ps_count s := length (ds_entries s);
  ps_propertyGroup s i := default [] (pe_group <$> ds_entries s !! i);
  ps_setPropertyGroup s i g :=
    set_entry s i (fun e => mkEntry (pe_name e) g (pe_visible e) (pe_fake e) (pe_value e));
  ps_isVisible := ds_isVisible;
  ps_setVisible s i b :=
    set_entry s i (fun e => mkEntry (pe_name e) (pe_group e) b (pe_fake e) (pe_value e));
  ps_property := ds_property;
  ps_setProperty := ds_setProperty;
  ps_dynamicPropertiesAllowed := ds_dynamic
}.

(** ** [QLayoutWidgetPropertySheet] *)

Record LayoutSheet := mkLayoutSheet { ls_base : DesignerSheet }.

(** The constructor: the base sheet of the layout widget, with its fake
    properties cleared. *)
Definition newLayoutWidgetPropertySheet (base : DesignerSheet) : LayoutSheet :=
  mkLayoutSheet (clearFakeProperties base).

Definition layoutPropertyGroup : QString := qs "Layout".

(** [isVisible]: only the properties of the [Layout] group, and those
    only when the base sheet shows them. *)
Definition ls_isVisible (s : LayoutSheet) (index : nat) : bool :=
  if bool_decide (ps_propertyGroup (ls_base s) index = layoutPropertyGroup)
  then ps_isVisible (ls_base s) index
  else false.

(** [setProperty]: the base sheet's. *)
Definition ls_setProperty (s : LayoutSheet) (index : nat) (value : Value) : LayoutSheet :=
  mkLayoutSheet (ps_setProperty (ls_base s) index value).

(** [dynamicPropertiesAllowed]: never. *)
Definition ls_dynamicPropertiesAllowed (s : LayoutSheet) : bool := false.

#[export] Instance LayoutSheet_sheet : PropertySheet LayoutSheet := {
  ps_count s := ps_count (ls_base s);
  ps_propertyGroup s := ps_propertyGroup (ls_base s);
  ps_setPropertyGroup s i g := mkLayoutSheet (ps_setPropertyGroup (ls_base s) i g);
  ps_isVisible := ls_isVisible;
  ps_setVisible s i b := mkLayoutSheet (ps_setVisible (ls_base s) i b);
  ps_property s := ps_property (ls_base s);
  ps_setProperty := ls_setProperty;
  ps_dynamicPropertiesAllowed := ls_dynamicPropertiesAllowed
}.

(** ** The property editor, written against the interface *)

(** What the editor does to a sheet. *)
Inductive SheetOp :=
  | OpSetProperty (i : nat) (v : Value)
  | OpSetGroup (i : nat) (g : QString)
  | OpSetVisible (i : nat) (b : bool).

Definition apply_op {S} `{PropertySheet S} (s : S) (op : SheetOp) : S :=
  match op with
  | OpSetProperty i v => ps_setProperty s i v
  | OpSetGroup i g => ps_setPropertyGroup s i g
  | OpSetVisible i b => ps_setVisible s i b
  end.

Definition sheet_step {S} `{PropertySheet S} (s s' : S) : Prop := exists op, apply_op s op = s'.

(** The rows the property editor shows: the visible properties. *)
Definition shownProperties {S} `{PropertySheet S} (s : S) : list nat :=
  filter (fun i => ps_isVisible s i = true) (seq 0 (ps_count s)).

(** ** Lemmas on the base sheet *)

Lemma fake_lookup_insert i v m : fake_lookup i (fake_insert i v m) = Some v.
Proof. cbn. by rewrite decide_True. Qed.

Lemma fake_lookup_filter i j m : i <> j -> fake_lookup j (filter (fun kv => kv.1 <> i) m) = fake_lookup j m.
Proof.
  intros Hij. induction m as [|[k w] m IH]; [done|]. rewrite filter_cons. cbn.
  case_decide as Hk; cbn; case_decide; subst; try done; congruence.
Qed.

Lemma fake_lookup_insert_other i j v m : i <> j -> fake_lookup j (fake_insert i v m) = fake_lookup j m.
Proof. intros Hij. cbn. rewrite decide_False by done. by apply fake_lookup_filter. Qed.

Lemma entries_setProperty s i v : length (ds_entries (ds_setProperty s i v)) = length (ds_entries s) /\
  forall j, pe_group <$> ds_entries (ds_setProperty s i v) !! j = pe_group <$> ds_entries s !! j.
Proof.
  unfold ds_setProperty. destruct (ds_entries s !! i) as [e|] eqn:He; [|done].
  destruct (pe_fake e); [done|]. unfold set_entry. cbn [ds_entries]. rewrite length_alter. split; [done|].
  intros j. destruct (decide (i = j)) as [->|Hij].
  - rewrite list_lookup_alter, decide_True by done. by rewrite He.
  - by rewrite list_lookup_alter_ne.
Qed.

#[export] Instance DesignerSheet_laws : PropertySheetLaws DesignerSheet.
Proof.
  split; cbn.
  - intros s i v. apply entries_setProperty.
  - intros s i v Hi. unfold ds_property, ds_setProperty.
    destruct (ds_entries s !! i) as [e|] eqn:He; [|apply lookup_ge_None in He; lia].
    destruct (pe_fake e) eqn:Hf; cbn; rewrite ?He, ?Hf; [apply fake_lookup_insert|].
    unfold set_entry. cbn [ds_entries]. by rewrite list_lookup_alter, decide_True, He.
  - intros s i j v Hij. unfold ds_property, ds_setProperty.
    destruct (ds_entries s !! i) as [e|] eqn:He; [|done].
    destruct (pe_fake e); cbn.
    + destruct (ds_entries s !! j) as [ej|]; [|done]. destruct (pe_fake ej); [|done].
      by apply fake_lookup_insert_other.
    + by rewrite list_lookup_alter_ne.
  - intros s i j v. by rewrite (proj2 (entries_setProperty s i v) j).
  - intros s i. unfold ds_isVisible. destruct (ds_entries s !! i) eqn:He; [|done].
    intros _. apply lookup_lt_is_Some. eauto.
Qed.

(** ** The layout sheet *)

Lemma ls_isVisible_base s i : ls_isVisible s i = true -> ps_isVisible (ls_base s) i = true.
Proof. unfold ls_isVisible. by case_bool_decide. Qed.

(** The layout sheet keeps the promises of the base sheet: it inherits
    them through delegation, and hides more. *)
#[export] Instance LayoutSheet_laws : PropertySheetLaws LayoutSheet.
Proof.
  split.
  - intros s i v. exact (count_setProperty (S:=DesignerSheet) (ls_base s) i v).
  - intros s i v. exact (property_setProperty (S:=DesignerSheet) (ls_base s) i v).
  - intros s i j v. exact (property_setProperty_other (S:=DesignerSheet) (ls_base s) i j v).
  - intros s i j v. exact (group_setProperty (S:=DesignerSheet) (ls_base s) i j v).
  - intros s i H. exact (visible_in_range (S:=DesignerSheet) (ls_base s) i (ls_isVisible_base s i H)).
Qed.

(** A client of the interface: what the editor writes, it reads back. *)
Lemma editor_write_read {S} `{PropertySheetLaws S} (s : S) i j v :
  (i < ps_count s)%nat ->
  ps_property (ps_setProperty s i v) j = if decide (i = j) then Some v else ps_property s j.
Proof. intros Hi. case_decide; subst; [by apply property_setProperty|by apply property_setProperty_other]. Qed.

Lemma ls_apply_op s op : ls_base (apply_op s op) = apply_op (ls_base s) op.
Proof. by destruct op. Qed.

(** ** Properties *)

(** The property editor shows of a layout widget exactly the rows of
    the [Layout] group that the base sheet shows: [isVisible] filters
    the base sheet's visible properties by group. *)
Theorem layout_shown_properties s :
  shownProperties s =
    filter (fun i => ps_propertyGroup (ls_base s) i = layoutPropertyGroup) (shownProperties (ls_base s)).
Proof.
  unfold shownProperties. rewrite list_filter_filter. apply list_filter_iff.
  intros i. cbn. unfold ls_isVisible. case_bool_decide; naive_solver.
Qed.

(** [QLayoutWidgetPropertySheet] simulates the base sheet: along any
    sequence of the editor's operations its base sheet is the base sheet
    the same operations give, so values, groups and visibility flags are
    stored exactly as the base sheet stores them. *)
Theorem layout_simulates_base (ops : list SheetOp) (s : LayoutSheet) :
  ls_base (fold_left apply_op ops s) = fold_left apply_op ops (ls_base s).
Proof.
  revert s. induction ops as [|op ops IH]; intros s; [done|]. cbn. by rewrite IH, ls_apply_op.
Qed.

(** Along every sequence of the editor's operations on a new layout
    widget sheet, dynamic properties stay forbidden, no property outside
    the [Layout] group is shown, and the base sheet underneath is one the
    same operations reach from the base with its fake properties
    cleared. *)
Theorem layout_sheet_safe (base : DesignerSheet) (s : LayoutSheet) :
  rtc sheet_step (newLayoutWidgetPropertySheet base) s ->
  ps_dynamicPropertiesAllowed s = false /\
  (forall i, i ∈ shownProperties s -> ps_propertyGroup s i = layoutPropertyGroup) /\
  rtc sheet_step (clearFakeProperties base) (ls_base s).
Proof.
  intros Hr. split_and!; [done| |].
  - intros i. rewrite layout_shown_properties, list_elem_of_filter. tauto.
  - apply (rtc_ind_r (R:=sheet_step) (fun s => rtc sheet_step (clearFakeProperties base) (ls_base s)) (newLayoutWidgetPropertySheet base)); [done| |done].
    intros y z _ [op <-] Hy. eapply rtc_r; [exact Hy|]. exists op. by rewrite ls_apply_op.
Qed.

(** A new layout sheet has no fake property values: the fake properties
    read as invalid until the editor sets them. *)
Lemma newLayoutSheet_fake_cleared (base : DesignerSheet) i e :
  ds_entries base !! i = Some e -> pe_fake e = true ->
  ps_property (newLayoutWidgetPropertySheet base) i = None.
Proof. intros He Hf. unfold ps_property; cbn. unfold ds_property. cbn [ds_entries clearFakeProperties]. by rewrite He, Hf. Qed.

(** ** A layout widget's sheet *)

(** [layoutLeftMargin] of the [Layout] group, [objectName] of [QObject],
    and the fake property [layoutName]. *)
Definition sample_base : DesignerSheet :=
  mkDesignerSheet
    [mkEntry (qs "layoutLeftMargin") (qs "Layout") true false (Some (VInt 9));
     mkEntry (qs "objectName") (qs "QObject") true false (Some (VString (qs "layoutWidget")));
     mkEntry (qs "layoutName") (qs "Layout") true true None]
    [(2%nat, VString (qs "horizontalLayout"))] true.

Definition sample_edited : LayoutSheet :=
  apply_op (newLayoutWidgetPropertySheet sample_base) (OpSetProperty 0 (VInt 6)).

Lemma layout_sheet_safe_witness :
  rtc sheet_step (newLayoutWidgetPropertySheet sample_base) sample_edited /\
  (ps_dynamicPropertiesAllowed sample_edited = false /\
   (forall i, i ∈ shownProperties sample_edited -> ps_propertyGroup sample_edited i = layoutPropertyGroup) /\
   rtc sheet_step (clearFakeProperties sample_base) (ls_base sample_edited)).
Proof.
  assert (Hs : rtc sheet_step (newLayoutWidgetPropertySheet sample_base) sample_edited)
    by (apply rtc_once; exists (OpSetProperty 0 (VInt 6)); reflexivity).
  split; [exact Hs|]. exact (layout_sheet_safe sample_base sample_edited Hs).
Defined.

(** The base sheet shows the [objectName] row, the layout sheet hides it. *)
Example sample_rows :
  shownProperties (ls_base sample_edited) = [0; 1; 2]%nat /\ shownProperties sample_edited = [0; 2]%nat.
Proof. split; reflexivity. Qed.
