(* ===== verification/WidgetBox.v ===== *)
(** Designer's widget box interface
    (src/src/designer/src/lib/sdk/abstractwidgetbox.h) and task menu
    extension (src/src/designer/src/lib/sdk/taskmenu.h).  The value
    classes [Widget] and [Category] with their inline members are
    records and functions; the abstract class
    [QDesignerWidgetBoxInterface] is the type class [WidgetBoxInterface]
    with the contract [WidgetBoxLaws] its implementations keep;
    [findOrInsertCategory] (declared in the header, defined in
    abstractwidgetbox.cpp) is a client proved against the class; a widget
    box kept as a list of categories is an instance.  The implementation
    in designer's widget box component is not in the repository. *)

From S2P Require Import Prelude QtCore.
From Stdlib Require Strings.String.
Import String.StringSyntax.
Local Open Scope string_scope.

(** ** [QDesignerWidgetBoxInterface::Widget] *)

Inductive WidgetType := WDefault | WCustom.

(** The widget's shared data: name, DOM XML, icon name and type. *)
Record BoxWidget := mkBoxWidget {
  bw_name : QString;
  bw_domXml : QString;
  bw_iconName : QString;
  bw_type : WidgetType
}.

(** [Widget(aname = QString(), xml = QString(), icon_name = QString(),
    atype = Default)] *)
Definition newBoxWidget (aname xml icon_name : QString) (atype : WidgetType) : BoxWidget :=
  mkBoxWidget aname xml icon_name atype.

Definition nullBoxWidget : BoxWidget := newBoxWidget [] [] [] WDefault.

(** [Widget::isNull]: no name. *)
Definition bw_isNull (w : BoxWidget) : bool := bool_decide (bw_name w = []).

(** ** [QDesignerWidgetBoxInterface::Category] *)

Inductive CategoryType := CDefault | Scratchpad.

#[export] Instance CategoryType_eq_dec : EqDecision CategoryType.
Proof. solve_decision. Defined.

Record Category := mkCategory {
  c_name : QString;
  c_type : CategoryType;
  c_widgets : list BoxWidget
}.

(** [Category(aname = QString(), atype = Default)]: no widgets. *)
Definition newCategory (aname : QString) (atype : CategoryType) : Category := mkCategory aname atype [].

Definition setName (c : Category) (aname : QString) : Category := mkCategory aname (c_type c) (c_widgets c).

Definition widgetCount (c : Category) : nat := length (c_widgets c).

(** [widget(idx)]: [QList::at], which asserts a valid index. *)
Definition widget (c : Category) (idx : nat) : option BoxWidget := c_widgets c !! idx.

(** [removeWidget(idx)]: [QList::removeAt], which asserts a valid index. *)
Definition removeWidget (c : Category) (idx : nat) : option Category :=
  if decide (idx < length (c_widgets c))%nat
  then Some (mkCategory (c_name c) (c_type c) (take idx (c_widgets c) ++ drop (S idx) (c_widgets c)))
  else None.

(** [addWidget]: [QList::append]. *)
Definition addWidget (c : Category) (w : BoxWidget) : Category :=
  mkCategory (c_name c) (c_type c) (c_widgets c ++ [w]).

Definition setType (c : Category) (atype : CategoryType) : Category := mkCategory (c_name c) atype (c_widgets c).

(** [isNull]: no name. *)
Definition c_isNull (c : Category) : bool := bool_decide (c_name c = []).

(** ** [QDesignerWidgetBoxInterface] *)

(** The pure virtual members, file and drop handling apart. *)
Class WidgetBoxInterface (B : Type) := {
  categoryCount : B -> nat;
  category : B -> nat -> option Category;
  addCategory : B -> Category -> B;
  removeCategory : B -> nat -> B;
  box_widgetCount : B -> nat -> nat;
  box_widget : B -> nat -> nat -> option BoxWidget;
  box_addWidget : B -> nat -> BoxWidget -> B;
  box_removeWidget : B -> nat -> nat -> B
}.

(** The contract the client relies on: the categories are the indices
    below [categoryCount], and [addCategory] appends. *)
Class WidgetBoxLaws (B : Type) `{WidgetBoxInterface B} := {
  category_in_range b i : is_Some (category b i) <-> (i < categoryCount b)%nat;
  count_addCategory b c : categoryCount (addCategory b c) = S (categoryCount b);
  category_addCategory b c : category (addCategory b c) (categoryCount b) = Some c;
  category_addCategory_old b c i : (i < categoryCount b)%nat -> category (addCategory b c) i = category b i
}.

(** [category(index).name() == categoryName] *)
Definition has_name {B} `{WidgetBoxInterface B} (b : B) (n : QString) (index : nat) : Prop :=
  option_map c_name (category b index) = Some n.

#[export] Instance has_name_dec {B} `{WidgetBoxInterface B} b n index : Decision (has_name b n index).
Proof. unfold has_name. apply _. Defined.

(** [findOrInsertCategory]: the index of the first category of that
    name, or of a new empty category appended for it. *)
Definition findOrInsertCategory {B} `{WidgetBoxInterface B} (b : B) (categoryName : QString) : B * nat :=
  let count := categoryCount b in
  match list_find (has_name b categoryName) (seq 0 count) with
  | Some (_, index) => (b, index)
  | None => (addCategory b (newCategory categoryName CDefault), count)
  end.

(** A widget box as its list of categories. *)
Record ListBox := mkListBox { lb_categories : list Category }.

Definition lb_update (b : ListBox) (i : nat) (f : Category -> Category) : ListBox :=
  mkListBox (alter f i (lb_categories b)).

#[export] Instance ListBox_interface : WidgetBoxInterface ListBox := {
  categoryCount b := length (lb_categories b);
  category b i := lb_categories b !! i;
  addCategory b c := mkListBox (lb_categories b ++ [c]);
  removeCategory b i := mkListBox (take i (lb_categories b) ++ drop (S i) (lb_categories b));
  box_widgetCount b i := default 0%nat (widgetCount <$> lb_categories b !! i);
  box_widget b i j := lb_categories b !! i ≫= fun c => widget c j;
  box_addWidget b i w := lb_update b i (fun c => addWidget c w);
  box_removeWidget b i j := lb_update b i (fun c => default c (removeWidget c j))
}.

(** ** [QDesignerTaskMenuExtension] *)

(** The extension's actions, by identity; [preferredEditAction] is
    virtual with the inline default [nullptr]. *)
Class TaskMenuExtension (T : Type) := {
  taskActions : T -> list nat;
  preferredEditAction : T -> option nat
}.

Definition default_preferredEditAction {T} (t : T) : option nat := None.

(** ** [Category] *)

(** A widget appended to a category is its last widget, and
    removing it gives the category back. *)
Theorem category_add_remove_roundtrip (c : Category) (w : BoxWidget) :
  widgetCount (addWidget c w) = S (widgetCount c) /\
  widget (addWidget c w) (widgetCount c) = Some w /\
  removeWidget (addWidget c w) (widgetCount c) = Some c.
Proof.
  unfold widgetCount, widget, removeWidget, addWidget. cbn. rewrite length_app. cbn.
  split_and!; [lia|by rewrite lookup_app_r, Nat.sub_diag|].
  rewrite decide_True by lia. rewrite take_app_length, drop_ge by (rewrite length_app; cbn; lia).
  rewrite app_nil_r. by destruct c.
Qed.

(** [removeWidget] with an index past the last widget fails Qt's
    assertion. *)
Lemma removeWidget_out_of_range (c : Category) idx :
  removeWidget c idx = None <-> (widgetCount c <= idx)%nat.
Proof. unfold removeWidget, widgetCount. case_decide; split; (done || lia). Qed.

(** ** The list-backed widget box keeps the contract *)

#[export] Instance ListBox_laws : WidgetBoxLaws ListBox.
Proof.
  split; cbn.
  - intros b i. apply lookup_lt_is_Some.
  - intros b c. rewrite length_app. cbn. lia.
  - intros b c. by rewrite lookup_app_r, Nat.sub_diag by lia.
  - intros b c i Hi. by rewrite lookup_app_l.
Qed.

(** ** [findOrInsertCategory] against the interface *)

Section Client.
Context {B : Type} `{WidgetBoxLaws B}.

Lemma has_name_range b n i : has_name b n i -> (i < categoryCount b)%nat.
Proof.
  unfold has_name. intros Hn. apply category_in_range.
  destruct (category b i); [eauto|done].
Qed.

Lemma find_name_Some b n k index :
  list_find (has_name b n) (seq 0 (categoryCount b)) = Some (k, index) ->
  has_name b n index /\ forall j, (j < index)%nat -> ~ has_name b n j.
Proof.
  intros (Hk & Hp & Hfirst)%list_find_Some. apply lookup_seq in Hk as [-> Hk]. cbn in *.
  split; [done|]. intros j Hj Hn. apply (Hfirst j j); [|lia|done].
  apply lookup_seq. lia.
Qed.

Lemma find_name_None b n :
  list_find (has_name b n) (seq 0 (categoryCount b)) = None -> forall j, ~ has_name b n j.
Proof.
  intros Hnone%list_find_None j Hj. rewrite Forall_forall in Hnone.
  apply (Hnone j); [|done]. apply elem_of_seq. pose proof (has_name_range b n j Hj). lia.
Qed.

(** C20: [findOrInsertCategory] returns the index of a category with the
    name: the first one when the box has one, and the box unchanged;
    otherwise the old count, with a new category appended and the old
    ones kept. *)
Theorem findOrInsertCategory_spec (b : B) (n : QString) :
  let '(b', index) := findOrInsertCategory b n in
  has_name b' n index /\
  ((b' = b /\ forall j, (j < index)%nat -> ~ has_name b n j) \/
   ((forall j, ~ has_name b n j) /\ index = categoryCount b /\ categoryCount b' = S (categoryCount b) /\
    forall j, (j < categoryCount b)%nat -> category b' j = category b j)).
Proof.
  unfold findOrInsertCategory. destruct (list_find _ _) as [[k index]|] eqn:Hf.
  - destruct (find_name_Some b n k index Hf) as [Hn Hfirst]. split; [done|]. by left.
  - split; [unfold has_name; by rewrite category_addCategory|].
    right. split_and!; [by apply find_name_None|done|apply count_addCategory|].
    intros j Hj. by apply category_addCategory_old.
Qed.

(** Asking again finds the category the first call gave. *)
Lemma findOrInsertCategory_again (b : B) (n : QString) :
  findOrInsertCategory (findOrInsertCategory b n).1 n = findOrInsertCategory b n.
Proof.
  pose proof (findOrInsertCategory_spec b n) as Hspec.
  destruct (findOrInsertCategory b n) as [b' index] eqn:E. cbn. destruct Hspec as [Hn Hcase].
  unfold findOrInsertCategory. destruct (list_find _ _) as [[k i]|] eqn:Hf.
  - destruct (find_name_Some b' n k i Hf) as [Hi Hfirst]. f_equal.
    destruct (Nat.lt_trichotomy i index) as [Hlt|[?|Hlt]]; [|done|by destruct (Hfirst index Hlt)].
    exfalso. destruct Hcase as [[-> Hb]|(Hnone & -> & _ & Hold)]; [by apply (Hb i)|].
    apply (Hnone i). unfold has_name in *. by rewrite <- Hold.
  - by destruct (find_name_None b' n Hf index).
Qed.
End Client.

(** ** A widget box to run the client on *)

Definition sample_box : ListBox :=
  mkListBox [newCategory (qs "Layouts") CDefault; newCategory (qs "Spacers") CDefault].

Lemma findOrInsertCategory_spec_witness :
  WidgetBoxLaws ListBox /\
  let '(b', index) := findOrInsertCategory sample_box (qs "Buttons") in
  has_name b' (qs "Buttons") index /\
  ((b' = sample_box /\ forall j, (j < index)%nat -> ~ has_name sample_box (qs "Buttons") j) \/
   ((forall j, ~ has_name sample_box (qs "Buttons") j) /\ index = categoryCount sample_box /\
    categoryCount b' = S (categoryCount sample_box) /\
    forall j, (j < categoryCount sample_box)%nat -> category b' j = category sample_box j)).
Proof. split; [exact ListBox_laws|exact (findOrInsertCategory_spec sample_box (qs "Buttons"))]. Defined.

(** A name already present is found in place; a new one is appended. *)
Example sample_find :
  (findOrInsertCategory sample_box (qs "Spacers")).2 = 1%nat /\
  (findOrInsertCategory sample_box (qs "Buttons")).2 = 2%nat /\
  categoryCount (findOrInsertCategory sample_box (qs "Buttons")).1 = 3%nat.
Proof. split_and!; reflexivity. Qed.
