(* ===== verification/TranslationSettings.v ===== *)
(** Linguist's translation settings dialog
    (src/src/linguist/linguist/translationsettingsdialog.cpp): two
    language combo boxes sharing one item model (target and source), a
    country combo box for each, refilled by [fillCountryCombo] whenever
    the current language changes; [showEvent] loads the language and
    country of the phrase book or data model into the combos and
    [on_buttonBox_accepted] writes them back.  [QComboBox] is modelled
    from Qt's documentation (items with their data, the current index,
    [currentIndexChanged] emitted only when the index changes, the
    current item kept across a sort); QLocale's tables are Section
    variables. *)

From S2P Require Import Prelude QtCore.
From stdpp Require Import sorting relations.
From Stdlib Require Strings.String.
Import String.StringSyntax.
Local Open Scope Z_scope.
Local Open Scope string_scope.

(** ** [QComboBox] *)

(** An item: its text and its [Qt::UserRole] data (a language or country
    enumeration value). *)
Record CItem := mkCItem { ci_text : QString; ci_data : Z }.

Record Combo := mkCombo { cb_items : list CItem; cb_current : Z }.

Definition emptyCombo : Combo := mkCombo [] (-1).

(** [itemData(index)]: an invalid [QVariant], whose [toInt()] is 0,
    outside the items. *)
Definition itemData (items : list CItem) (index : Z) : Z :=
  if index <? 0 then 0 else default 0 (ci_data <$> items !! Z.to_nat index).

(** [findData(value)]: the first item with that data, or -1. *)
Definition findData (items : list CItem) (value : Z) : Z :=
  match list_find (fun it => ci_data it = value) items with
  | Some (i, _) => Z.of_nat i
  | None => -1
  end.

(** [addItem]: appended; the first item of an empty combo becomes
    current. *)
Definition addItem (c : Combo) (it : CItem) : Combo :=
  mkCombo (cb_items c ++ [it]) (if cb_current c =? -1 then 0 else cb_current c).

(** [insertItem(0, ...)]: the current item keeps its place in the list. *)
Definition insertItem0 (c : Combo) (it : CItem) : Combo :=
  mkCombo (it :: cb_items c) (if cb_current c =? -1 then 0 else cb_current c + 1).

Definition clear (c : Combo) : Combo := emptyCombo.

(** [setCurrentIndex]: an index outside the items makes none current. *)
Definition combo_setCurrentIndex (c : Combo) (index : Z) : Combo :=
  mkCombo (cb_items c) (if (0 <=? index) && (index <? Z.of_nat (length (cb_items c))) then index else -1).

Definition item_le (a b : CItem) : Prop := qstr_le (ci_text a) (ci_text b).

#[export] Instance item_le_dec : RelDecision item_le.
Proof. intros a b. unfold item_le. apply _. Defined.

(** [model()->sort(0, Qt::AscendingOrder)]: a stable sort by text; the
    current item stays current. *)
Definition sortItems (c : Combo) : Combo :=
  let sorted := merge_sort item_le (cb_items c) in
  mkCombo sorted (if cb_current c =? -1 then -1 else findData sorted (itemData (cb_items c) (cb_current c))).

(** ** QLocale's tables and the dialog *)

(** The [QLocale] enumeration values the dialog names. *)
Definition QLocale_C : Z := 1.
Definition QLocale_English : Z := 75.
Definition QLocale_AnyCountry : Z := 0.

(** [tr("%1 (%2)").arg(a, b)] *)
Definition withNative (a b : QString) : QString := a ++ qs " (" ++ b ++ qs ")".

(** The settings a phrase book or a data model keeps. *)
Record LangSettings := mkSettings {
  ls_language : Z;
  ls_country : Z;
  ls_sourceLanguage : Z;
  ls_sourceCountry : Z
}.

(** The object the dialog edits: [m_phraseBook], else [m_dataModel]. *)
Inductive Target := PhraseBookT (s : LangSettings) | DataModelT (s : LangSettings).

Definition target_settings (t : Target) : LangSettings :=
  match t with PhraseBookT s | DataModelT s => s end.

(** [m_ui]: the shared language model with each language combo's
    current index, the two country combos; the edited object and the
    window title. *)
Record Dialog := mkDialog {
  d_languages : list CItem;
  d_srcCurrent : Z;
  d_tgtCurrent : Z;
  d_srcCountry : Combo;
  d_tgtCountry : Combo;
  d_target : option Target;
  d_title : QString
}.

Inductive Side := Src | Tgt.

Section Dialog.
(** [QLocale::LastLanguage], [languageToString], the language of
    [QLocale(language)], its [nativeLanguageName],
    [countriesForLanguage], [countryToString], the language of
    [QLocale(language, country)] and its [nativeCountryName]. *)
Variable LastLanguage : Z.
Variable languageToString : Z -> QString.
Variable localeLanguage : Z -> Z.
Variable nativeLanguageName : Z -> QString.
Variable countriesForLanguage : Z -> list Z.
Variable countryToString : Z -> QString.
Variable localeCountryLanguage : Z -> Z -> Z.
Variable nativeCountryName : Z -> Z -> QString.

(** [fillCountryCombo(lng, combo)] *)
Definition countryItem (lang cntr : Z) : CItem :=
  let country := countryToString cntr in
  let country :=
    if negb (localeCountryLanguage lang cntr =? QLocale_English) then
      let ncn := nativeCountryName lang cntr in
      if bool_decide (ncn <> []) then withNative country ncn else country
    else country in
  mkCItem country cntr.

Definition fillCountryCombo (lng : Z) (combo : Combo) : Combo :=
  let c := clear combo in
  let c := if negb (lng =? QLocale_C)
           then sortItems (fold_left addItem (countryItem lng <$> countriesForLanguage lng) c)
           else c in
  combo_setCurrentIndex (insertItem0 c (mkCItem (qs "Any Country") QLocale_AnyCountry)) 0.

(** The constructor's loop body: the language's name, with its endonym
    when QLocale has data for it and it is not English. *)
Definition languageItem (i : Z) : CItem :=
  let lang := languageToString i in
  let lang :=
    if (localeLanguage i =? i) && negb (i =? QLocale_English) then
      let native := nativeLanguageName i in
      if bool_decide (native <> []) then withNative lang native else lang
    else lang in
  mkCItem lang i.

(** [for (int i = QLocale::C + 1; i < QLocale::LastLanguage; ++i)] *)
Definition languageRange : list Z := (fun n => QLocale_C + 1 + Z.of_nat n) <$> seq 0 (Z.to_nat (LastLanguage - QLocale_C - 1)).

(** The language combo's current index changed: the slot refills the
    country combo of that side. *)
Definition set_language_current (d : Dialog) (side : Side) (index : Z) : Dialog :=
  let index := if (0 <=? index) && (index <? Z.of_nat (length (d_languages d))) then index else -1 in
  match side with
  | Src =>
      if index =? d_srcCurrent d then d
      else mkDialog (d_languages d) index (d_tgtCurrent d)
             (fillCountryCombo (itemData (d_languages d) index) (d_srcCountry d)) (d_tgtCountry d) (d_target d) (d_title d)
  | Tgt =>
      if index =? d_tgtCurrent d then d
      else mkDialog (d_languages d) (d_srcCurrent d) index
             (d_srcCountry d) (fillCountryCombo (itemData (d_languages d) index) (d_tgtCountry d)) (d_target d) (d_title d)
  end.

(** The constructor: the languages added one by one, sorted by name,
    POSIX inserted first; the target combo takes the shared model and
    its first row.  The source combo's current item is the first
    language added: its [currentIndexChanged] fires when that item is
    added, and again when the sort and the insertion move its row, each
    time refilling the source countries for that same item, so they end
    up filled for the current item once. *)
Definition newDialog : Dialog :=
  let src := fold_left addItem (languageItem <$> languageRange) emptyCombo in
  let src := insertItem0 (sortItems src) (mkCItem (qs "POSIX") QLocale_C) in
  mkDialog (cb_items src) (cb_current src) 0
    (fillCountryCombo (itemData (cb_items src) (cb_current src)) emptyCombo)
    (fillCountryCombo (itemData (cb_items src) 0) emptyCombo) None [].

(** [setDataModel] and [setPhraseBook]: the edited object and the title
    [tr("Settings for '%1' - Qt Linguist").arg(baseName)]. *)
Definition settingsTitle (fn : QString) : QString := qs "Settings for '" ++ fn ++ qs "' - Qt Linguist".

Definition setDataModel (d : Dialog) (s : LangSettings) (baseName : QString) : Dialog :=
  mkDialog (d_languages d) (d_srcCurrent d) (d_tgtCurrent d) (d_srcCountry d) (d_tgtCountry d)
    (Some (DataModelT s)) (settingsTitle baseName).

Definition setPhraseBook (d : Dialog) (s : LangSettings) (baseName : QString) : Dialog :=
  mkDialog (d_languages d) (d_srcCurrent d) (d_tgtCurrent d) (d_srcCountry d) (d_tgtCountry d)
    (Some (PhraseBookT s)) (settingsTitle baseName).

Definition set_country_current (d : Dialog) (side : Side) (index : Z) : Dialog :=
  match side with
  | Src => mkDialog (d_languages d) (d_srcCurrent d) (d_tgtCurrent d) (combo_setCurrentIndex (d_srcCountry d) index)
             (d_tgtCountry d) (d_target d) (d_title d)
  | Tgt => mkDialog (d_languages d) (d_srcCurrent d) (d_tgtCurrent d) (d_srcCountry d)
             (combo_setCurrentIndex (d_tgtCountry d) index) (d_target d) (d_title d)
  end.

Definition or_first (index : Z) : Z := if index =? -1 then 0 else index.

Definition country_combo (d : Dialog) (side : Side) : Combo :=
  match side with Src => d_srcCountry d | Tgt => d_tgtCountry d end.

(** One side of [showEvent]: [findData] of the language in the language
    combo (the first row when absent), then of the country in the
    country combo that change refilled. *)
Definition load_side (d : Dialog) (side : Side) (lang cntr : Z) : Dialog :=
  let d := set_language_current d side (or_first (findData (d_languages d) lang)) in
  set_country_current d side (or_first (findData (cb_items (country_combo d side)) cntr)).

(** [showEvent]: the target side, then the source side, from the edited
    object; with neither a phrase book nor a data model the code
    dereferences a null pointer ([None]). *)
Definition showEvent (d : Dialog) : option Dialog :=
  match d_target d with
  | None => None
  | Some t =>
      let s := target_settings t in
      Some (load_side (load_side d Tgt (ls_language s) (ls_country s)) Src (ls_sourceLanguage s) (ls_sourceCountry s))
  end.

(** [on_buttonBox_accepted]: the four current data written to the
    phrase book if there is one, else to the data model. *)
Definition on_buttonBox_accepted (d : Dialog) : option Target :=
  let lang := itemData (d_languages d) (d_tgtCurrent d) in
  let country := itemData (cb_items (d_tgtCountry d)) (cb_current (d_tgtCountry d)) in
  let lang2 := itemData (d_languages d) (d_srcCurrent d) in
  let country2 := itemData (cb_items (d_srcCountry d)) (cb_current (d_srcCountry d)) in
  let s := mkSettings lang country lang2 country2 in
  match d_target d with
  | Some (PhraseBookT _) => Some (PhraseBookT s)
  | Some (DataModelT _) => Some (DataModelT s)
  | None => None
  end.

(** The user picks a language in one of the combos. *)
Definition on_currentIndexChanged (d : Dialog) (side : Side) (index : Z) : Dialog :=
  set_language_current d side index.

(** The country combos show the countries of the current languages. *)
Definition countries_in_step (d : Dialog) : Prop :=
  cb_items (d_srcCountry d) = cb_items (fillCountryCombo (itemData (d_languages d) (d_srcCurrent d)) emptyCombo) /\
  cb_items (d_tgtCountry d) = cb_items (fillCountryCombo (itemData (d_languages d) (d_tgtCurrent d)) emptyCombo).

(** A combo's current index: none (-1) or one of its rows. *)
Definition current_in (items : list CItem) (i : Z) : Prop := i = -1 \/ 0 <= i < Z.of_nat (length items).

Definition currents_in (d : Dialog) : Prop :=
  current_in (d_languages d) (d_srcCurrent d) /\ current_in (d_languages d) (d_tgtCurrent d).

(** A country the dialog can show for a language: "Any Country", or
    one of the language's countries. *)
Definition country_of (lang cntr : Z) : Prop :=
  cntr = QLocale_AnyCountry \/ (lang <> QLocale_C /\ cntr ∈ countriesForLanguage lang).

(** What the user does to the dialog. *)
Inductive dialog_step : Dialog -> Dialog -> Prop :=
  | step_language d side index : dialog_step d (on_currentIndexChanged d side index)
  | step_country d side index : dialog_step d (set_country_current d side index)
  | step_show d d' : showEvent d = Some d' -> dialog_step d d'
  | step_dataModel d s fn : dialog_step d (setDataModel d s fn)
  | step_phraseBook d s fn : dialog_step d (setPhraseBook d s fn).

(** ** Lemmas on the combo box *)

Lemma addItems_items l c : cb_items (fold_left addItem l c) = cb_items c ++ l.
Proof.
  revert c. induction l as [|x l IH]; intros c; cbn; [by rewrite app_nil_r|].
  rewrite IH. cbn. by rewrite <- app_assoc.
Qed.

Definition anyCountryItem : CItem := mkCItem (qs "Any Country") QLocale_AnyCountry.

Lemma fill_items lng c :
  cb_items (fillCountryCombo lng c) =
    anyCountryItem :: (if lng =? QLocale_C then [] else merge_sort item_le (countryItem lng <$> countriesForLanguage lng)).
Proof.
  unfold fillCountryCombo. destruct (lng =? QLocale_C); cbn; [done|].
  by rewrite addItems_items.
Qed.

Lemma fill_current lng c : cb_current (fillCountryCombo lng c) = 0.
Proof.
  unfold fillCountryCombo at 1. cbn [cb_current combo_setCurrentIndex].
  change (cb_items (insertItem0 ?x ?y)) with (y :: cb_items x). cbn [length andb Z.leb].
  destruct (Z.ltb_spec 0 (Z.of_nat (S (length (cb_items (if negb (lng =? QLocale_C)
    then sortItems (fold_left addItem (countryItem lng <$> countriesForLanguage lng) (clear c)) else clear c))))));
    [done|lia].
Qed.

Lemma countryItem_data lng : ci_data ∘ countryItem lng = id.
Proof. done. Qed.

(** The country combo of a language holds "Any Country" and that
    language's countries. *)
Lemma fill_data lng c x :
  x ∈ ci_data <$> cb_items (fillCountryCombo lng c) <->
  x = QLocale_AnyCountry \/ (lng <> QLocale_C /\ x ∈ countriesForLanguage lng).
Proof.
  rewrite fill_items, fmap_cons, elem_of_cons. cbn [ci_data anyCountryItem].
  destruct (Z.eqb_spec lng QLocale_C) as [->|Hne].
  - cbn. rewrite elem_of_nil. naive_solver.
  - rewrite (merge_sort_Permutation item_le), <- list_fmap_compose, countryItem_data, list_fmap_id.
    naive_solver.
Qed.

Lemma findData_found items v : v ∈ ci_data <$> items ->
  exists i : nat, findData items v = Z.of_nat i /\ (i < length items)%nat /\ itemData items (Z.of_nat i) = v.
Proof.
  intros Hv. unfold findData.
  destruct (list_find (fun it => ci_data it = v) items) as [[i it]|] eqn:Hf.
  - apply list_find_Some in Hf as (Hi & Hd & _). exists i. split_and!; [done|by eapply lookup_lt_Some|].
    unfold itemData. destruct (Z.ltb_spec (Z.of_nat i) 0); [lia|]. by rewrite Nat2Z.id, Hi.
  - exfalso. apply list_find_None in Hf. apply list_elem_of_fmap in Hv as (it & -> & Hin).
    rewrite Forall_forall in Hf. by apply (Hf it).
Qed.

Lemma setCurrentIndex_items c i : cb_items (combo_setCurrentIndex c i) = cb_items c.
Proof. done. Qed.

Lemma setCurrentIndex_in c (i : nat) : (i < length (cb_items c))%nat -> cb_current (combo_setCurrentIndex c (Z.of_nat i)) = Z.of_nat i.
Proof.
  intros Hi. cbn. destruct (Z.leb_spec 0 (Z.of_nat i)); [|lia].
  destruct (Z.ltb_spec (Z.of_nat i) (Z.of_nat (length (cb_items c)))); [done|lia].
Qed.

Definition combo_ok (c : Combo) : Prop := current_in (cb_items c) (cb_current c).

Lemma findData_range items v : current_in items (findData items v).
Proof.
  unfold findData. destruct (list_find _ _) as [[i it]|] eqn:Hf; [right|by left].
  apply list_find_Some in Hf as (Hi & _). apply lookup_lt_Some in Hi. lia.
Qed.

Lemma clamp_in items i : current_in items (if (0 <=? i) && (i <? Z.of_nat (length items)) then i else -1).
Proof.
  destruct (Z.leb_spec 0 i), (Z.ltb_spec i (Z.of_nat (length items))); cbn; [right; lia|left..]; done.
Qed.

Lemma addItems_ok l c : combo_ok c -> combo_ok (fold_left addItem l c).
Proof.
  revert c. induction l as [|it l IH]; intros c Hc; [done|]. apply IH.
  unfold combo_ok, current_in in *. cbn. rewrite length_app. cbn.
  destruct (Z.eqb_spec (cb_current c) (-1)); right; lia.
Qed.

Lemma insertItem0_ok c it : combo_ok c -> combo_ok (insertItem0 c it).
Proof.
  unfold combo_ok, current_in. cbn. destruct (Z.eqb_spec (cb_current c) (-1)); right; lia.
Qed.

Lemma sortItems_ok c : combo_ok c -> combo_ok (sortItems c).
Proof.
  intros _. unfold combo_ok, sortItems. cbn. case_match; [by left|]. apply findData_range.
Qed.

(** ** The dialog's slots keep the country combos in step *)

Lemma set_language_in d side (i : nat) : countries_in_step d -> (i < length (d_languages d))%nat ->
  let d' := set_language_current d side (Z.of_nat i) in
  countries_in_step d' /\ d_languages d' = d_languages d /\ d_target d' = d_target d /\
  match side with
  | Src => d_srcCurrent d' = Z.of_nat i /\ d_tgtCurrent d' = d_tgtCurrent d /\ d_tgtCountry d' = d_tgtCountry d
  | Tgt => d_tgtCurrent d' = Z.of_nat i /\ d_srcCurrent d' = d_srcCurrent d /\ d_srcCountry d' = d_srcCountry d
  end.
Proof.
  intros [Hs Ht] Hi. unfold set_language_current.
  assert (Hr : (0 <=? Z.of_nat i) && (Z.of_nat i <? Z.of_nat (length (d_languages d))) = true)
    by (apply andb_true_iff; split; [apply Z.leb_le|apply Z.ltb_lt]; lia).
  rewrite Hr. destruct side.
  - destruct (Z.eqb_spec (Z.of_nat i) (d_srcCurrent d)) as [<-|]; [done|].
    cbn. unfold countries_in_step. cbn. repeat split; try done. all: by rewrite !fill_items.
  - destruct (Z.eqb_spec (Z.of_nat i) (d_tgtCurrent d)) as [<-|]; [done|].
    cbn. unfold countries_in_step. cbn. repeat split; try done. all: by rewrite !fill_items.
Qed.

Lemma set_country_in_step d side i : countries_in_step d -> countries_in_step (set_country_current d side i).
Proof. by destruct side. Qed.

(** Choosing a country the combo holds makes it the current data. *)
Lemma country_selected c v : v ∈ ci_data <$> cb_items c ->
  itemData (cb_items c) (cb_current (combo_setCurrentIndex c (or_first (findData (cb_items c) v)))) = v.
Proof.
  intros Hv. destruct (findData_found _ _ Hv) as (i & -> & Hi & Hd). unfold or_first.
  destruct (Z.eqb_spec (Z.of_nat i) (-1)); [lia|]. by rewrite setCurrentIndex_in.
Qed.

Lemma set_language_in_step d side index : countries_in_step d -> countries_in_step (set_language_current d side index).
Proof.
  intros [Hs Ht]. unfold set_language_current.
  destruct side; case_match; try done; unfold countries_in_step; cbn; split; try done; by rewrite !fill_items.
Qed.

Lemma load_side_in_step d side lang cntr : countries_in_step d -> countries_in_step (load_side d side lang cntr).
Proof. intros H. apply set_country_in_step, set_language_in_step, H. Qed.

Lemma showEvent_in_step d d' : countries_in_step d -> showEvent d = Some d' -> countries_in_step d'.
Proof.
  intros H Heq. unfold showEvent in Heq. destruct (d_target d); [|done].
  apply Some_inj in Heq. subst d'. by apply load_side_in_step, load_side_in_step.
Qed.

(** Loading one side: the language's row becomes current and the
    country, when the language has it, becomes the current country. *)
Lemma load_side_spec d side lang cntr :
  countries_in_step d -> lang ∈ ci_data <$> d_languages d -> country_of lang cntr ->
  let d2 := load_side d side lang cntr in
  countries_in_step d2 /\ d_languages d2 = d_languages d /\ d_target d2 = d_target d /\
  match side with
  | Src => itemData (d_languages d2) (d_srcCurrent d2) = lang /\
           itemData (cb_items (d_srcCountry d2)) (cb_current (d_srcCountry d2)) = cntr /\
           d_tgtCurrent d2 = d_tgtCurrent d /\ d_tgtCountry d2 = d_tgtCountry d
  | Tgt => itemData (d_languages d2) (d_tgtCurrent d2) = lang /\
           itemData (cb_items (d_tgtCountry d2)) (cb_current (d_tgtCountry d2)) = cntr /\
           d_srcCurrent d2 = d_srcCurrent d /\ d_srcCountry d2 = d_srcCountry d
  end.
Proof.
  intros Hin Hl Hc. unfold load_side. destruct (findData_found _ _ Hl) as (i & Hf & Hi & Hd). rewrite Hf.
  assert (Ho : or_first (Z.of_nat i) = Z.of_nat i)
    by (unfold or_first; destruct (Z.eqb_spec (Z.of_nat i) (-1)); lia).
  rewrite Ho. destruct (set_language_in d side i Hin Hi) as ([Hs1 Ht1] & Hl1 & Htg1 & Hside).
  set (d1 := set_language_current d side (Z.of_nat i)) in *. clearbody d1.
  destruct side; destruct Hside as (Hcur & Hother & Hcountry); cbn; (split; [split; cbn; done|]);
    rewrite Hl1, Htg1, ?Hcur, ?Hother, ?Hcountry; (split_and!; try done).
  - apply country_selected. rewrite Hs1, Hcur, Hl1, Hd. by apply fill_data.
  - apply country_selected. rewrite Ht1, Hcur, Hl1, Hd. by apply fill_data.
Qed.

(** ** Properties *)

(** When the edited object's languages are in the language list and
    its countries belong to them, showing the dialog and pressing OK
    writes back exactly the settings it had, to the same object. *)
Theorem show_accept_roundtrip d t :
  countries_in_step d -> d_target d = Some t ->
  ls_language (target_settings t) ∈ ci_data <$> d_languages d ->
  ls_sourceLanguage (target_settings t) ∈ ci_data <$> d_languages d ->
  country_of (ls_language (target_settings t)) (ls_country (target_settings t)) ->
  country_of (ls_sourceLanguage (target_settings t)) (ls_sourceCountry (target_settings t)) ->
  (showEvent d ≫= on_buttonBox_accepted) = Some t.
Proof.
  intros Hin Ht Hl Hl2 Hc Hc2. unfold showEvent. rewrite Ht. cbn [mbind option_bind].
  destruct (load_side_spec d Tgt _ _ Hin Hl Hc) as (Hin1 & Hlang1 & Htg1 & Hlt & Hct & Hs1 & Hsc1).
  set (d2 := load_side d Tgt _ _) in *.
  rewrite <- Hlang1 in Hl2.
  destruct (load_side_spec d2 Src _ _ Hin1 Hl2 Hc2) as (Hin3 & Hlang3 & Htg3 & Hls & Hcs & Ht3 & Htc3).
  set (d4 := load_side d2 Src _ _) in *.
  unfold on_buttonBox_accepted. rewrite Hls, Hcs, Ht3, Htc3, Hlang3, Hlt, Hct, Htg3, Htg1, Ht.
  by destruct t as [[]|[]].
Qed.

(** C34: a language that is not in the list is shown as POSIX (the first
    row) with "Any Country", and OK writes those back: the object's
    language and country are replaced. *)
Theorem show_accept_unknown_language d t :
  countries_in_step d -> d_target d = Some t ->
  head (d_languages d) = Some (mkCItem (qs "POSIX") QLocale_C) ->
  ls_language (target_settings t) ∉ ci_data <$> d_languages d ->
  exists t', (showEvent d ≫= on_buttonBox_accepted) = Some t' /\
    ls_language (target_settings t') = QLocale_C /\ ls_country (target_settings t') = QLocale_AnyCountry.
Proof.
  intros Hin Ht Hhead Hl. unfold showEvent. rewrite Ht. cbn [mbind option_bind].
  assert (Hnf : findData (d_languages d) (ls_language (target_settings t)) = -1).
  { unfold findData. destruct (list_find _ _) as [[i it]|] eqn:Hf; [|done].
    apply list_find_Some in Hf as (Hi & Hd & _). exfalso. apply Hl, list_elem_of_fmap.
    exists it. split; [done|]. by eapply list_elem_of_lookup_2. }
  assert (H0 : (0 < length (d_languages d))%nat) by (destruct (d_languages d); [done|cbn; lia]).
  assert (Hd0 : itemData (d_languages d) 0 = QLocale_C) by (destruct (d_languages d) as [|x r]; [done|]; cbn in Hhead; injection Hhead as Hx; by rewrite Hx).
  unfold load_side at 2. rewrite Hnf. change (or_first (-1)) with (Z.of_nat 0).
  destruct (set_language_in d Tgt 0 Hin H0) as ([_ Ht1] & Hl1 & Htg1 & Hcur & _ & _).
  set (d1 := set_language_current d Tgt (Z.of_nat 0)) in *. clearbody d1.
  assert (Hitems : cb_items (d_tgtCountry d1) = [anyCountryItem])
    by (rewrite Ht1, Hl1, Hcur, (Hd0 : itemData (d_languages d) (Z.of_nat 0) = QLocale_C); apply fill_items).
  set (c := d_tgtCountry d1) in *.
  assert (Hsel : itemData (cb_items c) (cb_current (combo_setCurrentIndex c
                   (or_first (findData (cb_items c) (ls_country (target_settings t)))))) = QLocale_AnyCountry).
  { unfold combo_setCurrentIndex. cbn [cb_items cb_current]. rewrite Hitems. unfold findData. cbn.
    case_decide; reflexivity. }
  set (d2 := set_country_current d1 Tgt _).
  assert (Hd2 : d_languages d2 = d_languages d /\ d_target d2 = d_target d /\ d_tgtCurrent d2 = 0 /\
   itemData (cb_items (d_tgtCountry d2)) (cb_current (d_tgtCountry d2)) = QLocale_AnyCountry)
    by (cbn; split_and!; done).
  clearbody d2. destruct Hd2 as (Hl2 & Htg2 & Hc2 & Hco2).
  assert (Hfr : forall l' c', d_languages (load_side d2 Src l' c') = d_languages d2 /\
   d_target (load_side d2 Src l' c') = d_target d2 /\
   d_tgtCurrent (load_side d2 Src l' c') = d_tgtCurrent d2 /\
   d_tgtCountry (load_side d2 Src l' c') = d_tgtCountry d2).
  { intros l' c'. unfold load_side, set_language_current. case_match; done. }
  destruct (Hfr (ls_sourceLanguage (target_settings t)) (ls_sourceCountry (target_settings t)))
    as (Hl4 & Htg4 & Hc4 & Hco4).
  unfold on_buttonBox_accepted. rewrite Htg4, Htg2, Ht, Hl4, Hc4, Hco4, Hco2, Hl2, Hc2, Hd0.
  destruct t; (eexists; split; [reflexivity|done]).
Qed.

(** ** The dialog from its constructor *)

Lemma languageRange_elem x : x ∈ languageRange <-> QLocale_C + 1 <= x < LastLanguage.
Proof.
  unfold languageRange. rewrite list_elem_of_fmap. split.
  - intros (n & -> & Hn%elem_of_seq). lia.
  - intros Hx. exists (Z.to_nat (x - QLocale_C - 1)). rewrite elem_of_seq. lia.
Qed.

Definition posixItem : CItem := mkCItem (qs "POSIX") QLocale_C.

Lemma newDialog_languages :
  d_languages newDialog = posixItem :: merge_sort item_le (languageItem <$> languageRange).
Proof. cbn. by rewrite addItems_items. Qed.

Lemma newDialog_data x :
  x ∈ ci_data <$> d_languages newDialog <-> x = QLocale_C \/ QLocale_C + 1 <= x < LastLanguage.
Proof.
  rewrite newDialog_languages, fmap_cons, elem_of_cons, (merge_sort_Permutation item_le),
    <- list_fmap_compose, <- languageRange_elem.
  change (ci_data ∘ languageItem) with (fun i : Z => i). by rewrite list_fmap_id.
Qed.

Lemma dialog_step_frame d d' : dialog_step d d' -> countries_in_step d ->
  countries_in_step d' /\ d_languages d' = d_languages d.
Proof.
  destruct 1 as [d side index|d side index|d d' Hs|d s fn|d s fn]; intros Hin.
  - split; [by apply set_language_in_step|]. unfold on_currentIndexChanged, set_language_current.
    destruct side; by case_match.
  - split; [by apply set_country_in_step|]. by destruct side.
  - split; [by eapply showEvent_in_step|]. unfold showEvent in Hs. destruct (d_target d); [|done].
    apply Some_inj in Hs. subst d'. unfold load_side, set_language_current.
    repeat (case_match || destruct (_ =? _)); done.
  - done.
  - done.
Qed.

(** Reachability keeps the language list and the country combos in
    step with their languages. *)
Lemma reachable_frame d :
  rtc dialog_step newDialog d -> countries_in_step d /\ d_languages d = d_languages newDialog.
Proof.
  apply (rtc_ind_r (fun d => countries_in_step d /\ d_languages d = d_languages newDialog)).
  - split; [split; reflexivity|done].
  - intros y z _ Hyz [Hin Hl]. destruct (dialog_step_frame y z Hyz Hin) as [Hz Hlz]. split; [done|congruence].
Qed.

Lemma set_language_currents d side index : currents_in d -> currents_in (set_language_current d side index).
Proof.
  intros [Hs Ht]. unfold set_language_current.
  destruct side; (case_match; [done|]); split; cbn; try done; apply clamp_in.
Qed.

Lemma set_country_currents d side index : currents_in d -> currents_in (set_country_current d side index).
Proof. by destruct side. Qed.

Lemma step_currents d d' : dialog_step d d' -> currents_in d -> currents_in d'.
Proof.
  destruct 1 as [d side index|d side index|d d' Hs|d s fn|d s fn]; intros Hc.
  - by apply set_language_currents.
  - by apply set_country_currents.
  - unfold showEvent in Hs. destruct (d_target d); [|done]. apply Some_inj in Hs. subst d'.
    unfold load_side. by do 2 apply set_country_currents, set_language_currents.
  - done.
  - done.
Qed.

Lemma newDialog_currents : currents_in newDialog.
Proof.
  split; cbn [newDialog d_languages d_srcCurrent d_tgtCurrent].
  - apply insertItem0_ok, sortItems_ok, addItems_ok. by left.
  - right. cbn. lia.
Qed.

(** C12: along every sequence of the user's actions from the constructed
    dialog (language and country choices, showing it, setting the data
    model or phrase book), the language list stays as built, each
    country combo holds the countries of its side's current language,
    and the current row of each language combo is none or one of its
    rows. *)
Theorem dialog_reachable_in_step d :
  rtc dialog_step newDialog d ->
  countries_in_step d /\ d_languages d = d_languages newDialog /\ currents_in d.
Proof.
  intros Hr. destruct (reachable_frame d Hr) as [Hin Hl]. split_and!; [done|done|].
  apply (rtc_ind_r (R:=dialog_step) currents_in newDialog); [apply newDialog_currents| |done].
  intros y z _ Hyz Hy. by apply (step_currents y z).
Qed.

(** C11: for a dialog reached from the constructor, when the edited
    object's languages are POSIX or in QLocale's range and its countries
    belong to them, showing the dialog and pressing OK writes back
    exactly its settings. *)
Theorem settings_roundtrip d t :
  rtc dialog_step newDialog d -> d_target d = Some t ->
  (ls_language (target_settings t) = QLocale_C \/
   QLocale_C + 1 <= ls_language (target_settings t) < LastLanguage) ->
  (ls_sourceLanguage (target_settings t) = QLocale_C \/
   QLocale_C + 1 <= ls_sourceLanguage (target_settings t) < LastLanguage) ->
  country_of (ls_language (target_settings t)) (ls_country (target_settings t)) ->
  country_of (ls_sourceLanguage (target_settings t)) (ls_sourceCountry (target_settings t)) ->
  (showEvent d ≫= on_buttonBox_accepted) = Some t.
Proof.
  intros Hr Ht Hl Hl2 Hc Hc2. destruct (reachable_frame d Hr) as [Hin Hlangs].
  apply show_accept_roundtrip; try done; rewrite Hlangs; by apply newDialog_data.
Qed.
End Dialog.

(** ** A small locale table to run the dialog on *)

(** Three languages (2 Abkhazian, 3 Afar, 4 Afrikaans); only Afrikaans
    has locale data, with the countries 5 (South Africa) and 6
    (Namibia). *)
Definition sample_LastLanguage : Z := 5.
Definition sample_languageToString (i : Z) : QString :=
  if i =? 2 then qs "Abkhazian" else if i =? 3 then qs "Afar" else qs "Afrikaans".
Definition sample_localeLanguage (i : Z) : Z := if i =? 4 then 4 else 0.
Definition sample_nativeLanguageName (i : Z) : QString := qs "Afrikaans".
Definition sample_countriesForLanguage (i : Z) : list Z := if i =? 4 then [5; 6] else [].
Definition sample_countryToString (c : Z) : QString := if c =? 5 then qs "South Africa" else qs "Namibia".
Definition sample_localeCountryLanguage (l c : Z) : Z := l.
Definition sample_nativeCountryName (l c : Z) : QString := if c =? 5 then qs "Suid-Afrika" else qs "Namibie".

Definition sample_dialog : Dialog :=
  newDialog sample_LastLanguage sample_languageToString sample_localeLanguage sample_nativeLanguageName
    sample_countriesForLanguage sample_countryToString sample_localeCountryLanguage sample_nativeCountryName.

(** A data model translating into Afrikaans for Namibia from POSIX. *)
Definition sample_settings : LangSettings := mkSettings 4 6 QLocale_C QLocale_AnyCountry.

Definition sample_loaded : Dialog := setDataModel sample_dialog sample_settings (qs "app_af").

Lemma sample_loaded_reachable :
  rtc (dialog_step sample_countriesForLanguage sample_countryToString sample_localeCountryLanguage
         sample_nativeCountryName) sample_dialog sample_loaded.
Proof. apply rtc_once. apply step_dataModel. Qed.

Lemma dialog_reachable_in_step_witness :
  rtc (dialog_step sample_countriesForLanguage sample_countryToString sample_localeCountryLanguage
         sample_nativeCountryName) sample_dialog sample_loaded /\
  (countries_in_step sample_countriesForLanguage sample_countryToString sample_localeCountryLanguage
     sample_nativeCountryName sample_loaded /\ d_languages sample_loaded = d_languages sample_dialog /\
   currents_in sample_loaded).
Proof.
  split; [exact sample_loaded_reachable|].
  exact (dialog_reachable_in_step _ _ _ _ _ _ _ _ _ sample_loaded_reachable).
Defined.

Lemma settings_roundtrip_witness :
  (rtc (dialog_step sample_countriesForLanguage sample_countryToString sample_localeCountryLanguage
          sample_nativeCountryName) sample_dialog sample_loaded /\
   d_target sample_loaded = Some (DataModelT sample_settings) /\
   (ls_language sample_settings = QLocale_C \/ QLocale_C + 1 <= ls_language sample_settings < sample_LastLanguage) /\
   (ls_sourceLanguage sample_settings = QLocale_C \/
    QLocale_C + 1 <= ls_sourceLanguage sample_settings < sample_LastLanguage) /\
   country_of sample_countriesForLanguage (ls_language sample_settings) (ls_country sample_settings) /\
   country_of sample_countriesForLanguage (ls_sourceLanguage sample_settings) (ls_sourceCountry sample_settings)) /\
  (showEvent sample_countriesForLanguage sample_countryToString sample_localeCountryLanguage sample_nativeCountryName
     sample_loaded ≫= on_buttonBox_accepted) = Some (DataModelT sample_settings).
Proof.
  assert (Hl : QLocale_C + 1 <= ls_language sample_settings < sample_LastLanguage) by (unfold sample_LastLanguage, QLocale_C; cbn; lia).
  assert (Hc : country_of sample_countriesForLanguage (ls_language sample_settings) (ls_country sample_settings))
    by (right; split; [discriminate|cbn; apply (bool_decide_unpack _); reflexivity]).
  assert (Hc2 : country_of sample_countriesForLanguage (ls_sourceLanguage sample_settings)
                  (ls_sourceCountry sample_settings)) by (left; reflexivity).
  split; [split_and!; [exact sample_loaded_reachable|reflexivity|right; exact Hl|left; reflexivity|exact Hc|exact Hc2]|].
  eapply settings_roundtrip; [exact sample_loaded_reachable|reflexivity|right; exact Hl|left; reflexivity|exact Hc|exact Hc2].
Defined.

(** A data model with no language set ([QLocale::AnyLanguage], 0). *)
Definition sample_unset : Dialog := setDataModel sample_dialog (mkSettings 0 6 QLocale_C QLocale_AnyCountry) (qs "app").

Lemma show_accept_unknown_language_witness :
  (countries_in_step sample_countriesForLanguage sample_countryToString sample_localeCountryLanguage
     sample_nativeCountryName sample_unset /\
   d_target sample_unset = Some (DataModelT (mkSettings 0 6 QLocale_C QLocale_AnyCountry)) /\
   head (d_languages sample_unset) = Some (mkCItem (qs "POSIX") QLocale_C) /\
   ls_language (target_settings (DataModelT (mkSettings 0 6 QLocale_C QLocale_AnyCountry)))
     ∉ ci_data <$> d_languages sample_unset) /\
  exists t', (showEvent sample_countriesForLanguage sample_countryToString sample_localeCountryLanguage
                sample_nativeCountryName sample_unset ≫= on_buttonBox_accepted) = Some t' /\
    ls_language (target_settings t') = QLocale_C /\ ls_country (target_settings t') = QLocale_AnyCountry.
Proof.
  assert (Hin : countries_in_step sample_countriesForLanguage sample_countryToString sample_localeCountryLanguage
                  sample_nativeCountryName sample_unset) by (split; reflexivity).
  assert (Hn : ls_language (target_settings (DataModelT (mkSettings 0 6 QLocale_C QLocale_AnyCountry)))
                 ∉ ci_data <$> d_languages sample_unset) by (apply (bool_decide_unpack _); reflexivity).
  split; [split_and!; [exact Hin|reflexivity|reflexivity|exact Hn]|].
  eapply show_accept_unknown_language; [exact Hin|reflexivity|reflexivity|exact Hn].
Defined.
