(* ===== verification/CellEditing.v ===== *)
(** Editing one cell of the signal/slot table in place: the delegate of
    src/src/designer/src/components/signalsloteditor/signalsloteditorwindow.cpp
    creates an [InlineEditor] for the cell ([ConnectionDelegate::createEditor]),
    [QItemDelegate::setEditorData] writes the cell's text into the
    editor's user property [text] ([Q_PROPERTY(QString text ... USER
    true)]), the user activates a row, and [activated] reaches
    [emitCommitData], after the editor's own [checkSelection], so that
    [QItemDelegate::setModelData] writes the property back through
    [ConnectionModel::setData].  The composition joins the two
    components: the rows the delegate offers are the values the model
    accepts.  The sorting proxy between the view and the model maps
    rows one to one and passes [data] and [setData] through; the model
    below is the source model, the index the source index. *)

From S2P Require Import Prelude QtCore SignalSlotModel SignalSlotWindow.
From stdpp Require Import sets.
From Stdlib Require Strings.String.
Import String.StringSyntax.
Local Open Scope Z_scope.
Local Open Scope string_scope.

Section CellEditing.
(** The designer's meta-object database: the members offered per class,
    and the check [setData] makes. *)
Variable reverseClassesMemberFunctions : QString -> MemberType -> QString -> Form -> list (QString * list QString).
Variable memberFunctionListContains : Form -> QString -> MemberType -> QString -> bool.

(** [model->data(model->index(row, c), Qt::DisplayRole).toString()] *)
Definition cellText (m : ConnectionModel) (row c : Z) : QString :=
  match data m (index m row c invalidIndex) DisplayRole with VString s => s | _ => [] end.

(** [QItemDelegate::setEditorData]: the [EditRole] data, or an empty
    string for an invalid variant, written to [text]. *)
Definition setEditorData (m : ConnectionModel) (i : QModelIndex) (e : InlineEditor) : InlineEditor :=
  setText e (match data m i EditRole with VString s => s | _ => [] end).

(** [QItemDelegate::setModelData]: [text] written back with [setData]. *)
Definition setModelData (m : ConnectionModel) (form : Form) (i : QModelIndex) (e : InlineEditor)
    : option (bool * ConnectionModel) :=
  setData memberFunctionListContains m form i (VString (ie_text e)).

(** One edit: the editor created for the cell, its data set, row
    [pick] activated and committed.  Without an editor nothing is
    written. *)
Definition editCell (m : ConnectionModel) (form : Form) (i : QModelIndex) (pick : Z)
    : option (bool * ConnectionModel) :=
  match createEditor reverseClassesMemberFunctions (Some form) (cellText m (mi_row i)) (mi_column i) with
  | None => Some (false, m)
  | Some e => setModelData m form i (activate (setEditorData m i e) pick)
  end.

(** The connection with the field of a column replaced. *)
Definition with_column (con : Connection) (column : Z) (s : QString) : Connection :=
  if column =? 0 then mkConnection (c_id con) s (c_signal con) (c_receiver con) (c_slot con)
  else if column =? 1 then mkConnection (c_id con) (c_sender con) s (c_receiver con) (c_slot con)
  else if column =? 2 then mkConnection (c_id con) (c_sender con) (c_signal con) s (c_slot con)
  else if column =? 3 then mkConnection (c_id con) (c_sender con) (c_signal con) (c_receiver con) s
  else con.

(** ** The rows the delegate offers *)

Lemma unmarked_items l it :
  it ∈ (fun kv => mkItem kv.1 false false kv.2) <$> unmarked l -> it_title it = false /\ it_text it ∈ l.
Proof.
  intros (kv & -> & Hkv)%list_elem_of_fmap. split; [done|]. cbn.
  assert (Hk : kv.1 ∈ (unmarked l).*1) by (apply list_elem_of_fmap; eauto).
  apply qmap_of_keys in Hk. apply list_elem_of_fmap in Hk as (kv' & -> & Hkv').
  apply list_elem_of_fmap in Hkv' as (n & -> & Hn). done.
Qed.

Lemma fold_add_class_rows cl e :
  exists extra, ie_rows (fold_left add_class cl e) = ie_rows e ++ extra /\
    forall it, it ∈ extra -> it_title it = true \/ exists c, c ∈ cl /\ it_text it ∈ c.2.
Proof.
  revert e. induction cl as [|c cl IH]; intros e; cbn.
  { exists []. split; [by rewrite app_nil_r|set_solver]. }
  destruct (IH (add_class e c)) as (extra & -> & Hx).
  unfold add_class. case_match.
  - exists extra. split; [done|]. intros it Hit. destruct (Hx it Hit) as [|(c' & ? & ?)]; [by left|right].
    exists c'. split; [by right|done].
  - cbn. eexists. split; [unfold addTextList, addTitle; by rewrite <- !app_assoc|].
    intros it Hit. rewrite ?elem_of_cons, ?elem_of_app, ?list_elem_of_singleton in Hit.
    destruct Hit as [Heq|[Hit|Hit]]; [subst it; by left| |].
    + apply unmarked_items in Hit as [_ Hin]. right. exists c. split; [left|done].
    + destruct (Hx it Hit) as [|(c' & ? & ?)]; [by left|right]. exists c'. split; [by right|done].
Qed.

(** Past the placeholder in row 0, a row of an object column is an
    object of the form, and a row of a signal or slot column that is
    not a class title is a member the database lists for the cell's
    object. *)
Lemma createEditor_offers form cell column e k it :
  createEditor reverseClassesMemberFunctions (Some form) cell column = Some e -> ie_rows e !! k = Some it -> it_title it = false ->
  k <> 0%nat ->
  ((column = 0 \/ column = 2) /\ it_text it ∈ objectNameList form) \/
  ((column = 1 \/ column = 3) /\
   exists c, c ∈ reverseClassesMemberFunctions (cell (if column <=? 1 then 0 else 2)) (if column =? 1 then SignalMember else SlotMember)
                  (cell (if column =? 1 then 3 else 1)) form /\ it_text it ∈ c.2).
Proof.
  unfold createEditor. intros E Hk Ht Hk0.
  destruct ((column =? 0) || (column =? 2)) eqn:Hobj.
  - injection E as <-. left. split; [apply orb_true_iff in Hobj as [?%Z.eqb_eq|?%Z.eqb_eq]; auto|].
    cbn in Hk. destruct k as [|k]; [done|]. cbn in Hk.
    apply list_elem_of_lookup_2, unmarked_items in Hk as [_ Hin]. done.
  - destruct ((column =? 1) || (column =? 3)) eqn:Hmem; [|injection E as <-; by destruct k].
    injection E as <-. right. split; [apply orb_true_iff in Hmem as [?%Z.eqb_eq|?%Z.eqb_eq]; auto|].
    cbv zeta in Hk.
    match type of Hk with context [fold_left add_class ?cl ?e0] =>
      destruct (fold_add_class_rows cl e0) as (extra & Hrows & Hx); rewrite Hrows in Hk end.
    rewrite lookup_app_r in Hk by (cbn; lia). apply list_elem_of_lookup_2 in Hk.
    destruct (Hx it Hk) as [Htt|Hc]; [congruence|]. by destruct (column =? 1).
Qed.

(** ** The editor's text after an activation *)

(** Activating a row that is not a title makes its text the editor's
    [text], whatever [m_idx] was. *)
Lemma activate_text e k it :
  ie_rows e !! k = Some it -> it_title it = false -> ie_text (activate e (Z.of_nat k)) = it_text it.
Proof.
  intros Hk Ht. unfold activate, checkSelection, setCurrentIndex. cbn [ie_rows ie_idx ie_current].
  rewrite (isTitle_lookup _ _ _ Hk), Ht.
  destruct (Z.of_nat k =? ie_idx e); unfold ie_text; cbn [ie_rows ie_current];
    (destruct (Z.ltb_spec (Z.of_nat k) 0); [lia|]); by rewrite Nat2Z.id, Hk.
Qed.

(** ** The model's side *)

Lemma connection_range ed row con : connection ed row = Some con -> 0 <= row < connectionCount ed.
Proof.
  unfold connection, connectionCount. destruct (Z.ltb_spec row 0); [done|].
  intros Hl%lookup_lt_Some. lia.
Qed.

Lemma cellText_at m ed con row c :
  m_editor m = Some ed -> connection ed row = Some con -> cellText m row c = columnText con c.
Proof.
  intros Hm Hc. pose proof (connection_range ed row con Hc) as Hr.
  unfold cellText, index. rewrite Hm. change (isValidIndex invalidIndex) with false. cbv iota.
  replace ((row <? 0) || (connectionCount ed <=? row)) with false
    by (symmetry; apply orb_false_iff; split; [apply Z.ltb_ge|apply Z.leb_gt]; lia).
  unfold data, connectionAt. rewrite Hm. cbn [createIndex mi_row mi_column].
  replace ((0 <=? row) && (row <? connectionCount ed)) with true
    by (symmetry; apply andb_true_iff; split; [apply Z.leb_le|apply Z.ltb_lt]; lia).
  by rewrite Hc.
Qed.

Lemma update_connection_at ed con con' row :
  connection ed row = Some con -> c_id con' = c_id con -> connection (update_connection ed con') row = Some con'.
Proof.
  unfold connection, update_connection. cbn [e_connections]. destruct (row <? 0); [done|].
  intros Hl Hid. rewrite list_lookup_fmap, Hl. cbn. by rewrite decide_True.
Qed.

(** [setData] of a text its column's check accepts writes it into the
    connection of the row. *)
Lemma setData_accepts m form i ed con s :
  m_editor m = Some ed -> isValidIndex i = true -> connection ed (mi_row i) = Some con ->
  ((mi_column i = 0 \/ mi_column i = 2) /\ s ∈ objectNameList form) \/
  (mi_column i = 1 /\ memberFunctionListContains form (c_sender con) SignalMember s = true) \/
  (mi_column i = 3 /\ memberFunctionListContains form (c_receiver con) SlotMember s = true) ->
  setData memberFunctionListContains m form i (VString s) =
    Some (true, mkConnectionModel (Some (update_connection ed (with_column con (mi_column i) s)))).
Proof.
  intros Hm Hv Hc Hacc. unfold setData. rewrite Hm, Hv, Hc. cbn [negb].
  assert (Hok : s ∈ objectNameList form -> bool_decide (s = []) || bool_decide (s ∈ objectNameList form) = true)
    by (intros Hs; apply orb_true_iff; right; by apply bool_decide_eq_true).
  unfold with_column, setSource, setSignal, setTarget, setSlot.
  destruct Hacc as [[[-> | ->] Hs]|[[-> Hs]|[-> Hs]]]; cbn -[objectNameList]; try rewrite (Hok Hs); by rewrite ?Hs.
Qed.

Lemma or_default_set s dflt : s <> [] -> or_default s dflt = s.
Proof. intros Hs. unfold or_default. by rewrite bool_decide_false. Qed.

(** The meta-object database lists for an object only members that
    [memberFunctionListContains] finds on it. *)
Hypothesis offered_members_known : forall obj type peer form c s,
  c ∈ reverseClassesMemberFunctions obj type peer form -> s ∈ c.2 ->
  memberFunctionListContains form obj type s = true.

(** C5: the delegate and the model agree.  Whatever row past the
    placeholder the user activates in the editor the delegate creates
    for a cell (an object for a sender or receiver cell, a member of a
    listed class for a signal or slot cell whose object is set), the
    commit stores exactly that row's text in the connection. *)
Theorem editCell_stores_pick m form i ed con e k it :
  m_editor m = Some ed -> isValidIndex i = true -> connection ed (mi_row i) = Some con ->
  (mi_column i = 1 -> c_sender con <> []) -> (mi_column i = 3 -> c_receiver con <> []) ->
  createEditor reverseClassesMemberFunctions (Some form) (cellText m (mi_row i)) (mi_column i) = Some e ->
  ie_rows e !! k = Some it -> it_title it = false -> k <> 0%nat ->
  exists ed', editCell m form i (Z.of_nat k) = Some (true, mkConnectionModel (Some ed')) /\
    connection ed' (mi_row i) = Some (with_column con (mi_column i) (it_text it)).
Proof.
  intros Hm Hv Hc Hs1 Hs3 He Hk Ht Hk0. unfold editCell, setModelData. rewrite He.
  rewrite (activate_text _ k it) by done.
  eexists. split; [apply (setData_accepts m form i ed con); [done|done|done|]|].
  2: { apply update_connection_at with (con := con); [done|].
       unfold with_column. by repeat case_match. }
  destruct (createEditor_offers form _ _ e k it He Hk Ht Hk0) as [[Hcol Hin]|[Hcol (c & Hcl & Hin)]];
    [by left|right].
  rewrite !(cellText_at m ed con) in Hcl by done.
  destruct Hcol as [Hcol|Hcol]; rewrite Hcol in Hcl |- *; cbn in Hcl; [left|right]; (split; [done|]).
  - rewrite <- (or_default_set (c_sender con) (qs "<sender>")) by auto.
    by eapply offered_members_known.
  - rewrite <- (or_default_set (c_receiver con) (qs "<receiver>")) by auto.
    by eapply offered_members_known.
Qed.

End CellEditing.

(** ** Editing the slot of a sample connection *)

Definition sample_model : ConnectionModel := mkConnectionModel (Some sample_editor).

(** The database check: the members the sample classes list. *)
Definition sample_contains (_ : Form) (_ : QString) (_ : MemberType) (s : QString) : bool :=
  bool_decide (s ∈ [qs "reject()"; qs "accept()"; qs "hidden()"]).

Lemma sample_members_known : forall obj type peer form c s,
  c ∈ sample_classes obj type peer form -> s ∈ c.2 -> sample_contains form obj type s = true.
Proof.
  intros obj type peer form c s Hc Hs. apply bool_decide_eq_true. unfold sample_classes in Hc.
  rewrite elem_of_cons, list_elem_of_singleton in Hc. destruct Hc as [->| ->]; cbn in Hs; set_solver.
Qed.

Definition sample_slot_cell : QModelIndex := createIndex 0 3.

Definition sample_cell_editor : InlineEditor :=
  match createEditor sample_classes (Some sample_form) (cellText sample_model 0) 3 with
  | Some e => e | None => newInlineEditor
  end.

Definition sample_accept_row : Item := mkItem (qs "accept()") false false false.

Lemma editCell_stores_pick_witness :
  (m_editor sample_model = Some sample_editor /\ isValidIndex sample_slot_cell = true /\
   connection sample_editor (mi_row sample_slot_cell) = Some conA /\
   (mi_column sample_slot_cell = 1 -> c_sender conA <> []) /\
   (mi_column sample_slot_cell = 3 -> c_receiver conA <> []) /\
   createEditor sample_classes (Some sample_form) (cellText sample_model (mi_row sample_slot_cell))
     (mi_column sample_slot_cell) = Some sample_cell_editor /\
   ie_rows sample_cell_editor !! 2%nat = Some sample_accept_row /\ it_title sample_accept_row = false /\ 2%nat <> 0%nat) /\
  exists ed', editCell sample_classes sample_contains sample_model sample_form sample_slot_cell (Z.of_nat 2) =
      Some (true, mkConnectionModel (Some ed')) /\
    connection ed' (mi_row sample_slot_cell) = Some (with_column conA (mi_column sample_slot_cell) (it_text sample_accept_row)).
Proof.
  assert (Hr : mi_column sample_slot_cell = 3 -> c_receiver conA <> []) by (intros _; discriminate).
  assert (Hs : mi_column sample_slot_cell = 1 -> c_sender conA <> []) by (intros H; discriminate H).
  assert (He : createEditor sample_classes (Some sample_form) (cellText sample_model (mi_row sample_slot_cell))
     (mi_column sample_slot_cell) = Some sample_cell_editor) by reflexivity.
  assert (Hk : ie_rows sample_cell_editor !! 2%nat = Some sample_accept_row) by reflexivity.
  split; [split_and!; try reflexivity; try done|].
  exact (editCell_stores_pick sample_classes sample_contains sample_members_known sample_model sample_form
    sample_slot_cell sample_editor conA sample_cell_editor 2 sample_accept_row
    eq_refl eq_refl eq_refl Hs Hr He Hk eq_refl ltac:(discriminate)).
Defined.
